(* ===== verification/_CoqProject ===== *)
-Q . S2P
Prelude.v
Memory.v
Term.v
Alloc.v
AllocProps.v
LinkedList.v
HashChain.v
Blocks.v
Mailbox.v
MailboxRace.v
MailboxLoss.v
Process.v
ProcessInv.v
ProcessLife.v
Demo.v
ProcessProps.v
HeapProps.v
Bif.v
Emu.v
EmuFrame.v
EmuInv.v
EmuExec.v
EmuSafe.v
EmuProps.v
RunQueue.v
Scheduler.v
SchedulerProps.v
RoundRobin.v
Pool.v
PoolRace.v
PoolProps.v
PoolLife.v
Ets.v
EtsProps.v
AtomTable.v
AtomRace.v
Gc.v
GcProps.v
Decode.v
Load.v
LoadCut.v
CodeServer.v
DistNode.v
Poll.v
Socket.v
Nif.v
Jit.v
Vm.v
