(* ===== verification/Prelude.v ===== *)
(** A verification development for the BEAM virtual machine in C of this
    repository.

    ** The program and its parts

    The program (src/src, headers in src/include) is a small Erlang virtual
    machine.  [beam_vm_create] (core/beam_vm.c) builds, over one allocator, a
    code server, an atom table, an ETS table, an event poller, a run queue and
    a scheduler.  The scheduler takes a process control block from the run queue
    and runs its bytecode for a budget of reductions; the interpreter works on
    the process's registers, on its heap and stack (one block), on the mailboxes
    of the processes it sends to, and calls the built-in functions.  The loader
    and the decoder turn a BEAM file into a module.

    The files, bottom up; C names are kept, and a handler inside a C function
    has a definition of its own ([op_send] for the SEND case of
    [beam_emu_execute_code]):

    - Prelude: notations, C integer types ([u8], [u32], [u64], [s32], [s64] and
      [s64_checked], whose overflow is undefined), arrays read and written by
      index, result codes, shared lemmas and tactics;
    - Memory: 64-bit words by address; Term: include/beam_core.h;
    - Alloc, AllocProps: the allocator interface (include/beam_memory.h) as the
      classes [AllocOps] and [AllocSpec], and its two implementations
      (memory/beam_alloc.c), with what each realloc does to the old bytes; Blocks: bookkeeping of live blocks;
    - LinkedList, HashChain: the pointer structures shared by the mailboxes, the
      run queue, the ETS tables and the atom table;
    - Mailbox: messaging/erl_message.c on one mailbox; MailboxRace, MailboxLoss:
      its lock-free operations access by access, with concurrent senders and a
      receiver;
    - Process: scheduler/erl_process.c, the state [vm] shared by all processes
      (allocator, word memory, control blocks, mailboxes by address), and the
      rest of erl_message.c; ProcessInv: the machine invariant [vm_ok];
      ProcessLife: creation and destruction; ProcessProps, HeapProps: what
      processes promise; Demo: the concrete machine of the examples;
    - Bif: emulator/beam_bif.c; Emu: emulator/beam_emu.c, a definition per
      instruction and the loop; EmuFrame, EmuInv, EmuExec: termination and the
      preservation of the invariant; EmuSafe: the static check [safe_code];
      EmuProps: frames, exceptions, time slices;
    - RunQueue: scheduler/run_queue.c; Scheduler: scheduler/beam_scheduler_loop.c;
      SchedulerProps, RoundRobin: refinement of an abstract scheduler and progress; Pool: the pool of
      worker threads of the same file, as functions for its life cycle and as
      phases of a worker that interleave; PoolRace, PoolProps, PoolLife: mutual
      exclusion, the phases of a worker against the same abstract scheduler, and
      the life cycle;
    - Ets, EtsProps: global/ets.c; AtomTable: global/atom_table.c; AtomRace: its
      two locked phases under interleaving; DistNode: global/dist_node.c;
    - Gc, GcProps: memory/beam_gc.c;
    - Decode: emulator/beam_decode.c; Load: emulator/beam_load.c; LoadCut:
      files cut short; CodeServer: emulator/beam_code_server.c;
    - Poll, Socket: io/sys_poll.c; Nif: io/erl_nif.c; Jit: jit/beam_jit.c;
    - Vm: core/beam_vm.c and core/beam_main.c.

    ** How the code is modelled

    Structs are records, opaque pointers are addresses (a [Z], 0 is NULL), and
    the heap structures a component owns are finite maps from addresses to
    nodes, so that dangling pointers exist.  A function that may have undefined
    behaviour (a read of a missing, freed or uninitialised cell, an index out of
    an array, signed overflow) returns an [option], with [None] for it; status
    codes are the constructors of [beam_result_t].  Unsigned arithmetic wraps at
    its width, written out.  State is passed explicitly.  Every allocation goes
    through [AllocOps], so failure of any allocation is covered.

    The allocator of the clients is a parameter: [AllocOps] has the three
    functions (a realloc also says whether it released the old block and how many
    of its bytes the new one took over, [realloc_effect]: libc moves them,
    [arena_realloc] returns a new block and copies nothing), [AllocSpec] what a client relies on (fresh, aligned, disjoint
    blocks or NULL).  The system allocator is proved to meet it over the C
    library's [malloc], [realloc] and [free], a parameter of the same class;
    the arena meets it without.  The laws can hold: Alloc has a deterministic
    heap that does.  The kernel ([KernelOps], [SocketOps]), executable pages
    ([PageOps]), threads ([ThreadOps]) and the dynamic loader ([DlOps]) are
    classes of operations likewise, with concrete instances in the examples of
    the theorems that use them.

    ** Fuel

    [emu_loop] takes fuel; [beam_emu_execute_code] gives it one more than the
    reductions of the process.  Each iteration pays one reduction, and EmuExec
    proves ([execute_fuel]) that it never runs out: an execution returns, is
    undefined, or hangs in [length_loop] (the list walk of length/1, bounded by
    the number of words of the memory: a longer walk has met a cell twice and
    never ends).
    [gc_copy_term] recurses at most once per copied word ([gc_fuel],
    [gc_copy_term_fuel]).  A nested length operand of the decoder consumes a
    byte per level, and each instruction at least one byte ([decode_loop_total]).
    List walks take the size of the node store.

    ** What is proved

    Processes and scheduling: code that passes a static check always returns,
    keeps the machine well formed and touches only its own heap; the run queue
    refines four queues and the mailbox a queue with a cursor; the scheduler runs
    the processes of a level in turn; no two workers of the pool ever hold the
    same process, whatever their interleaving; concurrent sends
    all arrive; pool creation and destruction, start and stop balance.
    Terms: immediates, tuples and lists read back what was built, and a
    collection keeps lists of immediates.  Tables: ETS refines a map, interning
    is a bijection between names and indices, also under concurrent phases; the
    code server and the node table find what was registered.  Files: the decoder
    terminates within its bounds and, on the encoding of an assembly program,
    gives the instructions that program means; a loaded file holds the
    atoms and chunks of the image and gives its memory back.  Whole system:
    creating and destroying a machine leaves no block behind, whichever
    allocation fails.

    Other theorems state where the code departs from what its comments or its
    callers expect: growing a heap strands the stack, heap allocation ignores
    the stack, the collector loses tuples, a preempted process starts its block
    again, RAISE does not restore the continuation pointer, a dequeue leaves the
    save cursor dangling, growing an atom table in an arena loses the atoms, a
    truncated file is read past its end, a sender and a receiver can lose a
    message or use a freed node, names longer than 63 characters are
    registered but never found, an exited process can be queued again, a failed
    pool creation reads unwritten pointers.

    ** Not modelled

    A critical section of a lock is one atomic step, and so is an execution of a
    process; the mailbox alone has finer steps (MailboxRace), where every thread
    sees every access at once, and the effects of weaker memory orders and of
    unlocked writes to the counters of the allocator are left out.  The machine code of the
    JIT is data that is never run.  The specification sketches of src/formal, the
    tests and the benchmarks are not part of the machine. *)
From stdpp Require Export base gmap list option strings.
From Stdlib Require Export ZArith Lia.
From stdpp Require Import options.

#[export] Set Default Goal Selector "1".

Declare Scope cint_scope.
Delimit Scope cint_scope with cint.

(** ** C bit operators, on the mathematical value of the operands *)

Notation "a .& b" := (Z.land a b) (at level 40, left associativity) : cint_scope.
Notation "a .| b" := (Z.lor a b) (at level 50, left associativity) : cint_scope.
Notation "a .^ b" := (Z.lxor a b) (at level 45, left associativity) : cint_scope.
Notation "a .<< b" := (Z.shiftl a b) (at level 35, no associativity) : cint_scope.
Notation "a .>> b" := (Z.shiftr a b) (at level 35, no associativity) : cint_scope.

#[global] Open Scope Z_scope.
#[global] Open Scope cint_scope.

(** ** Machine-width integers

    An unsigned C integer of width [w] is a [Z] in [0, 2^w); a signed one is a
    [Z] in [-2^(w-1), 2^(w-1)).  The functions below are the conversions the
    language performs at casts and at unsigned arithmetic. *)

Definition u8 (z : Z) : Z := z mod 2 ^ 8.
Definition u16 (z : Z) : Z := z mod 2 ^ 16.
Definition u32 (z : Z) : Z := z mod 2 ^ 32.
Definition u64 (z : Z) : Z := z mod 2 ^ 64.

Definition s32 (z : Z) : Z := let u := u32 z in if u <? 2 ^ 31 then u else u - 2 ^ 32.
Definition s64 (z : Z) : Z := let u := u64 z in if u <? 2 ^ 63 then u else u - 2 ^ 64.

Definition is_u32 (z : Z) : Prop := 0 <= z < 2 ^ 32.
Definition is_u64 (z : Z) : Prop := 0 <= z < 2 ^ 64.
Definition is_s64 (z : Z) : Prop := - 2 ^ 63 <= z < 2 ^ 63.

(** Signed arithmetic overflow is undefined behaviour: [None]. *)
Definition s64_checked (z : Z) : option Z :=
  if (- 2 ^ 63 <=? z) && (z <? 2 ^ 63) then Some z else None.
Definition s32_checked (z : Z) : option Z :=
  if (- 2 ^ 31 <=? z) && (z <? 2 ^ 31) then Some z else None.

(** The NULL pointer. *)
Definition NULL : Z := 0.

(** ** Status codes ([beam_result_t], include/beam_core.h) *)

Inductive beam_result_t : Type :=
| BEAM_OK
| BEAM_ERR_INVALID_ARG
| BEAM_ERR_NO_MEMORY
| BEAM_ERR_NOT_FOUND
| BEAM_ERR_HALT
| BEAM_ERR_CORRUPT_FILE
| BEAM_ERR_BADARG
| BEAM_ERR_EXCEPTION.

#[export] Instance beam_result_eq_dec : EqDecision beam_result_t.
Proof. solve_decision. Defined.

Definition result_is_ok (r : beam_result_t) : bool := bool_decide (r = BEAM_OK).

(** ** C arrays

    Indexing a C array of known extent: out of range is undefined behaviour. *)

Definition array_get {X} (l : list X) (i : Z) : option X :=
  if i <? 0 then None else l !! Z.to_nat i.

Definition array_set {X} (l : list X) (i : Z) (x : X) : option (list X) :=
  if (0 <=? i) && (i <? Z.of_nat (length l)) then Some (<[Z.to_nat i := x]> l) else None.

Lemma array_get_Some {X} (l : list X) i :
  0 <= i < Z.of_nat (length l) → is_Some (array_get l i).
Proof.
  intros Hi. unfold array_get. destruct (Z.ltb_spec i 0); [lia|].
  apply lookup_lt_is_Some_2. lia.
Qed.

Lemma array_set_Some {X} (l : list X) i x l' :
  array_set l i x = Some l' ↔ 0 <= i < Z.of_nat (length l) ∧ l' = <[Z.to_nat i := x]> l.
Proof.
  unfold array_set. destruct (Z.leb_spec 0 i); destruct (Z.ltb_spec i (Z.of_nat (length l)));
    simpl; split; (intros [[? ?] ?] || intros ?); simplify_eq; (done || lia).
Qed.

Lemma array_set_length {X} (l : list X) i x l' :
  array_set l i x = Some l' → length l' = length l.
Proof. intros [_ ->]%array_set_Some. apply length_insert. Qed.

Lemma array_set_get_eq {X} (l : list X) i x l' :
  array_set l i x = Some l' → array_get l' i = Some x.
Proof.
  intros [Hi ->]%array_set_Some. unfold array_get. destruct (Z.ltb_spec i 0); [lia|].
  apply list_lookup_insert_eq. lia.
Qed.

Lemma array_set_get_ne {X} (l : list X) i j x l' :
  array_set l i x = Some l' → i ≠ j → array_get l' j = array_get l j.
Proof.
  intros [Hi ->]%array_set_Some Hij. unfold array_get. destruct (Z.ltb_spec j 0); [done|].
  apply list_lookup_insert_ne. lia.
Qed.

(** ** Automation *)

Create HintDb beam discriminated.

Ltac unfold_cint :=
  unfold s64_checked, s32_checked, s64, s32, u64, u32, u16, u8, is_u64, is_u32, is_s64, NULL in *.

(** Case analysis on the boolean comparisons of the goal and the context. *)
Ltac case_bool :=
  rewrite ?Z.gtb_ltb, ?Z.geb_leb in *;
  repeat match goal with
  | H : context [ ?a =? ?b ] |- _ => destruct (Z.eqb_spec a b)
  | H : context [ ?a <? ?b ] |- _ => destruct (Z.ltb_spec a b)
  | H : context [ ?a <=? ?b ] |- _ => destruct (Z.leb_spec a b)
  | |- context [ ?a =? ?b ] => destruct (Z.eqb_spec a b)
  | |- context [ ?a <? ?b ] => destruct (Z.ltb_spec a b)
  | |- context [ ?a <=? ?b ] => destruct (Z.leb_spec a b)
  end.

(** Linear arithmetic through the wrap-around conversions. *)
Ltac cint_lia := unfold_cint; Z.to_euclidean_division_equations; lia.

(** Open a hypothesis [e1; e2; ...; = Some r] of a chain of binds. *)
Ltac inv_bind :=
  repeat match goal with
  | H : _ ≫= _ = Some _ |- _ =>
      apply bind_Some in H; destruct H as (? & ? & H)
  | H : mbind _ _ = Some _ |- _ =>
      apply bind_Some in H; destruct H as (? & ? & H)
  | H : Some _ = Some _ |- _ => injection H as H
  | H : (_, _) = (_, _) |- _ => injection H as H
  | x : (_ * _)%type |- _ => destruct x
  | _ => progress (cbn beta iota in *)
  end.

(** ** Integer lemmas *)

Lemma u64_small z : is_u64 z → u64 z = z.
Proof. intros. unfold u64, is_u64 in *. by apply Z.mod_small. Qed.

Lemma u64_range z : is_u64 (u64 z).
Proof. unfold u64, is_u64. apply Z.mod_pos_bound. lia. Qed.

Lemma u32_small z : is_u32 z → u32 z = z.
Proof. intros. unfold u32, is_u32 in *. by apply Z.mod_small. Qed.

Lemma u32_range z : is_u32 (u32 z).
Proof. unfold u32, is_u32. apply Z.mod_pos_bound. lia. Qed.

Lemma u32_is_u64 z : is_u32 z → is_u64 z.
Proof. unfold is_u32, is_u64. lia. Qed.

Lemma s64_range z : is_s64 (s64 z).
Proof.
  unfold s64, is_s64. pose proof (u64_range z) as H. unfold is_u64 in H. case_bool; lia.
Qed.

Lemma s64_u64 z : is_s64 z → s64 (u64 z) = z.
Proof.
  unfold s64, u64, is_s64. intros H. rewrite Z.mod_mod by lia.
  case_bool; Z.to_euclidean_division_equations; lia.
Qed.

Lemma s64_small z : is_s64 z → s64 z = z.
Proof.
  intros Hz. rewrite <-(s64_u64 z Hz) at 2. unfold s64, u64. by rewrite Z.mod_mod.
Qed.

Lemma s64_checked_Some z v : s64_checked z = Some v ↔ v = z ∧ is_s64 z.
Proof.
  unfold s64_checked, is_s64.
  destruct (Z.leb_spec (- 2 ^ 63) z); destruct (Z.ltb_spec z (2 ^ 63)); simpl;
    (split; [intros ?; simplify_eq; split; lia | intros [-> ?]; done || lia]).
Qed.

Lemma s64_checked_small z : is_s64 z → s64_checked z = Some z.
Proof. intros. by apply s64_checked_Some. Qed.

#[export] Hint Resolve u64_range u32_range s64_range u32_is_u64 : beam.

(** ** Bit-level lemmas *)

Lemma land_low a n : 0 <= n → a .& Z.ones n = a mod 2 ^ n.
Proof. intros. by apply Z.land_ones. Qed.

Lemma land_3 a : a .& 3 = a mod 4.
Proof. exact (Z.land_ones a 2 ltac:(lia)). Qed.

Lemma land_15 a : a .& 15 = a mod 16.
Proof. exact (Z.land_ones a 4 ltac:(lia)). Qed.

Lemma land_63 a : a .& 63 = a mod 64.
Proof. exact (Z.land_ones a 6 ltac:(lia)). Qed.

Lemma testbit_small b n k : 0 <= b < 2 ^ n → 0 <= n <= k → Z.testbit b k = false.
Proof.
  intros Hb Hk. destruct (decide (b = 0)) as [->|]; [apply Z.bits_0|].
  apply Z.bits_above_log2; [lia|]. apply Z.log2_lt_pow2; [lia|].
  apply Z.lt_le_trans with (2 ^ n); [lia|]. apply Z.pow_le_mono_r; lia.
Qed.

Lemma lxor_range a b n : 0 <= n → 0 <= a < 2 ^ n → 0 <= b < 2 ^ n → 0 <= a .^ b < 2 ^ n.
Proof.
  intros Hn Ha Hb. assert (a .^ b = (a .^ b) mod 2 ^ n) as ->.
  { apply Z.bits_inj'. intros k Hk. destruct (Z.lt_ge_cases k n).
    - by rewrite Z.mod_pow2_bits_low.
    - rewrite Z.mod_pow2_bits_high, Z.lxor_spec by lia.
      by rewrite (testbit_small a n k), (testbit_small b n k) by lia. }
  apply Z.mod_pos_bound. lia.
Qed.

(** Or-ing a value below [2^n] into a multiple of [2^n] is an addition. *)
Lemma lor_low a b n : 0 <= n → 0 <= b < 2 ^ n → (a .<< n) .| b = a * 2 ^ n + b.
Proof.
  intros Hn Hb. rewrite Z.shiftl_mul_pow2 by done.
  rewrite <- Z.add_lor_land.
  assert (Z.land (a * 2 ^ n) b = 0) as ->; [|lia].
  apply Z.bits_inj'. intros k Hk. rewrite Z.land_spec, Z.bits_0.
  destruct (Z.lt_ge_cases k n).
  - by rewrite Z.mul_pow2_bits_low.
  - rewrite (testbit_small b n k) by lia. apply andb_false_r.
Qed.

(** Masking off the [n] low bits. *)
Lemma ldiff_ones a n : 0 <= n → Z.ldiff a (Z.ones n) = a - a mod 2 ^ n.
Proof.
  intros Hn. rewrite <- (Z.land_ones a n) by done.
  pose proof (Z.add_lor_land (Z.ldiff a (Z.ones n)) (a .& Z.ones n)) as H.
  assert (Z.lor (Z.ldiff a (Z.ones n)) (a .& Z.ones n) = a) as E1.
  { apply Z.bits_inj'. intros k Hk. rewrite Z.lor_spec, Z.ldiff_spec, Z.land_spec.
    by destruct (Z.testbit a k), (Z.testbit (Z.ones n) k). }
  assert (Z.land (Z.ldiff a (Z.ones n)) (a .& Z.ones n) = 0) as E2.
  { apply Z.bits_inj'. intros k Hk. rewrite !Z.land_spec, Z.ldiff_spec, Z.bits_0.
    by destruct (Z.testbit a k), (Z.testbit (Z.ones n) k). }
  lia.
Qed.

Lemma ldiff_3 a : Z.ldiff a 3 = a - a mod 4.
Proof. exact (ldiff_ones a 2 ltac:(lia)). Qed.

Lemma ldiff_7 a : Z.ldiff a 7 = a - a mod 8.
Proof. exact (ldiff_ones a 3 ltac:(lia)). Qed.

Lemma array_get_nat {X} (l : list X) (i : nat) : array_get l (Z.of_nat i) = l !! i.
Proof. unfold array_get. destruct (Z.ltb_spec (Z.of_nat i) 0); [lia|]. by rewrite Nat2Z.id. Qed.

Lemma array_set_nat {X} (l : list X) (i : nat) x :
  (i < length l)%nat → array_set l (Z.of_nat i) x = Some (<[i := x]> l).
Proof. intros. apply array_set_Some. rewrite Nat2Z.id. split; [lia|done]. Qed.

(** ** List lemmas *)

Lemma elem_of_concat {X} (x : X) (L : list (list X)) : x ∈ concat L ↔ ∃ l, x ∈ l ∧ l ∈ L.
Proof.
  induction L as [|l L IH]; csimpl.
  - split; [by intros ?%not_elem_of_nil|]. by intros (? & _ & ?%not_elem_of_nil).
  - rewrite elem_of_app, IH. split.
    + intros [?|(l' & ? & ?)]; [exists l|exists l']; split; try done; by (left || right).
    + intros (l' & ? & [->|?]%elem_of_cons); eauto.
Qed.

(** ** One element of a list and the others *)

Lemma omap_split {X Y} (f : X → option Y) (l : list X) i x :
  l !! i = Some x → omap f l ≡ₚ option_list (f x) ++ omap f (delete i l).
Proof.
  intros Hi. pose proof (delete_Permutation _ _ _ Hi) as Hp. rewrite Hp at 1. csimpl.
  by destruct (f x).
Qed.

Lemma delete_insert_same {X} (l : list X) i x : delete i (<[i := x]> l) = delete i l.
Proof. revert i. induction l as [|y l IH]; intros [|i]; f_equal/=; auto. Qed.

Lemma omap_split_insert {X Y} (f : X → option Y) (l : list X) i x x' :
  l !! i = Some x → omap f (<[i := x']> l) ≡ₚ option_list (f x') ++ omap f (delete i l).
Proof.
  intros Hi. rewrite (omap_split f (<[i := x']> l) i x').
  2:{ apply list_lookup_insert_eq. by eapply lookup_lt_Some. }
  f_equiv. by rewrite delete_insert_same.
Qed.

Lemma omap_inj_index {X} (f : X → option Z) l i j x y p :
  NoDup (omap f l) → l !! i = Some x → l !! j = Some y → f x = Some p → f y = Some p → i = j.
Proof.
  intros Hnd Hi Hj Hx Hy. destruct (decide (i = j)) as [|Hne]; [done|exfalso].
  rewrite (omap_split f l i x Hi), Hx in Hnd. simpl in Hnd. apply NoDup_cons in Hnd as [Hn _].
  apply Hn, list_elem_of_omap. exists y. split; [|done].
  destruct (decide (j < i)%nat).
  - apply list_elem_of_lookup. exists j. by rewrite list_lookup_delete_lt.
  - apply list_elem_of_lookup. exists (pred j). rewrite list_lookup_delete_ge by lia.
    by rewrite Nat.succ_pred by lia.
Qed.
