(* ===== verification/Memory.v ===== *)
(** Word-addressed memory: the part of the address space that holds process
    heaps, arenas and other arrays of machine words.  Memory is a finite map
    from byte addresses (multiples of 8) to cells; a cell exists when its
    address belongs to a live allocation, and is [Uninit] until it is written.
    Reading an absent or uninitialised cell, and writing an absent one, is
    undefined behaviour ([None]). *)
From S2P Require Import Prelude.
From stdpp Require Import options.

Inductive cell : Type :=
| Uninit
| Word (w : Z).

#[export] Instance cell_eq_dec : EqDecision cell.
Proof. solve_decision. Defined.

Abbreviation memory := (gmap Z cell).

(** Size of an [Eterm] / pointer in bytes. *)
Definition WORD : Z := 8.

Definition load (m : memory) (a : Z) : option Z :=
  match m !! a with
  | Some (Word w) => Some w
  | _ => None
  end.

Definition store (m : memory) (a w : Z) : option memory :=
  match m !! a with
  | Some _ => Some (<[a := Word w]> m)
  | None => None
  end.

(** [p[i]] for a pointer to words. *)
Definition word_at (p i : Z) : Z := p + WORD * i.

(** The cells a fresh [n]-word allocation at [p] brings into existence. *)
Fixpoint map_words (m : memory) (p : Z) (n : nat) : memory :=
  match n with
  | O => m
  | S n' => map_words (<[p := Uninit]> m) (p + WORD) n'
  end.

(** The cells a deallocation removes. *)
Fixpoint unmap_words (m : memory) (p : Z) (n : nat) : memory :=
  match n with
  | O => m
  | S n' => unmap_words (delete p m) (p + WORD) n'
  end.

(** [memcpy(dst, src, n * sizeof(Eterm))] cell by cell ([src] is read in [m0],
    the memory before the copy, as for the [realloc] of a moved block). *)
Fixpoint copy_words (m0 m : memory) (dst src : Z) (n : nat) : memory :=
  match n with
  | O => m
  | S n' =>
      let m' := match m0 !! src with Some c => <[dst := c]> m | None => m end in
      copy_words m0 m' (dst + WORD) (src + WORD) n'
  end.

(** Store a list of words at consecutive addresses. *)
Fixpoint store_list (m : memory) (p : Z) (ws : list Z) : option memory :=
  match ws with
  | [] => Some m
  | w :: ws' => m' ← store m p w; store_list m' (p + WORD) ws'
  end.

(** Is [a] the address of a word of the [n]-word block at [p]? *)
Definition in_block (p n a : Z) : bool :=
  (p <=? a) && (a <? p + WORD * n) && ((a - p) mod WORD =? 0).

(** Every word of the [n]-word block at [p] exists. *)
Definition mapped (m : memory) (p n : Z) : Prop :=
  ∀ i, 0 <= i < n → is_Some (m !! word_at p i).

(** ** Lemmas *)

Lemma word_at_inj p i j : word_at p i = word_at p j → i = j.
Proof. unfold word_at, WORD. lia. Qed.

Lemma load_Some m a w : load m a = Some w ↔ m !! a = Some (Word w).
Proof. unfold load. destruct (m !! a) as [[]|]; naive_solver. Qed.

Lemma store_Some m a w m' :
  store m a w = Some m' ↔ is_Some (m !! a) ∧ m' = <[a := Word w]> m.
Proof. unfold store, is_Some. destruct (m !! a); naive_solver. Qed.

Lemma store_mapped m p n i w :
  mapped m p n → 0 <= i < n →
  store m (word_at p i) w = Some (<[word_at p i := Word w]> m).
Proof. intros Hm Hi. apply store_Some. split; [by apply Hm|done]. Qed.

Lemma load_insert_eq m a w : load (<[a := Word w]> m) a = Some w.
Proof. unfold load. by rewrite lookup_insert_eq. Qed.

Lemma load_insert_ne m a b c : a ≠ b → load (<[a := c]> m) b = load m b.
Proof. intros. unfold load. by rewrite lookup_insert_ne. Qed.

Lemma load_store_eq m a w m' : store m a w = Some m' → load m' a = Some w.
Proof. intros [_ ->]%store_Some. apply load_insert_eq. Qed.

Lemma load_store_ne m a b w m' :
  store m a w = Some m' → a ≠ b → load m' b = load m b.
Proof. intros [_ ->]%store_Some ?. by apply load_insert_ne. Qed.

Lemma mapped_insert m p n a c : mapped m p n → mapped (<[a := c]> m) p n.
Proof. intros Hm i Hi. apply lookup_insert_is_Some'. right. by apply Hm. Qed.

Lemma mapped_store m p n a w m' :
  store m a w = Some m' → mapped m p n → mapped m' p n.
Proof. intros [_ ->]%store_Some. apply mapped_insert. Qed.

Lemma mapped_le m p n n' : mapped m p n → n' <= n → mapped m p n'.
Proof. intros Hm ? i Hi. apply Hm. lia. Qed.

Lemma in_block_spec p n a : in_block p n a = true ↔ ∃ i, 0 <= i < n ∧ a = word_at p i.
Proof.
  unfold in_block, word_at, WORD. rewrite !andb_true_iff, Z.leb_le, Z.ltb_lt, Z.eqb_eq. split.
  - intros [[? ?] ?]. exists ((a - p) / 8). Z.to_euclidean_division_equations; lia.
  - intros (i & ? & ->). replace (p + 8 * i - p) with (i * 8) by lia.
    rewrite Z.mod_mul by lia. lia.
Qed.

Lemma in_block_false p n a :
  in_block p n a = false ↔ ∀ i, 0 <= i < n → a ≠ word_at p i.
Proof.
  rewrite <- not_true_iff_false, in_block_spec. naive_solver.
Qed.

(** Peeling the first word off a block. *)
Lemma in_block_S p n a :
  in_block p (Z.of_nat (S n)) a = (a =? p) || in_block (p + WORD) (Z.of_nat n) a.
Proof.
  apply eq_true_iff_eq. rewrite orb_true_iff, !in_block_spec, Z.eqb_eq.
  unfold word_at, WORD. split.
  - intros (i & ? & ->). destruct (decide (i = 0)) as [->|]; [left; lia|].
    right. exists (i - 1). lia.
  - intros [->|(i & ? & ->)]; [exists 0|exists (i + 1)]; lia.
Qed.

Lemma lookup_map_words m p n a :
  map_words m p n !! a = if in_block p (Z.of_nat n) a then Some Uninit else m !! a.
Proof.
  revert m p. induction n as [|n IH]; intros m p.
  - simpl map_words. destruct (in_block p (Z.of_nat 0) a) eqn:E; [|done].
    apply in_block_spec in E as (i & ? & _). lia.
  - rewrite in_block_S. simpl map_words. rewrite IH.
    destruct (in_block (p + WORD) _ a) eqn:E; [by rewrite orb_true_r|rewrite orb_false_r].
    destruct (Z.eqb_spec a p) as [->|]; [by rewrite lookup_insert_eq|].
    by rewrite lookup_insert_ne.
Qed.

Lemma lookup_unmap_words m p n a :
  unmap_words m p n !! a = if in_block p (Z.of_nat n) a then None else m !! a.
Proof.
  revert m p. induction n as [|n IH]; intros m p.
  - simpl unmap_words. destruct (in_block p (Z.of_nat 0) a) eqn:E; [|done].
    apply in_block_spec in E as (i & ? & _). lia.
  - rewrite in_block_S. simpl unmap_words. rewrite IH.
    destruct (in_block (p + WORD) _ a) eqn:E; [by rewrite orb_true_r|rewrite orb_false_r].
    destruct (Z.eqb_spec a p) as [->|]; [by rewrite lookup_delete_eq|].
    by rewrite lookup_delete_ne.
Qed.

Lemma mapped_map_words m p n : mapped (map_words m p n) p (Z.of_nat n).
Proof.
  intros i Hi. rewrite lookup_map_words.
  replace (in_block _ _ _) with true; [eauto|].
  symmetry. apply in_block_spec. eauto.
Qed.

(** ** Copies *)

Lemma copy_words_is_Some m0 m dst src n a :
  is_Some (m !! a) → is_Some (copy_words m0 m dst src n !! a).
Proof.
  revert m dst src. induction n as [|n IH]; intros m dst src Ha; simpl; [done|].
  apply IH. destruct (m0 !! src); [|done]. apply lookup_insert_is_Some'. by right.
Qed.

Lemma copy_words_outside m0 m dst src n a :
  in_block dst (Z.of_nat n) a = false → copy_words m0 m dst src n !! a = m !! a.
Proof.
  revert m dst src. induction n as [|n IH]; intros m dst src Ha; [done|].
  rewrite in_block_S in Ha. apply orb_false_iff in Ha as [Hd Ha]. apply Z.eqb_neq in Hd.
  simpl copy_words. rewrite IH by done.
  destruct (m0 !! src); [by rewrite lookup_insert_ne|done].
Qed.

Lemma in_block_after p n : in_block (p + WORD) n p = false.
Proof. apply in_block_false. unfold word_at, WORD. lia. Qed.

Lemma copy_words_lookup m0 m dst src n i :
  (i < n)%nat → is_Some (m0 !! word_at src (Z.of_nat i)) →
  copy_words m0 m dst src n !! word_at dst (Z.of_nat i) = m0 !! word_at src (Z.of_nat i).
Proof.
  revert m dst src i. induction n as [|n IH]; intros m dst src i Hi Hs; [lia|].
  simpl copy_words. destruct i as [|i].
  - replace (word_at dst (Z.of_nat 0)) with dst by (unfold word_at; lia).
    replace (word_at src (Z.of_nat 0)) with src in * by (unfold word_at; lia).
    rewrite copy_words_outside by apply in_block_after.
    destruct Hs as [c ->]. by rewrite lookup_insert_eq.
  - replace (word_at dst (Z.of_nat (S i))) with (word_at (dst + WORD) (Z.of_nat i))
      by (unfold word_at, WORD; lia).
    replace (word_at src (Z.of_nat (S i))) with (word_at (src + WORD) (Z.of_nat i)) in *
      by (unfold word_at, WORD; lia).
    apply IH; [lia|done].
Qed.

(** ** Storing lists *)

Lemma store_list_mapped m p ws :
  mapped m p (Z.of_nat (length ws)) → is_Some (store_list m p ws).
Proof.
  revert m p. induction ws as [|w ws IH]; intros m p Hm; simpl; [eauto|].
  destruct (store m p w) as [m'|] eqn:E.
  - simpl. apply IH. intros i Hi. apply store_Some in E as [_ ->].
    apply lookup_insert_is_Some'. right.
    replace (word_at (p + WORD) i) with (word_at p (i + 1)) by (unfold word_at, WORD; lia).
    apply Hm. simpl. lia.
  - exfalso. unfold store in E. destruct (Hm 0) as [c Hc]; [simpl; lia|].
    replace (word_at p 0) with p in Hc by (unfold word_at; lia). by rewrite Hc in E.
Qed.

Lemma store_list_outside m p ws m' a :
  store_list m p ws = Some m' → in_block p (Z.of_nat (length ws)) a = false →
  m' !! a = m !! a.
Proof.
  revert m p. induction ws as [|w ws IH]; intros m p Hs Ha; simpl in Hs; [by simplify_eq|].
  simpl length in Ha. rewrite in_block_S in Ha. apply orb_false_iff in Ha as [Hp Ha].
  apply Z.eqb_neq in Hp. destruct (store m p w) as [m1|] eqn:E; [|done].
  rewrite (IH _ _ Hs Ha). apply store_Some in E as [_ ->]. by rewrite lookup_insert_ne.
Qed.

Lemma store_list_load m p ws m' i w :
  store_list m p ws = Some m' → ws !! i = Some w →
  load m' (word_at p (Z.of_nat i)) = Some w.
Proof.
  revert m p i. induction ws as [|x ws IH]; intros m p i Hs Hi; [done|]. simpl in Hs.
  destruct (store m p x) as [m1|] eqn:E; [|done]. destruct i as [|i]; simpl in Hi.
  - simplify_eq. apply load_Some. rewrite (store_list_outside _ _ _ _ _ Hs).
    + apply store_Some in E as [_ ->]. unfold word_at. rewrite Z.mul_0_r, Z.add_0_r.
      by rewrite lookup_insert_eq.
    + replace (word_at p (Z.of_nat 0)) with p by (unfold word_at; lia). apply in_block_after.
  - rewrite <- (IH _ _ _ Hs Hi). f_equal. unfold word_at, WORD. lia.
Qed.

Lemma store_list_is_Some m p ws m' a :
  store_list m p ws = Some m' → is_Some (m !! a) → is_Some (m' !! a).
Proof.
  revert m p. induction ws as [|w ws IH]; intros m p Hs Ha; simpl in Hs; [by simplify_eq|].
  destruct (store m p w) as [m1|] eqn:E; [|done]. apply (IH _ _ Hs).
  apply store_Some in E as [_ ->]. apply lookup_insert_is_Some'. by right.
Qed.
