(* ===== verification/Term.v ===== *)
(** Tagged 64-bit Erlang terms: include/beam_core.h.

    An [Eterm] is a [Z] in [0, 2^64).  The predicates on immediates are pure;
    those that dereference a boxed or list pointer read the word memory and
    return [None] when the read is undefined behaviour. *)
From S2P Require Import Prelude Memory.
From stdpp Require Import options.

(** ** Tags *)

Definition TAG_PRIMARY_HEADER : Z := 0x00.
Definition TAG_PRIMARY_LIST : Z := 0x01.
Definition TAG_PRIMARY_BOXED : Z := 0x02.
Definition TAG_PRIMARY_IMMED1 : Z := 0x03.

Definition TAG_IMMED1_SMALL_INT : Z := (0x00 .<< 2) .| TAG_PRIMARY_IMMED1.
Definition TAG_IMMED1_PORT : Z := (0x01 .<< 2) .| TAG_PRIMARY_IMMED1.
Definition TAG_IMMED1_ATOM : Z := (0x02 .<< 2) .| TAG_PRIMARY_IMMED1.
Definition TAG_IMMED1_PID : Z := (0x03 .<< 2) .| TAG_PRIMARY_IMMED1.

Definition SUBTAG_TUPLE : Z := 0x00.
Definition SUBTAG_FLOAT : Z := 0x04.
Definition SUBTAG_POS_BIG : Z := 0x08.
Definition SUBTAG_NEG_BIG : Z := 0x0C.
Definition SUBTAG_REF : Z := 0x10.
Definition SUBTAG_REFC_BINARY : Z := 0x14.
Definition SUBTAG_HEAP_BINARY : Z := 0x18.

Definition ETERM_NIL : Z := (0x0F .<< 2) .| TAG_PRIMARY_IMMED1.
Definition ETERM_INVALID : Z := 0.

(** ** Immediates *)

Definition beam_is_small_int (term : Z) : bool := term .& 0x0F =? TAG_IMMED1_SMALL_INT.
Definition beam_is_atom (term : Z) : bool := term .& 0x0F =? TAG_IMMED1_ATOM.
Definition beam_is_pid (term : Z) : bool := term .& 0x0F =? TAG_IMMED1_PID.
Definition beam_is_port (term : Z) : bool := term .& 0x0F =? TAG_IMMED1_PORT.

(** The shift is performed on the 64-bit two's complement representation (the
    documented behaviour of the project's compilers for [<<] on [intptr_t]). *)
Definition make_small_int (val : Z) : Z := u64 ((val .<< 4) .| TAG_IMMED1_SMALL_INT).
Definition eterm_to_small_int (term : Z) : Z := s64 term .>> 4.

(** Integers that survive the 4-bit tag. *)
Definition small_int_range (v : Z) : Prop := - 2 ^ 59 <= v < 2 ^ 59.

(** ** Pointers *)

(** [term & ~((uintptr_t)0x03)] *)
Definition untag (term : Z) : Z := Z.ldiff term 0x03.

(** The sub-tag test every boxed predicate performs on the header word. *)
Definition boxed_header (m : memory) (term : Z) (test : Z → bool) : option bool :=
  if negb (term .& 0x03 =? TAG_PRIMARY_BOXED) then Some false
  else
    let ptr := untag term in
    if ptr =? NULL then Some false
    else w ← load m ptr; Some (test (w .& 0x3F)).

Definition beam_is_tuple (m : memory) (term : Z) : option bool :=
  boxed_header m term (λ sub, sub =? SUBTAG_TUPLE).

Definition beam_is_float (m : memory) (term : Z) : option bool :=
  boxed_header m term (λ sub, sub =? SUBTAG_FLOAT).

Definition beam_is_big_int (m : memory) (term : Z) : option bool :=
  boxed_header m term (λ sub, (sub =? SUBTAG_POS_BIG) || (sub =? SUBTAG_NEG_BIG)).

Definition beam_is_ref (m : memory) (term : Z) : option bool :=
  boxed_header m term (λ sub, sub =? SUBTAG_REF).

Definition beam_is_binary (m : memory) (term : Z) : option bool :=
  boxed_header m term (λ sub, (sub =? SUBTAG_REFC_BINARY) || (sub =? SUBTAG_HEAP_BINARY)).

Definition beam_tuple_arity (m : memory) (term : Z) : option Z :=
  b ← beam_is_tuple m term;
  if negb b then Some 0
  else w ← load m (untag term); Some (w .>> 6).

Definition beam_tuple_element (m : memory) (term index : Z) : option Z :=
  b ← beam_is_tuple m term;
  if negb b then Some 0
  else load m (word_at (untag term) (index + 1)).

Definition beam_is_list (term : Z) : bool := term .& 0x03 =? TAG_PRIMARY_LIST.
Definition beam_is_nil (term : Z) : bool := term =? ETERM_NIL.

Definition beam_list_head (m : memory) (term : Z) : option Z :=
  if negb (beam_is_list term) then Some 0 else load m (word_at (untag term) 0).

Definition beam_list_tail (m : memory) (term : Z) : option Z :=
  if negb (beam_is_list term) then Some 0 else load m (word_at (untag term) 1).

(** The tagging the constructors perform: [(Eterm)((uintptr_t)hp | TAG)]. *)
Definition tag_ptr (hp tag : Z) : Z := hp .| tag.

(** ** Small integers *)

Lemma make_small_int_eq v : make_small_int v = u64 (v * 16 + 3).
Proof.
  unfold make_small_int. f_equal.
  change TAG_IMMED1_SMALL_INT with 3. by rewrite lor_low by lia.
Qed.

Lemma make_small_int_is_u64 v : is_u64 (make_small_int v).
Proof. apply u64_range. Qed.

Lemma make_small_int_tag v : beam_is_small_int (make_small_int v) = true.
Proof.
  rewrite make_small_int_eq. unfold beam_is_small_int, u64.
  rewrite land_15. change TAG_IMMED1_SMALL_INT with 3. apply Z.eqb_eq.
  Z.to_euclidean_division_equations; lia.
Qed.

Lemma eterm_to_small_int_range t : small_int_range (eterm_to_small_int t).
Proof.
  unfold eterm_to_small_int, small_int_range. pose proof (s64_range t) as H. unfold is_s64 in H.
  rewrite Z.shiftr_div_pow2 by lia. Z.to_euclidean_division_equations; lia.
Qed.

Lemma small_int_wrap v : eterm_to_small_int (make_small_int v) = s64 (u64 (v * 16 + 3)) / 16.
Proof.
  unfold eterm_to_small_int. rewrite make_small_int_eq. by rewrite Z.shiftr_div_pow2.
Qed.

Lemma small_int_cancel v : small_int_range v → eterm_to_small_int (make_small_int v) = v.
Proof.
  intros H. rewrite small_int_wrap, s64_u64.
  - Z.to_euclidean_division_equations; lia.
  - unfold is_s64, small_int_range in *. lia.
Qed.

Lemma small_int_is_small t :
  is_u64 t → beam_is_small_int t = true → make_small_int (eterm_to_small_int t) = t.
Proof.
  unfold beam_is_small_int. rewrite land_15, Z.eqb_eq. change TAG_IMMED1_SMALL_INT with 3.
  intros Ht H3. rewrite make_small_int_eq. unfold eterm_to_small_int.
  rewrite Z.shiftr_div_pow2 by lia. unfold s64, u64, is_u64 in *.
  rewrite (Z.mod_small t) by lia.
  case_bool; Z.to_euclidean_division_equations; lia.
Qed.

#[export] Hint Resolve make_small_int_is_u64 make_small_int_tag : beam.

(** ** Tagged pointers *)

Definition aligned (p : Z) : Prop := p mod 8 = 0.

Lemma word_at_aligned p i : aligned p → aligned (word_at p i).
Proof. unfold aligned, word_at, WORD. Z.to_euclidean_division_equations; lia. Qed.

Lemma tag_ptr_eq p tag : aligned p → 0 <= tag < 4 → tag_ptr p tag = p + tag.
Proof.
  unfold aligned, tag_ptr. intros Hp Ht.
  replace p with ((p / 4) .<< 2) at 1.
  - rewrite lor_low by lia. Z.to_euclidean_division_equations; lia.
  - rewrite Z.shiftl_mul_pow2 by lia. Z.to_euclidean_division_equations; lia.
Qed.

Lemma untag_eq t : untag t = t - t mod 4.
Proof. apply ldiff_3. Qed.

Lemma untag_tag_ptr p tag : aligned p → 0 <= tag < 4 → untag (tag_ptr p tag) = p.
Proof.
  intros Hp Ht. rewrite tag_ptr_eq, untag_eq by done.
  unfold aligned in *. Z.to_euclidean_division_equations; lia.
Qed.

Lemma tag_of_tag_ptr p tag : aligned p → 0 <= tag < 4 → tag_ptr p tag .& 0x03 = tag.
Proof.
  intros Hp Ht. rewrite tag_ptr_eq, land_3 by done.
  unfold aligned in *. Z.to_euclidean_division_equations; lia.
Qed.

Lemma tag_ptr_is_list p : aligned p → beam_is_list (tag_ptr p TAG_PRIMARY_LIST) = true.
Proof.
  intros. unfold beam_is_list. rewrite tag_of_tag_ptr by (done || easy). by apply Z.eqb_eq.
Qed.

#[export] Hint Resolve word_at_aligned tag_ptr_is_list : beam.

(** A header word written by [beam_make_tuple] reads back as a tuple of the
    same arity. *)
Definition tuple_header (arity : Z) : Z := (arity .<< 6) .| SUBTAG_TUPLE.

Lemma tuple_header_eq arity : tuple_header arity = arity * 64.
Proof. unfold tuple_header. change SUBTAG_TUPLE with 0. rewrite lor_low by lia. lia. Qed.

Lemma tuple_header_subtag arity : tuple_header arity .& 0x3F = SUBTAG_TUPLE.
Proof. rewrite tuple_header_eq, land_63. by rewrite Z.mod_mul. Qed.

Lemma tuple_header_arity arity : tuple_header arity .>> 6 = arity.
Proof. rewrite tuple_header_eq, Z.shiftr_div_pow2 by lia. by rewrite Z.div_mul. Qed.

(** A word whose primary tag says it is neither a list nor a boxed pointer. *)
Definition immediate (w : Z) : Prop :=
  w .& 0x03 ≠ TAG_PRIMARY_LIST ∧ w .& 0x03 ≠ TAG_PRIMARY_BOXED.

(** ** Abstract terms

    What a word denotes in a memory: an immediate, or a cons cell of two
    denoted terms.  This is the abstraction the list operations and the
    garbage collector are specified against. *)
Inductive tm : Type :=
| TImm (w : Z)
| TCons (hd tl : tm).

Inductive denotes (m : memory) : Z → tm → Prop :=
| den_imm w : immediate w → denotes m w (TImm w)
| den_cons p x y hd tl :
    aligned p → p ≠ NULL →
    load m (word_at p 0) = Some x → load m (word_at p 1) = Some y →
    denotes m x hd → denotes m y tl →
    denotes m (tag_ptr p TAG_PRIMARY_LIST) (TCons hd tl).

#[export] Hint Constructors denotes : beam.

(** Number of cons cells: the words a copy without sharing needs, halved. *)
Fixpoint cells (t : tm) : nat :=
  match t with
  | TImm _ => 0
  | TCons h t => S (cells h + cells t)
  end.

(** The abstract proper list of the elements [ts]. *)
Definition tm_list (ts : list tm) : tm := foldr TCons (TImm ETERM_NIL) ts.

Lemma denotes_mono m m' w t :
  (∀ a c, m !! a = Some c → m' !! a = Some c) → denotes m w t → denotes m' w t.
Proof.
  intros Hsub. induction 1; [by constructor|].
  econstructor; eauto; apply load_Some; by apply Hsub, load_Some.
Qed.

Lemma denotes_fun m w t1 t2 : denotes m w t1 → denotes m w t2 → t1 = t2.
Proof.
  intros H1. revert t2. induction H1 as [w Hi|p x y hd tl Hp ? Hx Hy _ IH1 _ IH2]; intros t2 H2.
  - inversion H2; subst; [done|]. destruct Hi as [Hi _].
    rewrite tag_of_tag_ptr in Hi by (done || easy). done.
  - inversion H2 as [? Hi|p' x' y' hd' tl' Hp' ? Hx' Hy' Hd1 Hd2 Heq]; subst.
    + destruct Hi as [Hi _]. rewrite tag_of_tag_ptr in Hi by (done || easy). done.
    + assert (p' = p) as ->.
      { rewrite <- (untag_tag_ptr p TAG_PRIMARY_LIST), <- Heq, untag_tag_ptr; done || easy. }
      simplify_eq. f_equal; eauto.
Qed.

(** ** Properties *)

(** C25: Small integers: a value survives tagging exactly when it fits 60 bits
    (otherwise it silently wraps), the tagged word is recognised as a small
    integer and as no other immediate, and every word with that tag is the tag
    of the value read from it. *)
Theorem small_int_roundtrip :
  (∀ v, eterm_to_small_int (make_small_int v) = v ↔ small_int_range v) ∧
  (∀ v, beam_is_small_int (make_small_int v) = true ∧ beam_is_atom (make_small_int v) = false ∧
        beam_is_pid (make_small_int v) = false ∧ beam_is_port (make_small_int v) = false) ∧
  (∀ t, is_u64 t → beam_is_small_int t = true → make_small_int (eterm_to_small_int t) = t).
Proof.
  split_and!.
  - intros v. split; [|apply small_int_cancel]. intros <-. apply eterm_to_small_int_range.
  - intros v. pose proof (make_small_int_tag v) as E. split; [done|].
    unfold beam_is_small_int, beam_is_atom, beam_is_pid, beam_is_port in *.
    apply Z.eqb_eq in E. by rewrite E.
  - apply small_int_is_small.
Qed.

(** The empty list is also a process identifier: [ETERM_NIL] is the
    identifier the program makes for the process number 3, and passes both
    tests. *)
Theorem nil_is_pid :
  ETERM_NIL = u32 (3 .<< 4) .| TAG_IMMED1_PID ∧
  beam_is_pid ETERM_NIL = true ∧ beam_is_nil ETERM_NIL = true ∧
  ∀ n, 0 <= n < 2 ^ 28 → beam_is_pid (u32 (n .<< 4) .| TAG_IMMED1_PID) = true ∧
    (beam_is_nil (u32 (n .<< 4) .| TAG_IMMED1_PID) = true ↔ n = 3).
Proof.
  split_and!; [done..|]. intros n Hn. change TAG_IMMED1_PID with 15.
  assert (u32 (n .<< 4) = n .<< 4) as ->.
  { apply u32_small. rewrite Z.shiftl_mul_pow2; unfold is_u32; lia. }
  rewrite lor_low by lia. unfold beam_is_pid, beam_is_nil, ETERM_NIL, TAG_IMMED1_PID.
  change (0x0F) with 15. rewrite land_15. rewrite !Z.eqb_eq.
  change ((15 .<< 2) .| TAG_PRIMARY_IMMED1) with 63. change ((3 .<< 2) .| TAG_PRIMARY_IMMED1) with 15.
  split; [|lia]. Z.to_euclidean_division_equations; lia.
Qed.
