(* ===== verification/Alloc.v ===== *)
(** The allocator interface ([struct beam_allocator_i], include/beam_memory.h)
    and its two implementations (src/memory/beam_alloc.c).

    Clients of the interface are written against the class [AllocOps] (the
    three function pointers and their context) and proved against the class
    [AllocSpec] (what a client may rely on).  The system allocator is built
    over the C library's [malloc]/[realloc]/[free], an [AllocOps] parameter;
    both it and the arena are instances. *)
From S2P Require Import Prelude Memory Term.
From stdpp Require Import options.

(** ** The vtable *)

(** What a [realloc] did with the block it was given: the block was released and
    its first [kept] bytes are in the new one, or it was left alone. *)
Inductive realloc_effect : Type :=
| Moved (kept : Z)
| NotMoved.

Class AllocOps (A : Type) : Type := {
  al_alloc : A → Z → Z * A;                           (* alloc(ctx, size) *)
  al_realloc : A → Z → Z → Z * realloc_effect * A;    (* realloc(ctx, ptr, size) *)
  al_free : A → Z → A;                                (* free(ctx, ptr) *)
}.

(** Live blocks: base address to requested size. *)
Abbreviation blocks := (gmap Z Z).

(** User-space addresses are below [2^47] on x86-64. *)
Definition ADDR_LIMIT : Z := 2 ^ 47.

(** A block that is aligned, not NULL, inside the address space and disjoint
    from every live block. *)
Definition fresh_block (B : blocks) (p n : Z) : Prop :=
  0 < p ∧ aligned p ∧ p + n <= ADDR_LIMIT ∧
  ∀ q k, B !! q = Some k → p + n <= q ∨ q + k <= p.

(** Live blocks lie inside the address space, do not overlap and are aligned. *)
Definition blocks_ok (B : blocks) : Prop :=
  (∀ q k, B !! q = Some k → 0 < q ∧ 0 < k ∧ q + k <= ADDR_LIMIT) ∧
  (∀ p q j k, p ≠ q → B !! p = Some j → B !! q = Some k → p + j <= q ∨ q + k <= p) ∧
  (∀ q k, B !! q = Some k → aligned q).

(** Sizes for which the rounding of the allocators does not wrap. *)
Definition alloc_size (n : Z) : Prop := 0 < n <= 2 ^ 62.

Class AllocSpec (A : Type) `{AllocOps A} : Type := {
  al_rep : A → blocks → Prop;
  al_rep_ok a B : al_rep a B → blocks_ok B;
  al_alloc_spec a B n p a' :
    al_rep a B → alloc_size n → al_alloc a n = (p, a') →
    (p = NULL ∧ al_rep a' B) ∨ (fresh_block B p n ∧ al_rep a' (<[p := n]> B));
  al_realloc_spec a B q k n p mv a' :
    al_rep a B → B !! q = Some k → alloc_size n → al_realloc a q n = (p, mv, a') →
    (p = NULL ∧ al_rep a' B) ∨
    (fresh_block (delete q B) p n ∧ al_rep a' (<[p := n]> (delete q B)));
  al_free_spec a B p k :
    al_rep a B → B !! p = Some k → al_rep (al_free a p) (delete p B);
  (* allocators whose realloc moves the contents, as that of the C library *)
  al_copies : A → Prop;
  al_realloc_kept a B q k n p mv a' :
    al_copies a → al_rep a B → B !! q = Some k → alloc_size n →
    al_realloc a q n = (p, mv, a') → p ≠ NULL → ∃ kept, mv = Moved kept ∧ Z.min k n <= kept;
  al_alloc_copies a n : al_copies a → al_copies (al_alloc a n).2;
  al_realloc_copies a q n : al_copies a → al_copies (al_realloc a q n).2;
  al_free_copies a p : al_copies a → al_copies (al_free a p);
}.

Lemma al_rep_pos `{AllocSpec A} a B q k :
  al_rep a B → B !! q = Some k → 0 < q ∧ 0 < k ∧ q + k <= ADDR_LIMIT.
Proof. intros (Hb & _)%al_rep_ok. apply Hb. Qed.

Lemma al_rep_disjoint `{AllocSpec A} a B p q j k :
  al_rep a B → p ≠ q → B !! p = Some j → B !! q = Some k → p + j <= q ∨ q + k <= p.
Proof. intros (_ & Hd & _)%al_rep_ok. apply Hd. Qed.

Lemma al_rep_aligned `{AllocSpec A} a B q k : al_rep a B → B !! q = Some k → aligned q.
Proof. intros (_ & _ & Ha)%al_rep_ok. apply Ha. Qed.

Lemma blocks_ok_insert B p n :
  blocks_ok B → fresh_block B p n → 0 < n → blocks_ok (<[p := n]> B).
Proof.
  intros (Hb & Hd & Ha) (? & ? & ? & Hf) Hn. split_and!.
  - intros q k [[<- <-]|[_ Hq]]%lookup_insert_Some; [lia|by apply Hb].
  - intros q r j k Hqr [[<- <-]|[_ Hq]]%lookup_insert_Some
      [[<- <-]|[_ Hr]]%lookup_insert_Some; [done|by apply Hf| |by eapply Hd].
    destruct (Hf _ _ Hq); lia.
  - intros q k [[<- _]|[_ Hq]]%lookup_insert_Some; [done|by eapply Ha].
Qed.

Lemma blocks_ok_delete B p : blocks_ok B → blocks_ok (delete p B).
Proof.
  intros (Hb & Hd & Ha). split_and!.
  - intros q k [_ Hq]%lookup_delete_Some. by apply Hb.
  - intros q r j k Hqr [_ Hq]%lookup_delete_Some [_ Hr]%lookup_delete_Some. by eapply Hd.
  - intros q k [_ Hq]%lookup_delete_Some. by eapply Ha.
Qed.

Lemma blocks_ok_empty : blocks_ok ∅.
Proof. split_and!; intros *; rewrite !lookup_empty; done. Qed.

#[export] Hint Resolve blocks_ok_insert blocks_ok_delete blocks_ok_empty : beam.

Lemma fresh_block_None `{AllocSpec A} a B p n :
  al_rep a B → 0 < n → fresh_block B p n → B !! p = None.
Proof.
  intros Ha Hn (_ & _ & _ & Hd). destruct (B !! p) as [k|] eqn:E; [|done].
  pose proof (al_rep_pos _ _ _ _ Ha E). destruct (Hd _ _ E); lia.
Qed.

Lemma fresh_block_nonnull B p n : fresh_block B p n → p ≠ NULL.
Proof. intros (? & _). unfold NULL. lia. Qed.

Lemma fresh_block_delete B p n q : fresh_block B p n → fresh_block (delete q B) p n.
Proof.
  intros (? & ? & ? & Hd). split_and!; [done..|].
  intros r k [_ ?]%lookup_delete_Some. eauto.
Qed.

(** ** The C-side states (src/memory/beam_alloc_internal.h) *)

Definition ALIGNMENT : Z := 8.

(** [(((size) + (ALIGNMENT - 1)) & ~(ALIGNMENT - 1))] on [size_t]. *)
Definition ALIGN (size : Z) : Z := Z.ldiff (u64 (size + (ALIGNMENT - 1))) (ALIGNMENT - 1).

Record system_alloc_state_t : Type := {
  total_allocated : Z;
  total_freed : Z;
  active_allocs : Z;
  peak_bytes : Z;
}.

Record arena_alloc_state_t : Type := {
  buffer : Z;
  capacity : Z;
  offset : Z;
  alloc_count : Z;
}.

Record beam_memory_stats_t : Type := {
  total_allocated_bytes : Z;
  active_allocations : Z;
  peak_allocated_bytes : Z;
}.

Definition sizeof_system_alloc_state_t : Z := 32.
Definition sizeof_arena_alloc_state_t : Z := 32.

(** [struct beam_allocator_i]: the vtable (which implementation the function
    pointers are) with its context, [None] for a NULL context; a context
    carries its own address. *)
Inductive beam_allocator_i : Type :=
| SysAllocator (ctx : option (Z * system_alloc_state_t))
| ArenaAllocator (ctx : option (Z * arena_alloc_state_t)).

(** ** Arena allocator *)

Definition arena_alloc (ctx : option arena_alloc_state_t) (size : Z)
    : Z * option arena_alloc_state_t :=
  match ctx with
  | None => (NULL, None)
  | Some arena =>
      if buffer arena =? NULL then (NULL, Some arena)
      else
        let size := ALIGN size in
        if u64 (offset arena + size) >? capacity arena then (NULL, Some arena)
        else
          (buffer arena + offset arena,
           Some {| buffer := buffer arena; capacity := capacity arena;
                   offset := u64 (offset arena + size);
                   alloc_count := u64 (alloc_count arena + 1) |})
  end.

(** A new block; [ptr] is not looked at. *)
Definition arena_realloc (ctx : option arena_alloc_state_t) (ptr new_size : Z)
    : Z * realloc_effect * option arena_alloc_state_t :=
  let '(p, ctx) := arena_alloc ctx new_size in (p, NotMoved, ctx).

Definition arena_free (ctx : option arena_alloc_state_t) (ptr : Z)
    : option arena_alloc_state_t := ctx.

(** ** System allocator *)

Section System.
Context {H : Type} `{AllocOps H}.

Definition sys_alloc (ctx : option system_alloc_state_t) (libc : H) (size : Z)
    : Z * option system_alloc_state_t * H :=
  let size := ALIGN size in
  let '(ptr, libc) := al_alloc libc size in
  match ctx with
  | Some st =>
      if ptr =? NULL then (ptr, ctx, libc)
      else
        let total := u64 (total_allocated st + size) in
        let in_use := u64 (total - total_freed st) in
        let peak := if in_use >? peak_bytes st then in_use else peak_bytes st in
        (ptr, Some {| total_allocated := total; total_freed := total_freed st;
                      active_allocs := u64 (active_allocs st + 1); peak_bytes := peak |}, libc)
  | None => (ptr, None, libc)
  end.

Definition sys_realloc (ctx : option system_alloc_state_t) (libc : H) (ptr new_size : Z)
    : Z * realloc_effect * option system_alloc_state_t * H :=
  let new_size := ALIGN new_size in
  let '(new_ptr, mv, libc) := al_realloc libc ptr new_size in
  match ctx with
  | Some st =>
      if new_ptr =? NULL then (new_ptr, mv, ctx, libc)
      else
        (new_ptr, mv,
         Some {| total_allocated := u64 (total_allocated st + new_size);
                 total_freed := total_freed st; active_allocs := active_allocs st;
                 peak_bytes := peak_bytes st |}, libc)
  | None => (new_ptr, mv, None, libc)
  end.

Definition sys_free (ctx : option system_alloc_state_t) (libc : H) (ptr : Z)
    : option system_alloc_state_t * H :=
  let ctx' :=
    match ctx with
    | Some st =>
        if ptr =? NULL then ctx
        else
          Some {| total_allocated := total_allocated st;
                  total_freed := u64 (total_freed st + 1);
                  active_allocs :=
                    if active_allocs st >? 0 then active_allocs st - 1 else active_allocs st;
                  peak_bytes := peak_bytes st |}
    | None => None
    end in
  (ctx', if ptr =? NULL then libc else al_free libc ptr).

(** ** Constructors, destructor, statistics *)

Definition beam_allocator_create_system (libc : H) : beam_allocator_i * H :=
  let '(p, libc) := al_alloc libc sizeof_system_alloc_state_t in
  if p =? NULL then (SysAllocator None, libc)
  else
    (SysAllocator (Some (p, {| total_allocated := 0; total_freed := 0;
                               active_allocs := 0; peak_bytes := 0 |})), libc).

Definition beam_allocator_create_arena (libc : H) (arena_size : Z) : beam_allocator_i * H :=
  let '(p, libc) := al_alloc libc sizeof_arena_alloc_state_t in
  if p =? NULL then (ArenaAllocator None, libc)
  else
    let '(buf, libc) := al_alloc libc arena_size in
    (ArenaAllocator (Some (p, {| buffer := buf; capacity := arena_size;
                                 offset := 0; alloc_count := 0 |})), libc).

Definition beam_allocator_destroy (alloc : beam_allocator_i) (libc : H)
    : beam_allocator_i * H :=
  match alloc with
  | SysAllocator None | ArenaAllocator None => (alloc, libc)
  | SysAllocator (Some (p, _)) => (SysAllocator None, al_free libc p)
  | ArenaAllocator (Some (p, arena)) =>
      let libc := if buffer arena =? NULL then libc else al_free libc (buffer arena) in
      (ArenaAllocator None, al_free libc p)
  end.

Definition beam_allocator_destroy_arena (alloc : beam_allocator_i) (libc : H)
    : beam_allocator_i * H :=
  beam_allocator_destroy alloc libc.

Definition beam_allocator_get_stats (alloc : beam_allocator_i) : beam_memory_stats_t :=
  match alloc with
  | SysAllocator None | ArenaAllocator None =>
      {| total_allocated_bytes := 0; active_allocations := 0; peak_allocated_bytes := 0 |}
  | SysAllocator (Some (_, st)) =>
      {| total_allocated_bytes := total_allocated st;
         active_allocations := active_allocs st; peak_allocated_bytes := peak_bytes st |}
  | ArenaAllocator (Some (_, arena)) =>
      {| total_allocated_bytes := offset arena;
         active_allocations := alloc_count arena; peak_allocated_bytes := capacity arena |}
  end.

(** ** The vtable calls: dispatch through the function pointers *)

Definition with_addr {S} (ctx : option (Z * S)) (r : option S) : option (Z * S) :=
  match ctx, r with
  | Some (p, _), Some s => Some (p, s)
  | _, _ => None
  end.

#[export] Instance beam_allocator_ops : AllocOps (beam_allocator_i * H) := {
  al_alloc '(v, libc) n :=
    match v with
    | SysAllocator ctx =>
        let '(p, st, libc) := sys_alloc (snd <$> ctx) libc n in
        (p, (SysAllocator (with_addr ctx st), libc))
    | ArenaAllocator ctx =>
        let '(p, st) := arena_alloc (snd <$> ctx) n in
        (p, (ArenaAllocator (with_addr ctx st), libc))
    end;
  al_realloc '(v, libc) ptr n :=
    match v with
    | SysAllocator ctx =>
        let '(p, mv, st, libc) := sys_realloc (snd <$> ctx) libc ptr n in
        (p, mv, (SysAllocator (with_addr ctx st), libc))
    | ArenaAllocator ctx =>
        let '(p, mv, st) := arena_realloc (snd <$> ctx) ptr n in
        (p, mv, (ArenaAllocator (with_addr ctx st), libc))
    end;
  al_free '(v, libc) ptr :=
    match v with
    | SysAllocator ctx =>
        let '(st, libc) := sys_free (snd <$> ctx) libc ptr in
        (SysAllocator (with_addr ctx st), libc)
    | ArenaAllocator ctx =>
        (ArenaAllocator (with_addr ctx (arena_free (snd <$> ctx) ptr)), libc)
    end;
}.

End System.

(** ** Rounding *)

Lemma ALIGN_bounds n : alloc_size n → n <= ALIGN n < n + 8 ∧ ALIGN n mod 8 = 0.
Proof.
  intros Hn. unfold alloc_size in Hn. unfold ALIGN, ALIGNMENT. change (8 - 1) with 7.
  rewrite ldiff_7, u64_small by (unfold is_u64; lia).
  Z.to_euclidean_division_equations; lia.
Qed.

(** ** The arena satisfies the interface

    The live blocks of an arena all lie below its bump pointer; a fresh block
    starts at the bump pointer. *)

Definition arena_wf (ar : arena_alloc_state_t) : Prop :=
  0 < buffer ar ∧ aligned (buffer ar) ∧ buffer ar + capacity ar <= ADDR_LIMIT ∧
  0 <= offset ar <= capacity ar ∧ offset ar mod 8 = 0.

Definition arena_holds (ar : arena_alloc_state_t) (B : blocks) : Prop :=
  ∀ q k, B !! q = Some k → buffer ar <= q ∧ q + k <= buffer ar + offset ar.

Definition arena_rep (ctx : option arena_alloc_state_t) (B : blocks) : Prop :=
  match ctx with
  | None => True
  | Some ar => buffer ar = NULL ∨ (arena_wf ar ∧ arena_holds ar B)
  end.

Lemma arena_alloc_rep ctx B n p ctx' :
  arena_rep ctx B → alloc_size n → arena_alloc ctx n = (p, ctx') →
  (p = NULL ∧ arena_rep ctx' B) ∨ (fresh_block B p n ∧ arena_rep ctx' (<[p := n]> B)).
Proof.
  intros Hrep Hn Hal. destruct ctx as [ar|]; simpl in Hal; [|by simplify_eq; left].
  destruct Hrep as [Hn0|[Hw Hh]].
  { rewrite Hn0 in Hal. simpl in Hal. simplify_eq. left. split; [done|]. by left. }
  pose proof Hw as (Hb & Hba & Hbc & Ho & Hoa).
  pose proof (ALIGN_bounds n Hn) as [Hs Hsa]. unfold alloc_size in Hn.
  rewrite (u64_small (offset ar + ALIGN n)) in Hal by (unfold is_u64, ADDR_LIMIT in *; lia).
  destruct (Z.eqb_spec (buffer ar) NULL); [unfold NULL in *; lia|].
  rewrite Z.gtb_ltb in Hal.
  destruct (Z.ltb_spec (capacity ar) (offset ar + ALIGN n)); simplify_eq; [left; split; [done|by right]|right].
  split; [split_and!|right; split].
  - lia.
  - unfold aligned in *. Z.to_euclidean_division_equations; lia.
  - lia.
  - intros q k Hq. apply Hh in Hq. lia.
  - unfold arena_wf; simpl. split_and!; try done; try lia.
    Z.to_euclidean_division_equations; lia.
  - intros q k Hq. simpl. apply lookup_insert_Some in Hq as [[<- <-]|[_ Hq]]; [lia|].
    apply Hh in Hq. lia.
Qed.

Lemma arena_rep_delete ctx B q : arena_rep ctx B → arena_rep ctx (delete q B).
Proof.
  destruct ctx as [ar|]; simpl; [|done]. intros [Hn|[Hw Hh]]; [by left|right].
  split; [done|]. intros r k [_ Hr]%lookup_delete_Some. eauto.
Qed.

(** ** The system allocator satisfies the interface

    The libc block behind every live block is at least as large, and libc has
    no other live block. *)

Section SystemSpec.
Context {H : Type} `{AllocSpec H}.

Definition covers (B B' : blocks) : Prop :=
  ∀ p, match B !! p, B' !! p with
       | Some n, Some n' => 0 < n <= n'
       | None, None => True
       | _, _ => False
       end.

Lemma covers_insert B B' p n n' :
  covers B B' → 0 < n <= n' → covers (<[p := n]> B) (<[p := n']> B').
Proof.
  intros Hc Hn q. destruct (decide (p = q)) as [<-|].
  - by rewrite !lookup_insert_eq.
  - rewrite !lookup_insert_ne by done. apply Hc.
Qed.

Lemma covers_delete B B' p : covers B B' → covers (delete p B) (delete p B').
Proof.
  intros Hc q. destruct (decide (p = q)) as [<-|].
  - by rewrite !lookup_delete_eq.
  - rewrite !lookup_delete_ne by done. apply Hc.
Qed.

Lemma covers_lookup B B' p n :
  covers B B' → B !! p = Some n → ∃ n', B' !! p = Some n' ∧ 0 < n <= n'.
Proof. intros Hc Hp. specialize (Hc p). rewrite Hp in Hc. destruct (B' !! p); naive_solver. Qed.

Lemma covers_fresh B B' p n n' :
  covers B B' → 0 < n <= n' → fresh_block B' p n' → fresh_block B p n.
Proof.
  intros Hc Hn (? & ? & ? & Hd). split_and!; try done; try lia.
  intros q k (k' & Hq & ?)%(covers_lookup _ _ _ _ Hc). destruct (Hd _ _ Hq); lia.
Qed.

Definition sys_rep (libc : H) (B : blocks) : Prop := ∃ B', al_rep libc B' ∧ covers B B'.

Lemma ALIGN_alloc_size n : alloc_size n → alloc_size (ALIGN n).
Proof.
  intros Hn. pose proof (ALIGN_bounds n Hn). unfold alloc_size in *.
  Z.to_euclidean_division_equations; lia.
Qed.

Lemma sys_alloc_rep ctx h B n p ctx' h' :
  sys_rep h B → alloc_size n → sys_alloc ctx h n = (p, ctx', h') →
  (p = NULL ∧ sys_rep h' B) ∨ (fresh_block B p n ∧ sys_rep h' (<[p := n]> B)).
Proof.
  intros (B' & Hrep & Hc) Hn Hal. unfold sys_alloc in Hal.
  destruct (al_alloc h (ALIGN n)) as [q hq] eqn:Ea.
  assert (q = p ∧ hq = h') as [-> ->].
  { destruct ctx; [destruct (q =? NULL)|]; naive_solver. }
  pose proof (ALIGN_bounds n Hn) as [Hs _].
  assert (0 < n <= ALIGN n) by (unfold alloc_size in *; lia).
  apply (al_alloc_spec _ B') in Ea as [[-> ?]|[Hf ?]];
    [left; split; [done|by exists B']|right|done|by apply ALIGN_alloc_size].
  split; [by eapply covers_fresh|].
  eexists; split; [done|]. by apply covers_insert.
Qed.

Lemma sys_realloc_rep ctx h B q k n p mv ctx' h' :
  sys_rep h B → B !! q = Some k → alloc_size n → sys_realloc ctx h q n = (p, mv, ctx', h') →
  (p = NULL ∧ sys_rep h' B) ∨
  (fresh_block (delete q B) p n ∧ sys_rep h' (<[p := n]> (delete q B))).
Proof.
  intros (B' & Hrep & Hc) Hq Hn Hal. unfold sys_realloc in Hal.
  destruct (al_realloc h q (ALIGN n)) as [[r mv'] hr] eqn:Ea.
  assert (r = p ∧ hr = h') as [-> ->].
  { destruct ctx; [destruct (r =? NULL)|]; naive_solver. }
  pose proof (ALIGN_bounds n Hn) as [Hs _].
  assert (0 < n <= ALIGN n) by (unfold alloc_size in *; lia).
  destruct (covers_lookup _ _ _ _ Hc Hq) as (k' & Hq' & _).
  pose proof (covers_delete _ _ q Hc) as Hc'.
  apply (al_realloc_spec _ B' _ k') in Ea as [[-> ?]|[Hf ?]];
    [left; split; [done|by exists B']|right|done..|by apply ALIGN_alloc_size].
  split; [by eapply covers_fresh|].
  eexists; split; [done|]. by apply covers_insert.
Qed.

Lemma sys_free_rep ctx h B p k ctx' h' :
  sys_rep h B → B !! p = Some k → sys_free ctx h p = (ctx', h') →
  sys_rep h' (delete p B).
Proof.
  intros (B' & Hrep & Hc) Hp Hf. unfold sys_free in Hf.
  destruct (covers_lookup _ _ _ _ Hc Hp) as (k' & Hp' & _).
  pose proof (al_rep_pos _ _ _ _ Hrep Hp').
  destruct (Z.eqb_spec p NULL); [unfold NULL in *; lia|]. simplify_eq.
  exists (delete p B'). split; [by eapply al_free_spec|by apply covers_delete].
Qed.

(** The dispatching vtable satisfies what its clients rely on. *)
Definition allocator_rep (a : beam_allocator_i * H) (B : blocks) : Prop :=
  match a with
  | (SysAllocator _, h) => sys_rep h B
  | (ArenaAllocator ctx, _) => blocks_ok B ∧ arena_rep (snd <$> ctx) B
  end.

#[local] Arguments sys_free : simpl never.

Lemma arena_ctx_addr (ctx : option (Z * arena_alloc_state_t)) n p st :
  arena_alloc (snd <$> ctx) n = (p, st) → snd <$> with_addr ctx st = st.
Proof.
  destruct ctx as [[c ar]|]; simpl; [|naive_solver].
  repeat case_match; intros; by simplify_eq.
Qed.

Lemma sys_rep_ok h B : sys_rep h B → blocks_ok B.
Proof.
  intros (B' & (Hb & Hd & Ha)%al_rep_ok & Hc). split_and!.
  - intros q k (k' & Hq' & ?)%(covers_lookup _ _ _ _ Hc). apply Hb in Hq'. lia.
  - intros p q j k Hne (j' & Hp' & ?)%(covers_lookup _ _ _ _ Hc)
      (k' & Hq' & ?)%(covers_lookup _ _ _ _ Hc). destruct (Hd _ _ _ _ Hne Hp' Hq'); lia.
  - intros q k (k' & Hq' & _)%(covers_lookup _ _ _ _ Hc). by eapply Ha.
Qed.

(** The arena's [realloc] moves nothing. *)
Definition allocator_copies (a : beam_allocator_i * H) : Prop :=
  match a with
  | (SysAllocator _, h) => al_copies h
  | (ArenaAllocator _, _) => False
  end.

Lemma sys_realloc_kept ctx h B q k n p mv ctx' h' :
  al_copies h → sys_rep h B → B !! q = Some k → alloc_size n →
  sys_realloc ctx h q n = (p, mv, ctx', h') → p ≠ NULL → ∃ kept, mv = Moved kept ∧ Z.min k n <= kept.
Proof.
  intros Hcp (B' & Hrep & Hc) Hq Hn Hal Hp. unfold sys_realloc in Hal.
  destruct (al_realloc h q (ALIGN n)) as [[r mv'] hr] eqn:Ea.
  assert (r = p ∧ mv' = mv) as [-> ->] by (destruct ctx; [destruct (r =? NULL)|]; naive_solver).
  pose proof (ALIGN_bounds n Hn) as [Hs _].
  destruct (covers_lookup _ _ _ _ Hc Hq) as (k' & Hq' & Hk).
  destruct (al_realloc_kept _ _ _ _ _ _ _ _ Hcp Hrep Hq' (ALIGN_alloc_size n Hn) Ea Hp)
    as (kept & -> & Hkept). exists kept. split; [done|lia].
Qed.

#[export] Program Instance beam_allocator_spec : AllocSpec (beam_allocator_i * H) :=
  {| al_rep := allocator_rep; al_copies := allocator_copies |}.
Next Obligation. intros [[ctx|ctx] h] B; simpl; [apply sys_rep_ok|by intros []]. Qed.
Next Obligation.
  intros [[ctx|ctx] h] B n p a' Hrep Hn Hal; cbn in *.
  - destruct (sys_alloc _ _ _) as [[q st] hq] eqn:E. simplify_eq. by eapply sys_alloc_rep.
  - destruct Hrep as [Hok Hrep]. destruct (arena_alloc _ _) as [q st] eqn:E. simplify_eq. simpl.
    rewrite (arena_ctx_addr _ _ _ _ E).
    destruct (arena_alloc_rep _ _ _ _ _ Hrep Hn E) as [[-> ?]|[Hf ?]]; [by left|right].
    unfold alloc_size in Hn. split_and!; [done|apply blocks_ok_insert; (done || lia)|done].
Qed.
Next Obligation.
  intros [[ctx|ctx] h] B q k n p mv a' Hrep Hq Hn Hal; cbn in *.
  - destruct (sys_realloc _ _ _ _) as [[[r mv'] st] hr] eqn:E. simplify_eq.
    by eapply sys_realloc_rep.
  - destruct Hrep as [Hok Hrep]. unfold arena_realloc in Hal.
    destruct (arena_alloc _ _) as [r st] eqn:E. simplify_eq. simpl.
    rewrite (arena_ctx_addr _ _ _ _ E).
    destruct (arena_alloc_rep _ _ _ _ _ Hrep Hn E) as [[-> ?]|[Hf _]]; [by left|right].
    apply (arena_rep_delete _ _ q) in Hrep.
    destruct (arena_alloc_rep _ _ _ _ _ Hrep Hn E) as [[-> _]|[Hf' ?]];
      [by apply fresh_block_nonnull in Hf|].
    unfold alloc_size in Hn.
    split_and!; [done|apply blocks_ok_insert; (done || lia || by apply blocks_ok_delete)|done].
Qed.
Next Obligation.
  intros [[ctx|ctx] h] B p k Hrep Hp; cbn in *.
  - destruct (sys_free _ _ _) as [st hq] eqn:E. by eapply sys_free_rep.
  - destruct Hrep as [Hok Hrep]. split; [by apply blocks_ok_delete|].
    destruct ctx as [[c ar]|]; by apply (arena_rep_delete _ _ p) in Hrep.
Qed.
Next Obligation.
  intros [[ctx|ctx] h] B q k n p mv a' Hcp Hrep Hq Hn Hal Hp; cbn in *; [|done].
  destruct (sys_realloc _ _ _ _) as [[[r mv'] st] hr] eqn:E. simplify_eq.
  by eapply sys_realloc_kept.
Qed.
Next Obligation.
  intros [[ctx|ctx] h] n; cbn; [|done]. intros Hcp.
  unfold sys_alloc. pose proof (al_alloc_copies h (ALIGN n) Hcp) as Hc.
  destruct (al_alloc h (ALIGN n)) as [q h']. by destruct (snd <$> ctx) as [?|]; [destruct (q =? NULL)|].
Qed.
Next Obligation.
  intros [[ctx|ctx] h] q n; cbn; [|done]. intros Hcp.
  unfold sys_realloc. pose proof (al_realloc_copies h q (ALIGN n) Hcp) as Hc.
  destruct (al_realloc h q (ALIGN n)) as [[r mv] h'].
  by destruct (snd <$> ctx) as [?|]; [destruct (r =? NULL)|].
Qed.
Next Obligation.
  intros [[ctx|ctx] h] p; cbn; [|done]. intros Hcp.
  unfold sys_free. destruct (p =? NULL); [done|]. by apply al_free_copies.
Qed.
End SystemSpec.

(** ** A concrete C library heap

    A deterministic [malloc] used by the witnesses: it hands out increasing
    16-byte aligned addresses below a limit and never reuses a block.  No
    theorem depends on this choice; it shows that [AllocSpec] can be met. *)

Record bump_heap : Type := { bump_brk : Z; bump_limit : Z; bump_live : blocks }.

Definition bump_alloc (h : bump_heap) (n : Z) : Z * bump_heap :=
  let size := Z.ldiff (n + 15) 15 in
  if bump_brk h + size <=? bump_limit h
  then (bump_brk h, {| bump_brk := bump_brk h + size; bump_limit := bump_limit h;
                       bump_live := <[bump_brk h := n]> (bump_live h) |})
  else (NULL, h).

Definition bump_free (h : bump_heap) (p : Z) : bump_heap :=
  {| bump_brk := bump_brk h; bump_limit := bump_limit h; bump_live := delete p (bump_live h) |}.

Definition bump_realloc (h : bump_heap) (q n : Z) : Z * realloc_effect * bump_heap :=
  let '(p, h') := bump_alloc (bump_free h q) n in
  if p =? NULL then (NULL, NotMoved, h)
  else (p, Moved (Z.min (default 0 (bump_live h !! q)) n), h').

#[export] Instance bump_ops : AllocOps bump_heap := {
  al_alloc := bump_alloc;
  al_realloc := bump_realloc;
  al_free := bump_free;
}.

Definition bump_rep (h : bump_heap) (B : blocks) : Prop :=
  0 < bump_brk h ∧ bump_brk h mod 16 = 0 ∧ bump_limit h <= ADDR_LIMIT ∧ bump_live h = B ∧
  blocks_ok B ∧ ∀ q k, B !! q = Some k → q + k <= bump_brk h.

Lemma bump_alloc_rep h B n p h' :
  bump_rep h B → alloc_size n → bump_alloc h n = (p, h') →
  (p = NULL ∧ h' = h) ∨ (fresh_block B p n ∧ bump_rep h' (<[p := n]> B)).
Proof.
  intros (Hb & Ha & Hl & HL & Hok & HB) Hn Hal. unfold bump_alloc in Hal. unfold alloc_size in Hn.
  pose proof (ldiff_ones (n + 15) 4 ltac:(lia)) as Hr. change (Z.ones 4) with 15 in Hr.
  rewrite Hr in Hal. clear Hr. change (2 ^ 4) with 16 in *.
  set (size := n + 15 - (n + 15) mod 16) in *.
  assert (n <= size ∧ size mod 16 = 0) as [Hsz Hsz16].
  { unfold size. Z.to_euclidean_division_equations; lia. }
  destruct (Z.leb_spec (bump_brk h + size) (bump_limit h)); simplify_eq; [right|left; done].
  assert (Hf : fresh_block (bump_live h) (bump_brk h) n).
  { split_and!; [done| |lia|].
    - unfold aligned. Z.to_euclidean_division_equations; lia.
    - intros q k Hq. apply HB in Hq. lia. }
  split; [done|]. split_and!; simpl; [lia| |done|done|apply blocks_ok_insert; (done || lia)|].
  - Z.to_euclidean_division_equations; lia.
  - intros q k [[<- <-]|[_ Hq%HB]]%lookup_insert_Some; lia.
Qed.

Lemma bump_rep_free h B q : bump_rep h B → bump_rep (bump_free h q) (delete q B).
Proof.
  intros (? & ? & ? & <- & ? & HB). split_and!; try done; [by apply blocks_ok_delete|].
  intros r k [_ Hr]%lookup_delete_Some. eauto.
Qed.

#[export] Program Instance bump_spec : AllocSpec bump_heap :=
  {| al_rep := bump_rep; al_copies _ := True |}.
Next Obligation. by intros h B (_ & _ & _ & _ & ? & _). Qed.
Next Obligation.
  intros h B n p h' Hrep Hn Hal. destruct (bump_alloc_rep _ _ _ _ _ Hrep Hn Hal); naive_solver.
Qed.
Next Obligation.
  intros h B q k n p mv h' Hrep Hq Hn Hal; simpl in *. unfold bump_realloc in Hal.
  destruct (bump_alloc _ _) as [r hr] eqn:E.
  destruct (bump_alloc_rep _ _ _ _ _ (bump_rep_free _ _ q Hrep) Hn E) as [[-> _]|[Hf Hr]].
  - simpl in Hal. simplify_eq. by left.
  - apply fresh_block_nonnull in Hf as Hnn.
    destruct (Z.eqb_spec r NULL); [done|]. simplify_eq. by right.
Qed.
Next Obligation. intros. by apply bump_rep_free. Qed.
Next Obligation.
  intros h B q k n p mv h' _ Hrep Hq Hn Hal Hp; simpl in *. unfold bump_realloc in Hal.
  destruct (bump_alloc _ _) as [r hr]. destruct (r =? NULL); simplify_eq.
  destruct Hrep as (_ & _ & _ & -> & _). rewrite Hq. by eexists.
Qed.
Next Obligation. done. Qed.
Next Obligation. done. Qed.
Next Obligation. done. Qed.

(** An empty C heap from address 4096 up to [limit]. *)
Definition bump_init (limit : Z) : bump_heap :=
  {| bump_brk := 4096; bump_limit := limit; bump_live := ∅ |}.

Lemma bump_init_rep l : l <= ADDR_LIMIT → al_rep (bump_init l) ∅.
Proof. intros. split_and!; (done || apply blocks_ok_empty). Qed.
