(* ===== verification/AllocProps.v ===== *)
(** What the two allocators promise over whole runs, and what their statistics
    mean (src/memory/beam_alloc.c). *)
From S2P Require Import Prelude Memory Term Alloc.
From stdpp Require Import options.

(** ** Runs of an allocator *)

Inductive al_cmd : Type :=
| CAlloc (n : Z)
| CRealloc (q n : Z)
| CFree (q : Z).

Section AllocProps.
Context {H : Type} `{AllocSpec H}.
Implicit Types (a : beam_allocator_i * H) (B : blocks).

(** A command and the live blocks after it; a failed request leaves the old
    block alive. *)
Definition al_exec (c : al_cmd) a B : (beam_allocator_i * H) * blocks :=
  match c with
  | CAlloc n => let '(p, a) := al_alloc a n in (a, if p =? NULL then B else <[p := n]> B)
  | CRealloc q n =>
      let '(p, _, a) := al_realloc a q n in (a, if p =? NULL then B else <[p := n]> (delete q B))
  | CFree q => (al_free a q, delete q B)
  end.

(** The blocks that were live in the C heap before the run. *)
Variable base : blocks.

(** Sizes that do not wrap when they are rounded, pointers that the run has
    obtained and not given back. *)
Definition cmd_ok (c : al_cmd) B : Prop :=
  match c with
  | CAlloc n => alloc_size n
  | CRealloc q n => is_Some (B !! q) ∧ base !! q = None ∧ alloc_size n
  | CFree q => is_Some (B !! q) ∧ base !! q = None
  end.

Inductive al_run : (beam_allocator_i * H) → blocks → (beam_allocator_i * H) → blocks → Prop :=
| run_nil a B : al_run a B a B
| run_cons c a B a2 B2 :
    cmd_ok c B → al_run (al_exec c a B).1 (al_exec c a B).2 a2 B2 → al_run a B a2 B2.

(** The statistics of a system allocator that has its context count the live
    blocks of the run. *)
Definition counts_live a B : Prop :=
  base ⊆ B ∧
  match a.1 with
  | SysAllocator (Some (_, st)) => active_allocs st = Z.of_nat (size B) - Z.of_nat (size base)
  | _ => True
  end.

Lemma base_size B : base ⊆ B → (size base <= size B)%nat.
Proof. apply map_subseteq_size. Qed.

Lemma base_delete q B :
  base ⊆ B → base !! q = None → is_Some (B !! q) → base ⊆ delete q B ∧ (size base < size B)%nat.
Proof.
  intros Hsub Hq HB. assert (base ⊆ delete q B) as Hd.
  { rewrite <-(delete_id base q Hq). by apply delete_mono. }
  split; [done|]. apply map_subseteq_size in Hd. rewrite map_size_delete_Some in Hd by done.
  pose proof (map_size_ne_0_lookup_2 B q HB). lia.
Qed.

Lemma blocks_size B : blocks_ok B → Z.of_nat (size B) < 2 ^ 47 + 1.
Proof.
  intros (Hb & _ & _).
  assert (NoDup (Z.to_nat <$> (map_to_list B).*1)) as Hnd.
  { apply NoDup_fmap_2_strong; [|apply NoDup_fst_map_to_list].
    intros x y Hx Hy. apply list_elem_of_fmap in Hx as ([x0 kx] & -> & Hx).
    apply list_elem_of_fmap in Hy as ([y0 ky] & -> & Hy).
    apply elem_of_map_to_list in Hx, Hy. destruct (Hb _ _ Hx), (Hb _ _ Hy). simpl. lia. }
  assert (Z.to_nat <$> (map_to_list B).*1 ⊆ seq 0 (Z.to_nat ADDR_LIMIT)) as Hsub.
  { intros x Hx. apply list_elem_of_fmap in Hx as (y & -> & Hx).
    apply list_elem_of_fmap in Hx as ([y0 ky] & -> & Hx). apply elem_of_map_to_list in Hx.
    destruct (Hb _ _ Hx) as (? & ? & ?). apply elem_of_seq. simpl. unfold ADDR_LIMIT in *. lia. }
  pose proof (submseteq_length _ _ (NoDup_submseteq _ _ Hnd Hsub)) as Hl.
  rewrite !length_fmap, length_seq, length_map_to_list in Hl. unfold ADDR_LIMIT in *. lia.
Qed.

Lemma fresh_None B p n : blocks_ok B → 0 < n → fresh_block B p n → B !! p = None.
Proof.
  intros (Hb & _ & _) Hn (_ & _ & _ & Hd). destruct (B !! p) as [k|] eqn:E; [|done].
  destruct (Hb _ _ E) as (_ & ? & _). destruct (Hd _ _ E); lia.
Qed.

(** One command: the representation, and the count of live blocks. *)
Lemma exec_alloc_ok n a B :
  al_rep a B → counts_live a B → alloc_size n →
  al_rep (al_exec (CAlloc n) a B).1 (al_exec (CAlloc n) a B).2 ∧
  counts_live (al_exec (CAlloc n) a B).1 (al_exec (CAlloc n) a B).2.
Proof.
  intros Ha [Hsub Hc] Hn. cbn [al_exec]. destruct (al_alloc a n) as [p a'] eqn:E. cbn [fst snd].
  assert (al_rep a' (if p =? NULL then B else <[p := n]> B) ∧ (p ≠ NULL → B !! p = None))
    as [Ha' Hp].
  { destruct (al_alloc_spec _ _ _ _ _ Ha Hn E) as [[-> ?]|[Hf ?]]; [done|].
    pose proof (fresh_block_nonnull _ _ _ Hf). destruct (Z.eqb_spec p NULL); [done|].
    split; [done|]. intros _. eapply fresh_None; [exact (al_rep_ok _ _ Ha)|apply Hn|done]. }
  split; [done|]. pose proof (blocks_size _ (al_rep_ok _ _ Ha')) as Hsz.
  pose proof (base_size _ Hsub). split.
  { case_match; [done|]. apply insert_subseteq_r; [|done].
    apply (lookup_weaken_None _ B); [apply Hp; by apply Z.eqb_neq|done]. }
  destruct a as [[[[adr st]|]|ctx] h]; cbn in E; cbn in Hc.
  - unfold sys_alloc in E. destruct (al_alloc h (ALIGN n)) as [q h'].
    destruct (Z.eqb_spec q NULL) as [->|Hq]; cbn in E; injection E as <- <-; cbn; [done|].
    destruct (Z.eqb_spec q NULL); [done|]. rewrite map_size_insert_None in * by auto.
    rewrite Hc, u64_small by (unfold is_u64; lia). lia.
  - unfold sys_alloc in E. destruct (al_alloc h (ALIGN n)) as [q h']. by injection E as <- <-.
  - destruct (arena_alloc _ n) as [q st]. by injection E as <- <-.
Qed.

Lemma exec_realloc_ok q n a B :
  al_rep a B → counts_live a B → is_Some (B !! q) → base !! q = None → alloc_size n →
  al_rep (al_exec (CRealloc q n) a B).1 (al_exec (CRealloc q n) a B).2 ∧
  counts_live (al_exec (CRealloc q n) a B).1 (al_exec (CRealloc q n) a B).2.
Proof.
  intros Ha [Hsub Hc] [k Hq] Hbq Hn. cbn [al_exec]. destruct (al_realloc a q n) as [[p mv] a'] eqn:E.
  cbn [fst snd]. assert (al_rep a' (if p =? NULL then B else <[p := n]> (delete q B)) ∧
    (p ≠ NULL → delete q B !! p = None)) as [Ha' Hp].
  { destruct (al_realloc_spec _ _ _ _ _ _ _ _ Ha Hq Hn E) as [[-> ?]|[Hf ?]]; [done|].
    pose proof (fresh_block_nonnull _ _ _ Hf). destruct (Z.eqb_spec p NULL); [done|].
    split; [done|]. intros _. eapply fresh_None; [|apply Hn|done].
    apply blocks_ok_delete, (al_rep_ok _ _ Ha). }
  split; [done|]. destruct (base_delete q B Hsub Hbq (ex_intro _ k Hq)) as [Hd Hlt]. split.
  { case_match; [done|]. apply insert_subseteq_r; [|done].
    apply (lookup_weaken_None _ (delete q B)); [apply Hp; by apply Z.eqb_neq|done]. }
  destruct a as [[[[adr st]|]|ctx] h]; cbn in E; cbn in Hc.
  - unfold sys_realloc in E. destruct (al_realloc h q (ALIGN n)) as [[p' mv'] h'].
    destruct (Z.eqb_spec p' NULL) as [->|Hp']; cbn in E; injection E as <- _ <-; cbn; [done|].
    destruct (Z.eqb_spec p' NULL); [done|]. rewrite map_size_insert_None by auto.
    rewrite map_size_delete_Some by eauto. lia.
  - unfold sys_realloc in E. destruct (al_realloc h q (ALIGN n)) as [[p' mv'] h'].
    by injection E as <- _ <-.
  - destruct (arena_realloc _ q n) as [[p' mv'] st]. by injection E as <- _ <-.
Qed.

Lemma exec_free_ok q a B :
  al_rep a B → counts_live a B → is_Some (B !! q) → base !! q = None →
  al_rep (al_free a q) (delete q B) ∧ counts_live (al_free a q) (delete q B).
Proof.
  intros Ha [Hsub Hc] [k Hq] Hbq. split; [by eapply al_free_spec|].
  destruct (base_delete q B Hsub Hbq (ex_intro _ k Hq)) as [Hd Hlt]. split; [done|].
  destruct (al_rep_pos _ _ _ _ Ha Hq) as (Hq0 & _).
  destruct a as [[[[adr st]|]|ctx] h]; cbn in Hc |- *; [|done..].
  destruct (Z.eqb_spec q NULL); [unfold NULL in *; lia|]. cbn.
  rewrite map_size_delete_Some by eauto. rewrite Hc, Z.gtb_ltb. case_match; lia.
Qed.

Lemma al_exec_ok c a B :
  al_rep a B → counts_live a B → cmd_ok c B →
  al_rep (al_exec c a B).1 (al_exec c a B).2 ∧
  counts_live (al_exec c a B).1 (al_exec c a B).2.
Proof.
  intros Ha Hc Hcmd. destruct c as [n|q n|q].
  - by apply exec_alloc_ok.
  - destruct Hcmd as (? & ? & ?). by apply exec_realloc_ok.
  - destruct Hcmd. by apply exec_free_ok.
Qed.

Lemma al_run_ok a B a' B' :
  al_run a B a' B' → al_rep a B → counts_live a B → al_rep a' B' ∧ counts_live a' B'.
Proof.
  induction 1 as [|c a B a2 B2 Hcmd _ IH]; [done|]. intros Ha Hc.
  destruct (al_exec_ok c a B Ha Hc Hcmd). by apply IH.
Qed.
End AllocProps.

Lemma create_system_ok {H} `{AllocSpec H} (libc : H) B0 :
  al_rep libc B0 → ∃ B1, B0 ⊆ B1 ∧ al_rep (beam_allocator_create_system libc) B1 ∧
    counts_live B1 (beam_allocator_create_system libc) B1.
Proof.
  intros Hl. unfold beam_allocator_create_system.
  destruct (al_alloc libc _) as [p libc1] eqn:E.
  assert (∃ B1, B0 ⊆ B1 ∧ al_rep libc1 B1) as (B1 & Hsub & Hl1).
  { destruct (al_alloc_spec _ _ _ _ _ Hl (conj (eq_refl : 0 < 32) (ltac:(lia) : 32 <= 2 ^ 62)) E)
      as [[_ ?]|[Hf ?]]; [by exists B0|]. eexists. split; [|done].
    apply insert_subseteq, (fresh_None _ _ _ (al_rep_ok _ _ Hl) (eq_refl : 0 < sizeof_system_alloc_state_t) Hf). }
  exists B1. split; [done|].
  assert (sys_rep libc1 B1) as Hs.
  { exists B1. split; [done|]. intros q. destruct (B1 !! q) eqn:Hq; [|done].
    destruct (al_rep_pos _ _ _ _ Hl1 Hq). lia. }
  unfold counts_live. case_match; (split; [exact Hs|]); simpl; split; (done || lia).
Qed.

Lemma create_arena_ok {H} `{AllocSpec H} (libc : H) B0 n :
  al_rep libc B0 → alloc_size n → al_rep (beam_allocator_create_arena libc n) ∅ ∧
    counts_live ∅ (beam_allocator_create_arena libc n) ∅.
Proof.
  intros Hl Hn. unfold beam_allocator_create_arena.
  destruct (al_alloc libc _) as [p libc1] eqn:E.
  assert (∃ B1, al_rep libc1 B1) as (B1 & Hl1).
  { destruct (al_alloc_spec _ _ _ _ _ Hl (conj (eq_refl : 0 < 32) (ltac:(lia) : 32 <= 2 ^ 62)) E)
      as [[_ ?]|[_ ?]]; by eexists. }
  case_match.
  { split; [|by split]. split; [apply blocks_ok_empty|done]. }
  destruct (al_alloc libc1 n) as [buf libc2] eqn:E2. split; [|by split].
  split; [apply blocks_ok_empty|]. cbn.
  destruct (al_alloc_spec _ _ _ _ _ Hl1 Hn E2) as [[-> _]|[(? & ? & ? & _) _]]; [by left|right].
  unfold alloc_size in Hn. split; [split_and!; simpl; done || lia|]. by intros q k Hq.
Qed.

(** C20: Both allocators, over any run: started on a fresh system allocator or
    arena, after any sequence of allocations, reallocations and frees of the
    run's own live blocks, failed requests included, the live blocks are aligned
    to eight bytes, inside the address space and pairwise disjoint, no block that
    was live before is lost, and the number of active allocations a system
    allocator reports is the number of blocks the run has live. *)
Theorem allocator_runs {H} `{AllocSpec H} (libc : H) B0 arena_size :
  al_rep libc B0 → alloc_size arena_size →
  (∃ B1, B0 ⊆ B1 ∧ ∀ a' B', al_run B1 (beam_allocator_create_system libc) B1 a' B' →
     blocks_ok B' ∧ B1 ⊆ B' ∧
     ∀ x, a'.1 = SysAllocator (Some x) →
       active_allocations (beam_allocator_get_stats a'.1) =
         Z.of_nat (size B') - Z.of_nat (size B1)) ∧
  (∀ a' B', al_run ∅ (beam_allocator_create_arena libc arena_size) ∅ a' B' → blocks_ok B').
Proof.
  intros Hl Hn. split.
  - destruct (create_system_ok libc B0 Hl) as (B1 & Hsub & Ha & Hc). exists B1. split; [done|].
    intros a' B' Hrun. destruct (al_run_ok _ _ _ _ _ Hrun Ha Hc) as [Ha' [Hb Hc']].
    split; [exact (al_rep_ok _ _ Ha')|]. split; [done|]. intros [adr st] E. by rewrite E in Hc' |- *.
  - destruct (create_arena_ok libc B0 arena_size Hl Hn) as [Ha Hc]. intros a' B' Hrun.
    destruct (al_run_ok _ _ _ _ _ Hrun Ha Hc) as [Ha' _]. exact (al_rep_ok _ _ Ha').
Qed.

(** ** The peak statistic *)

Section Churn.
Context {H : Type} `{AllocSpec H}.

(** Allocate a block and free it at once, [k] times: at most one block of
    [ALIGN n] bytes is ever live. *)
Fixpoint churn (k : nat) (n : Z) (a : beam_allocator_i * H) : option (beam_allocator_i * H) :=
  match k with
  | O => Some a
  | S k' =>
      let '(p, a) := al_alloc a n in
      if p =? NULL then None else churn k' n (al_free a p)
  end.

(** The statistics after [j] rounds. *)
Definition churned (j size : Z) : system_alloc_state_t :=
  {| total_allocated := j * size; total_freed := j; active_allocs := 0;
     peak_bytes := if j =? 0 then 0 else j * size - (j - 1) |}.

Lemma churn_round j n adr (h : H) p a' :
  alloc_size n → 0 <= j → (j + 1) * ALIGN n < 2 ^ 64 → p ≠ NULL →
  al_alloc (SysAllocator (Some (adr, churned j (ALIGN n))), h) n = (p, a') →
  ∃ h', al_free a' p = (SysAllocator (Some (adr, churned (j + 1) (ALIGN n))), h').
Proof.
  intros Hn Hj Hmax Hp E. destruct (ALIGN_bounds n Hn) as [Hb _]. unfold alloc_size in Hn.
  set (sz := ALIGN n) in *. cbn in E. unfold sys_alloc in E. fold sz in E.
  destruct (al_alloc h sz) as [q h'] eqn:Eq. destruct (Z.eqb_spec q NULL) as [->|Hq].
  { cbn in E. by injection E as <- <-. }
  cbn in E. injection E as <- <-. cbn.
  destruct (Z.eqb_spec q NULL); [done|]. exists (al_free h' q). unfold churned. cbn.
  assert (j + 1 < 2 ^ 64) by nia.
  rewrite (u64_small (j * sz + sz)) by (unfold is_u64; nia).
  rewrite (u64_small (j * sz + sz - j)) by (unfold is_u64; nia).
  rewrite (u64_small (j + 1)) by (unfold is_u64; lia).
  match goal with |- (SysAllocator (Some (_, ?x)), _) = (SysAllocator (Some (_, ?y)), _) =>
    assert (x = y) as ->; [|done] end.
  destruct (Z.eqb_spec (j + 1) 0); [lia|]. rewrite !Z.gtb_ltb. f_equal; [lia|].
  destruct (Z.eqb_spec j 0) as [->|]; case_match eqn:Hlt; (apply Z.ltb_lt in Hlt || apply Z.ltb_ge in Hlt); nia.
Qed.

(** The peak the system allocator reports is not memory in use: freeing
    adds one to the freed bytes, whatever the size of the block.  After
    allocating and freeing a block of [n] bytes [k] times, with never more than
    one block live, the reported peak is the sum of all [k] sizes less [k - 1],
    with no active allocation. *)
Theorem peak_counts_frees (libc libc1 : H) x n k a' :
  beam_allocator_create_system libc = (SysAllocator (Some x), libc1) →
  alloc_size n → (0 < k)%nat → Z.of_nat k * ALIGN n < 2 ^ 64 →
  churn k n (SysAllocator (Some x), libc1) = Some a' →
  beam_allocator_get_stats a'.1 =
    {| total_allocated_bytes := Z.of_nat k * ALIGN n; active_allocations := 0;
       peak_allocated_bytes := Z.of_nat k * ALIGN n - (Z.of_nat k - 1) |}.
Proof.
  intros Ec Hn Hk Hmax Hch.
  assert (Hind : ∀ m j adr h, 0 <= j → (j + Z.of_nat m) * ALIGN n < 2 ^ 64 →
    churn m n (SysAllocator (Some (adr, churned j (ALIGN n))), h) = Some a' →
    ∃ h', a' = (SysAllocator (Some (adr, churned (j + Z.of_nat m) (ALIGN n))), h')).
  { intros m. induction m as [|m IH]; intros j adr h Hj Hm Hrun.
    { cbn in Hrun. injection Hrun as <-. exists h. by rewrite Z.add_0_r. }
    cbn [churn] in Hrun. destruct (al_alloc _ n) as [p a1] eqn:E.
    destruct (Z.eqb_spec p NULL) as [|Hp]; [done|]. destruct (ALIGN_bounds n Hn) as [Hb _].
    unfold alloc_size in Hn.
    destruct (churn_round j n adr h p a1) as [h1 E1]; [done|done|nia|done|done|].
    rewrite E1 in Hrun. destruct (IH (j + 1) adr h1) as [h' ->]; [lia|nia|done|].
    exists h'. by replace (j + Z.of_nat (S m)) with (j + 1 + Z.of_nat m) by lia. }
  unfold beam_allocator_create_system in Ec. destruct (al_alloc libc _) as [adr l].
  case_match; [done|]. injection Ec as <- <-.
  destruct (Hind k 0 adr l) as [h' ->]; [done|done|exact Hch|].
  cbn. rewrite Z.add_0_l. by destruct (Z.eqb_spec (Z.of_nat k) 0); [lia|].
Qed.
End Churn.

(** ** Examples *)

Lemma allocator_runs_witness :
  ∃ B1, (∀ a' B', al_run B1 (beam_allocator_create_system (bump_init (2 ^ 20))) B1 a' B' →
     blocks_ok B' ∧ B1 ⊆ B') ∧
  (∀ a' B', al_run ∅ (beam_allocator_create_arena (bump_init (2 ^ 20)) 4096) ∅ a' B' → blocks_ok B').
Proof.
  destruct (allocator_runs (bump_init (2 ^ 20)) ∅ 4096) as [(B1 & _ & Hs) Har];
    [by apply bump_init_rep|by split|].
  exists B1. split; [|exact Har]. intros a' B' Hrun. by destruct (Hs a' B' Hrun) as (? & ? & _).
Defined.

Lemma peak_counts_frees_witness :
  ∃ x libc1 a', beam_allocator_create_system (bump_init (2 ^ 20)) = (SysAllocator (Some x), libc1) ∧
    churn 3 64 (SysAllocator (Some x), libc1) = Some a' ∧
    peak_allocated_bytes (beam_allocator_get_stats a'.1) = 190.
Proof.
  destruct (beam_allocator_create_system (bump_init (2 ^ 20))) as [[[x|]|] libc1] eqn:Ec;
    [|by vm_compute in Ec..].
  destruct (churn 3 64 (SysAllocator (Some x), libc1)) as [a'|] eqn:E;
    [|vm_compute in Ec; simplify_eq; by vm_compute in E].
  exists x, libc1, a'. split; [done|]. split; [done|].
  rewrite (peak_counts_frees (bump_init (2 ^ 20)) libc1 x 64 3 a' Ec); [reflexivity|by split|lia|done|exact E].
Defined.
