(* ===== verification/LinkedList.v ===== *)
(** Singly linked lists in a store of nodes.

    The mailbox (src/messaging/erl_message.c) and the run queue
    (src/scheduler/run_queue.c) both keep a [head]/[tail] list of heap nodes.
    A node store maps the addresses of the live nodes to their contents;
    dereferencing an address that is not in the store (freed, or never
    allocated) is undefined behaviour. *)
From S2P Require Import Prelude Alloc.
From stdpp Require Import options.

Record node (V : Type) : Type := Node { nval : V; nnext : Z }.
Arguments Node {V} _ _.
Arguments nval {V} _.
Arguments nnext {V} _.

Abbreviation nodes V := (gmap Z (node V)).

Section LinkedList.
Context {V : Type}.
Implicit Types (m : nodes V) (l : list (Z * V)).

(** [p->next = n] *)
Definition set_next m (p n : Z) : option (nodes V) :=
  nd ← m !! p; Some (<[p := Node (nval nd) n]> m).

(** The list segment from [p] up to (not including) [q]. *)
Fixpoint lseg m (p : Z) l (q : Z) : Prop :=
  match l with
  | [] => p = q
  | (a, v) :: l' => p = a ∧ a ≠ NULL ∧ ∃ n, m !! a = Some (Node v n) ∧ lseg m n l' q
  end.

(** Address of the last node, NULL for the empty list. *)
Definition last_addr l : Z :=
  match last l with Some (a, _) => a | None => NULL end.

(** [head] and [tail] delimit exactly the list [l], which is all the store
    holds: no dangling pointer and no unreachable node. *)
Record llist m (head : Z) l (tail : Z) : Prop := {
  ll_seg : lseg m head l NULL;
  ll_nodup : NoDup l.*1;
  ll_tail : tail = last_addr l;
  ll_dom : dom m = list_to_set l.*1;
}.

(** ** Segments *)

Lemma lseg_app m p l1 l2 q :
  lseg m p (l1 ++ l2) q ↔ ∃ r, lseg m p l1 r ∧ lseg m r l2 q.
Proof.
  revert p. induction l1 as [|[a v] l1 IH]; intros p; simpl; [naive_solver|].
  setoid_rewrite IH. naive_solver.
Qed.

Lemma lseg_ext m m' p l q :
  (∀ a, a ∈ l.*1 → m' !! a = m !! a) → lseg m p l q → lseg m' p l q.
Proof.
  revert p. induction l as [|[a v] l IH]; intros p Hext; simpl; [done|].
  intros (-> & Hn & n & Hm & Hl). split_and!; [done..|]. exists n. split.
  - rewrite Hext; [done|]. by left.
  - apply IH; [|done]. intros b Hb. apply Hext. by right.
Qed.

Lemma lseg_insert m p l q a x : a ∉ l.*1 → lseg m p l q → lseg (<[a := x]> m) p l q.
Proof.
  intros Ha. apply lseg_ext. intros b Hb. rewrite lookup_insert_ne; [done|]. by intros ->.
Qed.

Lemma lseg_delete m p l q a : a ∉ l.*1 → lseg m p l q → lseg (delete a m) p l q.
Proof.
  intros Ha. apply lseg_ext. intros b Hb. rewrite lookup_delete_ne; [done|]. by intros ->.
Qed.

Lemma lseg_null m l q : lseg m NULL l q → l = [] ∧ q = NULL.
Proof. destruct l as [|[a v] l]; simpl; [naive_solver|intros (<- & ? & _); done]. Qed.

Lemma lseg_head m p l : lseg m p l NULL → p = NULL ↔ l = [].
Proof.
  intros Hl. split; [intros ->|intros ->; exact Hl]. by apply lseg_null in Hl as [-> _].
Qed.

Lemma lseg_nonnull m p l q a : lseg m p l q → a ∈ l.*1 → a ≠ NULL.
Proof.
  revert p. induction l as [|[b v] l IH]; intros p; simpl; [intros _ Hin; by apply elem_of_nil in Hin|].
  intros (-> & Hn & n & _ & Hl) [->|Ha]%elem_of_cons; [done|by eapply IH].
Qed.

(** Redirecting the last pointer of a segment. *)
Lemma lseg_redirect m p l a v q q' :
  NoDup (l.*1 ++ [a]) → lseg m p (l ++ [(a, v)]) q →
  m !! a = Some (Node v q) ∧ lseg (<[a := Node v q']> m) p (l ++ [(a, v)]) q'.
Proof.
  intros Hnd. rewrite !lseg_app. intros (r & Hl & -> & Hn & n & Hm & ->). split; [done|].
  exists a. split.
  - apply lseg_insert; [|done]. apply NoDup_app in Hnd as (_ & Hd & _).
    intros Ha. apply (Hd a Ha). by left.
  - simpl. split_and!; [done..|]. exists q'. by rewrite lookup_insert_eq.
Qed.

(** ** Last addresses *)

Lemma last_addr_snoc l a v : last_addr (l ++ [(a, v)]) = a.
Proof. unfold last_addr. by rewrite last_snoc. Qed.

Lemma last_addr_cons x l : l ≠ [] → last_addr (x :: l) = last_addr l.
Proof. intros. unfold last_addr. destruct l; [done|by rewrite last_cons_cons]. Qed.

Lemma last_addr_app l1 l2 : l2 ≠ [] → last_addr (l1 ++ l2) = last_addr l2.
Proof.
  intros Hl. induction l1 as [|x l1 IH]; simpl; [done|].
  rewrite last_addr_cons; [done|]. by destruct l1, l2.
Qed.

Lemma last_addr_null m p l : lseg m p l NULL → last_addr l = NULL ↔ l = [].
Proof.
  intros Hl. split; [|intros ->; done].
  destruct l as [|[b w] l _] using rev_ind; [done|].
  rewrite last_addr_snoc. intros ->. exfalso.
  eapply lseg_nonnull; [done| |done]. rewrite fmap_app. apply elem_of_app. right. by left.
Qed.

(** ** The operations the program performs *)

Lemma llist_nil : llist ∅ NULL [] NULL.
Proof. split; simpl; try done. constructor. Qed.

Lemma llist_empty m h t : llist m h [] t → m = ∅ ∧ h = NULL ∧ t = NULL.
Proof.
  intros [Hs _ -> Hd]. simpl in *. split_and!; [|done..]. by apply dom_empty_iff_L.
Qed.

Lemma llist_head_null m h l t : llist m h l t → h = NULL ↔ l = [].
Proof. intros [Hs _ _ _]. by eapply lseg_head. Qed.

Lemma llist_tail_null m h l t : llist m h l t → t = NULL ↔ l = [].
Proof. intros [Hs _ -> _]. by eapply last_addr_null. Qed.

Lemma llist_mem m h l t a : llist m h l t → a ∈ dom m ↔ a ∈ l.*1.
Proof. intros [_ _ _ ->]. by rewrite elem_of_list_to_set. Qed.

(** Appending a fresh node: link it behind the tail, or make it the head. *)
Lemma llist_append m h l t a v :
  llist m h l t → a ∉ dom m → a ≠ NULL →
  let m1 := <[a := Node v NULL]> m in
  (t = NULL → llist m1 a (l ++ [(a, v)]) a) ∧
  (t ≠ NULL → ∃ m2, set_next m1 t a = Some m2 ∧ llist m2 h (l ++ [(a, v)]) a).
Proof.
  intros Hll Ha Hnn m1. rewrite (llist_mem _ _ _ _ _ Hll) in Ha.
  pose proof Hll as [Hs Hnd Ht Hd].
  assert (Hnd' : NoDup ((l ++ [(a, v)]).*1)).
  { rewrite fmap_app. apply NoDup_app. split_and!; [done| |apply NoDup_singleton].
    intros b Hb ->%list_elem_of_singleton. done. }
  assert (Hd1 : dom m1 = list_to_set (l ++ [(a, v)]).*1).
  { unfold m1. rewrite dom_insert_L, Hd, fmap_app, list_to_set_app_L. simpl. set_solver. }
  split; intros Htn.
  - apply (llist_tail_null _ _ _ _ Hll) in Htn as ->. split; simpl; try done.
    + split_and!; [done..|]. exists NULL. unfold m1. by rewrite lookup_insert_eq.
  - destruct l as [|[b w] l0 _] using rev_ind.
    { destruct Htn. by eapply llist_tail_null. }
    rewrite last_addr_snoc in Ht. subst b.
    assert (t ≠ a) as Hta.
    { intros ->. apply Ha. rewrite fmap_app. apply elem_of_app. right. by left. }
    assert (NoDup (l0.*1 ++ [t])) as Hnd0 by (by rewrite fmap_app in Hnd).
    destruct (lseg_redirect _ _ _ _ _ _ a Hnd0 Hs) as [Hmt Hs'].
    exists (<[t := Node w a]> m1). split.
    { unfold set_next, m1. rewrite lookup_insert_ne by done. rewrite Hmt. done. }
    split; [|done|by rewrite last_addr_snoc|].
    + unfold m1. rewrite insert_insert_ne by done. apply lseg_app. exists a. split.
      * by apply lseg_insert.
      * simpl. split_and!; [done..|]. exists NULL. by rewrite lookup_insert_eq.
    + rewrite dom_insert_lookup_L; [done|]. unfold m1. rewrite lookup_insert_ne by done. eauto.
Qed.

(** Popping the head. *)
Lemma llist_pop m h a v l t :
  llist m h ((a, v) :: l) t →
  h = a ∧ ∃ n, m !! a = Some (Node v n) ∧
    llist (delete a m) n l (if n =? NULL then NULL else t).
Proof.
  intros [Hs Hnd Ht Hd]. csimpl in *. destruct Hs as (-> & Hnn & n & Hm & Hs).
  apply NoDup_cons in Hnd as [Ha Hnd]. split; [done|]. exists n. split; [done|].
  split; [by apply lseg_delete|done| |].
  - pose proof (lseg_head _ _ _ Hs) as Hn. destruct (Z.eqb_spec n NULL) as [->|Hne].
    + by rewrite (proj1 Hn eq_refl).
    + rewrite Ht. apply last_addr_cons. intros ->. by apply Hne, Hn.
  - rewrite dom_delete_L, Hd. apply set_eq. intros b.
    rewrite elem_of_difference, elem_of_union, !elem_of_singleton, elem_of_list_to_set.
    split; [by intros [[?|?] ?]|]. intros Hb. split; [by right|]. congruence.
Qed.

(** A node is the tail exactly when nothing follows it. *)
Lemma llist_is_tail m h l1 a v l2 t :
  llist m h (l1 ++ (a, v) :: l2) t → a = t ↔ l2 = [].
Proof.
  intros [_ Hnd -> _]. destruct l2 as [|[b w] l2 _] using rev_ind.
  { by rewrite last_addr_snoc. }
  rewrite app_comm_cons, app_assoc, last_addr_snoc. split; [intros ->|by destruct l2].
  exfalso. rewrite fmap_app in Hnd. apply NoDup_app in Hnd as (_ & _ & Hnd). csimpl in *.
  apply NoDup_cons in Hnd as [Hb _]. apply Hb. rewrite fmap_app.
  apply elem_of_app. right. by left.
Qed.

(** Unlinking an inner node from its predecessor. *)
Lemma llist_unlink m h l0 b w a v l2 t :
  llist m h (l0 ++ (b, w) :: (a, v) :: l2) t →
  ∃ n m', m !! a = Some (Node v n) ∧ set_next m b n = Some m' ∧
    llist (delete a m') h (l0 ++ (b, w) :: l2) (if t =? a then b else t).
Proof.
  intros [Hs Hnd Ht Hd].
  replace (l0 ++ (b, w) :: (a, v) :: l2) with ((l0 ++ [(b, w)]) ++ (a, v) :: l2) in *
    by (by rewrite <- app_assoc).
  apply lseg_app in Hs as (r & Hs1 & -> & Hnn & n & Hm & Hs2).
  rewrite fmap_app in Hnd. apply NoDup_app in Hnd as (Hnd1 & Hdis & Hnd2).
  csimpl in Hnd2. apply NoDup_cons in Hnd2 as [Ha2 Hnd2].
  assert (Hnd1' : NoDup (l0.*1 ++ [b])) by (by rewrite fmap_app in Hnd1).
  destruct (lseg_redirect _ _ _ _ _ _ n Hnd1' Hs1) as [Hmb Hs1'].
  assert (b ∈ (l0 ++ [(b, w)]).*1) as Hb
    by (rewrite fmap_app; apply elem_of_app; right; by left).
  assert (Hb2 : b ∉ l2.*1) by (intros ?; apply (Hdis b Hb); by right).
  assert (Ha1 : a ∉ (l0 ++ [(b, w)]).*1) by (intros ?; apply (Hdis a); [done|by left]).
  exists n, (<[b := Node w n]> m). split; [done|]. split.
  { unfold set_next. rewrite Hmb. done. }
  replace (l0 ++ (b, w) :: l2) with ((l0 ++ [(b, w)]) ++ l2) by (by rewrite <- app_assoc).
  split.
  - apply lseg_app. exists n. split; apply lseg_delete; try done. by apply lseg_insert.
  - rewrite fmap_app. apply NoDup_app. split_and!; [done| |done].
    intros x Hx Hx2. apply (Hdis x Hx). by right.
  - destruct l2 as [|[c u] l2 _] using rev_ind.
    + rewrite app_nil_r, last_addr_snoc. rewrite last_addr_snoc in Ht. subst t.
      by rewrite Z.eqb_refl.
    + rewrite app_comm_cons, app_assoc, last_addr_snoc in Ht. subst t.
      rewrite app_assoc, last_addr_snoc. destruct (Z.eqb_spec c a) as [->|]; [|done].
      exfalso. apply Ha2. rewrite fmap_app. apply elem_of_app. right. by left.
  - rewrite dom_delete_L, dom_insert_lookup_L, Hd by eauto.
    rewrite !(fmap_app _ (l0 ++ [(b, w)])), !list_to_set_app_L. csimpl.
    apply set_eq. intros x.
    rewrite elem_of_difference, !elem_of_union, elem_of_singleton, !elem_of_list_to_set.
    split; [intros [[?|[?|?]] ?]; tauto|]. intros [Hx|Hx]; (split; [tauto|congruence]).
Qed.

End LinkedList.

(** ** Ownership of the nodes' blocks *)

(** The live blocks [B0] together with one [sz]-byte block per address. *)
Definition own_blocks (sz : Z) (ps : list Z) (B0 : blocks) : blocks :=
  foldr (λ p B, <[p := sz]> B) B0 ps.

Lemma own_blocks_lookup sz ps B0 p : p ∈ ps → own_blocks sz ps B0 !! p = Some sz.
Proof.
  induction ps as [|q ps IH]; [by intros ?%not_elem_of_nil|].
  intros Hp. csimpl. destruct (decide (q = p)) as [->|]; [by rewrite lookup_insert_eq|].
  rewrite lookup_insert_ne by done. apply IH. by apply elem_of_cons in Hp as [->|].
Qed.

Lemma own_blocks_lookup_ne sz ps B0 p : p ∉ ps → own_blocks sz ps B0 !! p = B0 !! p.
Proof.
  induction ps as [|q ps IH]; [done|]. intros [? ?]%not_elem_of_cons.
  csimpl. rewrite lookup_insert_ne by done. by apply IH.
Qed.

Lemma own_blocks_snoc sz ps B0 p :
  own_blocks sz (ps ++ [p]) B0 = <[p := sz]> (own_blocks sz ps B0).
Proof.
  induction ps as [|q ps IH]; [done|]. csimpl. rewrite IH.
  destruct (decide (p = q)) as [->|]; [done|]. by rewrite insert_insert_ne.
Qed.

Lemma own_blocks_delete sz ps1 p ps2 B0 :
  NoDup (ps1 ++ p :: ps2) → B0 !! p = None →
  delete p (own_blocks sz (ps1 ++ p :: ps2) B0) = own_blocks sz (ps1 ++ ps2) B0.
Proof.
  intros Hnd HB. induction ps1 as [|q ps1 IH]; csimpl in *.
  - apply NoDup_cons in Hnd as [Hp _]. rewrite delete_insert_id; [done|].
    by rewrite own_blocks_lookup_ne.
  - apply NoDup_cons in Hnd as [Hq Hnd].
    rewrite delete_insert_ne; [by rewrite IH|]. intros ->.
    apply Hq, elem_of_app. right. by left.
Qed.

(** Carving the blocks [ps] out of [B]. *)
Definition drop_blocks {X} (ps : list Z) (B : gmap Z X) : gmap Z X := foldr delete B ps.

Lemma drop_blocks_in {X} ps (B : gmap Z X) p : p ∈ ps → drop_blocks ps B !! p = None.
Proof.
  induction ps as [|q ps IH]; [by intros ?%not_elem_of_nil|]. csimpl. intros Hp.
  destruct (decide (q = p)) as [->|]; [by rewrite lookup_delete_eq|].
  rewrite lookup_delete_ne by done. apply IH. by apply elem_of_cons in Hp as [->|].
Qed.

Lemma drop_blocks_out {X} ps (B : gmap Z X) p : p ∉ ps → drop_blocks ps B !! p = B !! p.
Proof.
  induction ps as [|q ps IH]; [done|]. csimpl. intros [? ?]%not_elem_of_cons.
  rewrite lookup_delete_ne by done. by apply IH.
Qed.

Lemma own_drop_blocks sz ps (B : blocks) :
  (∀ p, p ∈ ps → B !! p = Some sz) → own_blocks sz ps (drop_blocks ps B) = B.
Proof.
  intros HB. apply map_eq. intros p. destruct (decide (p ∈ ps)) as [Hp|Hp].
  - by rewrite own_blocks_lookup, HB.
  - by rewrite own_blocks_lookup_ne, drop_blocks_out.
Qed.

Section Chain.
Context {A : Type} `{AllocSpec A} {V : Type}.
Implicit Types (m : nodes V) (a : A).

(** The allocator's live blocks are [B0] and one [sz]-byte block per address of
    [ps], none of which belongs to [B0]. *)
Definition owns (sz : Z) a (ps : list Z) (B0 : blocks) : Prop :=
  al_rep a (own_blocks sz ps B0) ∧ ∀ p, p ∈ ps → B0 !! p = None.

Lemma owns_intro sz a ps B :
  al_rep a B → (∀ p, p ∈ ps → B !! p = Some sz) → owns sz a ps (drop_blocks ps B).
Proof.
  intros Hrep HB. split; [by rewrite own_drop_blocks|]. intros. by apply drop_blocks_in.
Qed.

Lemma owns_alloc sz a ps B0 p a' :
  owns sz a ps B0 → alloc_size sz → al_alloc a sz = (p, a') →
  (p = NULL ∧ owns sz a' ps B0) ∨
  (p ≠ NULL ∧ (p ∉ ps) ∧ owns sz a' (ps ++ [p]) B0).
Proof.
  intros [Hrep HB] Hsz Ea.
  destruct (al_alloc_spec _ _ _ _ _ Hrep Hsz Ea) as [[-> Hrep']|[Hf Hrep']].
  { left. by repeat split. }
  right. pose proof (fresh_block_nonnull _ _ _ Hf) as Hpn.
  assert (own_blocks sz ps B0 !! p = None) as Hpf.
  { eapply fresh_block_None; [done| |done]. unfold alloc_size in Hsz. lia. }
  assert (p ∉ ps) as Hps by (intros Hin; by rewrite own_blocks_lookup in Hpf).
  rewrite own_blocks_lookup_ne in Hpf by done.
  split_and!; [done..|]. split; [by rewrite own_blocks_snoc|].
  intros q [Hq|Hq]%elem_of_app; [by apply HB|].
  apply list_elem_of_singleton in Hq as ->. done.
Qed.

Lemma owns_free sz a ps1 p ps2 B0 :
  owns sz a (ps1 ++ p :: ps2) B0 → NoDup (ps1 ++ p :: ps2) →
  owns sz (al_free a p) (ps1 ++ ps2) B0.
Proof.
  intros [Hrep HB] Hnd.
  assert (p ∈ ps1 ++ p :: ps2) as Hp by (apply elem_of_app; right; by left).
  split.
  - rewrite <- (own_blocks_delete sz ps1 p ps2 B0) by auto.
    eapply al_free_spec; [done|]. by apply own_blocks_lookup.
  - intros q Hq. apply HB. apply elem_of_app in Hq as [?|?]; apply elem_of_app; [by left|].
    right. by right.
Qed.

(** The destruction loops: free a node, move to the [next] read before the
    free.  A node visited twice would be read after its free, so the store
    shrinks at every iteration and [size m] iterations are enough. *)
Fixpoint free_chain (fuel : nat) m a (p : Z) : option (nodes V * A) :=
  if p =? NULL then Some (m, a)
  else
    match fuel with
    | O => None
    | S fuel' => nd ← m !! p; free_chain fuel' (delete p m) (al_free a p) (nnext nd)
    end.

Lemma free_chain_spec sz m a h l t B0 :
  llist m h l t → owns sz a l.*1 B0 →
  ∃ a', free_chain (size m) m a h = Some (∅, a') ∧ al_rep a' B0.
Proof.
  revert m a h t. induction l as [|[p v] l IH]; intros m a h t Hll Hown.
  - destruct (llist_empty _ _ _ Hll) as (-> & -> & _). destruct Hown.
    exists a. by destruct (size ∅).
  - pose proof Hll as [_ Hnd _ Hd]. pose proof (llist_head_null _ _ _ _ Hll) as Hh.
    apply llist_pop in Hll as (-> & n & Hm & Hll). csimpl in *.
    assert (size m = S (size (delete p m))) as ->.
    { rewrite map_size_delete, Hm. assert (size m ≠ 0%nat); [|lia].
      apply map_size_ne_0_lookup_2 with p. eauto. }
    simpl. destruct (Z.eqb_spec p NULL); [by destruct Hh as [Hh _]; discriminate Hh|].
    rewrite Hm. simpl. apply (IH _ _ _ _ Hll). exact (owns_free sz a [] p l.*1 B0 Hown Hnd).
Qed.
End Chain.
