(* ===== verification/HashChain.v ===== *)
(** Hash tables with chained buckets.

    The ETS tables (src/global/ets.c) and the atom table
    (src/global/atom_table.c) keep an array of bucket heads over heap nodes
    linked by [next].  This file has the loops they share (search, unlink,
    destruction) and their specification against the lists of the buckets. *)
From S2P Require Import Prelude Alloc LinkedList.
From stdpp Require Import options.

(** ** Lists of lists *)

Lemma concat_insert_perm {X} (L : list (list X)) i l l' :
  L !! i = Some l → ∃ R, concat L ≡ₚ l ++ R ∧ concat (<[i := l']> L) ≡ₚ l' ++ R.
Proof.
  intros Hi. pose proof (lookup_lt_Some _ _ _ Hi).
  exists (concat (take i L ++ drop (S i) L)). split.
  - rewrite <- (take_drop_middle _ _ _ Hi) at 1. rewrite !concat_app. csimpl. solve_Permutation.
  - rewrite insert_take_drop by done. rewrite !concat_app. csimpl. solve_Permutation.
Qed.

Section Chain.
Context {V : Type}.
Implicit Types (m : nodes V) (l : list (Z * V)) (test : V → bool).

(** [while (entry) { if (test) return entry; entry = entry->next; }]: [None]
    when a dangling pointer is followed or the chain is cyclic. *)
Fixpoint find_node (fuel : nat) m (p : Z) test : option (option (Z * V)) :=
  if p =? NULL then Some None
  else
    match fuel with
    | O => None
    | S fuel' =>
        nd ← m !! p;
        if test (nval nd) then Some (Some (p, nval nd)) else find_node fuel' m (nnext nd) test
    end.

(** The pointer-to-pointer loop [while ( *curr) { ...; curr = &( *curr)->next; }]:
    where [curr] points ([None] for the bucket slot, [Some p] for [p->next]),
    the matching node and its [next]. *)
Fixpoint find_slot (fuel : nat) m (slot : option Z) (p : Z) test
    : option (option (option Z * Z * Z)) :=
  if p =? NULL then Some None
  else
    match fuel with
    | O => None
    | S fuel' =>
        nd ← m !! p;
        if test (nval nd) then Some (Some (slot, p, nnext nd))
        else find_slot fuel' m (Some p) (nnext nd) test
    end.

(** [entry->field = ...] *)
Definition set_val m (p : Z) (v : V) : option (nodes V) :=
  nd ← m !! p; Some (<[p := Node v (nnext nd)]> m).

(** ** Lists of nodes *)

(** The first node whose contents satisfy the test, with what surrounds it. *)
Fixpoint split_first test l : option (list (Z * V) * (Z * V) * list (Z * V)) :=
  match l with
  | [] => None
  | x :: l' =>
      if test x.2 then Some ([], x, l')
      else '(l1, y, l2) ← split_first test l'; Some (x :: l1, y, l2)
  end.

Lemma split_first_Some test l l1 x l2 :
  split_first test l = Some (l1, x, l2) →
  l = l1 ++ x :: l2 ∧ test x.2 = true ∧ Forall (λ y, test y.2 = false) l1.
Proof.
  revert l1 x l2. induction l as [|y l IH]; intros l1 x l2; simpl; [done|].
  destruct (test y.2) eqn:Ht; [intros; by simplify_eq|]. intros Hb.
  apply bind_Some in Hb as ([[l1' x'] l2'] & Hs & Hb). simplify_eq.
  destruct (IH _ _ _ Hs) as (-> & ? & ?). split_and!; [done..|by constructor].
Qed.

Lemma split_first_None test l :
  split_first test l = None ↔ Forall (λ y, test y.2 = false) l.
Proof.
  induction l as [|y l IH]; simpl; [done|]. rewrite Forall_cons.
  destruct (test y.2); [split; [done|by intros [? _]]|].
  rewrite <- IH. destruct (split_first test l) as [[[??]?]|]; naive_solver.
Qed.

Lemma find_node_spec fuel m p l test :
  lseg m p l NULL → (length l <= fuel)%nat →
  find_node fuel m p test = Some (match split_first test l with
                                  | Some (_, x, _) => Some x | None => None end).
Proof.
  revert m p fuel. induction l as [|[a v] l IH]; intros m p fuel Hl Hf; simpl in *.
  - subst. by destruct fuel.
  - destruct Hl as (-> & Hn & n & Hm & Hl). destruct fuel as [|fuel]; [lia|]. simpl.
    destruct (Z.eqb_spec a NULL); [done|]. rewrite Hm. simpl.
    destruct (test v); [done|]. rewrite (IH _ _ _ Hl) by lia.
    by destruct (split_first test l) as [[[??]?]|].
Qed.

Lemma find_slot_spec fuel m slot p l test :
  lseg m p l NULL → (length l <= fuel)%nat →
  find_slot fuel m slot p test =
    Some (match split_first test l with
          | Some (l1, x, l2) =>
              Some (match last l1 with Some y => Some y.1 | None => slot end, x.1,
                    match l2 with y :: _ => y.1 | [] => NULL end)
          | None => None
          end).
Proof.
  revert m p slot fuel. induction l as [|[a v] l IH]; intros m p slot fuel Hl Hf; simpl in *.
  - subst. by destruct fuel.
  - destruct Hl as (-> & Hn & n & Hm & Hl). destruct fuel as [|fuel]; [lia|]. simpl.
    destruct (Z.eqb_spec a NULL); [done|]. rewrite Hm. simpl. destruct (test v).
    + simpl. destruct l as [|[b w] l]; simpl in Hl; [by subst|]. by destruct Hl as [-> _].
    + rewrite (IH _ _ _ _ Hl) by lia. destruct (split_first test l) as [[[l1 x] l2]|]; [|done].
      simpl. destruct l1 as [|y l1]; [done|]. rewrite last_cons_cons. by destruct (last (y :: l1)) eqn:E; [|apply last_None in E].
Qed.

(** ** Bucket arrays *)

(** The buckets hold the lists [L], which are all the nodes of the store. *)
Record chains m (heads : list Z) (L : list (list (Z * V))) : Prop := {
  ch_seg : Forall2 (λ h l, lseg m h l NULL) heads L;
  ch_nodup : NoDup (concat L).*1;
  ch_dom : dom m = list_to_set (concat L).*1;
}.

Lemma chains_empty n : chains ∅ (replicate n NULL) (replicate n []).
Proof.
  assert (concat (replicate n ([] : list (Z * V))) = []) as E.
  { induction n; [done|]. done. }
  split; rewrite ?E; [|constructor|by rewrite dom_empty_L].
  apply Forall2_replicate. done.
Qed.

Lemma chains_size m heads L : chains m heads L → size m = length (concat L).
Proof.
  intros [_ Hnd Hd]. rewrite <- size_dom, Hd, size_list_to_set by done. by rewrite length_fmap.
Qed.

Lemma chains_bucket m heads L i l :
  chains m heads L → L !! i = Some l →
  ∃ h, heads !! i = Some h ∧ lseg m h l NULL ∧ (length l <= size m)%nat.
Proof.
  intros Hc Hi. pose proof Hc as [Hs _ _].
  destruct (Forall2_lookup_r _ _ _ _ _ Hs Hi) as (h & Hh & Hl). exists h.
  split_and!; [done..|]. rewrite (chains_size _ _ _ Hc).
  rewrite <- (take_drop_middle _ _ _ Hi), concat_app, length_app. csimpl.
  rewrite length_app. lia.
Qed.

Lemma chains_find m heads L i l test :
  chains m heads L → L !! i = Some l →
  ∃ h, heads !! i = Some h ∧
    find_node (size m) m h test = Some (match split_first test l with
                                        | Some (_, x, _) => Some x | None => None end).
Proof.
  intros Hc Hi. destruct (chains_bucket _ _ _ _ _ Hc Hi) as (h & Hh & Hl & Hs).
  exists h. split; [done|]. by apply find_node_spec.
Qed.

Lemma chains_mem m heads L a : chains m heads L → a ∈ dom m ↔ a ∈ (concat L).*1.
Proof. intros [_ _ ->]. by rewrite elem_of_list_to_set. Qed.

Lemma segs_ext m m' heads L :
  Forall2 (λ h l, lseg m h l NULL) heads L →
  (∀ a, a ∈ (concat L).*1 → m' !! a = m !! a) →
  Forall2 (λ h l, lseg m' h l NULL) heads L.
Proof.
  induction 1 as [|h l heads L Hl _ IH]; intros Hext; constructor.
  - eapply lseg_ext; [|done]. intros a Ha. apply Hext. csimpl. rewrite fmap_app. set_solver.
  - apply IH. intros a Ha. apply Hext. csimpl. rewrite fmap_app. set_solver.
Qed.

(** Replacing one bucket, when the new list is a rearrangement of its own nodes
    and fresh ones. *)
Lemma chains_replace m heads L i l l' m' h' :
  chains m heads L → L !! i = Some l → lseg m' h' l' NULL → NoDup l'.*1 →
  (∀ a, a ∉ l.*1 → a ∉ l'.*1 → m' !! a = m !! a) →
  (∀ a, a ∈ l'.*1 → a ∈ l.*1 ∨ a ∉ dom m) →
  (∀ a, a ∈ l.*1 → a ∉ l'.*1 → m' !! a = None) →
  chains m' (<[i := h']> heads) (<[i := l']> L).
Proof.
  intros Hc Hi Hl' Hnd' Hout Hin Hgone. pose proof Hc as [Hs Hnd Hd].
  pose proof (lookup_lt_Some _ _ _ Hi) as Hlt.
  rewrite <- (take_drop_middle _ _ _ Hi) in Hs, Hnd, Hd.
  apply Forall2_app_inv_r in Hs as (H1 & H2' & Hs1 & Hs2 & ->).
  apply Forall2_cons_inv_r in Hs2 as (h & H2 & Hl & Hs2 & ->).
  set (L1 := take i L) in *. set (L2 := drop (S i) L) in *.
  assert (Hperm : ∀ l0, (concat (L1 ++ l0 :: L2)).*1 ≡ₚ l0.*1 ++ (concat (L1 ++ L2)).*1).
  { intros l0. rewrite !concat_app. csimpl. rewrite !fmap_app. solve_Permutation. }
  rewrite Hperm in Hnd. apply NoDup_app in Hnd as (Hnl & Hdis & Hnr).
  assert (Hd' : ∀ a, is_Some (m !! a) ↔ a ∈ l.*1 ∨ a ∈ (concat (L1 ++ L2)).*1).
  { intros a. rewrite <- elem_of_dom, Hd, elem_of_list_to_set, Hperm. apply elem_of_app. }
  assert (Hdis' : ∀ a, a ∈ l'.*1 → a ∉ (concat (L1 ++ L2)).*1).
  { intros a Ha Hr. destruct (Hin a Ha) as [Hal|Had]; [by apply (Hdis a)|].
    apply Had. rewrite elem_of_dom, Hd'. by right. }
  assert (Hrest : ∀ a, a ∈ (concat (L1 ++ L2)).*1 → m' !! a = m !! a).
  { intros a Ha. apply Hout; intros ?; [by apply (Hdis a)|by apply (Hdis' a)]. }
  assert (length H1 = i) as Hlen.
  { apply Forall2_length in Hs1. unfold L1 in Hs1. rewrite length_take in Hs1. lia. }
  assert (<[i := h']> (H1 ++ h :: H2) = H1 ++ h' :: H2) as ->.
  { rewrite <- Hlen, insert_app_r_alt by lia. by rewrite Nat.sub_diag. }
  assert (<[i := l']> L = L1 ++ l' :: L2) as -> by (by rewrite insert_take_drop).
  rewrite concat_app, fmap_app in Hrest.
  split.
  - apply Forall2_app; [|constructor; [done|]]; (eapply segs_ext; [done|]);
      intros a Ha; apply Hrest, elem_of_app; auto.
  - rewrite Hperm. by apply NoDup_app.
  - apply set_eq. intros a. rewrite elem_of_list_to_set, Hperm, elem_of_app, elem_of_dom.
    split.
    + intros Ha. destruct (decide (a ∈ l'.*1)) as [|Hna]; [by left|right].
      destruct (decide (a ∈ l.*1)) as [Hal|Hal].
      { rewrite (Hgone a Hal Hna) in Ha. by destruct Ha. }
      rewrite (Hout a Hal Hna) in Ha. apply Hd' in Ha as [?|?]; done.
    + intros [Ha|Ha].
      * apply list_elem_of_fmap in Ha as ([b v] & -> & Ha). apply list_elem_of_split in Ha as (l1 & l2 & ->).
        apply lseg_app in Hl' as (r & _ & -> & _ & n & Hm & _). simpl. eauto.
      * rewrite concat_app, fmap_app in Ha. rewrite Hrest by done. apply Hd'. right.
        by rewrite concat_app, fmap_app.
Qed.

(** ** The operations of the tables *)

Lemma chains_nodup_bucket m heads L i l :
  chains m heads L → L !! i = Some l → NoDup l.*1.
Proof.
  intros [_ Hnd _] Hi. rewrite <- (take_drop_middle _ _ _ Hi), concat_app in Hnd. csimpl in Hnd.
  rewrite !fmap_app in Hnd. apply NoDup_app in Hnd as (_ & _ & Hnd).
  by apply NoDup_app in Hnd as (? & _).
Qed.

(** A fresh node in front of its bucket. *)
Lemma chains_push m heads L i l h a v :
  chains m heads L → L !! i = Some l → heads !! i = Some h → a ∉ dom m → a ≠ NULL →
  chains (<[a := Node v h]> m) (<[i := a]> heads) (<[i := (a, v) :: l]> L).
Proof.
  intros Hc Hi Hh Ha Hn. destruct (chains_bucket _ _ _ _ _ Hc Hi) as (h' & Hh' & Hl & _).
  simplify_eq. pose proof (chains_nodup_bucket _ _ _ _ _ Hc Hi) as Hnd.
  assert (a ∉ l.*1) as Hal.
  { intros Hin. apply Ha. rewrite (chains_mem _ _ _ _ Hc).
    apply list_elem_of_fmap in Hin as (x & -> & Hx). apply list_elem_of_fmap.
    exists x. split; [done|]. apply elem_of_concat. exists l. split; [done|].
    by eapply list_elem_of_lookup_2. }
  apply (chains_replace m heads L i l); try done.
  - simpl. split_and!; [done..|]. exists h. rewrite lookup_insert_eq. split; [done|].
    by apply lseg_insert.
  - csimpl. by constructor.
  - intros b _. csimpl. intros [Hb _]%not_elem_of_cons. by rewrite lookup_insert_ne.
  - intros b. csimpl. intros [->|Hb]%elem_of_cons; auto.
  - intros b Hb. csimpl. intros [_ ?]%not_elem_of_cons. done.
Qed.

(** Overwriting the contents of a node. *)
Lemma chains_set_val m heads L i l1 a v l2 v' :
  chains m heads L → L !! i = Some (l1 ++ (a, v) :: l2) →
  ∃ m', set_val m a v' = Some m' ∧ chains m' heads (<[i := l1 ++ (a, v') :: l2]> L).
Proof.
  intros Hc Hi. destruct (chains_bucket _ _ _ _ _ Hc Hi) as (h & Hh & Hl & _).
  pose proof (chains_nodup_bucket _ _ _ _ _ Hc Hi) as Hnd.
  apply lseg_app in Hl as (r & Hl1 & -> & Hn & n & Hm & Hl2).
  exists (<[a := Node v' n]> m). split; [unfold set_val; by rewrite Hm|].
  rewrite fmap_app in Hnd. csimpl in Hnd.
  assert ((a ∉ l1.*1) ∧ (a ∉ l2.*1)) as [Ha1 Ha2].
  { apply NoDup_app in Hnd as (_ & Hd & Hnd). apply NoDup_cons in Hnd as [? _].
    split; [|done]. intros Hin. apply (Hd a Hin). by left. }
  rewrite <- (list_insert_id heads i h) by done.
  apply (chains_replace m heads L i (l1 ++ (a, v) :: l2)); try done.
  - apply lseg_app. exists a. split; [by apply lseg_insert|]. simpl. split_and!; [done..|].
    exists n. rewrite lookup_insert_eq. split; [done|]. by apply lseg_insert.
  - by rewrite fmap_app.
  - intros b Hb _. rewrite lookup_insert_ne; [done|]. intros ->. apply Hb.
    rewrite fmap_app. apply elem_of_app. right. by left.
  - intros b Hb. left. by rewrite fmap_app in Hb |- *.
  - intros b Hb Hnb. rewrite fmap_app in Hb, Hnb. done.
Qed.

(** Address of the first node of a list. *)
Definition head_addr l : Z := match l with [] => NULL | y :: _ => y.1 end.

Lemma lseg_head_addr m p l : lseg m p l NULL → p = head_addr l.
Proof. destruct l as [|[a v] l]; simpl; [done|by intros [-> _]]. Qed.

(** Writing the successor of the removed node where [curr] points. *)
Definition write_slot m (heads : list Z) (i : nat) (slot : option Z) (next : Z)
    : option (nodes V * list Z) :=
  match slot with
  | None => Some (m, <[i := next]> heads)
  | Some p => m ← set_next m p next; Some (m, heads)
  end.

Lemma chains_unlink m heads L i l1 a v l2 :
  chains m heads L → L !! i = Some (l1 ++ (a, v) :: l2) →
  ∃ m' heads', write_slot m heads i (fst <$> last l1) (head_addr l2) = Some (m', heads') ∧
    chains (delete a m') heads' (<[i := l1 ++ l2]> L).
Proof.
  intros Hc Hi. destruct (chains_bucket _ _ _ _ _ Hc Hi) as (h & Hh & Hl & _).
  pose proof (chains_nodup_bucket _ _ _ _ _ Hc Hi) as Hnd.
  apply lseg_app in Hl as (r & Hl1 & -> & Hn & n & Hm & Hl2).
  rewrite fmap_app in Hnd. csimpl in Hnd.
  assert ((a ∉ l1.*1) ∧ (a ∉ l2.*1)) as [Ha1 Ha2].
  { apply NoDup_app in Hnd as (_ & Hd & Hnd). apply NoDup_cons in Hnd as [? _].
    split; [|done]. intros Hin. apply (Hd a Hin). by left. }
  assert (Hnd' : NoDup (l1 ++ l2).*1).
  { rewrite fmap_app. apply NoDup_app in Hnd as (? & Hd & Hnd).
    apply NoDup_cons in Hnd as [_ ?]. apply NoDup_app. split_and!; [done| |done].
    intros b Hb ?. apply (Hd b Hb). by right. }
  assert (Hab : ∀ b, b ∈ (l1 ++ (a, v) :: l2).*1 → b ∉ (l1 ++ l2).*1 → b = a).
  { intros b. rewrite !fmap_app. csimpl. rewrite !elem_of_app, elem_of_cons. tauto. }
  assert (Hin : ∀ b, b ∈ (l1 ++ l2).*1 → b ∈ (l1 ++ (a, v) :: l2).*1).
  { intros b. rewrite !fmap_app. csimpl. rewrite !elem_of_app, elem_of_cons. tauto. }
  rewrite <- (lseg_head_addr _ _ _ Hl2).
  destruct l1 as [|[b w] l1 _] using rev_ind.
  - simpl. eexists _, _. split; [done|]. simpl in *. subst.
    apply (chains_replace m heads L i ((a, v) :: l2)); try done.
    + by apply lseg_delete.
    + intros b Hb _. rewrite lookup_delete_ne; [done|]. intros ->. apply Hb. by left.
    + intros b Hb. left. by apply Hin.
    + intros b Hb Hnb. rewrite (Hab b) by done. apply lookup_delete_eq.
  - rewrite last_snoc. simpl.
    assert (NoDup (l1.*1 ++ [b])) as Hndb.
    { rewrite fmap_app in Hnd. by apply NoDup_app in Hnd as (? & _). }
    destruct (lseg_redirect _ _ _ _ _ _ n Hndb Hl1) as [Hmb Hl1'].
    unfold set_next. rewrite Hmb. simpl. eexists _, _. split; [done|].
    rewrite <- (list_insert_id heads i h) by done.
    apply (chains_replace m heads L i ((l1 ++ [(b, w)]) ++ (a, v) :: l2)); try done.
    + apply lseg_app. exists n. split; apply lseg_delete; try done.
      apply lseg_insert; [|done]. apply NoDup_app in Hnd as (_ & Hd & _).
      intros Hb. apply (Hd b); [rewrite fmap_app; apply elem_of_app; right; by left|by right].
    + intros c Hc1 Hc2. assert (c ≠ a ∧ c ≠ b) as [? ?].
      { split; intros ->; apply Hc1; rewrite !fmap_app; csimpl; set_solver. }
      by rewrite lookup_delete_ne, lookup_insert_ne.
    + intros c Hc0. left. by apply Hin.
    + intros c Hc1 Hc2. rewrite (Hab c) by done. apply lookup_delete_eq.
Qed.

End Chain.

(** ** Destruction *)

Section Destroy.
Context {A : Type} `{AllocSpec A} {V : Type}.
Implicit Types (m : nodes V) (l : list (Z * V)) (a : A).

(** One bucket: [act] frees what belongs to a node, after its [next] is read. *)
Fixpoint free_nodes (act : Z → V → A → A) (fuel : nat) m a (p : Z) : option (nodes V * A) :=
  if p =? NULL then Some (m, a)
  else
    match fuel with
    | O => None
    | S fuel' =>
        nd ← m !! p;
        free_nodes act fuel' (delete p m) (act p (nval nd) a) (nnext nd)
    end.

Fixpoint free_buckets (act : Z → V → A → A) m a (heads : list Z) : option (nodes V * A) :=
  match heads with
  | [] => Some (m, a)
  | h :: heads' => '(m, a) ← free_nodes act (size m) m a h; free_buckets act m a heads'
  end.

Lemma drop_blocks_app {X} ps qs (B : gmap Z X) :
  drop_blocks (ps ++ qs) B = drop_blocks qs (drop_blocks ps B).
Proof.
  apply map_eq. intros x. destruct (decide (x ∈ qs)).
  - rewrite !drop_blocks_in; [done..|]. apply elem_of_app. by right.
  - rewrite (drop_blocks_out qs) by done. destruct (decide (x ∈ ps)).
    + rewrite !drop_blocks_in; [done..|]. apply elem_of_app. by left.
    + rewrite !drop_blocks_out; [done..|]. rewrite elem_of_app. tauto.
Qed.

Variable act : Z → V → A → A.
(** The blocks that belong to a node. *)
Variable adr : Z * V → list Z.
Hypothesis act_spec : ∀ a B p v,
  al_rep a B → NoDup (adr (p, v)) → (∀ q, q ∈ adr (p, v) → is_Some (B !! q)) →
  al_rep (act p v a) (drop_blocks (adr (p, v)) B).

Lemma free_nodes_spec fuel m a p l B :
  lseg m p l NULL → NoDup l.*1 → (length l <= fuel)%nat → al_rep a B →
  NoDup (concat (adr <$> l)) → (∀ q, q ∈ concat (adr <$> l) → is_Some (B !! q)) →
  ∃ a', free_nodes act fuel m a p = Some (drop_blocks l.*1 m, a') ∧
    al_rep a' (drop_blocks (concat (adr <$> l)) B).
Proof using act_spec.
  revert m a p fuel B. induction l as [|[b v] l IH]; intros m a p fuel B Hl Hnd Hf Ha Hna HB.
  - simpl in *. subst. exists a. by destruct fuel.
  - csimpl in *. destruct Hl as (-> & Hn & n & Hm & Hl). destruct fuel as [|fuel]; [lia|].
    apply NoDup_cons in Hnd as [Hb Hnd]. apply NoDup_app in Hna as (Hna1 & Hd & Hna2).
    csimpl. destruct (Z.eqb_spec b NULL); [done|]. rewrite Hm. csimpl.
    assert (Ha' := act_spec a B b v Ha Hna1 (λ q Hq, HB q (proj2 (elem_of_app _ _ _) (or_introl Hq)))).
    destruct (IH (delete b m) (act b v a) n fuel (drop_blocks (adr (b, v)) B))
      as (a' & -> & Ha2); try done.
    + by apply lseg_delete.
    + lia.
    + intros q Hq. rewrite drop_blocks_out; [|by intros ?; apply (Hd q)].
      apply HB, elem_of_app. by right.
    + exists a'. rewrite drop_blocks_app. split; [|done].
      by rewrite <- (drop_blocks_app [b] l.*1 m).
Qed.

Lemma lseg_drop m h l ns :
  (∀ x, x ∈ ns → x ∉ l.*1) → lseg m h l NULL → lseg (drop_blocks ns m) h l NULL.
Proof. intros Hns. apply lseg_ext. intros a Ha. apply drop_blocks_out. intros Hin. by apply (Hns a). Qed.

Lemma lseg_length m h l : lseg m h l NULL → NoDup l.*1 → (length l <= size m)%nat.
Proof.
  intros Hl Hnd. rewrite <- size_dom, <- (length_fmap fst), <- (size_list_to_set (C := gset Z)) by done.
  apply subseteq_size. intros a. rewrite elem_of_list_to_set, elem_of_dom.
  intros Ha. apply list_elem_of_fmap in Ha as ([b v] & -> & Ha).
  apply list_elem_of_split in Ha as (l1 & l2 & ->).
  apply lseg_app in Hl as (r & _ & -> & _ & n & Hm & _). simpl. eauto.
Qed.

(** Every node of every bucket is freed, with everything that belongs to it. *)
Lemma free_buckets_spec m a heads (L : list (list (Z * V))) B :
  Forall2 (λ h l, lseg m h l NULL) heads L → NoDup (concat L).*1 → al_rep a B →
  NoDup (concat (adr <$> concat L)) →
  (∀ q, q ∈ concat (adr <$> concat L) → is_Some (B !! q)) →
  ∃ m' a', free_buckets act m a heads = Some (m', a') ∧
    al_rep a' (drop_blocks (concat (adr <$> concat L)) B).
Proof using act_spec.
  revert m a heads B. induction L as [|l L IH]; intros m0 a heads B HL Hnd Ha Hna HB.
  - apply Forall2_nil_inv_r in HL as ->. simpl. eauto.
  - apply Forall2_cons_inv_r in HL as (h & heads' & Hl & HL & ->). csimpl in *.
    rewrite (fmap_app fst) in Hnd. rewrite (fmap_app adr), concat_app in Hna, HB.
    rewrite (fmap_app adr), concat_app.
    apply NoDup_app in Hnd as (Hnd1 & Hd & Hnd2).
    apply NoDup_app in Hna as (Hna1 & Hda & Hna2).
    destruct (free_nodes_spec (size m0) m0 a h l B) as (a1 & -> & Ha1); try done.
    { by apply (lseg_length _ h). }
    { intros q Hq. apply HB, elem_of_app. by left. }
    csimpl. rewrite drop_blocks_app. apply IH; try done.
    + eapply segs_ext; [done|]. intros x Hx. apply drop_blocks_out. intros Hin.
      by apply (Hd x).
    + intros q Hq. rewrite drop_blocks_out; [|by intros ?; apply (Hda q)].
      apply HB, elem_of_app. by right.
Qed.

End Destroy.
