(* ===== verification/Blocks.v ===== *)
(** Accounting of live blocks: what a structure adds to the live blocks of the
    allocator when it is built, and gives back when it is destroyed. *)
From S2P Require Import Prelude Alloc LinkedList HashChain.
From stdpp Require Import options.

(** [B'] is [B] with the blocks [ps] added. *)
Record holds (B B' : blocks) (ps : list Z) : Prop := {
  ho_nodup : NoDup ps;
  ho_live q : q ∈ ps → is_Some (B' !! q);
  ho_drop : drop_blocks ps B' = B;
}.

Lemma holds_nil B : holds B B [].
Proof. split; [constructor| |done]. intros q Hq. by apply not_elem_of_nil in Hq. Qed.

Lemma holds_new B B' ps q : holds B B' ps → q ∈ ps → B !! q = None.
Proof. intros [_ _ <-] Hq. by apply drop_blocks_in. Qed.

Lemma holds_old B B' ps q : holds B B' ps → q ∉ ps → B' !! q = B !! q.
Proof. intros [_ _ <-] Hq. by rewrite drop_blocks_out. Qed.

Lemma drop_blocks_ext {X} ps qs (B : gmap Z X) :
  (∀ q, q ∈ ps ↔ q ∈ qs) → drop_blocks ps B = drop_blocks qs B.
Proof.
  intros E. apply map_eq. intros q. destruct (decide (q ∈ ps)) as [Hin|Hout].
  - rewrite !drop_blocks_in; [done|by apply E|done].
  - rewrite !drop_blocks_out; [done| |done]. by rewrite <-E.
Qed.

Lemma holds_perm B B' ps qs : ps ≡ₚ qs → holds B B' ps → holds B B' qs.
Proof.
  intros E [Hn Hl Hd]. split.
  - by rewrite <-E.
  - intros q. rewrite <-E. apply Hl.
  - rewrite <-Hd. apply drop_blocks_ext. intros q. by rewrite E.
Qed.

Lemma holds_insert B B' ps q n :
  holds B B' ps → B' !! q = None → holds B (<[q := n]> B') (q :: ps).
Proof.
  intros Hh Hq. assert (q ∉ ps) as Hnin.
  { intros Hin. destruct (ho_live _ _ _ Hh q Hin). congruence. }
  destruct Hh as [Hn Hl Hd]. split.
  - by constructor.
  - intros r [->|Hr]%elem_of_cons; [rewrite lookup_insert_eq; eauto|].
    rewrite lookup_insert_ne; [by apply Hl|]. by intros ->.
  - rewrite <-Hd. apply map_eq. intros r. destruct (decide (r ∈ q :: ps)) as [Hin|Hout].
    + rewrite drop_blocks_in; [|done]. apply elem_of_cons in Hin as [->|Hin].
      * by rewrite drop_blocks_out.
      * by rewrite drop_blocks_in.
    + rewrite drop_blocks_out; [|done]. apply not_elem_of_cons in Hout as [? ?].
      by rewrite lookup_insert_ne, drop_blocks_out.
Qed.

Lemma holds_delete B B' ps q : holds B B' (q :: ps) → holds B (delete q B') ps.
Proof.
  intros [[Hq Hn]%NoDup_cons Hl Hd]. split; [done| |].
  - intros r Hr. rewrite lookup_delete_ne; [apply Hl; by right|]. by intros ->.
  - rewrite <-Hd. simpl. apply map_eq. intros r.
    destruct (decide (r ∈ ps)) as [Hin|Hout].
    + rewrite drop_blocks_in by done. destruct (decide (r = q)) as [->|]; [done|].
      by rewrite lookup_delete_ne, drop_blocks_in.
    + rewrite drop_blocks_out by done. destruct (decide (r = q)) as [->|].
      * by rewrite !lookup_delete_eq.
      * by rewrite !lookup_delete_ne, drop_blocks_out.
Qed.

Lemma holds_trans B1 B2 B3 ps qs :
  holds B1 B2 ps → holds B2 B3 qs → holds B1 B3 (qs ++ ps).
Proof.
  intros H1 H2. split.
  - apply NoDup_app. split_and!; [apply H2| |apply H1].
    intros q Hq Hp. pose proof (holds_new _ _ _ _ H2 Hq) as E.
    destruct (ho_live _ _ _ H1 q Hp). congruence.
  - intros q [Hq|Hq]%elem_of_app; [by apply H2|]. rewrite (holds_old _ _ _ q H2); [by apply H1|].
    intros Hq2. pose proof (holds_new _ _ _ _ H2 Hq2) as E.
    destruct (ho_live _ _ _ H1 q Hq). congruence.
  - by rewrite drop_blocks_app, (ho_drop _ _ _ H2), (ho_drop _ _ _ H1).
Qed.

Lemma holds_drop B B' ps : holds B B' ps → drop_blocks ps B' = B.
Proof. by intros []. Qed.

Section Blocks.
Context {A : Type} `{AllocSpec A}.
Implicit Types (a : A).

(** An allocation adds a block or fails. *)
Lemma holds_alloc a B B' ps n p a' :
  al_rep a B' → holds B B' ps → alloc_size n → al_alloc a n = (p, a') →
  (p = NULL ∧ al_rep a' B') ∨
  (p ≠ NULL ∧ al_rep a' (<[p := n]> B') ∧ holds B (<[p := n]> B') (p :: ps) ∧ B' !! p = None).
Proof.
  intros Hrep Hh Hn Hal.
  destruct (al_alloc_spec _ _ _ _ _ Hrep Hn Hal) as [?|[Hf Hrep']]; [by left|right].
  pose proof (fresh_block_None _ _ _ _ Hrep (proj1 Hn) Hf) as HNone.
  split_and!; [by eapply fresh_block_nonnull|done|by apply holds_insert|done].
Qed.

(** A free gives one back. *)
Lemma holds_free a B B' ps q :
  al_rep a B' → holds B B' (q :: ps) →
  al_rep (al_free a q) (delete q B') ∧ holds B (delete q B') ps.
Proof.
  intros Hrep Hh. destruct (ho_live _ _ _ Hh q ltac:(by left)) as [n Hn].
  split; [by eapply al_free_spec|by apply holds_delete].
Qed.

(** The live blocks are [B] and those at [ps]. *)
Definition extends a B (ps : list Z) : Prop := ∃ B', al_rep a B' ∧ holds B B' ps.

Lemma extends_nil a B : al_rep a B ↔ extends a B [].
Proof.
  split.
  - intros. exists B. split; [done|apply holds_nil].
  - intros (B' & Hrep & Hh). pose proof (holds_drop _ _ _ Hh) as E. simpl in E. by subst B'.
Qed.

Lemma extends_alloc a B ps n p a' :
  extends a B ps → alloc_size n → al_alloc a n = (p, a') →
  (p = NULL ∧ extends a' B ps) ∨ (p ≠ NULL ∧ extends a' B (p :: ps)).
Proof.
  intros (B' & Hrep & Hh) Hn Hal.
  destruct (holds_alloc _ _ _ _ _ _ _ Hrep Hh Hn Hal) as [[-> ?]|(? & ? & ? & _)];
    [left|right]; (split; [done|]); by eexists.
Qed.

Lemma extends_perm a B ps qs : ps ≡ₚ qs → extends a B ps → extends a B qs.
Proof. intros E (B' & Hrep & Hh). exists B'. split; [done|by eapply holds_perm]. Qed.

Lemma extends_free a B ps q : extends a B (q :: ps) → extends (al_free a q) B ps.
Proof.
  intros (B' & Hrep & Hh). destruct (holds_free _ _ _ _ _ Hrep Hh) as [? ?]. by eexists.
Qed.

(** Freeing a block wherever it is in the list. *)
Lemma extends_free_in a B ps qs q :
  extends a B ps → ps ≡ₚ q :: qs → extends (al_free a q) B qs.
Proof. intros Hx E. by eapply extends_free, extends_perm. Qed.

Lemma extends_nodup a B ps : extends a B ps → NoDup ps.
Proof. by intros (B' & _ & []). Qed.

(** Running a destructor that frees the blocks [qs]. *)
Lemma extends_run a B ps qs (F : option A) :
  (∀ B', al_rep a B' → NoDup qs → (∀ q, q ∈ qs → is_Some (B' !! q)) →
     ∃ a', F = Some a' ∧ al_rep a' (drop_blocks qs B')) →
  extends a B (qs ++ ps) → ∃ a', F = Some a' ∧ extends a' B ps.
Proof.
  intros HF (B' & Hrep & [Hn Hl Hd]). apply NoDup_app in Hn as (Hn1 & Hdis & Hn2).
  destruct (HF B' Hrep Hn1) as (a' & -> & Ha'). { intros q Hq. apply Hl, elem_of_app. by left. }
  exists a'. split; [done|]. exists (drop_blocks qs B'). split; [done|]. split; [done| |].
  - intros q Hq. rewrite drop_blocks_out; [apply Hl, elem_of_app; by right|].
    intros Hin. by apply (Hdis q).
  - by rewrite <-Hd, drop_blocks_app.
Qed.

(** The loop over a chain of nodes. *)
Lemma free_chain_nodes {V} fuel (m : nodes V) a p :
  free_chain fuel m a p = free_nodes (λ q _ a, al_free a q) fuel m a p.
Proof.
  revert m a p. induction fuel as [|fuel IH]; intros m a p; simpl; [done|].
  destruct (p =? NULL); [done|]. destruct (m !! p) as [nd|]; [|done]. apply IH.
Qed.

Lemma free_chain_ext {V} (m : nodes V) a h l t B ps :
  llist m h l t → extends a B (l.*1 ++ ps) →
  ∃ m' a', free_chain (size m) m a h = Some (m', a') ∧ extends a' B ps.
Proof.
  intros Hl Hx. assert (Hadr : ∀ k : list (Z * V), concat ((λ x, [x.1]) <$> k) = k.*1).
  { induction k as [|x k IH]; [done|]. csimpl. by rewrite IH. }
  destruct (extends_run a B ps l.*1 (snd <$> free_chain (size m) m a h)) as (a' & E & Hx'); [|done|].
  - intros B' Ha Hn HB. rewrite free_chain_nodes.
    destruct (free_nodes_spec (λ q (_ : V) a, al_free a q) (λ x : Z * V, [x.1])) with
      (fuel := size m) (m := m) (a := a) (p := h) (l := l) (B := B') as (a' & -> & Ha');
      rewrite ?Hadr in *; try done; try apply Hl.
    + intros a0 B0 q v Ha0 _ Hq. destruct (Hq q) as [k Hk]; [by left|]. by eapply al_free_spec.
    + apply (lseg_length m h l); apply Hl.
    + by eexists.
  - destruct (free_chain _ _ _ _) as [[m' a2]|]; simplify_eq/=. by exists m', a'.
Qed.
End Blocks.

#[export] Instance extends_proper `{AllocSpec A} (a : A) B :
  Proper ((≡ₚ) ==> iff) (extends a B).
Proof. intros ps qs E. split; by apply extends_perm. Qed.
