(* ===== verification/Mailbox.v ===== *)
(** Mailboxes: src/messaging/erl_message.c, the operations on one mailbox.

    A mailbox owns a linked list of message nodes, a tail pointer for the
    producers, and a save cursor with its predecessor for selective receive.
    The pointer-level entry points, which check for a NULL mailbox and find the
    mailbox of a process, are in the file Process. *)
From S2P Require Import Prelude Memory Term Alloc LinkedList.
From stdpp Require Import options.

(** [struct beam_mailbox] (src/messaging/erl_message_internal.h); the message
    nodes ([struct beam_message]: body, next) are in [mb_nodes]. *)
Record beam_mailbox : Type := {
  mb_head : Z;
  mb_tail : Z;
  mb_save_cursor : Z;
  mb_save_prev : Z;
  mb_atomic_count : Z;
  mb_count : Z;
  mb_nodes : nodes Z;
}.

Definition sizeof_beam_message : Z := 16.
(** head, tail, save_cursor, save_prev, atomic_count, count (8 bytes each),
    a 40-byte pthread_mutex_t and the 32-byte allocator vtable. *)
Definition sizeof_beam_mailbox : Z := 120.

Definition empty_mailbox : beam_mailbox :=
  {| mb_head := NULL; mb_tail := NULL; mb_save_cursor := NULL; mb_save_prev := NULL;
     mb_atomic_count := 0; mb_count := 0; mb_nodes := ∅ |}.

Section Mailbox.
Context {A : Type} `{AllocOps A}.
Implicit Types (mbox : beam_mailbox) (a : A).

(** The body of [beam_mailbox_enqueue], executed without interleaving. *)
Definition mailbox_enqueue mbox a (msg : Z) : option (beam_result_t * beam_mailbox * A) :=
  let '(node, a) := al_alloc a sizeof_beam_message in
  if node =? NULL then Some (BEAM_ERR_NO_MEMORY, mbox, a)
  else
    let ns := <[node := Node msg NULL]> (mb_nodes mbox) in
    let prev_tail := mb_tail mbox in
    ns' ← (if prev_tail =? NULL then Some ns else set_next ns prev_tail node);
    Some (BEAM_OK,
          {| mb_head := if prev_tail =? NULL then node else mb_head mbox;
             mb_tail := node;
             mb_save_cursor := mb_save_cursor mbox; mb_save_prev := mb_save_prev mbox;
             mb_atomic_count := u64 (mb_atomic_count mbox + 1);
             mb_count := u64 (mb_count mbox + 1); mb_nodes := ns' |}, a).

(** [*out_msg] is written exactly when the result carries a message. *)
Definition mailbox_dequeue mbox a
    : option (beam_result_t * option Z * beam_mailbox * A) :=
  if mb_head mbox =? NULL then Some (BEAM_ERR_NOT_FOUND, None, mbox, a)
  else
    nd ← mb_nodes mbox !! mb_head mbox;
    Some (BEAM_OK, Some (nval nd),
          {| mb_head := nnext nd;
             mb_tail := if nnext nd =? NULL then NULL else mb_tail mbox;
             mb_save_cursor := mb_save_cursor mbox; mb_save_prev := mb_save_prev mbox;
             mb_atomic_count := mb_atomic_count mbox;
             mb_count := if mb_count mbox >? 0 then mb_count mbox - 1 else mb_count mbox;
             mb_nodes := delete (mb_head mbox) (mb_nodes mbox) |},
          al_free a (mb_head mbox)).

Definition set_cursor mbox (cursor prev : Z) : beam_mailbox :=
  {| mb_head := mb_head mbox; mb_tail := mb_tail mbox;
     mb_save_cursor := cursor; mb_save_prev := prev;
     mb_atomic_count := mb_atomic_count mbox; mb_count := mb_count mbox;
     mb_nodes := mb_nodes mbox |}.

Definition mailbox_reset_save_cursor mbox : beam_mailbox :=
  set_cursor mbox (mb_head mbox) NULL.

Definition mailbox_peek_save mbox : option (beam_result_t * option Z * beam_mailbox) :=
  let mbox := if mb_save_cursor mbox =? NULL then set_cursor mbox (mb_head mbox) NULL
              else mbox in
  if mb_save_cursor mbox =? NULL then Some (BEAM_ERR_NOT_FOUND, None, mbox)
  else
    nd ← mb_nodes mbox !! mb_save_cursor mbox;
    Some (BEAM_OK, Some (nval nd), mbox).

Definition mailbox_remove_current mbox a : option (beam_result_t * beam_mailbox * A) :=
  let target := mb_save_cursor mbox in
  if target =? NULL then Some (BEAM_ERR_NOT_FOUND, mbox, a)
  else
    nd ← mb_nodes mbox !! target;
    let next := nnext nd in
    let prev := mb_save_prev mbox in
    ns ← (if prev =? NULL then Some (mb_nodes mbox) else set_next (mb_nodes mbox) prev next);
    Some (BEAM_OK,
          {| mb_head := if prev =? NULL then next else mb_head mbox;
             mb_tail := if target =? mb_tail mbox then prev else mb_tail mbox;
             mb_save_cursor := next; mb_save_prev := prev;
             mb_atomic_count := mb_atomic_count mbox;
             mb_count := if mb_count mbox >? 0 then mb_count mbox - 1 else mb_count mbox;
             mb_nodes := delete target ns |},
          al_free a target).

(** The cursor step of the LOOP_REC_END instruction (src/emulator/beam_emu.c). *)
Definition mailbox_advance_cursor mbox : option beam_mailbox :=
  if mb_save_cursor mbox =? NULL then Some mbox
  else
    nd ← mb_nodes mbox !! mb_save_cursor mbox;
    Some (set_cursor mbox (nnext nd) (mb_save_cursor mbox)).

(** The node loop of [beam_mailbox_destroy]. *)
Definition mailbox_free_nodes mbox a : option A :=
  '(_, a) ← free_chain (size (mb_nodes mbox)) (mb_nodes mbox) a (mb_head mbox); Some a.

End Mailbox.

(** ** Specification

    Abstractly a mailbox is a queue with a scan position: the messages the
    scan has passed and the messages still ahead of it. *)

Abbreviation msgs := (list (Z * Z)).

(** Address of the first node, NULL for the empty list. *)
Definition first_addr (l : msgs) : Z :=
  match l with [] => NULL | (p, _) :: _ => p end.

Record mailbox_rep (mbox : beam_mailbox) (seen ahead : msgs) : Prop := {
  mr_list : llist (mb_nodes mbox) (mb_head mbox) (seen ++ ahead) (mb_tail mbox);
  mr_cursor : mb_save_cursor mbox = first_addr ahead;
  mr_prev : ahead ≠ [] → mb_save_prev mbox = last_addr seen;
  mr_count : mb_count mbox = u64 (Z.of_nat (length (seen ++ ahead)));
}.

Lemma empty_mailbox_rep : mailbox_rep empty_mailbox [] [].
Proof. split; try done. apply llist_nil. Qed.

(** The message nodes are live blocks of the allocator. *)
Abbreviation owns_msgs a l B0 := (owns sizeof_beam_message a (fmap fst l) B0).

Lemma first_addr_nonnull m h (l1 l2 : msgs) t :
  llist m h (l1 ++ l2) t → first_addr l2 = NULL ↔ l2 = [].
Proof.
  intros [Hs _ _ _]. split; [|by intros ->]. destruct l2 as [|[p v] l2]; [done|]. simpl.
  intros ->. exfalso. eapply lseg_nonnull; [done| |done].
  rewrite fmap_app. apply elem_of_app. right. by left.
Qed.

Lemma last_addr_nonnull m h (l1 l2 : msgs) t :
  llist m h (l1 ++ l2) t → last_addr l1 = NULL ↔ l1 = [].
Proof.
  intros [Hs _ _ _]. split; [|by intros ->].
  destruct l1 as [|[p v] l1 _] using rev_ind; [done|]. rewrite last_addr_snoc.
  intros ->. exfalso. eapply lseg_nonnull; [done| |done].
  rewrite !fmap_app. apply elem_of_app. left. apply elem_of_app. right. by left.
Qed.

Lemma llist_first m h (l : msgs) t : llist m h l t → h = first_addr l.
Proof. intros [Hs _ _ _]. destruct l as [|[p v] l]; [done|]. by destruct Hs as [-> _]. Qed.

Lemma llist_lookup m h (l1 : msgs) p v l2 t :
  llist m h (l1 ++ (p, v) :: l2) t → m !! p = Some (Node v (first_addr l2)).
Proof.
  intros [Hs _ _ _]. apply lseg_app in Hs as (r & _ & -> & _ & n & Hm & Hs).
  rewrite Hm. destruct l2 as [|[q w] l2]; simpl in Hs; [by subst|].
  by destruct Hs as [-> _].
Qed.

Section MailboxSpec.
Context {A : Type} `{AllocSpec A}.
Implicit Types (mbox : beam_mailbox) (a : A).

Lemma sizeof_beam_message_ok : alloc_size sizeof_beam_message.
Proof. unfold alloc_size, sizeof_beam_message. lia. Qed.

(** Enqueueing appends, or reports that the allocation failed. *)
Lemma mailbox_enqueue_spec mbox a seen ahead msg B0 :
  mailbox_rep mbox seen ahead → owns_msgs a (seen ++ ahead) B0 →
  ∃ r mbox' a', mailbox_enqueue mbox a msg = Some (r, mbox', a') ∧
    ((r = BEAM_ERR_NO_MEMORY ∧ mbox' = mbox ∧ owns_msgs a' (seen ++ ahead) B0) ∨
     (r = BEAM_OK ∧ ∃ p,
        owns_msgs a' (seen ++ ahead ++ [(p, msg)]) B0 ∧
        match ahead with
        | [] => mailbox_rep mbox' (seen ++ [(p, msg)]) []
        | _ => mailbox_rep mbox' seen (ahead ++ [(p, msg)])
        end)).
Proof.
  intros [Hll Hc Hp Hn] Hown. unfold mailbox_enqueue.
  destruct (al_alloc a sizeof_beam_message) as [p a'] eqn:Ea.
  destruct (owns_alloc _ _ _ _ _ _ Hown sizeof_beam_message_ok Ea)
    as [[-> Hown']|(Hpn & Hpl & Hown')].
  { eexists _, _, _. split; [done|]. left. by split_and!. }
  destruct (Z.eqb_spec p NULL); [done|].
  destruct (llist_append _ _ _ _ p msg Hll) as [Hnil Hcons]; [by rewrite llist_mem|done|].
  assert (Hown2 : owns_msgs a' (seen ++ ahead ++ [(p, msg)]) B0).
  { rewrite app_assoc, (fmap_app _ (seen ++ ahead)). done. }
  assert (Hlen : u64 (mb_count mbox + 1) =
                 u64 (Z.of_nat (length ((seen ++ ahead) ++ [(p, msg)])))).
  { rewrite Hn, (length_app (seen ++ ahead)), Nat2Z.inj_add. unfold u64.
    by rewrite Zplus_mod_idemp_l. }
  pose proof (llist_tail_null _ _ _ _ Hll) as Ht.
  destruct (Z.eqb_spec (mb_tail mbox) NULL) as [Etail|Etail].
  - eexists _, _, _. split; [done|]. right. split; [done|]. exists p. split; [done|].
    apply Ht in Etail as El. apply app_nil in El as [-> ->].
    split; simpl; [by apply Hnil|done|done|done].
  - destruct (Hcons Etail) as (m2 & Hm2 & Hll2). rewrite Hm2.
    eexists _, _, _. split; [done|]. right. split; [done|]. exists p. split; [done|].
    destruct ahead as [|[q w] ahead].
    + rewrite app_nil_r in *. split; simpl; rewrite ?app_nil_r; done.
    + rewrite <- app_assoc in Hll2. rewrite <- app_assoc in Hlen.
      split; simpl; [done|done| |done]. intros _. by apply Hp.
Qed.

Lemma count_pred mbox n :
  Z.of_nat (S n) < 2 ^ 64 → mb_count mbox = u64 (Z.of_nat (S n)) →
  (if mb_count mbox >? 0 then mb_count mbox - 1 else mb_count mbox) = u64 (Z.of_nat n).
Proof.
  intros Hl Hc. rewrite u64_small in Hc by (unfold is_u64; lia).
  rewrite u64_small by (unfold is_u64; lia). case_bool; lia.
Qed.

(** Dequeueing pops the oldest message.  The save cursor must not rest on it
    or just behind it, otherwise it is left dangling. *)
Lemma mailbox_dequeue_spec mbox a seen ahead B0 :
  mailbox_rep mbox seen ahead → owns_msgs a (seen ++ ahead) B0 →
  Z.of_nat (length (seen ++ ahead)) < 2 ^ 64 →
  match seen ++ ahead with
  | [] => mailbox_dequeue mbox a = Some (BEAM_ERR_NOT_FOUND, None, mbox, a)
  | (p, v) :: rest =>
      ∃ mbox', mailbox_dequeue mbox a = Some (BEAM_OK, Some v, mbox', al_free a p) ∧
        owns_msgs (al_free a p) rest B0 ∧
        (∀ s x seen', seen = s :: x :: seen' → mailbox_rep mbox' (x :: seen') ahead) ∧
        (ahead = [] → mailbox_rep mbox' rest [])
  end.
Proof.
  intros [Hll Hc Hp Hn] Hown Hlen. unfold mailbox_dequeue.
  destruct (seen ++ ahead) as [|[p v] rest] eqn:E.
  { by destruct (llist_empty _ _ _ Hll) as (_ & -> & _). }
  pose proof (llist_head_null _ _ _ _ Hll) as Hh. pose proof Hll as [_ Hnd _ _].
  destruct (llist_pop _ _ _ _ _ _ Hll) as (Hhead & n & Hm & Hll').
  destruct (Z.eqb_spec (mb_head mbox) NULL) as [E0|E0]; [by apply Hh in E0|].
  pose proof (count_pred _ _ Hlen Hn) as Hn'.
  rewrite Hhead, Hm. simpl. eexists. split; [done|]. split_and!.
  - exact (owns_free _ a [] p rest.*1 B0 Hown Hnd).
  - intros s x seen' ->. simpl in E. injection E as -> <-.
    split; simpl; [done|done| |done].
    intros Ha. rewrite (Hp Ha). by rewrite last_addr_cons.
  - intros ->. rewrite app_nil_r in E. subst seen.
    split; simpl; rewrite ?app_nil_r; done.
Qed.

(** Resetting the cursor restarts the scan. *)
Lemma mailbox_reset_spec mbox seen ahead :
  mailbox_rep mbox seen ahead →
  mailbox_rep (mailbox_reset_save_cursor mbox) [] (seen ++ ahead).
Proof. intros [Hll Hc Hp Hn]. split; simpl; [done| |done..]. by eapply llist_first. Qed.

(** Peeking reads the message under the cursor; a cursor at the end of a
    non-empty mailbox starts over at the oldest message. *)
Lemma mailbox_peek_spec mbox seen ahead :
  mailbox_rep mbox seen ahead →
  match ahead, seen with
  | (_, v) :: _, _ => mailbox_peek_save mbox = Some (BEAM_OK, Some v, mbox)
  | [], (_, v) :: _ =>
      mailbox_peek_save mbox = Some (BEAM_OK, Some v, mailbox_reset_save_cursor mbox)
  | [], [] =>
      mailbox_peek_save mbox = Some (BEAM_ERR_NOT_FOUND, None, mailbox_reset_save_cursor mbox)
  end.
Proof.
  intros [Hll Hc Hp Hn]. unfold mailbox_peek_save.
  pose proof (first_addr_nonnull _ _ _ _ _ Hll) as Hf. rewrite <- Hc in Hf.
  destruct ahead as [|[p v] ahead].
  - rewrite (proj2 Hf eq_refl). simpl. pose proof (llist_head_null _ _ _ _ Hll) as Hh.
    rewrite app_nil_r in *. destruct seen as [|[p v] seen].
    + unfold mailbox_reset_save_cursor. by rewrite (proj2 Hh eq_refl).
    + destruct (Z.eqb_spec (mb_head mbox) NULL) as [E|]; [by apply Hh in E|].
      unfold mailbox_reset_save_cursor. rewrite (llist_first _ _ _ _ Hll). simpl.
      by rewrite (llist_lookup _ _ [] _ _ _ _ Hll).
  - destruct (Z.eqb_spec (mb_save_cursor mbox) NULL) as [E|_]; [by apply Hf in E|].
    destruct (Z.eqb_spec (mb_save_cursor mbox) NULL) as [E|_]; [by apply Hf in E|].
    rewrite Hc. simpl. by rewrite (llist_lookup _ _ _ _ _ _ _ Hll).
Qed.

(** Advancing moves one message from ahead of the cursor to behind it. *)
Lemma mailbox_advance_spec mbox seen ahead :
  mailbox_rep mbox seen ahead →
  ∃ mbox', mailbox_advance_cursor mbox = Some mbox' ∧
    match ahead with
    | [] => mbox' = mbox
    | x :: ahead' => mailbox_rep mbox' (seen ++ [x]) ahead'
    end.
Proof.
  intros [Hll Hc Hp Hn]. unfold mailbox_advance_cursor.
  pose proof (first_addr_nonnull _ _ _ _ _ Hll) as Hf. rewrite <- Hc in Hf.
  destruct ahead as [|[p v] ahead].
  { rewrite (proj2 Hf eq_refl). simpl. eauto. }
  destruct (Z.eqb_spec (mb_save_cursor mbox) NULL) as [E|_]; [by apply Hf in E|].
  rewrite Hc. simpl. rewrite (llist_lookup _ _ _ _ _ _ _ Hll). simpl.
  eexists. split; [done|]. split; simpl.
  - by rewrite <- app_assoc.
  - done.
  - intros _. by rewrite last_addr_snoc.
  - by rewrite <- app_assoc.
Qed.

(** Removing takes exactly the message under the cursor out of the queue. *)
Lemma mailbox_remove_spec mbox a seen p v ahead B0 :
  mailbox_rep mbox seen ((p, v) :: ahead) → owns_msgs a (seen ++ (p, v) :: ahead) B0 →
  Z.of_nat (length (seen ++ (p, v) :: ahead)) < 2 ^ 64 →
  ∃ mbox', mailbox_remove_current mbox a = Some (BEAM_OK, mbox', al_free a p) ∧
    mailbox_rep mbox' seen ahead ∧ owns_msgs (al_free a p) (seen ++ ahead) B0.
Proof.
  intros [Hll Hc Hp Hn] Hown Hlen. unfold mailbox_remove_current.
  pose proof (first_addr_nonnull _ _ _ _ _ Hll) as Hf. rewrite <- Hc in Hf.
  destruct (Z.eqb_spec (mb_save_cursor mbox) NULL) as [E|_]; [by apply Hf in E|].
  specialize (Hp ltac:(done)). rewrite Hc, Hp. simpl.
  rewrite (llist_lookup _ _ _ _ _ _ _ Hll). simpl.
  assert (Hown' : owns_msgs (al_free a p) (seen ++ ahead) B0).
  { pose proof Hll as [_ Hnd _ _]. rewrite fmap_app in *. csimpl in *.
    by apply owns_free. }
  assert (Hn' : (if mb_count mbox >? 0 then mb_count mbox - 1 else mb_count mbox) =
                u64 (Z.of_nat (length (seen ++ ahead)))).
  { rewrite length_app in *. simpl in *. rewrite Nat.add_succ_r in *. by apply count_pred. }
  pose proof (last_addr_nonnull _ _ _ _ _ Hll) as Hl.
  pose proof (llist_is_tail _ _ _ _ _ _ _ Hll) as Ht.
  pose proof (llist_lookup _ _ _ _ _ _ _ Hll) as Hlk.
  destruct seen as [|[b w] seen0 _] using rev_ind.
  - simpl in *. destruct (llist_pop _ _ _ _ _ _ Hll) as (_ & n & Hm & Hll').
    rewrite Hlk in Hm. injection Hm as <-.
    pose proof (llist_head_null _ _ _ _ Hll') as Hh.
    eexists. split; [done|]. split; [|done]. split; simpl; [|done..].
    destruct (Z.eqb_spec p (mb_tail mbox)) as [E|E].
    + apply Ht in E as ->. exact Hll'.
    + destruct (Z.eqb_spec (first_addr ahead) NULL) as [E'|]; [|done].
      by apply Hh, Ht in E'.
  - rewrite last_addr_snoc in *.
    destruct (Z.eqb_spec b NULL) as [E|_]; [by apply Hl in E; destruct seen0|].
    rewrite <- app_assoc in Hll. simpl in Hll.
    destruct (llist_unlink _ _ _ _ _ _ _ _ _ Hll) as (n & m' & Hm & Hset & Hll').
    rewrite Hlk in Hm. injection Hm as <-. rewrite Hset. simpl.
    eexists. split; [done|]. split; [|done]. split; simpl; [|done| |done].
    + rewrite <- app_assoc. simpl. by rewrite (Z.eqb_sym p).
    + intros _. by rewrite last_addr_snoc.
Qed.

(** Destroying a mailbox frees every message node. *)
Lemma mailbox_free_nodes_spec mbox a seen ahead B0 :
  mailbox_rep mbox seen ahead → owns_msgs a (seen ++ ahead) B0 →
  ∃ a', mailbox_free_nodes mbox a = Some a' ∧ al_rep a' B0.
Proof.
  intros [Hll _ _ _] Hown. unfold mailbox_free_nodes.
  destruct (free_chain_spec _ _ _ _ _ _ _ Hll Hown) as (a' & -> & Ha). eauto.
Qed.
End MailboxSpec.

(** ** Refinement
    The operations on a mailbox against the abstract queue with a scan
    position. *)

Inductive mb_op : Type :=
| OpEnqueue (msg : Z) | OpDequeue | OpReset | OpPeek | OpAdvance | OpRemove.

(** What the program does: status, message when one is delivered, new state. *)
Definition mb_exec {A} `{AllocOps A} (op : mb_op) (mbox : beam_mailbox) (a : A)
    : option (beam_result_t * option Z * beam_mailbox * A) :=
  match op with
  | OpEnqueue msg => '(r, mbox, a) ← mailbox_enqueue mbox a msg; Some (r, None, mbox, a)
  | OpDequeue => mailbox_dequeue mbox a
  | OpReset => Some (BEAM_OK, None, mailbox_reset_save_cursor mbox, a)
  | OpPeek => '(r, out, mbox) ← mailbox_peek_save mbox; Some (r, out, mbox, a)
  | OpAdvance => mbox ← mailbox_advance_cursor mbox; Some (BEAM_OK, None, mbox, a)
  | OpRemove => '(r, mbox, a) ← mailbox_remove_current mbox a; Some (r, None, mbox, a)
  end.

(** What it should do, on the messages seen by the scan and those ahead. *)
Inductive mb_spec : mb_op → list Z * list Z → beam_result_t → option Z →
    list Z * list Z → Prop :=
| sp_enqueue_full msg q : mb_spec (OpEnqueue msg) q BEAM_ERR_NO_MEMORY None q
| sp_enqueue_end msg seen :
    mb_spec (OpEnqueue msg) (seen, []) BEAM_OK None (seen ++ [msg], [])
| sp_enqueue_scan msg seen ahead : ahead ≠ [] →
    mb_spec (OpEnqueue msg) (seen, ahead) BEAM_OK None (seen, ahead ++ [msg])
| sp_dequeue_empty : mb_spec OpDequeue ([], []) BEAM_ERR_NOT_FOUND None ([], [])
| sp_dequeue v seen ahead :
    mb_spec OpDequeue (v :: seen, ahead) BEAM_OK (Some v) (seen, ahead)
| sp_reset seen ahead : mb_spec OpReset (seen, ahead) BEAM_OK None ([], seen ++ ahead)
| sp_peek_empty : mb_spec OpPeek ([], []) BEAM_ERR_NOT_FOUND None ([], [])
| sp_peek seen v ahead :
    mb_spec OpPeek (seen, v :: ahead) BEAM_OK (Some v) (seen, v :: ahead)
| sp_peek_wrap v seen : mb_spec OpPeek (v :: seen, []) BEAM_OK (Some v) ([], v :: seen)
| sp_advance seen v ahead :
    mb_spec OpAdvance (seen, v :: ahead) BEAM_OK None (seen ++ [v], ahead)
| sp_advance_end seen : mb_spec OpAdvance (seen, []) BEAM_OK None (seen, [])
| sp_remove seen v ahead :
    mb_spec OpRemove (seen, v :: ahead) BEAM_OK None (seen, ahead)
| sp_remove_end seen : mb_spec OpRemove (seen, []) BEAM_ERR_NOT_FOUND None (seen, []).

(** The one hazard: dequeuing the message under the cursor, or the one before
    it, leaves the cursor dangling. *)
Definition mb_safe (op : mb_op) (q : list Z * list Z) : Prop :=
  op = OpDequeue → q.2 = [] ∨ (2 <= length q.1)%nat.

Section MailboxProps.
Context {A : Type} `{AllocSpec A}.
Implicit Types (mbox : beam_mailbox) (a : A).

Definition mb_ok mbox a B0 (q : list Z * list Z) : Prop :=
  ∃ seen ahead, mailbox_rep mbox seen ahead ∧ owns_msgs a (seen ++ ahead) B0 ∧
    Z.of_nat (length (seen ++ ahead)) < 2 ^ 64 ∧ q = (seen.*2, ahead.*2).

Lemma mb_ok_intro mbox a B0 seen ahead :
  mailbox_rep mbox seen ahead → owns_msgs a (seen ++ ahead) B0 →
  Z.of_nat (length (seen ++ ahead)) < 2 ^ 64 → mb_ok mbox a B0 (seen.*2, ahead.*2).
Proof. intros. by exists seen, ahead. Qed.

Lemma mailbox_remove_none mbox a seen :
  mailbox_rep mbox seen [] → mailbox_remove_current mbox a = Some (BEAM_ERR_NOT_FOUND, mbox, a).
Proof. intros Hr. unfold mailbox_remove_current. by rewrite (mr_cursor _ _ _ Hr). Qed.

Lemma mb_refines_enqueue mbox a B0 q msg :
  mb_ok mbox a B0 q → Z.of_nat (length (q.1 ++ q.2)) + 1 < 2 ^ 64 →
  ∃ r mbox' a' q', mailbox_enqueue mbox a msg = Some (r, mbox', a') ∧
    mb_spec (OpEnqueue msg) q r None q' ∧ mb_ok mbox' a' B0 q'.
Proof.
  intros (seen & ahead & Hr & Ho & Hn & ->) Hq. simpl in Hq.
  rewrite length_app, !length_fmap in Hq. rewrite length_app in Hn.
  destruct (mailbox_enqueue_spec mbox a seen ahead msg B0 Hr Ho)
    as (r & mbox' & a' & E & [(-> & -> & Ho')|(-> & p & Ho' & Hr')]).
  - eexists _, _, _, _. split_and!; [done|constructor|].
    apply mb_ok_intro; [done..|rewrite length_app; lia].
  - destruct ahead as [|x ahead].
    + eexists _, _, _, (seen.*2 ++ [msg], []). split_and!; [done|constructor|].
      exists (seen ++ [(p, msg)]), []. split_and!; [done|by rewrite app_nil_r| |].
      * rewrite app_nil_r, length_app. simpl. lia.
      * by rewrite fmap_app.
    + eexists _, _, _, (seen.*2, (x :: ahead).*2 ++ [msg]).
      split_and!; [done|by constructor|].
      exists seen, ((x :: ahead) ++ [(p, msg)]). split_and!; [done|done| |].
      * rewrite !length_app in *. simpl in *. lia.
      * by rewrite fmap_app.
Qed.

Lemma mb_refines_dequeue mbox a B0 q :
  mb_ok mbox a B0 q → mb_safe OpDequeue q →
  ∃ r out mbox' a' q', mailbox_dequeue mbox a = Some (r, out, mbox', a') ∧
    mb_spec OpDequeue q r out q' ∧ mb_ok mbox' a' B0 q'.
Proof.
  intros (seen & ahead & Hr & Ho & Hn & ->) Hs. specialize (Hs eq_refl). simpl in Hs.
  rewrite length_fmap in Hs. pose proof (mailbox_dequeue_spec _ _ _ _ _ Hr Ho Hn) as Hd.
  destruct seen as [|[p v] seen].
  { assert (ahead = []) as -> by (destruct Hs as [?%fmap_nil_inv|?]; [done|simpl in *; lia]).
    simpl in Hd. eexists _, _, _, _, _. split_and!; [done|constructor|].
    by apply (mb_ok_intro _ _ _ [] []). }
  simpl in Hd. destruct Hd as (mbox' & E & Ho' & H1 & H2). simpl in Hn.
  eexists _, _, _, _, (seen.*2, ahead.*2). split_and!; [done|constructor|].
  apply mb_ok_intro; [|done|lia]. destruct Hs as [Hs%fmap_nil_inv|Hs].
  - subst. rewrite app_nil_r in H2. by apply H2.
  - destruct seen as [|x seen]; [simpl in Hs; lia|]. by eapply H1.
Qed.

(** C5: Refinement: a mailbox implements a queue with a scan position.  Every
    operation delivers what the abstract queue says and keeps the
    representation, in first-in-first-out order, with selective receive taking
    exactly the message under the cursor; the only excluded use is a dequeue
    that would free the node the cursor or its predecessor points to. *)
Theorem mailbox_refines_queue mbox a B0 q op :
  mb_ok mbox a B0 q → mb_safe op q → Z.of_nat (length (q.1 ++ q.2)) + 1 < 2 ^ 64 →
  ∃ r out mbox' a' q', mb_exec op mbox a = Some (r, out, mbox', a') ∧
    mb_spec op q r out q' ∧ mb_ok mbox' a' B0 q'.
Proof.
  intros Hok Hs Hq. destruct op as [msg| | | | |]; cbn [mb_exec].
  - destruct (mb_refines_enqueue _ _ _ _ msg Hok Hq) as (r & m' & a' & q' & -> & Hsp & ?).
    by eexists _, _, _, _, q'.
  - by apply mb_refines_dequeue.
  - destruct Hok as (seen & ahead & Hr & Ho & Hn & ->).
    eexists _, _, _, _, ([], (seen ++ ahead).*2). rewrite fmap_app.
    split_and!; [done|simpl; constructor|]. exists [], (seen ++ ahead).
    split_and!; [by apply mailbox_reset_spec|done..|by rewrite fmap_app].
  - destruct Hok as (seen & ahead & Hr & Ho & Hn & ->).
    pose proof (mailbox_peek_spec _ _ _ Hr) as Hp. destruct ahead as [|[p v] ahead].
    + apply mailbox_reset_spec in Hr. rewrite app_nil_r in *. destruct seen as [|[p v] seen];
        rewrite Hp; eexists _, _, _, _, _; (split_and!; [done|simpl; constructor|]).
      * by exists [], [].
      * by exists [], ((p, v) :: seen).
    + rewrite Hp. eexists _, _, _, _, _. split_and!; [done|simpl; constructor|].
      by exists seen, ((p, v) :: ahead).
  - destruct Hok as (seen & ahead & Hr & Ho & Hn & ->).
    destruct (mailbox_advance_spec _ _ _ Hr) as (m' & -> & Hm). cbn [mbind option_bind].
    destruct ahead as [|[p v] ahead].
    + subst. eexists _, _, _, _, _. split_and!; [done|simpl; constructor|]. exists seen, []. by split_and!.
    + eexists _, _, _, _, _. split_and!; [done|simpl; constructor|].
      exists (seen ++ [(p, v)]), ahead. rewrite <-(app_assoc seen).
      split_and!; [done..|by rewrite fmap_app].
  - destruct Hok as (seen & ahead & Hr & Ho & Hn & ->). destruct ahead as [|[p v] ahead].
    + rewrite (mailbox_remove_none _ _ _ Hr). eexists _, _, _, _, _.
      split_and!; [done|simpl; constructor|]. by exists seen, [].
    + destruct (mailbox_remove_spec _ _ _ _ _ _ _ Hr Ho Hn) as (m' & -> & Hr' & Ho').
      eexists _, _, _, _, _. split_and!; [done|simpl; constructor|]. apply mb_ok_intro; [done..|].
      rewrite !length_app in *. simpl in *. lia.
Qed.

(** C38: Dequeuing during a scan that has not left the oldest message leaves
    the save cursor pointing to the freed node: the next peek reads freed
    memory. *)
Theorem dequeue_dangles mbox a p v rest :
  mailbox_rep mbox [] ((p, v) :: rest) →
  ∃ mbox', mailbox_dequeue mbox a = Some (BEAM_OK, Some v, mbox', al_free a p) ∧
    mb_save_cursor mbox' = p ∧ mailbox_peek_save mbox' = None.
Proof.
  intros Hr. pose proof (mr_cursor _ _ _ Hr) as Hc. simpl in Hc.
  destruct (llist_pop _ _ _ _ _ _ (mr_list _ _ _ Hr)) as (Hh & n & Hp & _).
  assert (p ≠ NULL) as Hnn by (apply (mr_list _ _ _ Hr)).
  unfold mailbox_dequeue. rewrite Hh. destruct (Z.eqb_spec p NULL); [done|].
  rewrite Hp. cbn [mbind option_bind]. eexists. split; [done|]. split; [done|].
  unfold mailbox_peek_save. cbn [mb_save_cursor set_cursor]. rewrite Hc.
  destruct (Z.eqb_spec p NULL); [done|]. cbn [mb_save_cursor mb_nodes].
  destruct (Z.eqb_spec p NULL); [done|]. by rewrite lookup_delete_eq.
Qed.
End MailboxProps.

(** ** Examples *)

(** One message, 35, in the mailbox. *)
Definition demo_mailbox : beam_mailbox :=
  {| mb_head := 4096; mb_tail := 4096; mb_save_cursor := 4096; mb_save_prev := NULL;
     mb_atomic_count := 1; mb_count := 1; mb_nodes := {[ 4096 := Node 35 NULL ]} |}.

Definition demo_mailbox_heap : bump_heap :=
  (al_alloc (bump_init (2 ^ 20)) sizeof_beam_message).2.

Lemma demo_mailbox_rep : mailbox_rep demo_mailbox [] [(4096, 35)].
Proof.
  split; [|done..]. split.
  - simpl. split_and!; [done|done|]. exists NULL. by rewrite lookup_singleton_eq.
  - repeat constructor. apply not_elem_of_nil.
  - done.
  - simpl. rewrite dom_singleton_L. set_solver.
Qed.

Lemma demo_mailbox_ok : mb_ok demo_mailbox demo_mailbox_heap ∅ ([], [35]).
Proof.
  exists [], [(4096, 35)]. split_and!; [apply demo_mailbox_rep| |done|done].
  destruct (owns_alloc sizeof_beam_message (bump_init (2 ^ 20)) [] ∅ 4096 demo_mailbox_heap)
    as [[? _]|(_ & _ & Ho)]; [|done|reflexivity|done|done].
  split; [by apply bump_init_rep|]. intros p Hp. by apply not_elem_of_nil in Hp.
Qed.

Lemma mailbox_refines_queue_witness :
  ∃ r out mbox' a' q', mb_exec OpPeek demo_mailbox demo_mailbox_heap = Some (r, out, mbox', a') ∧
    mb_spec OpPeek ([], [35]) r out q' ∧ mb_ok mbox' a' ∅ q'.
Proof.
  apply (mailbox_refines_queue demo_mailbox demo_mailbox_heap ∅ ([], [35]) OpPeek);
    [apply demo_mailbox_ok|done|done].
Defined.

Lemma dequeue_dangles_witness :
  ∃ mbox', mailbox_dequeue demo_mailbox demo_mailbox_heap
      = Some (BEAM_OK, Some 35, mbox', al_free demo_mailbox_heap 4096) ∧
    mailbox_peek_save mbox' = None.
Proof.
  destruct (dequeue_dangles demo_mailbox demo_mailbox_heap 4096 35 [] demo_mailbox_rep)
    as (mbox' & E & _ & E2). by exists mbox'.
Defined.
