(* ===== verification/MailboxRace.v ===== *)
(** The lock-free mailbox (src/messaging/erl_message.c): senders and a receiver
    access by access.

    [beam_mailbox_enqueue] and [beam_mailbox_dequeue] take no lock.  Each access
    to a shared field is a phase here, the phases of the threads interleave, and
    every thread sees every access at once (sequential consistency). *)
From stdpp Require Import relations.
From S2P Require Import Prelude Memory Term Alloc LinkedList HashChain Blocks Mailbox.
From stdpp Require Import options.

(** ** Threads *)

(** Where a call is.  The senders' states carry the message. *)
Inductive mb_thread : Type :=
| PSend (msg : Z)                           (* about to allocate the node *)
| PFilled (msg node : Z)                    (* about to exchange the tail *)
| PExchanged (msg node prev : Z)            (* about to link the node *)
| PLinked (msg : Z)                         (* about to add to [atomic_count] *)
| PCounting (msg : Z)                       (* about to read [count] *)
| PCounted (msg c : Z)                      (* about to write [count] *)
| PReturned (msg : Z) (r : beam_result_t)
| CReceive                                  (* about to test [head] *)
| CFound                                    (* about to read [head] *)
| CHead (node : Z)                          (* about to read the body *)
| CBody (node msg : Z)                      (* about to read [next] *)
| CNext (node msg next : Z)                 (* about to write [head] *)
| CMoved (node msg : Z)                     (* about to test [head] again *)
| CClearing (node msg : Z)                  (* about to clear the tail *)
| CCounting (node msg : Z)                  (* about to read [count] *)
| CCounted (node msg c : Z)                 (* about to write [count] *)
| CFreeing (node msg : Z)                   (* about to free the node *)
| CReturned (r : beam_result_t) (out : option Z).

(** ** Writes to one field *)

Definition with_head (h : Z) (mb : beam_mailbox) : beam_mailbox :=
  {| mb_head := h; mb_tail := mb_tail mb; mb_save_cursor := mb_save_cursor mb;
     mb_save_prev := mb_save_prev mb; mb_atomic_count := mb_atomic_count mb;
     mb_count := mb_count mb; mb_nodes := mb_nodes mb |}.
Definition with_tail (t : Z) (mb : beam_mailbox) : beam_mailbox :=
  {| mb_head := mb_head mb; mb_tail := t; mb_save_cursor := mb_save_cursor mb;
     mb_save_prev := mb_save_prev mb; mb_atomic_count := mb_atomic_count mb;
     mb_count := mb_count mb; mb_nodes := mb_nodes mb |}.
Definition with_counts (ac c : Z) (mb : beam_mailbox) : beam_mailbox :=
  {| mb_head := mb_head mb; mb_tail := mb_tail mb; mb_save_cursor := mb_save_cursor mb;
     mb_save_prev := mb_save_prev mb; mb_atomic_count := ac;
     mb_count := c; mb_nodes := mb_nodes mb |}.
Definition with_nodes (ns : nodes Z) (mb : beam_mailbox) : beam_mailbox :=
  {| mb_head := mb_head mb; mb_tail := mb_tail mb; mb_save_cursor := mb_save_cursor mb;
     mb_save_prev := mb_save_prev mb; mb_atomic_count := mb_atomic_count mb;
     mb_count := mb_count mb; mb_nodes := ns |}.

Section MailboxRace.
Context {A : Type} `{AllocOps A}.
Implicit Types (mb : beam_mailbox) (a : A) (th : mb_thread).

(** One access; [None] is the use of a freed node. *)
Definition mb_phase th mb a : option (mb_thread * beam_mailbox * A) :=
  match th with
  | PSend msg =>
      let '(node, a) := al_alloc a sizeof_beam_message in
      if node =? NULL then Some (PReturned msg BEAM_ERR_NO_MEMORY, mb, a)
      else Some (PFilled msg node, with_nodes (<[node := Node msg NULL]> (mb_nodes mb)) mb, a)
  | PFilled msg node => Some (PExchanged msg node (mb_tail mb), with_tail node mb, a)
  | PExchanged msg node prev =>
      if prev =? NULL then Some (PLinked msg, with_head node mb, a)
      else ns ← set_next (mb_nodes mb) prev node; Some (PLinked msg, with_nodes ns mb, a)
  | PLinked msg =>
      Some (PCounting msg, with_counts (u64 (mb_atomic_count mb + 1)) (mb_count mb) mb, a)
  | PCounting msg => Some (PCounted msg (mb_count mb), mb, a)
  | PCounted msg c =>
      Some (PReturned msg BEAM_OK, with_counts (mb_atomic_count mb) (u64 (c + 1)) mb, a)
  | PReturned msg r => Some (th, mb, a)
  | CReceive =>
      if mb_head mb =? NULL then Some (CReturned BEAM_ERR_NOT_FOUND None, mb, a)
      else Some (CFound, mb, a)
  | CFound => Some (CHead (mb_head mb), mb, a)
  | CHead node => nd ← mb_nodes mb !! node; Some (CBody node (nval nd), mb, a)
  | CBody node msg => nd ← mb_nodes mb !! node; Some (CNext node msg (nnext nd), mb, a)
  | CNext node msg next => Some (CMoved node msg, with_head next mb, a)
  | CMoved node msg =>
      Some (if mb_head mb =? NULL then CClearing node msg else CCounting node msg, mb, a)
  | CClearing node msg => Some (CCounting node msg, with_tail NULL mb, a)
  | CCounting node msg =>
      Some (if mb_count mb >? 0 then CCounted node msg (mb_count mb) else CFreeing node msg, mb, a)
  | CCounted node msg c =>
      Some (CFreeing node msg, with_counts (mb_atomic_count mb) (u64 (c - 1)) mb, a)
  | CFreeing node msg =>
      Some (CReturned BEAM_OK (Some msg), with_nodes (delete node (mb_nodes mb)) mb, al_free a node)
  | CReturned r out => Some (th, mb, a)
  end.

Record mb_state : Type := MbState {
  ms_mbox : beam_mailbox;
  ms_alc : A;
  ms_threads : list mb_thread;
}.

Inductive mb_step : mb_state → mb_state → Prop :=
| mb_access mb a ths i th th' mb' a' :
    ths !! i = Some th → mb_phase th mb a = Some (th', mb', a') →
    mb_step (MbState mb a ths) (MbState mb' a' (<[i := th']> ths)).
End MailboxRace.
Arguments mb_state : clear implicits.

(** ** What a sender contributes *)

(** The link it has not written yet: from [prev] (NULL for the head) to the node. *)
Definition pending_link (th : mb_thread) : option (Z * Z) :=
  match th with PExchanged _ node prev => Some (node, prev) | _ => None end.

(** The node only it knows. *)
Definition private_node (th : mb_thread) : option (Z * Z) :=
  match th with PFilled msg node => Some (node, msg) | _ => None end.

(** The message it has put into the queue. *)
Definition sent_msg (th : mb_thread) : option Z :=
  match th with
  | PExchanged msg _ _ | PLinked msg | PCounting msg | PCounted msg _
  | PReturned msg BEAM_OK => Some msg
  | _ => None
  end.

(** Its message, counted. *)
Definition counted (th : mb_thread) : option unit :=
  match th with
  | PCounting _ | PCounted _ _ | PReturned _ BEAM_OK => Some tt
  | _ => None
  end.

Definition is_sender (th : mb_thread) : bool :=
  match th with
  | PSend _ | PFilled _ _ | PExchanged _ _ _ | PLinked _ | PCounting _ | PCounted _ _
  | PReturned _ _ => true
  | _ => false
  end.

Definition sender_done (th : mb_thread) : bool :=
  match th with PReturned _ _ => true | _ => false end.

(** The queue as it will be once the pending links [P] are written: the store
    [m] and the head [h]. *)
Record published (ns : nodes Z) (head : Z) (P : list (Z * Z)) (m : nodes Z) (h : Z) : Prop := {
  pb_node x nd : m !! x = Some nd → ∃ nd', ns !! x = Some nd' ∧ nval nd' = nval nd ∧
    ((nnext nd, x) ∈ P ∨ ((∀ y, (y, x) ∉ P) ∧ nnext nd' = nnext nd));
  pb_head : (h, NULL) ∈ P ∨ ((∀ y, (y, NULL) ∉ P) ∧ head = h);
}.

(** ** Pending links *)

Lemma published_perm ns head P P' m h :
  P ≡ₚ P' → published ns head P m h → published ns head P' m h.
Proof.
  intros E [Hn Hh]. split.
  - intros x nd Hx. setoid_rewrite <-E. by apply Hn.
  - setoid_rewrite <-E. exact Hh.
Qed.

(** Nothing pending: what is published is what is there. *)
Lemma published_nil ns head m h :
  published ns head [] m h → dom ns = dom m → ns = m ∧ head = h.
Proof.
  intros [Hn Hh] Hd. split; [|destruct Hh as [Hh|[_ ?]]; [by apply not_elem_of_nil in Hh|done]].
  apply map_eq. intros x. destruct (m !! x) as [nd|] eqn:Hx.
  - destruct (Hn x nd Hx) as (nd' & -> & Hv & [Hp|[_ Hp]]); [by apply not_elem_of_nil in Hp|].
    destruct nd, nd'; simpl in *. congruence.
  - apply not_elem_of_dom. rewrite Hd. by apply not_elem_of_dom.
Qed.

(** Writing to nodes that are not published. *)
Lemma published_private ns head P m h x nd :
  x ∉ dom m → published ns head P m h → published (<[x := nd]> ns) head P m h.
Proof.
  intros Hx [Hn Hh]. split; [|done]. intros y nd0 Hy.
  rewrite lookup_insert_ne; [by apply Hn|]. intros ->. apply Hx. by apply elem_of_dom.
Qed.

Lemma in_fst (P : list (Z * Z)) y x : (y, x) ∈ P → x ∈ P.*2.
Proof. intros Hin. apply list_elem_of_fmap. by exists (y, x). Qed.

(** Writing a pending link. *)
Lemma published_link ns head P m h n x :
  NoDup (x :: P.*2) → (x = NULL ∨ x ∈ dom m) → NULL ∉ dom m →
  published ns head ((n, x) :: P) m h →
  if x =? NULL then published ns n P m h
  else ∃ ns', set_next ns x n = Some ns' ∧ dom ns' = dom ns ∧ published ns' head P m h ∧
    ∀ y, y ≠ x → ns' !! y = ns !! y.
Proof.
  intros [Hx _]%NoDup_cons Hxm Hnull [Hn Hh].
  assert (Hother : ∀ y z (E : Prop), z ≠ x →
    (y, z) ∈ (n, x) :: P ∨ ((∀ y, (y, z) ∉ (n, x) :: P) ∧ E) →
    (y, z) ∈ P ∨ ((∀ y, (y, z) ∉ P) ∧ E)).
  { intros y z E Hz [[[= -> ->]|Hin]%elem_of_cons|[Hno HE]]; [done|by left|right].
    split; [|done]. intros y0 Hin. apply (Hno y0). by right. }
  assert (Hnone : ∀ y, (y, x) ∉ P) by (intros y Hin; by apply Hx, (in_fst _ y)).
  destruct (Z.eqb_spec x NULL) as [->|Hxn].
  - split.
    + intros z nd Hz. destruct (Hn z nd Hz) as (nd' & Hz' & Hv & Hc).
      assert (z ≠ NULL) as Hzn by (intros ->; apply Hnull, elem_of_dom; eauto).
      apply Hother in Hc; [|done]. by exists nd'.
    + right. split; [done|]. destruct Hh as [[[= ->]|Hin]%elem_of_cons|[Hno _]]; [done| |].
      * by destruct (Hnone h).
      * destruct (Hno n). by left.
  - destruct Hxm as [|Hxm]; [done|]. apply elem_of_dom in Hxm as [nd0 Hx0].
    destruct (Hn x nd0 Hx0) as (nd0' & Hx0' & Hv0 & Hc0).
    unfold set_next. rewrite Hx0'. eexists. split; [done|]. split; [|split; [split|]].
    + rewrite dom_insert_lookup_L; [done|]. eauto.
    + intros z nd Hz. destruct (decide (z = x)) as [->|Hzx].
      * rewrite lookup_insert_eq. eexists. split; [done|]. simpl. assert (nd = nd0) as -> by congruence.
        split; [done|]. right. split; [done|].
        destruct Hc0 as [[[= ->]|Hin]%elem_of_cons|[Hno _]]; [done| |].
        -- by destruct (Hnone (nnext nd0)).
        -- destruct (Hno n). by left.
      * rewrite lookup_insert_ne by done. destruct (Hn z nd Hz) as (nd' & Hz' & Hv & Hc).
        apply Hother in Hc; [|done]. by exists nd'.
    + apply Hother in Hh; [done|by intros <-].
    + intros y Hy. by rewrite lookup_insert_ne.
Qed.

(** Exchanging the tail: the link from the old tail becomes pending. *)
Lemma published_exchange ns head P m h l t n v :
  llist m h l t → published ns head P m h → ns !! n = Some (Node v NULL) → n ∉ dom m → n ≠ NULL →
  (∀ y x, (y, x) ∈ P → y ≠ NULL ∧ (x = NULL ∨ x ∈ dom m)) →
  (t ∉ P.*2) ∧ ∃ m' h', llist m' h' (l ++ [(n, v)]) n ∧ published ns head ((n, t) :: P) m' h' ∧
    dom m' = {[n]} ∪ dom m ∧ (t = NULL ∨ t ∈ dom m).
Proof.
  intros Hl [Hn Hh] Hns Hnm Hnn HP. destruct (llist_append m h l t n v Hl Hnm Hnn) as [Hnil Hcons].
  assert (HnP : ∀ y, (y, n) ∉ P) by (intros y Hin; by destruct (HP y n Hin) as [_ [?|?]]).
  assert (Hnew : ∀ y z nd, (y, z) ∈ P ∨ ((∀ y, (y, z) ∉ P) ∧ nd = y) → z ≠ t →
    (y, z) ∈ (n, t) :: P ∨ ((∀ y, (y, z) ∉ (n, t) :: P) ∧ nd = y)).
  { intros y z nd [Hin|[Hno E]] Hz; [left; by right|right]. split; [|done].
    intros y0 [[= -> ->]|Hin]%elem_of_cons; [done|by apply (Hno y0)]. }
  pose proof (llist_tail_null _ _ _ _ Hl) as Htn.
  destruct (decide (t = NULL)) as [->|Ht].
  - assert (l = []) as -> by by apply Htn. destruct (llist_empty _ _ _ Hl) as (-> & -> & _).
    assert (Hno : NULL ∉ P.*2).
    { intros ([y x] & Ex & Hin)%list_elem_of_fmap. simpl in Ex. subst x.
      destruct Hh as [Hh|[Hno _]]; [by destruct (HP _ _ Hh) as [? _]|by apply (Hno y)]. }
    split; [done|]. exists (<[n := Node v NULL]> ∅), n. split; [by apply Hnil|]. split; [|split].
    + split.
      * intros z nd [[<- <-]|[_ Hz]]%lookup_insert_Some; [|by rewrite lookup_empty in Hz].
        exists (Node v NULL). split; [done|]. split; [done|]. right. split; [|done].
        intros y [[= -> ->]|Hin]%elem_of_cons; [done|by apply (HnP y)].
      * left. by left.
    + by rewrite dom_insert_L.
    + by left.
  - destruct (Hcons Ht) as (m2 & Hset & Hl2).
    assert (Htm : t ∈ dom m).
    { apply (llist_mem _ _ _ _ _ Hl). destruct l as [|[b w] l0 _] using rev_ind; [by destruct Ht; apply Htn|].
      rewrite (ll_tail _ _ _ _ Hl), last_addr_snoc, fmap_app. apply elem_of_app. right. by left. }
    assert (Htn' : t ≠ n) by (intros ->; done).
    unfold set_next in Hset. rewrite lookup_insert_ne in Hset by done.
    destruct (m !! t) as [ndt|] eqn:Emt; [|done]. cbn [mbind option_bind] in Hset. injection Hset as <-.
    assert (Hlast : nnext ndt = NULL).
    { destruct l as [|[b w] l0 _] using rev_ind; [by destruct Ht; apply Htn|].
      rewrite (ll_tail _ _ _ _ Hl), last_addr_snoc in Emt.
      rewrite (llist_lookup _ _ _ _ _ _ _ Hl) in Emt. by simplify_eq. }
    destruct (Hn t ndt Emt) as (ndt' & Hnst & Hvt & Hct).
    assert (Hto : ∀ y, (y, t) ∉ P).
    { destruct Hct as [Hin|[Hno _]]; [|done]. rewrite Hlast in Hin. by destruct (HP _ _ Hin). }
    split; [by intros ([y x] & -> & Hin)%list_elem_of_fmap; apply (Hto y)|].
    eexists _, h. split; [exact Hl2|]. split; [|split; [|by right]].
    + split.
      * intros z nd. destruct (decide (z = t)) as [->|Hzt].
        -- rewrite lookup_insert_eq. intros [= <-]. exists ndt'. split; [done|]. split; [done|].
           left. by left.
        -- rewrite lookup_insert_ne by done. intros [[<- <-]|[_ Hz]]%lookup_insert_Some.
           ++ exists (Node v NULL). split; [done|]. split; [done|]. right. split; [|done].
              intros y [[= -> ->]|Hin]%elem_of_cons; [done|by apply (HnP y)].
           ++ destruct (Hn z nd Hz) as (nd' & Hz' & Hv & Hc). exists nd'. split; [done|].
              split; [done|]. by apply Hnew.
      * apply Hnew; [done|by intros <-].
    + rewrite dom_insert_lookup_L; [by rewrite dom_insert_L|]. rewrite lookup_insert_ne by done. eauto.
Qed.

(** ** Senders *)

Section Senders.
Context {A : Type} `{AllocSpec A}.
Implicit Types (mb : beam_mailbox) (a : A) (th : mb_thread).

(** [new] has been sent behind the queue [l0]; [P], [N], [S] and [k] are the
    pending links, the private nodes, the sent messages and the counted ones of
    the senders. *)
Definition senders_inv mb a (l0 : msgs) (B0 : blocks) (c0 : Z)
    (P N : list (Z * Z)) (S : list Z) (K : list unit) : Prop :=
  ∃ (new : msgs) m h, llist m h (l0 ++ new) (mb_tail mb) ∧
    published (mb_nodes mb) (mb_head mb) P m h ∧
    (∀ n v, (n, v) ∈ N → mb_nodes mb !! n = Some (Node v NULL) ∧ (n ∉ dom m)) ∧
    dom (mb_nodes mb) = dom m ∪ list_to_set N.*1 ∧
    NoDup P.*2 ∧ (∀ y x, (y, x) ∈ P → y ≠ NULL ∧ (x = NULL ∨ x ∈ dom m)) ∧
    extends a B0 ((l0 ++ new).*1 ++ N.*1) ∧ new.*2 ≡ₚ S ∧
    mb_atomic_count mb = u64 (c0 + Z.of_nat (length K)).

#[export] Instance senders_inv_proper mb a l0 B0 c0 :
  Proper ((≡ₚ) ==> (≡ₚ) ==> (≡ₚ) ==> (≡ₚ) ==> iff) (senders_inv mb a l0 B0 c0).
Proof.
  assert (Himp : ∀ P1 P2 N1 N2 S1 S2 K1 K2, P1 ≡ₚ P2 → N1 ≡ₚ N2 → S1 ≡ₚ S2 → K1 ≡ₚ K2 →
    senders_inv mb a l0 B0 c0 P1 N1 S1 K1 → senders_inv mb a l0 B0 c0 P2 N2 S2 K2).
  { intros P1 P2 N1 N2 S1 S2 K1 K2 EP EN ES EK
      (new & m & h & Hl & Hpb & HN & Hd & HP & HPm & Hx & HS & Hk).
    exists new, m, h. split_and!; [done|by eapply published_perm|..].
    - intros n v. rewrite <-EN. apply HN.
    - rewrite Hd. f_equal. apply list_to_set_perm_L. by rewrite EN.
    - by rewrite <-EP.
    - intros y x. rewrite <-EP. apply HPm.
    - eapply extends_perm; [|exact Hx]. by rewrite EN.
    - by rewrite <-ES.
    - by rewrite <-EK. }
  intros P1 P2 EP N1 N2 EN S1 S2 ES K1 K2 EK. split; by apply Himp.
Qed.

Definition sender_share mb a l0 B0 c0 th (P N : list (Z * Z)) (S : list Z) (K : list unit) : Prop :=
  senders_inv mb a l0 B0 c0 (option_list (pending_link th) ++ P)
    (option_list (private_node th) ++ N) (option_list (sent_msg th) ++ S)
    (option_list (counted th) ++ K).

Lemma extends_nonnull a B ps p : extends a B ps → p ∈ ps → p ≠ NULL.
Proof.
  intros (B' & Hrep & Hh) Hp. destruct (ho_live _ _ _ Hh p Hp) as [n Hn].
  destruct (al_rep_pos _ _ _ _ Hrep Hn) as (? & _). unfold NULL. lia.
Qed.

Lemma llist_no_null (m : nodes Z) h l t : llist m h l t → NULL ∉ dom m.
Proof.
  intros Hl Hin. apply (llist_mem _ _ _ _ _ Hl) in Hin. by eapply lseg_nonnull; [apply Hl|done|].
Qed.

(** The allocation. *)
Lemma send_alloc_ok mb a l0 B0 c0 msg P N S K :
  sender_share mb a l0 B0 c0 (PSend msg) P N S K →
  ∃ th' mb' a', mb_phase (PSend msg) mb a = Some (th', mb', a') ∧ is_sender th' = true ∧
    sender_share mb' a' l0 B0 c0 th' P N S K.
Proof.
  intros (new & m & h & Hl & Hpb & HN & Hd & HP & HPm & Hx & HS & Hk). cbn in HN, Hd, Hx.
  cbn [mb_phase]. destruct (al_alloc a sizeof_beam_message) as [n a'] eqn:Ea.
  destruct (extends_alloc _ _ _ _ _ _ Hx sizeof_beam_message_ok Ea) as [[-> Hx']|[Hn Hx']].
  - exists (PReturned msg BEAM_ERR_NO_MEMORY), mb, a'. split; [done|]. split; [done|].
    by exists new, m, h.
  - destruct (Z.eqb_spec n NULL) as [|_]; [done|]. eexists _, _, a'. split; [done|]. split; [done|].
    pose proof (extends_nodup _ _ _ Hx') as Hnd. apply NoDup_cons in Hnd as [Hnin _].
    rewrite not_elem_of_app in Hnin. destruct Hnin as [Hn1 Hn2].
    assert (Hnm : n ∉ dom m) by (by rewrite (llist_mem _ _ _ _ _ Hl)).
    exists new, m, h. cbn. split_and!; [done| | | |done|done| |done|done].
    + by apply published_private.
    + intros k v [[= -> ->]|Hin]%elem_of_cons; [by rewrite lookup_insert_eq|].
      rewrite lookup_insert_ne; [by apply HN|]. intros ->. apply Hn2, list_elem_of_fmap.
      by exists (k, v).
    + rewrite dom_insert_L, Hd. set_solver.
    + by rewrite <-Permutation_middle.
Qed.

(** The exchange puts the message into the queue. *)
Lemma send_exchange_ok mb a l0 B0 c0 msg n P N S K :
  sender_share mb a l0 B0 c0 (PFilled msg n) P N S K →
  sender_share (with_tail n mb) a l0 B0 c0 (PExchanged msg n (mb_tail mb)) P N S K.
Proof.
  intros (new & m & h & Hl & Hpb & HN & Hd & HP & HPm & Hx & HS & Hk). cbn in HN, Hd, HP, HPm, Hx, HS, Hk.
  destruct (HN n msg) as [Hn Hnm]; [by left|].
  assert (Hnn : n ≠ NULL).
  { eapply extends_nonnull; [exact Hx|]. rewrite elem_of_app. right. by left. }
  destruct (published_exchange _ _ _ _ _ _ _ _ _ Hl Hpb Hn Hnm Hnn HPm)
    as (Ht & m' & h' & Hl' & Hpb' & Hd' & Htm).
  pose proof (extends_nodup _ _ _ Hx) as Hnd. rewrite <-Permutation_middle in Hnd.
  apply NoDup_cons in Hnd as [Hnin _]. rewrite not_elem_of_app in Hnin. destruct Hnin as [_ HnN].
  exists (new ++ [(n, msg)]), m', h'. cbn. rewrite !app_assoc in *. split_and!.
  - exact Hl'.
  - exact Hpb'.
  - intros k v Hin. destruct (HN k v) as [Hk' Hkm]; [by right|]. split; [done|].
    rewrite Hd', elem_of_union, elem_of_singleton. intros [->|?]; [|done].
    apply HnN, list_elem_of_fmap. by exists (n, v).
  - rewrite Hd, Hd'. set_solver.
  - by apply NoDup_cons.
  - intros y x [[= -> ->]|Hin]%elem_of_cons.
    + split; [done|]. destruct Htm; [by left|right]. rewrite Hd'. set_solver.
    + destruct (HPm y x Hin) as [? Hxm]. split; [done|]. destruct Hxm; [by left|right].
      rewrite Hd'. set_solver.
  - eapply extends_perm; [|exact Hx]. rewrite !fmap_app. cbn. solve_Permutation.
  - rewrite fmap_app. cbn. rewrite HS. solve_Permutation.
  - done.
Qed.

(** Writing the link changes nothing that counts as published. *)
Lemma send_link_ok mb a l0 B0 c0 msg n x P N S K :
  sender_share mb a l0 B0 c0 (PExchanged msg n x) P N S K →
  ∃ mb', mb_phase (PExchanged msg n x) mb a = Some (PLinked msg, mb', a) ∧
    sender_share mb' a l0 B0 c0 (PLinked msg) P N S K.
Proof.
  intros (new & m & h & Hl & Hpb & HN & Hd & HP & HPm & Hx & HS & Hk). cbn in HN, Hd, HP, HPm, Hx, HS, Hk.
  destruct (HPm n x) as [_ Hxm]; [by left|].
  pose proof (published_link _ _ _ _ _ _ _ HP Hxm (llist_no_null _ _ _ _ Hl) Hpb) as Hlk.
  apply NoDup_cons in HP as [_ HP].
  assert (HPm' : ∀ y z, (y, z) ∈ P → y ≠ NULL ∧ (z = NULL ∨ z ∈ dom m))
    by (intros y z Hin; apply HPm; by right).
  cbn [mb_phase]. destruct (Z.eqb_spec x NULL) as [|Hxn].
  - eexists. split; [done|]. by exists new, m, h.
  - destruct Hlk as (ns' & Es & Hd' & Hpb' & Hsame). rewrite Es. cbn [mbind option_bind].
    eexists. split; [done|]. exists new, m, h. cbn. split_and!; try done.
    + intros k v Hin. destruct (HN k v Hin) as [Hk' Hkm]. split; [|done].
      rewrite Hsame; [done|]. intros ->. by destruct Hxm.
    + by rewrite Hd'.
Qed.

Lemma senders_count mb a l0 B0 c0 P N S K c :
  senders_inv mb a l0 B0 c0 P N S K →
  senders_inv (with_counts (u64 (mb_atomic_count mb + 1)) c mb) a l0 B0 c0 P N S (tt :: K).
Proof.
  intros (new & m & h & Hl & Hpb & HN & Hd & HP & HPm & Hx & HS & Hk). exists new, m, h. cbn.
  split_and!; try done. rewrite Hk. unfold u64. rewrite Zplus_mod_idemp_l. f_equal. lia.
Qed.

(** Every phase of a sender is defined and keeps the invariant. *)
Lemma sender_phase_ok th mb a l0 B0 c0 P N S K :
  is_sender th = true → sender_share mb a l0 B0 c0 th P N S K →
  ∃ th' mb' a', mb_phase th mb a = Some (th', mb', a') ∧ is_sender th' = true ∧
    sender_share mb' a' l0 B0 c0 th' P N S K.
Proof.
  intros Ht Hs. destruct th as [msg|msg n|msg n x|msg|msg|msg c|msg r| | | | | | | | | | |]; try done.
  - by apply send_alloc_ok.
  - eexists _, _, a. split; [reflexivity|]. split; [done|]. by apply send_exchange_ok.
  - destruct (send_link_ok _ _ _ _ _ _ _ _ _ _ _ _ Hs) as (mb' & E & Hs'). by exists (PLinked msg), mb', a.
  - eexists _, _, a. split; [reflexivity|]. split; [done|]. by apply senders_count.
  - by eexists _, _, a.
  - by eexists _, _, a.
  - by eexists _, _, a.
Qed.

Definition race_ok (st : mb_state A) (l0 : msgs) (B0 : blocks) (c0 : Z) : Prop :=
  Forall (λ th, is_sender th = true) (ms_threads st) ∧
  senders_inv (ms_mbox st) (ms_alc st) l0 B0 c0 (omap pending_link (ms_threads st))
    (omap private_node (ms_threads st)) (omap sent_msg (ms_threads st))
    (omap counted (ms_threads st)).

Lemma race_share st l0 B0 c0 i th :
  ms_threads st !! i = Some th →
  senders_inv (ms_mbox st) (ms_alc st) l0 B0 c0 (omap pending_link (ms_threads st))
    (omap private_node (ms_threads st)) (omap sent_msg (ms_threads st))
    (omap counted (ms_threads st)) ↔
  sender_share (ms_mbox st) (ms_alc st) l0 B0 c0 th
    (omap pending_link (delete i (ms_threads st))) (omap private_node (delete i (ms_threads st)))
    (omap sent_msg (delete i (ms_threads st))) (omap counted (delete i (ms_threads st))).
Proof. intros Hi. by rewrite !(omap_split _ _ _ _ Hi). Qed.

Lemma race_progress st l0 B0 c0 i th :
  race_ok st l0 B0 c0 → ms_threads st !! i = Some th →
  is_Some (mb_phase th (ms_mbox st) (ms_alc st)).
Proof.
  intros [Hf Hok] Hi. apply (race_share _ _ _ _ _ _ Hi) in Hok.
  destruct (sender_phase_ok _ _ _ _ _ _ _ _ _ _ (Forall_lookup_1 _ _ _ _ Hf Hi) Hok)
    as (th' & mb' & a' & -> & _). eauto.
Qed.

Lemma race_step_ok st st' l0 B0 c0 : race_ok st l0 B0 c0 → mb_step st st' → race_ok st' l0 B0 c0.
Proof.
  intros [Hf Hok] Hs. destruct Hs as [mb a ths i th th' mb' a' Hi E].
  apply (race_share (MbState mb a ths) _ _ _ i th Hi) in Hok.
  destruct (sender_phase_ok _ _ _ _ _ _ _ _ _ _ (Forall_lookup_1 _ _ _ _ Hf Hi) Hok)
    as (th2 & mb2 & a2 & E2 & Hs2 & Hok'). cbn [ms_mbox ms_alc] in E2. rewrite E in E2. simplify_eq. split; cbn.
  - by apply Forall_insert.
  - by rewrite !(omap_split_insert _ _ _ _ th2 Hi).
Qed.

Lemma race_reach_ok st st' l0 B0 c0 :
  race_ok st l0 B0 c0 → rtc mb_step st st' → race_ok st' l0 B0 c0.
Proof. intros Hok Hs. induction Hs; eauto using race_step_ok. Qed.

(** A sender keeps its message. *)
Definition sender_msg (th : mb_thread) : option Z :=
  match th with
  | PSend msg | PFilled msg _ | PExchanged msg _ _ | PLinked msg | PCounting msg
  | PCounted msg _ | PReturned msg _ => Some msg
  | _ => None
  end.

Lemma phase_msg th mb a th' mb' a' :
  is_sender th = true → mb_phase th mb a = Some (th', mb', a') → sender_msg th' = sender_msg th.
Proof.
  destruct th; try done; intros _; cbn [mb_phase].
  - destruct (al_alloc _ _) as [n a1]. destruct (n =? NULL); intros; by simplify_eq.
  - intros; by simplify_eq.
  - destruct (prev =? NULL); [intros; by simplify_eq|].
    destruct (set_next _ _ _); cbn [mbind option_bind]; intros; by simplify_eq.
  - intros; by simplify_eq.
  - intros; by simplify_eq.
  - intros; by simplify_eq.
  - intros; by simplify_eq.
Qed.

Lemma race_msgs st st' l0 B0 c0 :
  race_ok st l0 B0 c0 → rtc mb_step st st' →
  sender_msg <$> ms_threads st' = sender_msg <$> ms_threads st.
Proof.
  intros Hok Hs. induction Hs as [|st1 st2 st3 H1 _ IH]; [done|].
  rewrite IH by (by eapply race_step_ok). destruct Hok as [Hf _].
  destruct H1 as [mb a ths i th th' mb' a' Hi E]. cbn in *.
  rewrite list_fmap_insert, (phase_msg _ _ _ _ _ _ (Forall_lookup_1 _ _ _ _ Hf Hi) E).
  apply list_insert_id. by rewrite list_lookup_fmap, Hi.
Qed.

Lemma senders_start mb a l0 B0 ms :
  llist (mb_nodes mb) (mb_head mb) l0 (mb_tail mb) → extends a B0 l0.*1 → is_u64 (mb_atomic_count mb) →
  race_ok (MbState mb a (PSend <$> ms)) l0 B0 (mb_atomic_count mb).
Proof.
  intros Hl Hx Hu. split; cbn.
  - apply Forall_fmap, Forall_true. done.
  - assert (Hnil : ∀ Y (f : mb_thread → option Y), (∀ x, f (PSend x) = None) →
      omap f (PSend <$> ms) = []).
    { intros Y f Hf. induction ms as [|x ms IH]; [done|]. csimpl. by rewrite Hf. }
    rewrite !Hnil by done. exists [], (mb_nodes mb), (mb_head mb). rewrite !app_nil_r. split_and!.
    + done.
    + split; [|right; split; [|done]; by intros y ?%not_elem_of_nil].
      intros x nd Hx0. exists nd. split_and!; [done|done|right]. split; [|done].
      by intros y ?%not_elem_of_nil.
    + by intros n v ?%not_elem_of_nil.
    + simpl. set_solver.
    + constructor.
    + by intros y x ?%not_elem_of_nil.
    + done.
    + done.
    + simpl. by rewrite Z.add_0_r, u64_small.
Qed.

(** Threads that have all returned. *)
Lemma all_returned ths ms :
  Forall (λ th, sender_done th = true) ths →
  sender_msg <$> ths = sender_msg <$> (PSend <$> ms) →
  ∃ rs, ths = zip_with PReturned ms rs ∧ length rs = length ms.
Proof.
  intros Hd. revert ms. induction Hd as [|th ths Hth _ IH]; intros [|x ms] E; csimpl in *; try done.
  - by exists [].
  - injection E as Ex E. destruct (IH ms E) as (rs & -> & Hl).
    destruct th as [| | | | | |y r| | | | | | | | | | |]; try done. simplify_eq/=.
    exists (r :: rs). csimpl. by rewrite Hl.
Qed.

Lemma returned_shares ms rs :
  omap pending_link (zip_with PReturned ms rs) = [] ∧
  omap private_node (zip_with PReturned ms rs) = [] ∧
  omap sent_msg (zip_with PReturned ms rs) = (filter (λ x, x.2 = BEAM_OK) (zip ms rs)).*1 ∧
  length (omap counted (zip_with PReturned ms rs)) = length (omap sent_msg (zip_with PReturned ms rs)).
Proof.
  revert rs. induction ms as [|x ms IH]; intros [|r rs]; [done..|].
  destruct (IH rs) as (E1 & E2 & E3 & E4). csimpl. rewrite E1, E2, filter_cons.
  destruct r; csimpl; rewrite ?E3 in *; split_and!; try done. by rewrite E4.
Qed.

(** C6: Sending is linearisable: any number of threads send to one mailbox at
    the same time, each access interleaving with every other.  No access is
    undefined, and once all have returned the mailbox is a well-formed queue: the
    messages that were there, in their order, then exactly those of the sends
    that reported success, each once; the live blocks are the queue's nodes, and
    the atomic counter counts the sends. *)
Theorem concurrent_send mb a l0 B0 ms st :
  llist (mb_nodes mb) (mb_head mb) l0 (mb_tail mb) → extends a B0 l0.*1 →
  is_u64 (mb_atomic_count mb) → rtc mb_step (MbState mb a (PSend <$> ms)) st →
  (∀ i th, ms_threads st !! i = Some th → is_Some (mb_phase th (ms_mbox st) (ms_alc st))) ∧
  (Forall (λ th, sender_done th = true) (ms_threads st) →
   ∃ rs new, ms_threads st = zip_with PReturned ms rs ∧ length rs = length ms ∧
     llist (mb_nodes (ms_mbox st)) (mb_head (ms_mbox st)) (l0 ++ new) (mb_tail (ms_mbox st)) ∧
     new.*2 ≡ₚ (filter (λ x, x.2 = BEAM_OK) (zip ms rs)).*1 ∧
     extends (ms_alc st) B0 (l0 ++ new).*1 ∧
     mb_atomic_count (ms_mbox st) = u64 (mb_atomic_count mb + Z.of_nat (length new))).
Proof.
  intros Hl Hx Hu Hs. pose proof (senders_start mb a l0 B0 ms Hl Hx Hu) as Hstart.
  pose proof (race_reach_ok _ _ _ _ _ Hstart Hs) as Hok.
  split; [intros i th; by eapply race_progress|]. intros Hdone.
  pose proof (race_msgs _ _ _ _ _ Hstart Hs) as Hmsgs. cbn in Hmsgs.
  destruct Hok as [_ Hok]. destruct st as [mb' a' ths]. cbn [ms_threads ms_mbox ms_alc] in *.
  clear Hs Hstart Hl Hx.
  destruct (all_returned _ _ Hdone Hmsgs) as (rs & -> & Hlen).
  destruct (returned_shares ms rs) as (E1 & E2 & E3 & E4). rewrite E1, E2 in Hok.
  destruct Hok as (new & m & h & Hl & Hpb & _ & Hd & _ & _ & Hx & HS & Hk).
  cbn in Hd. rewrite union_empty_r_L in Hd. destruct (published_nil _ _ _ _ Hpb Hd) as [<- <-].
  exists rs, new. rewrite app_nil_r in Hx. split_and!; [done|done|done| |done|].
  - by rewrite HS, E3.
  - by rewrite Hk, E4, <-HS, length_fmap.
Qed.
End Senders.
