(* ===== verification/MailboxLoss.v ===== *)
(** What a receiver does to the lock-free mailbox (src/messaging/erl_message.c):
    an access to a freed node, and a lost message. *)
From stdpp Require Import relations.
From S2P Require Import Prelude Memory Term Alloc LinkedList HashChain Blocks Mailbox.
From S2P Require Import MailboxRace.
From stdpp Require Import options.

Section Loss.
Context {A : Type} `{AllocOps A}.
Implicit Types (mb : beam_mailbox) (a : A).

(** The fields that change; the cursor fields stay. *)
Definition fields (cursor prev h t ac c : Z) (ns : nodes Z) : beam_mailbox :=
  {| mb_head := h; mb_tail := t; mb_save_cursor := cursor; mb_save_prev := prev;
     mb_atomic_count := ac; mb_count := c; mb_nodes := ns |}.

(** Thread [i] reaches [th'] and leaves the mailbox [mb']. *)
Lemma advance i th' mb' a' th mb a ths ths' st :
  ths !! i = Some th → mb_phase th mb a = Some (th', mb', a') → <[i := th']> ths = ths' →
  rtc mb_step (MbState mb' a' ths') st → rtc mb_step (MbState mb a ths) st.
Proof. intros Hi E <- Hs. eapply rtc_l; [by eapply mb_access|done]. Qed.

Context (x v msg n cursor prev ac : Z) (a a1 : A).
Context (Halloc : al_alloc a sizeof_beam_message = (n, a1)).
Context (Hn : n ≠ NULL) (Hx : x ≠ NULL) (Hnx : n ≠ x).

Abbreviation mbox := (fields cursor prev).
Abbreviation old := (<[n := Node msg NULL]> {[x := Node v NULL]} : nodes Z).
Abbreviation linked := (<[x := Node v n]> old : nodes Z).
Abbreviation both := [PSend msg; CReceive].

Lemma lookup_old : old !! x = Some (Node v NULL).
Proof using Type*. by rewrite lookup_insert_ne, lookup_singleton_eq. Qed.

Lemma x_nonnull : (x =? NULL) = false.
Proof using Type*. by apply Z.eqb_neq. Qed.

Lemma n_nonnull : (n =? NULL) = false.
Proof using Type*. by apply Z.eqb_neq. Qed.

Ltac go i t m al :=
  eapply (advance i t m al);
  [reflexivity
  |cbn [mb_phase mb_head mb_tail mb_nodes mb_count fields]; unfold set_next;
   rewrite ?Halloc, ?n_nonnull, ?x_nonnull, ?lookup_old; reflexivity
  |reflexivity|].

(** The receiver has read that the node is the last one; the sender has already
    made its own node the tail. *)
Lemma common_prefix :
  rtc mb_step (MbState (mbox x x ac 1 {[x := Node v NULL]}) a both)
    (MbState (mbox x n ac 1 old) a1 [PExchanged msg n x; CNext x v NULL]).
Proof using Type*.
  go 0%nat (PFilled msg n) (mbox x x ac 1 old) a1.
  go 1%nat CFound (mbox x x ac 1 old) a1.
  go 1%nat (CHead x) (mbox x x ac 1 old) a1.
  go 1%nat (CBody x v) (mbox x x ac 1 old) a1.
  go 1%nat (CNext x v NULL) (mbox x x ac 1 old) a1.
  go 0%nat (PExchanged msg n x) (mbox x n ac 1 old) a1.
  apply rtc_refl.
Qed.

(** The receiver runs to its end, whatever the sender [th] is at. *)
Lemma receiver_finishes th c ac' ns :
  rtc mb_step (MbState (mbox x n ac' (Z.pos c) ns) a1 [th; CNext x v NULL])
    (MbState (mbox NULL NULL ac' (u64 (Z.pos c - 1)) (delete x ns)) (al_free a1 x)
       [th; CReturned BEAM_OK (Some v)]).
Proof using Type*.
  go 1%nat (CMoved x v) (mbox NULL n ac' (Z.pos c) ns) a1.
  go 1%nat (CClearing x v) (mbox NULL n ac' (Z.pos c) ns) a1.
  go 1%nat (CCounting x v) (mbox NULL NULL ac' (Z.pos c) ns) a1.
  go 1%nat (CCounted x v (Z.pos c)) (mbox NULL NULL ac' (Z.pos c) ns) a1.
  go 1%nat (CFreeing x v) (mbox NULL NULL ac' (u64 (Z.pos c - 1)) ns) a1.
  go 1%nat (CReturned BEAM_OK (Some v)) (mbox NULL NULL ac' (u64 (Z.pos c - 1)) (delete x ns))
    (al_free a1 x).
  apply rtc_refl.
Qed.

(** The sender runs to its end. *)
Lemma sender_finishes :
  rtc mb_step (MbState (mbox x n ac 1 old) a1 [PExchanged msg n x; CNext x v NULL])
    (MbState (mbox x n (u64 (ac + 1)) 2 linked) a1 [PReturned msg BEAM_OK; CNext x v NULL]).
Proof using Type*.
  go 0%nat (PLinked msg) (mbox x n ac 1 linked) a1.
  go 0%nat (PCounting msg) (mbox x n (u64 (ac + 1)) 1 linked) a1.
  go 0%nat (PCounted msg 1) (mbox x n (u64 (ac + 1)) 1 linked) a1.
  go 0%nat (PReturned msg BEAM_OK) (mbox x n (u64 (ac + 1)) 2 linked) a1.
  apply rtc_refl.
Qed.
End Loss.

(** Nothing interleaves: the accesses of one call are the call. *)
Section Alone.
Context {A : Type} `{AllocOps A}.
Implicit Types (mb : beam_mailbox) (a : A).

Lemma send_alone mb a msg r mb' a' :
  mailbox_enqueue mb a msg = Some (r, mb', a') →
  rtc mb_step (MbState mb a [PSend msg]) (MbState mb' a' [PReturned msg r]).
Proof.
  unfold mailbox_enqueue. destruct (al_alloc a sizeof_beam_message) as [n a1] eqn:Ea.
  destruct (n =? NULL) eqn:En; intros E.
  - simplify_eq. eapply (advance 0 (PReturned msg BEAM_ERR_NO_MEMORY) mb' a'); [done| |done|done].
    cbn [mb_phase]. by rewrite Ea, En.
  - eapply (advance 0 (PFilled msg n)); [done|cbn [mb_phase]; by rewrite Ea, En|done|].
    eapply (advance 0 (PExchanged msg n (mb_tail mb))); [done|reflexivity|done|].
    destruct (mb_tail mb =? NULL) eqn:Et; cbn [mbind option_bind] in E.
    + simplify_eq. eapply (advance 0 (PLinked msg)); [done|cbn [mb_phase]; by rewrite Et|done|].
      do 3 (eapply (advance 0); [done|reflexivity|reflexivity|]). apply rtc_refl.
    + destruct (set_next _ _ _) as [ns'|] eqn:Es; cbn [mbind option_bind] in E; simplify_eq.
      eapply (advance 0 (PLinked msg)); [done| |done|].
      { cbn [mb_phase mb_nodes with_tail with_nodes]. by rewrite Et, Es. }
      do 3 (eapply (advance 0); [done|reflexivity|reflexivity|]). apply rtc_refl.
Qed.

Lemma receive_alone mb a r out mb' a' :
  is_u64 (mb_count mb) → mailbox_dequeue mb a = Some (r, out, mb', a') →
  rtc mb_step (MbState mb a [CReceive]) (MbState mb' a' [CReturned r out]).
Proof.
  unfold mailbox_dequeue. intros Hc E. destruct (mb_head mb =? NULL) eqn:Eh.
  - simplify_eq. eapply (advance 0); [done|cbn [mb_phase]; by rewrite Eh|reflexivity|apply rtc_refl].
  - apply bind_Some in E as (nd & Hnd & E). simplify_eq.
    eapply (advance 0 CFound); [done|cbn [mb_phase]; by rewrite Eh|done|].
    eapply (advance 0 (CHead (mb_head mb))); [done|reflexivity|done|].
    eapply (advance 0 (CBody (mb_head mb) (nval nd))); [done|cbn [mb_phase]; by rewrite Hnd|done|].
    eapply (advance 0 (CNext (mb_head mb) (nval nd) (nnext nd)));
      [done|cbn [mb_phase]; by rewrite Hnd|done|].
    eapply (advance 0 (CMoved (mb_head mb) (nval nd))); [done|reflexivity|done|].
    eapply (advance 0); [done|reflexivity|reflexivity|]. cbn [mb_head with_head].
    set (t := if nnext nd =? NULL then NULL else mb_tail mb).
    assert (Hct : rtc mb_step
      (MbState (with_tail t (with_head (nnext nd) mb)) a [CCounting (mb_head mb) (nval nd)])
      (MbState (fields (mb_save_cursor mb) (mb_save_prev mb) (nnext nd) t (mb_atomic_count mb)
        (if mb_count mb >? 0 then mb_count mb - 1 else mb_count mb)
        (delete (mb_head mb) (mb_nodes mb))) (al_free a (mb_head mb))
        [CReturned BEAM_OK (Some (nval nd))])).
    { eapply (advance 0); [done|reflexivity|reflexivity|]. cbn [mb_count with_head with_tail].
      rewrite Z.gtb_ltb. destruct (Z.ltb_spec 0 (mb_count mb)).
      - eapply (advance 0); [done|reflexivity|reflexivity|].
        eapply (advance 0); [done|reflexivity|reflexivity|].
        rewrite u64_small by (unfold is_u64 in *; lia). apply rtc_refl.
      - eapply (advance 0); [done|reflexivity|reflexivity|]. apply rtc_refl. }
    destruct (nnext nd =? NULL) eqn:Enx.
    + eapply (advance 0); [done|reflexivity|reflexivity|exact Hct].
    + exact Hct.
Qed.
End Alone.

Section LossProps.
Context {A : Type} `{AllocOps A}.

(** C35: One sender and one receiver are enough to break the lock-free mailbox
    when it holds one message.  There is an interleaving in which the sender
    writes to the node the receiver has freed; and there is one in which both
    report success and the sent message is lost: the mailbox is empty, a receive
    finds nothing, and the node of the message is still allocated. *)
Theorem send_races_receive x v msg n cursor prev ac (a a1 : A) :
  al_alloc a sizeof_beam_message = (n, a1) → n ≠ NULL → x ≠ NULL → n ≠ x →
  let start := MbState (fields cursor prev x x ac 1 {[x := Node v NULL]}) a [PSend msg; CReceive] in
  (∃ st th, rtc mb_step start st ∧ ms_threads st !! 0%nat = Some th ∧
     mb_phase th (ms_mbox st) (ms_alc st) = None) ∧
  (∃ mb a', rtc mb_step start
       (MbState mb a' [PReturned msg BEAM_OK; CReturned BEAM_OK (Some v)]) ∧
     mailbox_dequeue mb a' = Some (BEAM_ERR_NOT_FOUND, None, mb, a') ∧
     mb_nodes mb !! n = Some (Node msg NULL)).
Proof.
  intros Ea Hn Hx Hnx start. split.
  - eexists _, (PExchanged msg n x). split; [|split].
    + etrans; [by eapply common_prefix|]. by eapply receiver_finishes with (c := 1%positive).
    + done.
    + cbn [mb_phase ms_mbox ms_alc]. destruct (Z.eqb_spec x NULL) as [|_]; [done|].
      unfold set_next. cbn [mb_nodes fields]. by rewrite lookup_delete_eq.
  - eexists _, _. split; [|split].
    + etrans; [by eapply common_prefix|]. etrans; [by eapply sender_finishes|].
      by eapply receiver_finishes with (c := 2%positive).
    + done.
    + cbn [mb_nodes fields]. by rewrite lookup_delete_ne, lookup_insert_ne, lookup_insert_eq by done.
Qed.
End LossProps.

(** ** Examples *)

(** A schedule names the thread that advances next. *)
Fixpoint run_accesses (schedule : list nat) (st : mb_state bump_heap) : option (mb_state bump_heap) :=
  match schedule with
  | [] => Some st
  | i :: schedule' =>
      th ← ms_threads st !! i;
      '(th', mb, a) ← mb_phase th (ms_mbox st) (ms_alc st);
      run_accesses schedule' (MbState mb a (<[i := th']> (ms_threads st)))
  end.

Lemma run_accesses_steps schedule st st' :
  run_accesses schedule st = Some st' → rtc mb_step st st'.
Proof.
  revert st. induction schedule as [|i l IH]; intros st Hs; [by simplify_eq/=|].
  cbn [run_accesses] in Hs. apply bind_Some in Hs as (th & Hi & Hs).
  apply bind_Some in Hs as ([[th' mb] a] & Hp & Hs). destruct st as [mb0 a0 ths].
  eapply rtc_l; [by eapply mb_access|by apply IH].
Qed.

(** Two senders, access by access in turn: both messages arrive, but one of the
    two increments of the plain counter is lost. *)
Lemma concurrent_send_witness :
  ∃ st new, rtc mb_step (MbState empty_mailbox (bump_init (2 ^ 20)) (PSend <$> [7; 8])) st ∧
    llist (mb_nodes (ms_mbox st)) (mb_head (ms_mbox st)) ([] ++ new) (mb_tail (ms_mbox st)) ∧
    new.*2 ≡ₚ [7; 8] ∧ mb_count (ms_mbox st) = 1.
Proof.
  pose (start := MbState empty_mailbox (bump_init (2 ^ 20)) (PSend <$> [7; 8])).
  pose (sched := [0; 1; 1; 0; 0; 1; 0; 1; 0; 1; 0; 1]%nat).
  assert ((λ st, (ms_threads st, mb_count (ms_mbox st))) <$> run_accesses sched start =
    Some ([PReturned 7 BEAM_OK; PReturned 8 BEAM_OK], 1)) as Hr by (vm_compute; reflexivity).
  destruct (run_accesses sched start) as [st|] eqn:E; [|discriminate Hr].
  injection Hr as Hths Hc. apply run_accesses_steps in E. exists st.
  destruct (concurrent_send empty_mailbox (bump_init (2 ^ 20)) [] ∅ [7; 8] st) as [_ Hdone].
  - apply llist_nil.
  - apply extends_nil, bump_init_rep. done.
  - done.
  - exact E.
  - rewrite Hths in Hdone. destruct Hdone as (rs & new & Ers & Hl & Hll & Hp & _).
    { by repeat constructor. }
    exists new. split; [exact E|]. split; [exact Hll|]. split; [|exact Hc].
    destruct rs as [|r1 [|r2 [|]]]; try discriminate Hl. injection Ers as <- <-. exact Hp.
Defined.

Lemma send_races_receive_witness :
  let start := MbState (fields NULL NULL 2048 2048 1 1 {[2048 := Node 7 NULL]})
    (bump_init (2 ^ 20)) [PSend 8; CReceive] in
  ∃ st th, rtc mb_step start st ∧ ms_threads st !! 0%nat = Some th ∧
    mb_phase th (ms_mbox st) (ms_alc st) = None.
Proof.
  destruct (al_alloc (bump_init (2 ^ 20)) sizeof_beam_message) as [n a1] eqn:E.
  assert (n = 4096) as -> by (vm_compute in E; by injection E).
  exact (proj1 (send_races_receive 2048 7 8 4096 NULL NULL 1 (bump_init (2 ^ 20)) a1 E
    ltac:(discriminate) ltac:(discriminate) ltac:(discriminate))).
Defined.
