(* ===== verification/Process.v ===== *)
(** Process control blocks: src/scheduler/erl_process.c, the state shared by
    the whole virtual machine, and the mailbox entry points of
    src/messaging/erl_message.c that go through a process. *)
From S2P Require Import Prelude Memory Term Alloc LinkedList Mailbox.
From stdpp Require Import options.

(** ** Data *)

Inductive beam_process_state_t : Type :=
| BEAM_PROC_STATE_RUNNABLE
| BEAM_PROC_STATE_RUNNING
| BEAM_PROC_STATE_WAITING
| BEAM_PROC_STATE_SUSPENDED
| BEAM_PROC_STATE_EXITED.

#[export] Instance beam_process_state_eq_dec : EqDecision beam_process_state_t.
Proof. solve_decision. Defined.

(** [beam_priority_t]: an unsigned enumeration, any value can be passed. *)
Definition BEAM_PRIO_MAX : Z := 0.
Definition BEAM_PRIO_HIGH : Z := 1.
Definition BEAM_PRIO_NORMAL : Z := 2.
Definition BEAM_PRIO_LOW : Z := 3.
Definition BEAM_PRIO_NUM_LEVELS : Z := 4.
Definition BEAM_NUM_PRIORITIES : Z := BEAM_PRIO_NUM_LEVELS.

Definition BEAM_DEFAULT_REDUCTIONS : Z := 4000.
Definition BEAM_NUM_X_REGISTERS : Z := 256.
Definition BEAM_MAX_STACK_WORDS : Z := 256.
Definition BEAM_MAX_CATCH_DEPTH : Z := 64.

Record beam_catch_frame : Type := {
  catch_label : Z;
  catch_stack_top : Z;
  catch_cp : Z;
}.

(** [beam_emulator_frame_t]; the [stack] array and the [wide] flags are never
    read or written by the program. *)
Record beam_emulator_frame_t : Type := {
  x_regs : list Z;
  sp : Z;
  cp : Z;
  ip : Z;
  catch_ip : Z;
  catch_sp : Z;
  catch_stack : list beam_catch_frame;
  catch_depth : Z;
}.

(** [struct beam_process]; [mailbox] is the pointer, the off-heap payload
    fields are never used by the program. *)
Record beam_process : Type := {
  pid : Z;
  state : beam_process_state_t;
  priority : Z;
  reductions : Z;
  heap : Z;
  heap_capacity : Z;
  heap_top : Z;
  stack_top : Z;
  mailbox : Z;
  frame : beam_emulator_frame_t;
}.

(** 80 bytes of scalars, the 5672-byte emulator frame, the allocator vtable. *)
Definition sizeof_beam_process : Z := 5784.

Definition zero_catch_frame : beam_catch_frame :=
  {| catch_label := 0; catch_stack_top := 0; catch_cp := 0 |}.

(** The frame after [memset] and [frame.sp = BEAM_MAX_STACK_WORDS]. *)
Definition initial_frame : beam_emulator_frame_t :=
  {| x_regs := replicate (Z.to_nat BEAM_NUM_X_REGISTERS) 0;
     sp := BEAM_MAX_STACK_WORDS; cp := 0; ip := 0; catch_ip := 0; catch_sp := 0;
     catch_stack := replicate (Z.to_nat BEAM_MAX_CATCH_DEPTH) zero_catch_frame;
     catch_depth := 0 |}.

(** ** Field updates *)

Definition set_fr_x_regs (xs : list Z) (f : beam_emulator_frame_t) : beam_emulator_frame_t :=
  {| x_regs := xs; sp := sp f; cp := cp f; ip := ip f; catch_ip := catch_ip f;
     catch_sp := catch_sp f; catch_stack := catch_stack f; catch_depth := catch_depth f |}.
Definition set_fr_cp (c : Z) (f : beam_emulator_frame_t) : beam_emulator_frame_t :=
  {| x_regs := x_regs f; sp := sp f; cp := c; ip := ip f; catch_ip := catch_ip f;
     catch_sp := catch_sp f; catch_stack := catch_stack f; catch_depth := catch_depth f |}.
Definition set_fr_ip (i : Z) (f : beam_emulator_frame_t) : beam_emulator_frame_t :=
  {| x_regs := x_regs f; sp := sp f; cp := cp f; ip := i; catch_ip := catch_ip f;
     catch_sp := catch_sp f; catch_stack := catch_stack f; catch_depth := catch_depth f |}.
Definition set_fr_catch (cs : list beam_catch_frame) (depth cip csp : Z)
    (f : beam_emulator_frame_t) : beam_emulator_frame_t :=
  {| x_regs := x_regs f; sp := sp f; cp := cp f; ip := ip f; catch_ip := cip;
     catch_sp := csp; catch_stack := cs; catch_depth := depth |}.

Definition set_p_state (st : beam_process_state_t) (p : beam_process) : beam_process :=
  {| pid := pid p; state := st; priority := priority p; reductions := reductions p;
     heap := heap p; heap_capacity := heap_capacity p; heap_top := heap_top p;
     stack_top := stack_top p; mailbox := mailbox p; frame := frame p |}.
Definition set_p_priority (pr : Z) (p : beam_process) : beam_process :=
  {| pid := pid p; state := state p; priority := pr; reductions := reductions p;
     heap := heap p; heap_capacity := heap_capacity p; heap_top := heap_top p;
     stack_top := stack_top p; mailbox := mailbox p; frame := frame p |}.
Definition set_p_reductions (r : Z) (p : beam_process) : beam_process :=
  {| pid := pid p; state := state p; priority := priority p; reductions := r;
     heap := heap p; heap_capacity := heap_capacity p; heap_top := heap_top p;
     stack_top := stack_top p; mailbox := mailbox p; frame := frame p |}.
Definition set_p_heap (h cap top : Z) (p : beam_process) : beam_process :=
  {| pid := pid p; state := state p; priority := priority p; reductions := reductions p;
     heap := h; heap_capacity := cap; heap_top := top;
     stack_top := stack_top p; mailbox := mailbox p; frame := frame p |}.
Definition set_p_stack_top (t : Z) (p : beam_process) : beam_process :=
  {| pid := pid p; state := state p; priority := priority p; reductions := reductions p;
     heap := heap p; heap_capacity := heap_capacity p; heap_top := heap_top p;
     stack_top := t; mailbox := mailbox p; frame := frame p |}.
Definition set_p_frame (f : beam_emulator_frame_t) (p : beam_process) : beam_process :=
  {| pid := pid p; state := state p; priority := priority p; reductions := reductions p;
     heap := heap p; heap_capacity := heap_capacity p; heap_top := heap_top p;
     stack_top := stack_top p; mailbox := mailbox p; frame := f |}.

(** ** The state of the machine

    The allocator, the word memory of the heaps, and the process and mailbox
    structures by address.  A pointer that is absent from its store is
    dangling: dereferencing it is undefined behaviour. *)
Record vm (A : Type) : Type := Vm {
  alc : A;
  mem : memory;
  procs : gmap Z beam_process;
  mboxes : gmap Z beam_mailbox;
}.
Arguments Vm {A} _ _ _ _.
Arguments alc {A} _.
Arguments mem {A} _.
Arguments procs {A} _.
Arguments mboxes {A} _.

Section Vm.
Context {A : Type} `{AllocOps A}.
Implicit Types s : vm A.

Definition set_alc (a : A) s : vm A := Vm a (mem s) (procs s) (mboxes s).
Definition set_mem (m : memory) s : vm A := Vm (alc s) m (procs s) (mboxes s).
Definition put_proc (p : Z) (pr : beam_process) s : vm A :=
  Vm (alc s) (mem s) (<[p := pr]> (procs s)) (mboxes s).
Definition put_mbox (mb : Z) (mbox : beam_mailbox) s : vm A :=
  Vm (alc s) (mem s) (procs s) (<[mb := mbox]> (mboxes s)).

(** [proc->field = ...] *)
Definition upd_proc (p : Z) (f : beam_process → beam_process) s : option (vm A) :=
  pr ← procs s !! p; Some (put_proc p (f pr) s).

(** ** Mailbox entry points (src/messaging/erl_message.c) *)

Definition beam_mailbox_create s : Z * vm A :=
  let '(mb, a) := al_alloc (alc s) sizeof_beam_mailbox in
  if mb =? NULL then (NULL, set_alc a s)
  else (mb, put_mbox mb empty_mailbox (set_alc a s)).

Definition beam_mailbox_destroy (mb : Z) s : option (vm A) :=
  if mb =? NULL then Some s
  else
    mbox ← mboxes s !! mb;
    a ← mailbox_free_nodes mbox (alc s);
    Some (Vm (al_free a mb) (mem s) (procs s) (delete mb (mboxes s))).

Definition beam_mailbox_enqueue (mb msg : Z) s : option (beam_result_t * vm A) :=
  if mb =? NULL then Some (BEAM_ERR_INVALID_ARG, s)
  else
    mbox ← mboxes s !! mb;
    '(r, mbox, a) ← mailbox_enqueue mbox (alc s) msg;
    Some (r, put_mbox mb mbox (set_alc a s)).

(** The out parameter is always supplied by the callers inside the program. *)
Definition beam_mailbox_dequeue (mb : Z) s : option (beam_result_t * option Z * vm A) :=
  if mb =? NULL then Some (BEAM_ERR_INVALID_ARG, None, s)
  else
    mbox ← mboxes s !! mb;
    '(r, out, mbox, a) ← mailbox_dequeue mbox (alc s);
    Some (r, out, put_mbox mb mbox (set_alc a s)).

Definition beam_mailbox_reset_save_cursor (mb : Z) s : option (vm A) :=
  if mb =? NULL then Some s
  else mbox ← mboxes s !! mb; Some (put_mbox mb (mailbox_reset_save_cursor mbox) s).

Definition beam_mailbox_peek_save (mb : Z) s : option (beam_result_t * option Z * vm A) :=
  if mb =? NULL then Some (BEAM_ERR_INVALID_ARG, None, s)
  else
    mbox ← mboxes s !! mb;
    '(r, out, mbox) ← mailbox_peek_save mbox;
    Some (r, out, put_mbox mb mbox s).

Definition beam_mailbox_remove_current (mb : Z) s : option (beam_result_t * vm A) :=
  if mb =? NULL then Some (BEAM_ERR_NOT_FOUND, s)
  else
    mbox ← mboxes s !! mb;
    '(r, mbox, a) ← mailbox_remove_current mbox (alc s);
    Some (r, put_mbox mb mbox (set_alc a s)).

Definition beam_mailbox_count (mb : Z) s : option Z :=
  if mb =? NULL then Some 0 else mbox ← mboxes s !! mb; Some (mb_count mbox).

(** ** Life cycle (src/scheduler/erl_process.c) *)

(** [sizeof(Eterm) * n] on [size_t]. *)
Definition words_bytes (n : Z) : Z := u64 (WORD * n).

Definition beam_process_create (pid0 initial_heap_words : Z) s : Z * vm A :=
  let '(p, a) := al_alloc (alc s) sizeof_beam_process in
  if p =? NULL then (NULL, set_alc a s)
  else
    let capacity := if initial_heap_words >? 0 then initial_heap_words else 256 in
    let '(h, a) := al_alloc a (words_bytes capacity) in
    if h =? NULL then (NULL, set_alc (al_free a p) s)
    else
      let m := map_words (mem s) h (Z.to_nat (words_bytes capacity / WORD)) in
      let '(mb, s) := beam_mailbox_create (set_mem m (set_alc a s)) in
      if mb =? NULL then
        let a := al_free (al_free (alc s) h) p in
        (NULL, set_alc a (set_mem (unmap_words m h (Z.to_nat capacity)) s))
      else
        (p, put_proc p
              {| pid := pid0; state := BEAM_PROC_STATE_RUNNABLE;
                 priority := BEAM_PRIO_NORMAL; reductions := BEAM_DEFAULT_REDUCTIONS;
                 heap := h; heap_capacity := capacity; heap_top := 0;
                 stack_top := capacity; mailbox := mb; frame := initial_frame |} s).

Definition beam_process_destroy (p : Z) s : option (vm A) :=
  if p =? NULL then Some s
  else
    pr ← procs s !! p;
    s ← beam_mailbox_destroy (mailbox pr) s;
    let s := if heap pr =? NULL then s
             else set_alc (al_free (alc s) (heap pr))
                    (set_mem (unmap_words (mem s) (heap pr) (Z.to_nat (heap_capacity pr))) s) in
    Some (Vm (al_free (alc s) p) (mem s) (delete p (procs s)) (mboxes s)).

(** ** Accessors *)

Definition beam_process_get_pid (p : Z) s : option Z :=
  if p =? NULL then Some 0 else pr ← procs s !! p; Some (pid pr).

Definition beam_process_get_state (p : Z) s : option beam_process_state_t :=
  if p =? NULL then Some BEAM_PROC_STATE_EXITED else pr ← procs s !! p; Some (state pr).

Definition beam_process_set_state (p : Z) (st : beam_process_state_t) s : option (vm A) :=
  if p =? NULL then Some s else upd_proc p (set_p_state st) s.

Definition beam_process_get_reductions (p : Z) s : option Z :=
  if p =? NULL then Some 0 else pr ← procs s !! p; Some (reductions pr).

Definition beam_process_set_reductions (p r : Z) s : option (vm A) :=
  if p =? NULL then Some s else upd_proc p (set_p_reductions r) s.

(** [int] subtraction: overflow is undefined. *)
Definition beam_process_consume_reductions (p count : Z) s : option (vm A) :=
  if p =? NULL then Some s
  else
    pr ← procs s !! p;
    r ← s32_checked (reductions pr - count);
    Some (put_proc p (set_p_reductions r pr) s).

Definition beam_process_get_priority (p : Z) s : option Z :=
  if p =? NULL then Some BEAM_PRIO_NORMAL else pr ← procs s !! p; Some (priority pr).

Definition beam_process_set_priority (p prio : Z) s : option (vm A) :=
  if p =? NULL then Some s else upd_proc p (set_p_priority prio) s.

Definition beam_process_reset_reductions (p : Z) s : option (vm A) :=
  if p =? NULL then Some s else upd_proc p (set_p_reductions BEAM_DEFAULT_REDUCTIONS) s.

Definition beam_process_get_mailbox (p : Z) s : option Z :=
  if p =? NULL then Some NULL else pr ← procs s !! p; Some (mailbox pr).

Definition beam_process_heap_used (p : Z) s : option Z :=
  if p =? NULL then Some 0 else pr ← procs s !! p; Some (heap_top pr).

Definition beam_process_heap_capacity (p : Z) s : option Z :=
  if p =? NULL then Some 0 else pr ← procs s !! p; Some (heap_capacity pr).

(** ** Heap allocation and the compound terms *)

(** What [realloc] does to the word memory: the new block is mapped; when the old
    one is released, the words kept are copied and it is unmapped. *)
Definition realloc_words (mv : realloc_effect) (m : memory) (old old_n new new_n : Z) : memory :=
  match mv with
  | Moved kept =>
      copy_words m (map_words (unmap_words m old (Z.to_nat old_n)) new (Z.to_nat new_n))
        new old (Z.to_nat (Z.min (kept / WORD) (Z.min old_n new_n)))
  | NotMoved => map_words m new (Z.to_nat new_n)
  end.

(** Returns the pointer to the fresh words, NULL on failure. *)
Definition beam_process_alloc_heap (p needed_words : Z) s : option (Z * vm A) :=
  if p =? NULL then Some (NULL, s)
  else
    pr ← procs s !! p;
    if u64 (heap_top pr + needed_words) >? heap_capacity pr then
      let new_cap := u64 (heap_capacity pr * 2 + needed_words) in
      let '(new_heap, mv, a) := al_realloc (alc s) (heap pr) (words_bytes new_cap) in
      if new_heap =? NULL then Some (NULL, set_alc a s)
      else
        let m := realloc_words mv (mem s) (heap pr) (heap_capacity pr)
                   new_heap (words_bytes new_cap / WORD) in
        Some (word_at new_heap (heap_top pr),
              put_proc p
                (set_p_heap new_heap new_cap (u64 (heap_top pr + needed_words)) pr)
                (set_mem m (set_alc a s)))
    else
      Some (word_at (heap pr) (heap_top pr),
            put_proc p
              (set_p_heap (heap pr) (heap_capacity pr) (u64 (heap_top pr + needed_words)) pr) s).

(** [elements] is [None] for a NULL pointer; a shorter array than [arity] is
    read out of bounds. *)
Definition beam_make_tuple (p arity : Z) (elements : option (list Z)) s
    : option (Z * vm A) :=
  if p =? NULL then Some (0, s)
  else
    '(hp, s) ← beam_process_alloc_heap p (u64 (arity + 1)) s;
    if hp =? NULL then Some (0, s)
    else
      elems ← (match elements with
               | Some es =>
                   if arity >? 0 then
                     if Z.of_nat (length es) <? arity then None
                     else Some (take (Z.to_nat arity) es)
                   else Some []
               | None => Some (replicate (Z.to_nat arity) 0)
               end);
      m ← store_list (mem s) hp (u64 (tuple_header arity) :: elems);
      Some (tag_ptr hp TAG_PRIMARY_BOXED, set_mem m s).

Definition beam_make_list (p hd tl : Z) s : option (Z * vm A) :=
  if p =? NULL then Some (0, s)
  else
    '(hp, s) ← beam_process_alloc_heap p 2 s;
    if hp =? NULL then Some (0, s)
    else
      m ← store_list (mem s) hp [hd; tl];
      Some (tag_ptr hp TAG_PRIMARY_LIST, set_mem m s).

(** ** The unified stack: it grows downward from [heap_capacity] *)

Definition beam_process_stack_push (p term : Z) s : option (beam_result_t * vm A) :=
  if p =? NULL then Some (BEAM_ERR_INVALID_ARG, s)
  else
    pr ← procs s !! p;
    if heap pr =? NULL then Some (BEAM_ERR_INVALID_ARG, s)
    else if stack_top pr <=? heap_top pr then Some (BEAM_ERR_NO_MEMORY, s)
    else
      m ← store (mem s) (word_at (heap pr) (stack_top pr - 1)) term;
      Some (BEAM_OK, put_proc p (set_p_stack_top (stack_top pr - 1) pr) (set_mem m s)).

Definition beam_process_stack_pop (p : Z) s : option (beam_result_t * option Z * vm A) :=
  if p =? NULL then Some (BEAM_ERR_INVALID_ARG, None, s)
  else
    pr ← procs s !! p;
    if heap pr =? NULL then Some (BEAM_ERR_INVALID_ARG, None, s)
    else if stack_top pr >=? heap_capacity pr then Some (BEAM_ERR_BADARG, None, s)
    else
      w ← load (mem s) (word_at (heap pr) (stack_top pr));
      Some (BEAM_OK, Some w, put_proc p (set_p_stack_top (stack_top pr + 1) pr) s).

(** ** Process-to-process messaging (src/messaging/erl_message.c) *)

Definition beam_message_send_to_process (receiver msg : Z) s
    : option (beam_result_t * vm A) :=
  mb ← beam_process_get_mailbox receiver s;
  if mb =? NULL then Some (BEAM_ERR_INVALID_ARG, s) else beam_mailbox_enqueue mb msg s.

Definition beam_process_receive_message (p : Z) s
    : option (beam_result_t * option Z * vm A) :=
  mb ← beam_process_get_mailbox p s;
  if mb =? NULL then Some (BEAM_ERR_INVALID_ARG, None, s) else beam_mailbox_dequeue mb s.

Definition beam_process_reset_mailbox_cursor (p : Z) s : option (vm A) :=
  mb ← beam_process_get_mailbox p s;
  if mb =? NULL then Some s else beam_mailbox_reset_save_cursor mb s.

End Vm.
