(* ===== verification/ProcessInv.v ===== *)
(** The well-formedness invariant of the machine state and its preservation by
    the operations on processes.

    [vm_ok s B own]: the allocator's live blocks are [B]; [own] says which
    process heap or which mailbox a block belongs to (the other blocks are
    structures whose contents the state holds as records).  Every process has
    its heap block to itself, its stack and heap pointers are inside it, and
    every mailbox is a well-formed queue of nodes of its own. *)
From S2P Require Import Prelude Memory Term Alloc LinkedList Mailbox Process.
From stdpp Require Import options.

Inductive owner : Type :=
| OProc            (* a process control block *)
| OHeap (p : Z)    (* the heap of the process [p] *)
| OMbox (p : Z)    (* the mailbox structure of the process [p] *)
| OMsg (mb : Z).   (* a message node of the mailbox [mb] *)

Record proc_ok (pr : beam_process) : Prop := {
  po_regs : length (x_regs (frame pr)) = Z.to_nat BEAM_NUM_X_REGISTERS;
  po_catch_len : length (catch_stack (frame pr)) = Z.to_nat BEAM_MAX_CATCH_DEPTH;
  po_depth : 0 <= catch_depth (frame pr) <= BEAM_MAX_CATCH_DEPTH;
  po_catch : ∀ i cf, (i < Z.to_nat (catch_depth (frame pr)))%nat →
    catch_stack (frame pr) !! i = Some cf → 0 <= catch_stack_top cf <= heap_capacity pr;
  po_heap : 0 <= heap_top pr <= heap_capacity pr;
  po_stack : 0 <= stack_top pr <= heap_capacity pr;
}.

(** The data of one process block: [(heap address, capacity)]. *)
Definition heap_block (s_mem : memory) (B : blocks) (own : gmap Z owner) (p h cap : Z) : Prop :=
  B !! h = Some (WORD * cap) ∧ own !! h = Some (OHeap p) ∧ mapped s_mem h cap.

(** The structures of a process: its control block and its mailbox. *)
Definition struct_blocks (B : blocks) (own : gmap Z owner) (p mb : Z) : Prop :=
  (B !! p = Some sizeof_beam_process ∧ own !! p = Some OProc) ∧
  (B !! mb = Some sizeof_beam_mailbox ∧ own !! mb = Some (OMbox p)).

Definition mbox_ok (B : blocks) (own : gmap Z owner) (mb : Z) (mbox : beam_mailbox) : Prop :=
  ∃ seen ahead, mailbox_rep mbox seen ahead ∧
    ∀ n, n ∈ (seen ++ ahead).*1 →
      B !! n = Some sizeof_beam_message ∧ own !! n = Some (OMsg mb).

(** The live blocks that belong to no heap and no mailbox stay as they are. *)
Definition keeps_unowned (B : blocks) (own : gmap Z owner) (B' : blocks)
    (own' : gmap Z owner) : Prop :=
  ∀ q k, B !! q = Some k → own !! q = None → B' !! q = Some k ∧ own' !! q = None.

Lemma keeps_unowned_refl B own : keeps_unowned B own B own.
Proof. by intros q k. Qed.

#[export] Hint Resolve keeps_unowned_refl : beam core.

Section Inv.
Context {A : Type} `{AllocSpec A}.
Implicit Types (s : vm A) (B : blocks) (own : gmap Z owner).

Record vm_ok s B own : Prop := {
  vo_rep : al_rep (alc s) B;
  vo_own : ∀ q o, own !! q = Some o → is_Some (B !! q);
  vo_proc : ∀ p pr, procs s !! p = Some pr →
    p ≠ NULL ∧ proc_ok pr ∧
    heap_block (mem s) B own p (heap pr) (heap_capacity pr) ∧
    struct_blocks B own p (mailbox pr) ∧ is_Some (mboxes s !! mailbox pr);
  vo_mbox : ∀ mb mbox, mboxes s !! mb = Some mbox → mbox_ok B own mb mbox;
}.

Lemma vm_ok_empty a B : al_rep a B → vm_ok (Vm a ∅ ∅ ∅) B ∅.
Proof. intros Ha. by split; simpl; intros *; rewrite ?lookup_empty. Qed.

Lemma vm_ok_bounds s B own q k :
  vm_ok s B own → B !! q = Some k → 0 < q ∧ 0 < k ∧ q + k <= ADDR_LIMIT.
Proof. intros [Hrep _ _ _]. by apply al_rep_pos with (alc s). Qed.

Lemma vm_ok_heap_nonnull s B own p pr :
  vm_ok s B own → procs s !! p = Some pr → heap pr ≠ NULL.
Proof.
  intros Hok Hp. destruct (vo_proc _ _ _ Hok _ _ Hp) as (_ & _ & (Hb & _) & _).
  destruct (vm_ok_bounds _ _ _ _ _ Hok Hb). unfold NULL. lia.
Qed.

Lemma vm_ok_heap_cap s B own p pr :
  vm_ok s B own → procs s !! p = Some pr → 0 < heap_capacity pr < 2 ^ 44.
Proof.
  intros Hok Hp. destruct (vo_proc _ _ _ Hok _ _ Hp) as (_ & _ & (Hb & _) & _).
  destruct (vm_ok_bounds _ _ _ _ _ Hok Hb). unfold WORD, ADDR_LIMIT in *. lia.
Qed.

(** ** Framing *)

(** Updating a process without touching its heap block or its mailbox. *)
Lemma vm_ok_put_proc s B own p pr pr' :
  vm_ok s B own → procs s !! p = Some pr → proc_ok pr' →
  heap pr' = heap pr → heap_capacity pr' = heap_capacity pr → mailbox pr' = mailbox pr →
  vm_ok (put_proc p pr' s) B own.
Proof.
  intros [Hr Ho Hpr Hmb] Hp Hok Hh Hc Hm. split; simpl; [done..| |done].
  intros q qr [[<- <-]|[_ Hq]]%lookup_insert_Some; [|by apply Hpr].
  destruct (Hpr _ _ Hp) as (? & _ & Hblk & ? & ?). by rewrite Hh, Hc, Hm.
Qed.

(** Writing memory keeps every mapped word mapped. *)
Lemma vm_ok_set_mem s B own m :
  vm_ok s B own → (∀ a, is_Some (mem s !! a) → is_Some (m !! a)) →
  vm_ok (set_mem m s) B own.
Proof.
  intros [Hr Ho Hpr Hmb] Hm. split; simpl; [done..| |done].
  intros p pr Hp. destruct (Hpr _ _ Hp) as (? & ? & (? & ? & Hmap) & ? & ?).
  split_and!; [done..| |done|done]. split_and!; [done..|]. intros i Hi. by apply Hm, Hmap.
Qed.

Lemma store_is_Some (m : memory) a w m' b :
  store m a w = Some m' → is_Some (m !! b) → is_Some (m' !! b).
Proof. intros [_ ->]%store_Some Hb. apply lookup_insert_is_Some'. by right. Qed.

Lemma mbox_ok_mono B own B' own' mb mbox :
  (∀ n o, own !! n = Some o → B' !! n = B !! n ∧ own' !! n = own !! n) →
  mbox_ok B own mb mbox → mbox_ok B' own' mb mbox.
Proof.
  intros Hext (seen & ahead & Hrep & Hn). exists seen, ahead. split; [done|].
  intros n Hin. destruct (Hn n Hin) as [HB Hown].
  destruct (Hext _ _ Hown) as [-> ->]. done.
Qed.

(** ** Accessors *)

Lemma set_state_ok s B own p st pr :
  vm_ok s B own → procs s !! p = Some pr →
  beam_process_set_state p st s = Some (put_proc p (set_p_state st pr) s) ∧
  vm_ok (put_proc p (set_p_state st pr) s) B own.
Proof.
  intros Hok Hp. destruct (vo_proc _ _ _ Hok _ _ Hp) as (Hnn & Hpo & _).
  unfold beam_process_set_state, upd_proc.
  destruct (Z.eqb_spec p NULL); [done|]. rewrite Hp. split; [done|].
  eapply vm_ok_put_proc; eauto. by destruct Hpo; split.
Qed.

(** ** The unified stack *)

Lemma stack_push_spec s B own p pr w :
  vm_ok s B own → procs s !! p = Some pr →
  if stack_top pr <=? heap_top pr
  then beam_process_stack_push p w s = Some (BEAM_ERR_NO_MEMORY, s)
  else ∃ m, beam_process_stack_push p w s =
         Some (BEAM_OK, put_proc p (set_p_stack_top (stack_top pr - 1) pr) (set_mem m s)) ∧
       store (mem s) (word_at (heap pr) (stack_top pr - 1)) w = Some m ∧
       vm_ok (put_proc p (set_p_stack_top (stack_top pr - 1) pr) (set_mem m s)) B own.
Proof.
  intros Hok Hp. pose proof (vm_ok_heap_nonnull _ _ _ _ _ Hok Hp) as Hh.
  destruct (vo_proc _ _ _ Hok _ _ Hp) as (Hnn & Hpo & (_ & _ & Hmap) & _).
  unfold beam_process_stack_push.
  destruct (Z.eqb_spec p NULL); [done|]. rewrite Hp. simpl.
  destruct (Z.eqb_spec (heap pr) NULL); [done|].
  destruct (Z.leb_spec (stack_top pr) (heap_top pr)); [done|].
  pose proof (po_heap _ Hpo). pose proof (po_stack _ Hpo).
  rewrite (store_mapped _ _ _ _ _ Hmap) by lia. eexists. split; [done|]. split; [done|].
  eapply vm_ok_put_proc; [|exact Hp| |done..].
  - apply vm_ok_set_mem; [done|]. intros a Ha. apply lookup_insert_is_Some'. by right.
  - destruct Hpo. split; simpl; try done. lia.
Qed.

Lemma stack_pop_spec s B own p pr r out s' :
  vm_ok s B own → procs s !! p = Some pr → beam_process_stack_pop p s = Some (r, out, s') →
  (r = BEAM_ERR_BADARG ∧ out = None ∧ s' = s ∧ stack_top pr = heap_capacity pr) ∨
  (r = BEAM_OK ∧ stack_top pr < heap_capacity pr ∧
   ∃ w, out = Some w ∧ load (mem s) (word_at (heap pr) (stack_top pr)) = Some w ∧
   s' = put_proc p (set_p_stack_top (stack_top pr + 1) pr) s ∧ vm_ok s' B own).
Proof.
  intros Hok Hp Hpop. pose proof (vm_ok_heap_nonnull _ _ _ _ _ Hok Hp) as Hh.
  destruct (vo_proc _ _ _ Hok _ _ Hp) as (Hnn & Hpo & _).
  pose proof (po_stack _ Hpo). unfold beam_process_stack_pop in Hpop.
  destruct (Z.eqb_spec p NULL); [done|]. rewrite Hp in Hpop. simpl in Hpop.
  destruct (Z.eqb_spec (heap pr) NULL); [done|].
  rewrite Z.geb_leb in Hpop. destruct (Z.leb_spec (heap_capacity pr) (stack_top pr)).
  - simplify_eq. left. split_and!; try done. lia.
  - destruct (load _ _) as [w|] eqn:E; [|done]. simpl in Hpop. simplify_eq. right.
    split_and!; try done. eexists. split_and!; [done..|].
    eapply vm_ok_put_proc; [done|exact Hp| |done..]. destruct Hpo. split; simpl; try done. lia.
Qed.

(** ** Heap allocation *)

Lemma realloc_words_new mv (m : memory) old old_n new n :
  0 <= n → mapped (realloc_words mv m old old_n new n) new n.
Proof.
  intros Hn i Hi. unfold realloc_words.
  assert (∀ m' : memory, is_Some (map_words m' new (Z.to_nat n) !! word_at new i)).
  { intros m'. apply mapped_map_words. lia. }
  destruct mv; [by apply copy_words_is_Some|done].
Qed.

Lemma realloc_words_other mv (m : memory) old old_n new n a :
  in_block old old_n a = false → 0 <= old_n →
  is_Some (m !! a) → is_Some (realloc_words mv m old old_n new n !! a).
Proof.
  intros Hout Hn Ha. unfold realloc_words. destruct mv.
  - apply copy_words_is_Some. rewrite lookup_map_words. case_match; [eauto|].
    rewrite lookup_unmap_words, Z2Nat.id by done. by rewrite Hout.
  - rewrite lookup_map_words. case_match; eauto.
Qed.

(** The words of a live block are outside every other live block. *)
Lemma blocks_words_apart a0 B p q n k i :
  al_rep a0 B → p ≠ q → B !! p = Some (WORD * n) → B !! q = Some (WORD * k) →
  0 <= i < k → in_block p n (word_at q i) = false.
Proof.
  intros Hrep Hne Hp Hq Hi. apply in_block_false. intros j Hj.
  destruct (al_rep_disjoint _ _ _ _ _ _ Hrep Hne Hp Hq); unfold word_at, WORD in *; lia.
Qed.

(** The heap of [p] moves to a fresh block; everything else stays. *)
Lemma vm_ok_move_heap s B own p pr h' cap' top' m' a' :
  vm_ok s B own → procs s !! p = Some pr →
  fresh_block (delete (heap pr) B) h' (WORD * cap') →
  al_rep a' (<[h' := WORD * cap']> (delete (heap pr) B)) →
  heap_capacity pr <= cap' → 0 <= top' <= cap' →
  mapped m' h' cap' →
  (∀ a, in_block (heap pr) (heap_capacity pr) a = false →
        is_Some (mem s !! a) → is_Some (m' !! a)) →
  vm_ok (put_proc p (set_p_heap h' cap' top' pr) (set_mem m' (set_alc a' s)))
        (<[h' := WORD * cap']> (delete (heap pr) B))
        (<[h' := OHeap p]> (delete (heap pr) own)).
Proof.
  intros Hok Hp Hf Hrep' Hcap Htop Hmap Hoth. pose proof Hok as [Hrep Ho Hpr Hmb].
  destruct (Hpr _ _ Hp) as (Hnn & Hpo & (HB & Hown & Hm) & Hmbx).
  pose proof (vm_ok_heap_cap _ _ _ _ _ Hok Hp) as Hc.
  assert (Hfr : ∀ q k, q ≠ heap pr → B !! q = Some k → q ≠ h').
  { intros q k Hq HBq ->. destruct Hf as (_ & _ & _ & Hd).
    destruct (vm_ok_bounds _ _ _ _ _ Hok HBq).
    destruct (Hd h' k); [by rewrite lookup_delete_ne|unfold WORD in *; lia..]. }
  assert (Hmono : ∀ q o, o ≠ OHeap p → own !! q = Some o →
     <[h' := WORD * cap']> (delete (heap pr) B) !! q = B !! q ∧
     <[h' := OHeap p]> (delete (heap pr) own) !! q = own !! q).
  { intros q o Hne Hq. destruct (Ho _ _ Hq) as [k Hk].
    assert (q ≠ heap pr) as Hqh by congruence. pose proof (Hfr _ _ Hqh Hk).
    rewrite !lookup_insert_ne, !lookup_delete_ne by congruence. done. }
  assert (Hstruct : ∀ q mb, struct_blocks B own q mb → struct_blocks
    (<[h' := WORD * cap']> (delete (heap pr) B)) (<[h' := OHeap p]> (delete (heap pr) own)) q mb).
  { intros q mb [[E1 E2] [E3 E4]].
    destruct (Hmono q OProc), (Hmono mb (OMbox q)); done || (split; split; congruence). }
  split; simpl; [done| | |].
  - intros q o [[<- <-]|[_ [Hne Hq]%lookup_delete_Some]]%lookup_insert_Some.
    + rewrite lookup_insert_eq. eauto.
    + apply lookup_insert_is_Some'. right. rewrite lookup_delete_ne by done. by eapply Ho.
  - intros q qr [[<- <-]|[Hne Hq]]%lookup_insert_Some.
    + split_and!; [done| |split_and!| |apply Hmbx]; simpl; try done.
      * destruct Hpo. split; simpl; try done; [|lia].
        intros i cf Hi Hcf. specialize (po_catch0 i cf Hi Hcf). lia.
      * by rewrite lookup_insert_eq.
      * by rewrite lookup_insert_eq.
      * apply Hstruct, Hmbx.
    + destruct (Hpr _ _ Hq) as (? & ? & (HBq & Hoq & Hmq) & Hst & ?).
      destruct (Hmono (heap qr) (OHeap q)) as [HB' Ho']; [congruence|done|].
      split_and!; [done..| |by apply Hstruct|done].
      split_and!; [congruence|congruence|]. intros i Hi. apply Hoth; [|by apply Hmq].
      eapply blocks_words_apart; [done| |done..]. congruence.
  - intros mb mbox Hb. destruct (Hmb _ _ Hb) as (seen & ahead & Hr & Hn).
    exists seen, ahead. split; [done|]. intros n Hin. destruct (Hn n Hin) as [HBn Hon].
    destruct (Hmono n (OMsg mb)) as [-> ->]; done.
Qed.

Lemma move_heap_unowned B own p h h' n :
  own !! h = Some (OHeap p) → blocks_ok B → 0 < n → fresh_block (delete h B) h' n →
  keeps_unowned B own (<[h' := n]> (delete h B)) (<[h' := OHeap p]> (delete h own)).
Proof.
  intros Ho (Hb & _) Hn (_ & _ & _ & Hd) q k Hq Hqo.
  assert (q ≠ h) by congruence. specialize (Hb _ _ Hq).
  assert (q ≠ h').
  { intros ->. destruct (Hd h' k); [by rewrite lookup_delete_ne|lia..]. }
  by rewrite !lookup_insert_ne, !lookup_delete_ne.
Qed.

(** Allocation succeeds inside the heap, or moves the heap to a larger block,
    or reports failure and leaves the process alone. *)
Lemma alloc_heap_spec s B own p pr needed :
  vm_ok s B own → procs s !! p = Some pr → 0 <= needed < 2 ^ 33 →
  ∃ ptr s' B' own', beam_process_alloc_heap p needed s = Some (ptr, s') ∧
    vm_ok s' B' own' ∧ keeps_unowned B own B' own' ∧ mboxes s' = mboxes s ∧
    ((ptr = NULL ∧ procs s' = procs s ∧ mem s' = mem s) ∨
     (∃ h' cap', ptr = word_at h' (heap_top pr) ∧ ptr ≠ NULL ∧ aligned ptr ∧
        heap_top pr + needed <= cap' ∧ heap_capacity pr <= cap' ∧
        procs s' = <[p := set_p_heap h' cap' (heap_top pr + needed) pr]> (procs s))).
Proof.
  intros Hok Hp Hneed. pose proof Hok as [Hrep Ho Hpr Hmb].
  destruct (Hpr _ _ Hp) as (Hnn & Hpo & (HB & Hown & Hm) & Hmbx).
  pose proof (vm_ok_heap_cap _ _ _ _ _ Hok Hp) as Hc. pose proof (po_heap _ Hpo).
  unfold beam_process_alloc_heap. destruct (Z.eqb_spec p NULL); [done|]. rewrite Hp. simpl.
  rewrite (u64_small (heap_top pr + needed)) by (unfold is_u64; lia).
  rewrite Z.gtb_ltb. destruct (Z.ltb_spec (heap_capacity pr) (heap_top pr + needed)).
  - rewrite (u64_small (heap_capacity pr * 2 + needed)) by (unfold is_u64; lia).
    unfold words_bytes. rewrite u64_small by (unfold is_u64, WORD; lia).
    set (cap' := heap_capacity pr * 2 + needed).
    replace (WORD * cap' / WORD) with cap' by (rewrite Z.mul_comm, Z.div_mul; done).
    destruct (al_realloc (alc s) (heap pr) (WORD * cap')) as [[h' mv] a'] eqn:Ea.
    assert (Hsz : alloc_size (WORD * cap')) by (unfold alloc_size, WORD, cap'; lia).
    destruct (al_realloc_spec _ _ _ _ _ _ _ _ Hrep HB Hsz Ea) as [[-> Hr']|[Hf Hr']].
    + exists NULL, (set_alc a' s), B, own. split_and!; [done|by split|auto|done|by left].
    + pose proof (fresh_block_nonnull _ _ _ Hf).
      destruct (Z.eqb_spec h' NULL); [done|].
      pose proof Hf as (Hpos & Hal & _).
      eexists _, _, _, _. split; [done|]. split.
      * eapply vm_ok_move_heap; [done|exact Hp|exact Hf|exact Hr'|unfold cap'; lia..| |].
        -- apply realloc_words_new. unfold cap'. lia.
        -- intros b Hb. apply realloc_words_other; [done|lia].
      * split.
        { eapply move_heap_unowned; [done|by eapply al_rep_ok| |done]. apply Hsz. }
        split; [done|]. right. exists h', cap'. split_and!; [done| | | | |done].
        -- unfold word_at, WORD, NULL. lia.
        -- by apply word_at_aligned.
        -- unfold cap'. lia.
        -- unfold cap'. lia.
  - eexists _, _, B, own. split; [done|]. split.
    + eapply vm_ok_put_proc; [done|exact Hp| |done..]. destruct Hpo. split; simpl; try done. lia.
    + split; [auto|]. split; [done|]. right. exists (heap pr), (heap_capacity pr).
      pose proof (vm_ok_bounds _ _ _ _ _ Hok HB).
      split_and!; [done| | |lia|lia|done].
      * unfold word_at, WORD, NULL in *. lia.
      * apply word_at_aligned. by eapply al_rep_aligned.
Qed.

(** ** Mailboxes *)

(** [own] after the nodes of [mb] changed from [ps] to [ps']. *)
Definition own_msgs (mb : Z) (ps ps' : list Z) own : gmap Z owner :=
  foldr (λ q o, <[q := OMsg mb]> o) (drop_blocks ps own) ps'.

Lemma own_msgs_in mb ps ps' own q : q ∈ ps' → own_msgs mb ps ps' own !! q = Some (OMsg mb).
Proof.
  unfold own_msgs. induction ps' as [|r ps' IH]; [by intros ?%not_elem_of_nil|]. csimpl.
  intros Hq. destruct (decide (r = q)) as [->|]; [by rewrite lookup_insert_eq|].
  rewrite lookup_insert_ne by done. apply IH. by apply elem_of_cons in Hq as [->|].
Qed.

Lemma own_msgs_out mb ps ps' own q :
  q ∉ ps' → own_msgs mb ps ps' own !! q = drop_blocks ps own !! q.
Proof.
  unfold own_msgs. induction ps' as [|r ps' IH]; [done|]. csimpl.
  intros [? ?]%not_elem_of_cons. rewrite lookup_insert_ne by done. by apply IH.
Qed.

(** Replacing the node set of one mailbox. *)
Lemma vm_ok_mbox_nodes s B own mb mbox mbox' l seen' ahead' a' :
  vm_ok s B own → mboxes s !! mb = Some mbox →
  (∀ n, n ∈ l → B !! n = Some sizeof_beam_message ∧ own !! n = Some (OMsg mb)) →
  mailbox_rep mbox' seen' ahead' →
  owns_msgs a' (seen' ++ ahead') (drop_blocks l B) →
  vm_ok (put_mbox mb mbox' (set_alc a' s))
        (own_blocks sizeof_beam_message (seen' ++ ahead').*1 (drop_blocks l B))
        (own_msgs mb l (seen' ++ ahead').*1 own).
Proof.
  intros [Hr Ho Hpr Hmb] Hb Hl Hrep [Ha HB0].
  set (l' := (seen' ++ ahead').*1) in *.
  assert (Hsame : ∀ q o, own !! q = Some o → o ≠ OMsg mb →
    own_blocks sizeof_beam_message l' (drop_blocks l B) !! q = B !! q ∧
    own_msgs mb l l' own !! q = own !! q).
  { intros q o Hq Hne. destruct (Ho _ _ Hq) as [k Hk].
    assert (q ∉ l) as Hql by (intros Hin; apply Hl in Hin as [_ ?]; congruence).
    assert (q ∉ l') as Hql'.
    { intros Hin. specialize (HB0 q Hin). rewrite drop_blocks_out in HB0; congruence. }
    by rewrite own_blocks_lookup_ne, own_msgs_out, !drop_blocks_out. }
  split; simpl.
  - done.
  - intros q o Hq. destruct (decide (q ∈ l')) as [Hin|Hout].
    + rewrite own_blocks_lookup by done. eauto.
    + rewrite own_msgs_out in Hq by done. rewrite own_blocks_lookup_ne by done.
      assert (q ∉ l) by (intros ?; rewrite drop_blocks_in in Hq; done).
      rewrite drop_blocks_out in Hq by done. rewrite drop_blocks_out by done. by eapply Ho.
  - intros p pr Hp. destruct (Hpr _ _ Hp) as (? & ? & (HBh & Hoh & Hm) & Hst & ?).
    destruct (Hsame _ _ Hoh ltac:(done)) as [E1 E2].
    split_and!; [done..|split_and!; [congruence|congruence|done]| |].
    { destruct Hst as [[E3 E4] [E5 E6]].
      destruct (Hsame _ _ E4 ltac:(done)), (Hsame _ _ E6 ltac:(done)).
      split; split; congruence. }
    apply lookup_insert_is_Some'. by right.
  - intros mb2 mbox2 [[<- <-]|[Hne Hb2]]%lookup_insert_Some.
    + exists seen', ahead'. split; [done|]. intros n Hn. fold l' in Hn.
      by rewrite own_blocks_lookup, own_msgs_in.
    + destruct (Hmb _ _ Hb2) as (sn & ah & Hrep2 & Hn2). exists sn, ah. split; [done|].
      intros n Hn. destruct (Hn2 n Hn) as [HBn Hon].
      destruct (Hsame _ _ Hon ltac:(congruence)) as [-> ->]. done.
Qed.

Lemma mbox_nodes_unowned B own mb l l' :
  (∀ n, n ∈ l → B !! n = Some sizeof_beam_message ∧ own !! n = Some (OMsg mb)) →
  (∀ n, n ∈ l' → drop_blocks l B !! n = None) →
  keeps_unowned B own (own_blocks sizeof_beam_message l' (drop_blocks l B))
    (own_msgs mb l l' own).
Proof.
  intros Hl HB0 q k Hq Hqo.
  assert (q ∉ l) as Hql by (intros Hin; apply Hl in Hin as [_ ?]; congruence).
  assert (q ∉ l') as Hql'.
  { intros Hin. specialize (HB0 q Hin). rewrite drop_blocks_out in HB0; congruence. }
  by rewrite own_blocks_lookup_ne, own_msgs_out, !drop_blocks_out.
Qed.

(** Moving only the cursor of a mailbox. *)
Lemma vm_ok_mbox_cursor s B own mb mbox' seen ahead seen' ahead' :
  vm_ok s B own → mailbox_rep mbox' seen' ahead' → seen' ++ ahead' = seen ++ ahead →
  (∀ n, n ∈ (seen ++ ahead).*1 →
    B !! n = Some sizeof_beam_message ∧ own !! n = Some (OMsg mb)) →
  vm_ok (put_mbox mb mbox' s) B own.
Proof.
  intros [Hr Ho Hpr Hmb] Hrep Heq Hn. split; simpl; [done..| |].
  - intros p pr Hp. destruct (Hpr _ _ Hp) as (? & ? & ? & ? & ?). split_and!; [done..|].
    apply lookup_insert_is_Some'. by right.
  - intros mb2 mbox2 [[<- <-]|[Hne Hb2]]%lookup_insert_Some; [|by apply Hmb].
    exists seen', ahead'. by rewrite Heq.
Qed.

(** A mailbox holds fewer than [2^64] messages: its nodes are distinct addresses. *)
Lemma addresses_bound (l : list Z) n :
  NoDup l → (∀ x, x ∈ l → 0 <= x < n) → Z.of_nat (length l) <= Z.max 0 n.
Proof.
  intros Hnd Hl. assert (length l <= length (seqZ 0 n))%nat.
  { apply submseteq_length. apply NoDup_submseteq; [done|].
    intros x Hx. apply elem_of_seqZ. specialize (Hl x Hx). lia. }
  rewrite length_seqZ in *. lia.
Qed.

Lemma mbox_ok_length s B own mb mbox seen ahead :
  vm_ok s B own → mailbox_rep mbox seen ahead →
  (∀ n, n ∈ (seen ++ ahead).*1 →
    B !! n = Some sizeof_beam_message ∧ own !! n = Some (OMsg mb)) →
  Z.of_nat (length (seen ++ ahead)) < 2 ^ 64.
Proof.
  intros Hok [[_ Hnd _ _] _ _ _] Hn.
  pose proof (addresses_bound _ ADDR_LIMIT Hnd) as Hb. rewrite length_fmap in Hb.
  unfold ADDR_LIMIT in *. apply Z.le_lt_trans with (2 := eq_refl : 2 ^ 47 < 2 ^ 64).
  etrans; [apply Hb|done]. intros x Hx. destruct (Hn x Hx) as [HB _].
  pose proof (vm_ok_bounds _ _ _ _ _ Hok HB) as Hx2.
  unfold sizeof_beam_message, ADDR_LIMIT in Hx2. lia.
Qed.

Lemma enqueue_ok s B own mb mbox msg :
  vm_ok s B own → mb ≠ NULL → mboxes s !! mb = Some mbox →
  ∃ r s' B' own', beam_mailbox_enqueue mb msg s = Some (r, s') ∧
    vm_ok s' B' own' ∧ keeps_unowned B own B' own' ∧ procs s' = procs s ∧ mem s' = mem s ∧
    (r = BEAM_OK ∨ r = BEAM_ERR_NO_MEMORY).
Proof.
  intros Hok Hnn Hb. pose proof Hok as [Hr Ho Hpr Hmb].
  destruct (Hmb _ _ Hb) as (seen & ahead & Hrep & Hn).
  unfold beam_mailbox_enqueue. destruct (Z.eqb_spec mb NULL); [done|]. rewrite Hb. simpl.
  destruct (mailbox_enqueue_spec mbox (alc s) seen ahead msg _ Hrep
              (owns_intro _ _ _ _ Hr (λ n Hin, proj1 (Hn n Hin))))
    as (r & mbox' & a' & -> & [(-> & -> & Hown)|(-> & p & Hown & Hrep')]); simpl.
  - eexists _, _, _, _. split; [done|].
    split; [by eapply vm_ok_mbox_nodes|].
    split; [apply mbox_nodes_unowned; [done|apply Hown]|by auto].
  - destruct ahead as [|x ahead].
    + simpl in Hown. rewrite <- (app_nil_r (seen ++ _)) in Hown.
      eexists _, _, _, _. split; [done|].
      split; [by eapply vm_ok_mbox_nodes|].
    split; [apply mbox_nodes_unowned; [done|apply Hown]|by auto].
    + eexists _, _, _, _. split; [done|].
    split; [by eapply vm_ok_mbox_nodes|].
    split; [apply mbox_nodes_unowned; [done|apply Hown]|by auto].
Qed.

Lemma peek_save_ok s B own mb mbox :
  vm_ok s B own → mb ≠ NULL → mboxes s !! mb = Some mbox →
  ∃ r out s', beam_mailbox_peek_save mb s = Some (r, out, s') ∧
    vm_ok s' B own ∧ procs s' = procs s ∧ mem s' = mem s ∧
    (r = BEAM_OK ∧ is_Some out ∨ r = BEAM_ERR_NOT_FOUND ∧ out = None).
Proof.
  intros Hok Hnn Hb. destruct (vo_mbox _ _ _ Hok _ _ Hb) as (seen & ahead & Hrep & Hn).
  unfold beam_mailbox_peek_save. destruct (Z.eqb_spec mb NULL); [done|]. rewrite Hb. simpl.
  pose proof (mailbox_peek_spec _ _ _ Hrep) as Hpk.
  pose proof (mailbox_reset_spec _ _ _ Hrep) as Hrs.
  destruct ahead as [|[q w] ahead]; [destruct seen as [|[q w] seen]|]; rewrite Hpk; simpl;
    eexists _, _, _; (split; [done|]); (split; [|eauto 6]);
    eapply vm_ok_mbox_cursor; eauto.
Qed.

Lemma reset_cursor_ok s B own mb mbox :
  vm_ok s B own → mb ≠ NULL → mboxes s !! mb = Some mbox →
  ∃ s', beam_mailbox_reset_save_cursor mb s = Some s' ∧
    vm_ok s' B own ∧ procs s' = procs s ∧ mem s' = mem s.
Proof.
  intros Hok Hnn Hb. destruct (vo_mbox _ _ _ Hok _ _ Hb) as (seen & ahead & Hrep & Hn).
  unfold beam_mailbox_reset_save_cursor. destruct (Z.eqb_spec mb NULL); [done|].
  rewrite Hb. simpl. eexists. split; [done|]. split; [|done].
  eapply vm_ok_mbox_cursor; eauto using mailbox_reset_spec.
Qed.

Lemma advance_cursor_ok s B own mb mbox :
  vm_ok s B own → mboxes s !! mb = Some mbox →
  ∃ mbox', mailbox_advance_cursor mbox = Some mbox' ∧ vm_ok (put_mbox mb mbox' s) B own.
Proof.
  intros Hok Hb. destruct (vo_mbox _ _ _ Hok _ _ Hb) as (seen & ahead & Hrep & Hn).
  destruct (mailbox_advance_spec _ _ _ Hrep) as (mbox' & -> & Hm).
  eexists. split; [done|]. destruct ahead as [|x ahead].
  - subst. by eapply vm_ok_mbox_cursor.
  - eapply vm_ok_mbox_cursor; [done|exact Hm| |done]. by rewrite <- app_assoc.
Qed.

Lemma remove_current_ok s B own mb mbox :
  vm_ok s B own → mb ≠ NULL → mboxes s !! mb = Some mbox →
  ∃ r s' B' own', beam_mailbox_remove_current mb s = Some (r, s') ∧
    vm_ok s' B' own' ∧ keeps_unowned B own B' own' ∧ procs s' = procs s ∧ mem s' = mem s.
Proof.
  intros Hok Hnn Hb. destruct (vo_mbox _ _ _ Hok _ _ Hb) as (seen & ahead & Hrep & Hn).
  unfold beam_mailbox_remove_current. destruct (Z.eqb_spec mb NULL); [done|].
  rewrite Hb. simpl. pose proof (mbox_ok_length _ _ _ _ _ _ _ Hok Hrep Hn) as Hlen.
  pose proof (owns_intro _ _ _ _ (vo_rep _ _ _ Hok) (λ n Hin, proj1 (Hn n Hin))) as Hown.
  destruct ahead as [|[q w] ahead].
  - unfold mailbox_remove_current. rewrite (mr_cursor _ _ _ Hrep). simpl.
    eexists _, _, B, own. split; [done|]. split; [|by auto].
    replace (set_alc (alc s) s) with s by (by destruct s).
    by eapply vm_ok_mbox_cursor.
  - destruct (mailbox_remove_spec _ _ _ _ _ _ _ Hrep Hown Hlen) as (mbox' & -> & Hr' & Ho').
    simpl. eexists _, _, _, _. split; [done|]. split; [by eapply vm_ok_mbox_nodes|].
    split; [apply mbox_nodes_unowned; [done|apply Ho']|done].
Qed.

End Inv.
