(* ===== verification/ProcessLife.v ===== *)
(** Life cycle of processes: creation (src/scheduler/erl_process.c,
    [beam_process_create]) and destruction keep the machine invariant and
    account for every block they allocate. *)
From S2P Require Import Prelude Memory Term Alloc LinkedList Mailbox Process ProcessInv.
From stdpp Require Import options.

Section Life.
Context {A : Type} `{AllocSpec A}.
Implicit Types (s : vm A) (B : blocks) (own : gmap Z owner).

(** ** Blocks outside the machine *)

Lemma vm_ok_grow s B own p n a' :
  vm_ok s B own → B !! p = None → al_rep a' (<[p := n]> B) →
  vm_ok (set_alc a' s) (<[p := n]> B) own.
Proof.
  intros [Hr Ho Hpr Hmb] Hp Ha.
  assert (Hmono : ∀ q o', own !! q = Some o' → <[p := n]> B !! q = B !! q).
  { intros q o' Hq. destruct (Ho _ _ Hq) as [k Hk].
    rewrite lookup_insert_ne; [done|congruence]. }
  split; simpl; [done| | |].
  - intros q o' Hq. rewrite (Hmono _ _ Hq). eauto.
  - intros q qr Hq. destruct (Hpr _ _ Hq) as (? & ? & (? & E2 & ?) & [[? E4] [? E6]] & ?).
    pose proof (Hmono _ _ E2). pose proof (Hmono _ _ E4). pose proof (Hmono _ _ E6).
    split_and!; [done..|split_and!; [congruence|congruence|done]| |done].
    split; split; congruence.
  - intros mb mbox Hb. eapply mbox_ok_mono; [|by apply Hmb].
    intros q o' Hq. by rewrite (Hmono _ _ Hq).
Qed.

(** An allocation for another structure. *)
Lemma vm_ok_alloc s B own n p a' :
  vm_ok s B own → alloc_size n → al_alloc (alc s) n = (p, a') →
  (p = NULL ∧ vm_ok (set_alc a' s) B own) ∨
  (p ≠ NULL ∧ fresh_block B p n ∧ B !! p = None ∧ own !! p = None ∧
   vm_ok (set_alc a' s) (<[p := n]> B) own).
Proof.
  intros Hok Hn Ea. pose proof Hok as [Hr Ho Hpr Hmb].
  destruct (al_alloc_spec _ _ _ _ _ Hr Hn Ea) as [[-> Ha]|[Hf Ha]]; [left|right].
  - split; [done|]. by split.
  - assert (B !! p = None) as HB.
    { eapply fresh_block_None; [done| |done]. unfold alloc_size in Hn. lia. }
    assert (own !! p = None) as Hop.
    { destruct (own !! p) eqn:E; [|done]. apply Ho in E as [? ?]. congruence. }
    split_and!; [by eapply fresh_block_nonnull|done..|]. by apply vm_ok_grow.
Qed.

(** Freeing several such blocks at once. *)
Lemma vm_ok_drop s B own ps a' :
  vm_ok s B own → (∀ p, p ∈ ps → own !! p = None) → al_rep a' (drop_blocks ps B) →
  vm_ok (set_alc a' s) (drop_blocks ps B) own.
Proof.
  intros [Hr Ho Hpr Hmb] Hps Ha.
  assert (Hmono : ∀ q o', own !! q = Some o' → drop_blocks ps B !! q = B !! q).
  { intros q o' Hq. apply drop_blocks_out. intros Hin%Hps. congruence. }
  split; cbn [alc mem procs mboxes set_alc]; [done| | |].
  - intros q o' Hq. rewrite (Hmono _ _ Hq). eauto.
  - intros q qr Hq. destruct (Hpr _ _ Hq) as (? & ? & (? & E2 & ?) & [[? E4] [? E6]] & ?).
    pose proof (Hmono _ _ E2). pose proof (Hmono _ _ E4). pose proof (Hmono _ _ E6).
    split_and!; [done..|split_and!; [congruence|congruence|done]| |done].
    split; split; congruence.
  - intros mb mbox Hb. eapply mbox_ok_mono; [|by apply Hmb].
    intros q o' Hq. by rewrite (Hmono _ _ Hq).
Qed.

(** Freeing a block the machine does not own. *)
Lemma vm_ok_free s B own p n :
  vm_ok s B own → B !! p = Some n → own !! p = None →
  vm_ok (set_alc (al_free (alc s) p) s) (delete p B) own.
Proof.
  intros Hok HB Hop. apply (vm_ok_drop _ _ _ [p]); [done| |].
  - by intros q ->%list_elem_of_singleton.
  - eapply al_free_spec; [apply Hok|done].
Qed.

Lemma vm_ok_alc s B own a' : vm_ok s B own → al_rep a' B → vm_ok (set_alc a' s) B own.
Proof. intros [Hr Ho Hpr Hmb] Ha. by split. Qed.

(** Giving an unowned block an owner. *)
Lemma vm_ok_give s B own p o :
  vm_ok s B own → is_Some (B !! p) → own !! p = None → vm_ok s B (<[p := o]> own).
Proof.
  intros [Hr Ho Hpr Hmb] HB Hop.
  assert (Hmono : ∀ q o', own !! q = Some o' → <[p := o]> own !! q = own !! q).
  { intros q o' Hq. rewrite lookup_insert_ne; [done|congruence]. }
  split; [done| | |].
  - intros q o' [[<- <-]|[_ Hq]]%lookup_insert_Some; eauto.
  - intros q qr Hq. destruct (Hpr _ _ Hq) as (? & ? & (? & E2 & ?) & [[? E4] [? E6]] & ?).
    pose proof (Hmono _ _ E2). pose proof (Hmono _ _ E4). pose proof (Hmono _ _ E6).
    split_and!; [done..|split_and!; [congruence|congruence|done]| |done].
    split; split; congruence.
  - intros mb mbox Hb. eapply mbox_ok_mono; [|by apply Hmb].
    intros q o' Hq. by rewrite (Hmono _ _ Hq).
Qed.

(** Attaching a new process whose structures are allocated. *)
Lemma vm_ok_new_proc s B own p pr :
  vm_ok s B own → p ≠ NULL → proc_ok pr →
  heap_block (mem s) B own p (heap pr) (heap_capacity pr) →
  struct_blocks B own p (mailbox pr) → is_Some (mboxes s !! mailbox pr) →
  vm_ok (put_proc p pr s) B own.
Proof.
  intros [Hr Ho Hpr Hmb] ? ? ? ? ?. split; simpl; [done..| |done].
  intros q qr [[<- <-]|[_ Hq]]%lookup_insert_Some; [done|by apply Hpr].
Qed.

Lemma vm_ok_new_mbox s B own mb :
  vm_ok s B own → vm_ok (put_mbox mb empty_mailbox s) B own.
Proof.
  intros [Hr Ho Hpr Hmb]. split; simpl; [done..| |].
  - intros q qr Hq. destruct (Hpr _ _ Hq) as (? & ? & ? & ? & ?). split_and!; [done..|].
    apply lookup_insert_is_Some'. by right.
  - intros q mbox [[<- <-]|[_ Hq]]%lookup_insert_Some; [|by apply Hmb].
    exists [], []. split; [apply empty_mailbox_rep|]. simpl. by intros n ?%not_elem_of_nil.
Qed.

(** ** Creation *)

(** The control block of a fresh process. *)
Definition new_process (pid0 h cap mb : Z) : beam_process :=
  {| pid := pid0; state := BEAM_PROC_STATE_RUNNABLE; priority := BEAM_PRIO_NORMAL;
     reductions := BEAM_DEFAULT_REDUCTIONS; heap := h; heap_capacity := cap; heap_top := 0;
     stack_top := cap; mailbox := mb; frame := initial_frame |}.

Lemma new_process_ok pid0 h cap mb : 0 <= cap → proc_ok (new_process pid0 h cap mb).
Proof.
  intros. unfold BEAM_MAX_CATCH_DEPTH.
  split; simpl; unfold BEAM_MAX_CATCH_DEPTH; try done; try lia.
Qed.

Lemma sizes_ok : alloc_size sizeof_beam_process ∧ alloc_size sizeof_beam_mailbox.
Proof. unfold alloc_size, sizeof_beam_process, sizeof_beam_mailbox. lia. Qed.

(** Mapping and unmapping a fresh block leaves the machine as it was. *)
Lemma vm_ok_unmap_fresh s B own a h k (m := map_words (mem s) h (Z.to_nat k)) :
  vm_ok (set_alc a s) B own → 0 <= k →
  (∀ q j, B !! q = Some (WORD * j) → ∀ i, 0 <= i < j → in_block h k (word_at q i) = false) →
  vm_ok (set_alc a (set_mem (unmap_words m h (Z.to_nat k)) s)) B own.
Proof.
  intros [Hr Ho Hpr Hmb] Hk Hout. split; simpl in *; [done..| |done].
  intros q qr Hq. destruct (Hpr _ _ Hq) as (? & ? & (E1 & E2 & Hmap) & ? & ?).
  split_and!; [done..| |done|done]. split_and!; [done..|]. intros i Hi.
  rewrite lookup_unmap_words, Z2Nat.id by lia. rewrite (Hout _ _ E1 i Hi).
  unfold m. rewrite lookup_map_words. case_match; [eauto|by apply Hmap].
Qed.

(** The words of a block are outside a fresh one. *)
Lemma fresh_words_out B h k q j i :
  fresh_block B h (WORD * k) → B !! q = Some (WORD * j) → 0 <= i < j →
  in_block h k (word_at q i) = false.
Proof.
  intros (_ & _ & _ & Hd) Hq Hi. apply in_block_false. intros x Hx.
  destruct (Hd _ _ Hq); unfold word_at, WORD in *; lia.
Qed.

(** Three blocks allocated one after the other are apart. *)
Lemma three_fresh {X} (B : gmap Z X) p h mb x y :
  B !! p = None → <[p := x]> B !! h = None → <[h := y]> (<[p := x]> B) !! mb = None →
  NoDup [p; h; mb] ∧ B !! h = None ∧ B !! mb = None.
Proof.
  intros Hp [Hh Hph]%lookup_insert_None [Hm Hhm]%lookup_insert_None.
  apply lookup_insert_None in Hm as [Hm Hpm]. split; [|done].
  repeat constructor; rewrite ?elem_of_cons, ?elem_of_nil; naive_solver.
Qed.

(** Giving the three blocks to the new process. *)
Lemma vm_ok_three s B own pid0 p h mb cap :
  let B' := <[mb := sizeof_beam_mailbox]> (<[h := WORD * cap]> (<[p := sizeof_beam_process]> B)) in
  vm_ok s B' own → NoDup [p; h; mb] → 0 < cap < 2 ^ 58 → p ≠ NULL →
  own !! p = None → own !! h = None → own !! mb = None →
  mapped (mem s) h cap →
  vm_ok (put_proc p (new_process pid0 h cap mb) (put_mbox mb empty_mailbox s)) B'
    (<[mb := OMbox p]> (<[h := OHeap p]> (<[p := OProc]> own))).
Proof.
  intros B' Hok Hnd Hcap Hp Hop Hoh Hom Hmap. unfold B' in *.
  apply NoDup_cons in Hnd as [Hp' [Hh' _]%NoDup_cons].
  rewrite !not_elem_of_cons in Hp'. rewrite not_elem_of_cons in Hh'. destruct Hp' as (Hph & Hpm & _), Hh' as [Hhm _].
  apply vm_ok_new_proc; simpl.
  - apply vm_ok_new_mbox.
    apply vm_ok_give; [apply vm_ok_give; [apply vm_ok_give; [done|..]|..]|..];
      rewrite ?lookup_insert_ne by done; rewrite ?lookup_insert_eq; eauto.
  - done.
  - apply new_process_ok. lia.
  - split_and!; [| |exact Hmap]; by rewrite lookup_insert_ne, lookup_insert_eq.
  - split; split; rewrite ?lookup_insert_eq; try done;
      by rewrite !lookup_insert_ne, lookup_insert_eq by done.
  - rewrite lookup_insert_eq. eauto.
Qed.

(** Creation either fails and leaves the live blocks as they were (nothing
    leaks), or adds exactly three blocks. *)
Lemma process_create_ok s B own pid0 n :
  vm_ok s B own → 0 <= n < 2 ^ 58 →
  let cap := if n >? 0 then n else 256 in
  ∃ p s', beam_process_create pid0 n s = (p, s') ∧
    ((p = NULL ∧ vm_ok s' B own ∧ procs s' = procs s ∧ mboxes s' = mboxes s) ∨
     (∃ h mb, let B' := <[mb := sizeof_beam_mailbox]> (<[h := WORD * cap]>
                          (<[p := sizeof_beam_process]> B)) in
        let own' := <[mb := OMbox p]> (<[h := OHeap p]> (<[p := OProc]> own)) in
        p ≠ NULL ∧ vm_ok s' B' own' ∧ NoDup [p; h; mb] ∧
        B !! p = None ∧ B !! h = None ∧ B !! mb = None ∧
        procs s' = <[p := new_process pid0 h cap mb]> (procs s) ∧
        mboxes s' = <[mb := empty_mailbox]> (mboxes s))).
Proof.
  intros Hok Hn cap. destruct sizes_ok as [Hsp Hsm].
  assert (0 < cap < 2 ^ 58) as Hcap by (unfold cap; case_bool; lia).
  unfold beam_process_create. fold cap.
  unfold words_bytes. rewrite (u64_small (WORD * cap)) by (unfold is_u64, WORD; lia).
  replace (WORD * cap / WORD) with cap by (rewrite Z.mul_comm, Z.div_mul; done).
  assert (Hsh : alloc_size (WORD * cap)) by (unfold alloc_size, WORD; lia).
  destruct (al_alloc (alc s) sizeof_beam_process) as [p a1] eqn:E1.
  destruct (vm_ok_alloc _ _ _ _ _ _ Hok Hsp E1) as [[-> Hok1]|(Hp & Hfp & HBp & Hop & Hok1)].
  { simpl. eexists _, _. split; [done|]. left. by split_and!. }
  destruct (Z.eqb_spec p NULL); [done|].
  destruct (al_alloc a1 (WORD * cap)) as [h a2] eqn:E2.
  assert (Hdel : ∀ a, al_rep a (<[p := sizeof_beam_process]> B) → al_rep (al_free a p) B).
  { intros a Ha. rewrite <- (delete_insert_id B p sizeof_beam_process) by done.
    eapply al_free_spec; [done|]. apply lookup_insert_eq. }
  destruct (vm_ok_alloc _ _ _ _ _ _ Hok1 Hsh E2) as [[-> Hok2]|(Hh & Hfh & HBh & Hoh & Hok2)].
  { simpl. eexists _, _. split; [done|]. left. split_and!; [done| |done..].
    apply vm_ok_alc; [done|]. apply Hdel, Hok2. }
  destruct (Z.eqb_spec h NULL); [done|]. unfold beam_mailbox_create. simpl.
  set (B1 := <[p := sizeof_beam_process]> B) in *.
  set (B2 := <[h := WORD * cap]> B1) in *.
  set (m := map_words (mem s) h (Z.to_nat cap)).
  assert (Hok2' : vm_ok (set_mem m (set_alc a2 (set_alc a1 s))) B2 own).
  { apply vm_ok_set_mem; [done|]. intros b Hb. unfold m. rewrite lookup_map_words.
    case_match; eauto. }
  destruct (al_alloc a2 sizeof_beam_mailbox) as [mb a3] eqn:E3.
  destruct (vm_ok_alloc _ _ _ _ _ _ Hok2' Hsm E3) as [[-> Hok3]|(Hm & Hfm & HBm & Hom & Hok3)].
  { simpl. eexists _, _. split; [done|]. left. split_and!; [done| |done..].
    apply (vm_ok_unmap_fresh s B own _ h cap); [|lia|].
    - apply vm_ok_alc; [done|]. apply Hdel. rewrite <- (delete_insert_id B1 h (WORD * cap)) by done.
      eapply al_free_spec; [apply Hok3|]. apply lookup_insert_eq.
    - intros q j Hq i Hi. eapply fresh_words_out; [exact Hfh| |done]. unfold B1.
      rewrite lookup_insert_ne; [done|]. congruence. }
  do 2 (rewrite (proj2 (Z.eqb_neq mb NULL)) by done; simpl).
  destruct (three_fresh _ _ _ _ _ _ HBp HBh HBm) as (Hnd & HBh' & HBm').
  eexists _, _. split; [done|]. right. exists h, mb. split_and!; try done.
  apply (vm_ok_three (set_alc a3 (set_mem m (set_alc a2 (set_alc a1 s))))); try done.
  pose proof (mapped_map_words (mem s) h (Z.to_nat cap)) as Hmap.
  rewrite Z2Nat.id in Hmap by lia. exact Hmap.
Qed.

(** ** Destruction *)

(** The blocks a process holds: control block, heap, mailbox, messages. *)
Definition proc_blocks (p : Z) (pr : beam_process) (nodes : list Z) : list Z :=
  p :: heap pr :: mailbox pr :: nodes.

Lemma vm_ok_remove_proc s B own p pr ns a' m' :
  vm_ok s B own → procs s !! p = Some pr →
  (∀ n, n ∈ ns → own !! n = Some (OMsg (mailbox pr))) →
  al_rep a' (drop_blocks (proc_blocks p pr ns) B) →
  (∀ a, in_block (heap pr) (heap_capacity pr) a = false →
        is_Some (mem s !! a) → is_Some (m' !! a)) →
  vm_ok (Vm a' m' (delete p (procs s)) (delete (mailbox pr) (mboxes s)))
    (drop_blocks (proc_blocks p pr ns) B) (drop_blocks (proc_blocks p pr ns) own).
Proof.
  intros Hok Hp Hns Ha Hm'. pose proof Hok as [Hr Ho Hpr Hmb].
  destruct (Hpr _ _ Hp) as (Hnn & Hpo & (HBh & Hoh & _) & [[HBp Hop] [HBm Hom]] & _).
  set (ps := proc_blocks p pr ns) in *.
  assert (Hsame : ∀ q o, own !! q = Some o → q ≠ p → o ≠ OHeap p → o ≠ OMbox p →
    o ≠ OMsg (mailbox pr) →
    drop_blocks ps B !! q = B !! q ∧ drop_blocks ps own !! q = own !! q).
  { intros q o Hq H1 H2 H3 H4. assert (q ∉ ps); [|by rewrite !drop_blocks_out].
    unfold ps, proc_blocks. rewrite !not_elem_of_cons. split_and!; [done|congruence..|].
    intros Hin%Hns. congruence. }
  split; cbn [alc mem procs mboxes]; [done| | |].
  - intros q o. destruct (decide (q ∈ ps)) as [Hin|Hout].
    + by rewrite drop_blocks_in.
    + rewrite !drop_blocks_out by done. apply Ho.
  - intros q qr [Hne Hq]%lookup_delete_Some.
    destruct (Hpr _ _ Hq) as (? & ? & (E1 & E2 & Hmq) & [[E3 E4] [E5 E6]] & ?).
    destruct (Hsame _ _ E2) as [F1 F2]; try congruence.
    destruct (Hsame _ _ E4) as [F3 F4]; try congruence.
    destruct (Hsame _ _ E6) as [F5 F6]; try congruence.
    split_and!; [done..|split_and!; [congruence|congruence|]| |].
    + intros i Hi. apply Hm'; [|by apply Hmq].
      eapply blocks_words_apart; [done| |done..]. congruence.
    + split; split; congruence.
    + rewrite lookup_delete_ne; [done|]. congruence.
  - intros mb mbox [Hne Hb]%lookup_delete_Some.
    destruct (Hmb _ _ Hb) as (seen & ahead & Hrep & Hn). exists seen, ahead. split; [done|].
    intros n Hin. destruct (Hn n Hin) as [E1 E2].
    destruct (Hsame n (OMsg mb)) as [-> ->]; try congruence. done.
Qed.

(** Destruction frees the control block, the heap, the mailbox and every
    message, and nothing else. *)
Lemma process_destroy_ok s B own p pr :
  vm_ok s B own → procs s !! p = Some pr →
  ∃ mbox seen ahead, mboxes s !! mailbox pr = Some mbox ∧ mailbox_rep mbox seen ahead ∧
    let ps := proc_blocks p pr (seen ++ ahead).*1 in
    ∃ s', beam_process_destroy p s = Some s' ∧
      vm_ok s' (drop_blocks ps B) (drop_blocks ps own) ∧
      procs s' = delete p (procs s) ∧ mboxes s' = delete (mailbox pr) (mboxes s).
Proof.
  intros Hok Hp. pose proof Hok as [Hr Ho Hpr Hmb].
  destruct (Hpr _ _ Hp) as (Hnn & Hpo & (HBh & Hoh & _) & [[HBp Hop] [HBm Hom]] & [mbox Hb]).
  destruct (Hmb _ _ Hb) as (seen & ahead & Hrep & Hn).
  exists mbox, seen, ahead. split; [done|]. split; [done|]. intros ps.
  pose proof (vm_ok_heap_nonnull _ _ _ _ _ Hok Hp) as Hh.
  pose proof (vm_ok_bounds _ _ _ _ _ Hok HBm).
  unfold beam_process_destroy. destruct (Z.eqb_spec p NULL); [done|]. rewrite Hp. simpl.
  unfold beam_mailbox_destroy. destruct (Z.eqb_spec (mailbox pr) NULL); [unfold NULL in *; lia|].
  rewrite Hb. simpl.
  pose proof (owns_intro _ _ _ _ Hr (λ n Hin, proj1 (Hn n Hin))) as Hown.
  destruct (mailbox_free_nodes_spec _ _ _ _ _ Hrep Hown) as (a1 & -> & Ha1). simpl.
  assert (Hdisj : ∀ q o, own !! q = Some o → o ≠ OMsg (mailbox pr) →
            drop_blocks (seen ++ ahead).*1 B !! q = B !! q).
  { intros q o Hq Hne. apply drop_blocks_out. intros Hin. apply Hn in Hin as [_ ?].
    congruence. }
  assert (Ha : al_rep (al_free (al_free (al_free a1 (mailbox pr)) (heap pr)) p)
                 (drop_blocks ps B)).
  { change (drop_blocks ps B) with
      (delete p (delete (heap pr) (delete (mailbox pr) (drop_blocks (seen ++ ahead).*1 B)))).
    eapply al_free_spec; [eapply al_free_spec; [eapply al_free_spec; [done|]|]|];
      rewrite ?lookup_delete_ne by congruence; erewrite Hdisj by done; done. }
  destruct (Z.eqb_spec (heap pr) NULL); [done|]. eexists. split; [done|].
  split; [|done]. refine (vm_ok_remove_proc s B own p pr _ _ _ Hok Hp _ Ha _).
  - intros x Hin. by apply Hn.
  - intros a Hout Hx. simpl. rewrite lookup_unmap_words.
    pose proof (vm_ok_heap_cap _ _ _ _ _ Hok Hp). rewrite Z2Nat.id by lia. by rewrite Hout.
Qed.

End Life.
