(* ===== verification/Demo.v ===== *)
(** A concrete machine for the examples that accompany the properties: one
    process of 16 heap words over the deterministic C heap of the file Alloc. *)
From S2P Require Import Prelude Memory Term Alloc LinkedList Mailbox Process ProcessInv.
From S2P Require Import ProcessLife.
From stdpp Require Import options.

Definition empty_vm : vm bump_heap := Vm (bump_init (2 ^ 20)) ∅ ∅ ∅.

Definition demo_vm : vm bump_heap := (beam_process_create 7 16 empty_vm).2.

(** Addresses of its control block, heap and mailbox. *)
Definition demo_p : Z := 4096.
Definition demo_heap : Z := 9888.
Definition demo_mbox : Z := 10016.

Definition demo_pr : beam_process := new_process 7 demo_heap 16 demo_mbox.

Lemma empty_vm_ok : vm_ok empty_vm ∅ ∅.
Proof. apply vm_ok_empty. by apply bump_init_rep. Qed.

Lemma demo_vm_create : beam_process_create 7 16 empty_vm = (demo_p, demo_vm).
Proof. by vm_compute. Qed.

Lemma demo_vm_proc : procs demo_vm !! demo_p = Some demo_pr.
Proof. by vm_compute. Qed.

Lemma demo_vm_ok : ∃ B own, vm_ok demo_vm B own.
Proof.
  destruct (process_create_ok empty_vm ∅ ∅ 7 16 empty_vm_ok ltac:(lia)) as (p & s' & E & Hr).
  rewrite demo_vm_create in E. injection E as <- <-. destruct Hr as [(E & _)|Hr].
  - by vm_compute in E.
  - destruct Hr as (h & mb & _ & Hok & _). by eexists _, _.
Qed.
