(* ===== verification/ProcessProps.v ===== *)
(** Properties of the processes (src/scheduler/erl_process.c): their life cycle
    and the unified stack. *)
From S2P Require Import Prelude Memory Term Alloc LinkedList Mailbox Process ProcessInv.
From S2P Require Import ProcessLife Demo.
From stdpp Require Import options.

Section ProcessProps.
Context {A : Type} `{AllocSpec A}.
Implicit Types (s : vm A) (B : blocks) (own : gmap Z owner).

(** Adding three blocks and dropping them. *)
Lemma drop_three {X} (M : gmap Z X) p h mb x y z :
  M !! p = None → M !! h = None → M !! mb = None →
  drop_blocks [p; h; mb] (<[mb := x]> (<[h := y]> (<[p := z]> M))) = M.
Proof.
  intros M1 M2 M3. apply map_eq. intros q. destruct (decide (q ∈ [p; h; mb])) as [Hin|Hout].
  - rewrite drop_blocks_in by done. rewrite !elem_of_cons in Hin.
    destruct Hin as [->|[->|[->|Hin]]]; try done. by apply not_elem_of_nil in Hin.
  - rewrite drop_blocks_out by done. rewrite !not_elem_of_cons in Hout.
    destruct Hout as (? & ? & ? & _). by rewrite !lookup_insert_ne.
Qed.

(** C10: The life of a process: creation fails without effect on the live
    blocks, or yields a runnable process with an empty mailbox and the
    requested heap; destroying it gives a well-formed machine with the same live
    blocks, the same owners of the memory and the same processes as before. *)
Theorem process_life s B own pid0 n :
  vm_ok s B own → 0 <= n < 2 ^ 58 →
  ∃ p s', beam_process_create pid0 n s = (p, s') ∧
    ((p = NULL ∧ vm_ok s' B own ∧ procs s' = procs s) ∨
     (p ≠ NULL ∧ (∃ B' own', vm_ok s' B' own') ∧
      beam_process_get_pid p s' = Some pid0 ∧
      beam_process_get_state p s' = Some BEAM_PROC_STATE_RUNNABLE ∧
      beam_process_get_priority p s' = Some BEAM_PRIO_NORMAL ∧
      beam_process_get_reductions p s' = Some BEAM_DEFAULT_REDUCTIONS ∧
      beam_process_heap_used p s' = Some 0 ∧
      beam_process_heap_capacity p s' = Some (if n >? 0 then n else 256) ∧
      beam_process_receive_message p s' = Some (BEAM_ERR_NOT_FOUND, None, s') ∧
      ∃ s2, beam_process_destroy p s' = Some s2 ∧ vm_ok s2 B own ∧ procs s2 = procs s)).
Proof.
  intros Hok Hn. destruct (process_create_ok s B own pid0 n Hok Hn) as (p & s' & E & Hr).
  exists p, s'. split; [done|]. destruct Hr as [(-> & Hok' & Hp & _)|Hr]; [by left|right].
  destruct Hr as (h & mb & Hpn & Hok' & Hnd & HBp & HBh & HBm & Hprocs & Hmb).
  set (pr := new_process _ _ _ _) in *.
  assert (procs s' !! p = Some pr) as Hpp by (rewrite Hprocs; apply lookup_insert_eq).
  destruct (process_destroy_ok _ _ _ _ _ Hok' Hpp) as (mbox & seen & ahead & Hmbox & Hrep & s2 & E2 &
    Hok2 & Hprocs2 & _).
  assert (mb ≠ NULL) as Hmbn.
  { destruct (vo_proc _ _ _ Hok' _ _ Hpp) as (_ & _ & _ & [_ [Hbm _]] & _).
    destruct (vm_ok_bounds _ _ _ _ _ Hok' Hbm). unfold NULL. change (mailbox pr) with mb in *. lia. }
  assert (mboxes s' !! mb = Some empty_mailbox) as Hmb' by (rewrite Hmb; apply lookup_insert_eq).
  assert (mbox = empty_mailbox) as ->.
  { change (mailbox pr) with mb in Hmbox. rewrite Hmb' in Hmbox. by simplify_eq. }
  assert (seen ++ ahead = []) as Hnil.
  { pose proof (mr_list _ _ _ Hrep) as Hl. by apply (llist_head_null _ _ _ _ Hl). }
  rewrite Hnil in Hok2. change (proc_blocks p pr ([] : msgs).*1) with [p; h; mb] in Hok2.
  unfold beam_process_get_pid, beam_process_get_state, beam_process_get_priority,
    beam_process_get_reductions, beam_process_heap_used, beam_process_heap_capacity,
    beam_process_receive_message, beam_process_get_mailbox, beam_mailbox_dequeue.
  destruct (Z.eqb_spec p NULL); [done|]. rewrite Hpp. csimpl.
  destruct (Z.eqb_spec mb NULL); [done|]. rewrite Hmb'. csimpl.
  split_and!; [done|by eexists _, _|done..| |].
  - do 2 f_equal. destruct s' as [a m ps ms]. unfold put_mbox, set_alc. simpl in *. f_equal.
    apply insert_id. done.
  - exists s2. split; [done|]. split.
    + assert (∀ q, B !! q = None → own !! q = None) as Hown.
      { intros q Hq. destruct (own !! q) eqn:Eo; [|done].
        destruct (vo_own _ _ _ Hok _ _ Eo). congruence. }
      rewrite !drop_three in Hok2 by auto. done.
    + rewrite Hprocs2, Hprocs. apply delete_insert_id. destruct (procs s !! p) as [pr0|] eqn:E0; [|done].
      destruct (vo_proc _ _ _ Hok _ _ E0) as (_ & _ & _ & [[Hb _] _] & _). congruence.
Qed.
(** ** The stack *)

(** Push the words in order, stopping at the first error. *)
Fixpoint push_all (p : Z) (ws : list Z) s : option (beam_result_t * vm A) :=
  match ws with
  | [] => Some (BEAM_OK, s)
  | w :: ws' =>
      '(r, s) ← beam_process_stack_push p w s;
      if result_is_ok r then push_all p ws' s else Some (r, s)
  end.

(** Pop [n] words; [None] as soon as a pop fails. *)
Fixpoint pop_all (n : nat) (p : Z) s : option (list Z * vm A) :=
  match n with
  | O => Some ([], s)
  | S n' =>
      '(r, out, s) ← beam_process_stack_pop p s;
      if result_is_ok r then
        w ← out; '(ws, s) ← pop_all n' p s; Some (w :: ws, s)
      else None
  end.

Lemma pop_all_app n m p s ws s1 us s2 :
  pop_all n p s = Some (ws, s1) → pop_all m p s1 = Some (us, s2) →
  pop_all (n + m) p s = Some (ws ++ us, s2).
Proof.
  revert s ws. induction n as [|n IH]; intros s ws E1 E2; [by simplify_eq/=|].
  cbn [pop_all Nat.add] in *.
  destruct (beam_process_stack_pop p s) as [[[r out] s']|]; [|done]. cbn [mbind option_bind] in *.
  destruct (result_is_ok r); [|done]. destruct out as [w|]; [|done]. cbn [mbind option_bind] in *.
  destruct (pop_all n p s') as [[l s3]|] eqn:E; [|done]. cbn [mbind option_bind] in *. simplify_eq.
  by rewrite (IH s' l E E2).
Qed.

(** The words [lo, hi) of the heap of [p] are the only ones that change. *)
Definition stack_frame (pr : beam_process) (lo hi : Z) s s' : Prop :=
  ∀ a, (∀ i, lo <= i < hi → a ≠ word_at (heap pr) i) → mem s' !! a = mem s !! a.

Lemma put_proc_back p pr pr' s :
  procs s !! p = Some pr → procs (put_proc p pr (put_proc p pr' s)) = procs s.
Proof. intros Hp. simpl. by rewrite insert_insert_eq, insert_id. Qed.

(** One pop after a push undoes it. *)
Lemma pop_top s p pr w :
  p ≠ NULL → procs s !! p = Some pr → heap pr ≠ NULL → stack_top pr < heap_capacity pr →
  load (mem s) (word_at (heap pr) (stack_top pr)) = Some w →
  pop_all 1 p s = Some ([w], put_proc p (set_p_stack_top (stack_top pr + 1) pr) s).
Proof.
  intros Hp Hpr Hh Hst Hw. cbn [pop_all]. unfold beam_process_stack_pop.
  destruct (Z.eqb_spec p NULL); [done|]. rewrite Hpr. cbn [mbind option_bind].
  destruct (Z.eqb_spec (heap pr) NULL); [done|]. rewrite Z.geb_leb.
  destruct (Z.leb_spec (heap_capacity pr) (stack_top pr)); [lia|]. by rewrite Hw.
Qed.

Lemma push_pop_all s B own p pr ws :
  vm_ok s B own → procs s !! p = Some pr →
  Z.of_nat (length ws) <= stack_top pr - heap_top pr →
  ∃ s1 s2, push_all p ws s = Some (BEAM_OK, s1) ∧
    pop_all (length ws) p s1 = Some (reverse ws, s2) ∧ procs s2 = procs s ∧ mboxes s2 = mboxes s ∧
    stack_frame pr (stack_top pr - Z.of_nat (length ws)) (stack_top pr) s s2.
Proof.
  revert s pr. induction ws as [|w ws IH]; intros s pr Hok Hpr Hl.
  { exists s, s. split_and!; try done. }
  cbn [length] in *. pose proof (stack_push_spec s B own p pr w Hok Hpr) as Hpush.
  destruct (Z.leb_spec (stack_top pr) (heap_top pr)); [lia|].
  destruct Hpush as (m & E & Hst & Hok1).
  set (pr1 := set_p_stack_top (stack_top pr - 1) pr) in *.
  set (s1 := put_proc p pr1 (set_mem m s)) in *.
  assert (procs s1 !! p = Some pr1) as Hpr1 by apply lookup_insert_eq.
  destruct (IH s1 pr1 Hok1 Hpr1) as (s2 & s3 & E2 & E3 & Hprocs & Hmb & Hfr); [simpl; lia|].
  cbn [push_all]. rewrite E. cbn [mbind option_bind]. change (result_is_ok BEAM_OK) with true. cbn iota.
  rewrite E2. exists s2, (put_proc p pr s3).
  assert (load (mem s3) (word_at (heap pr) (stack_top pr - 1)) = Some w) as Hw.
  { apply load_store_eq in Hst. rewrite <-Hst. unfold load.
    rewrite (Hfr (word_at (heap pr) (stack_top pr - 1))); [done|].
    simpl. intros i Hi Heq. apply word_at_inj in Heq. lia. }
  destruct (vo_proc _ _ _ Hok _ _ Hpr) as (Hpn & Hpo & _).
  split_and!; [done| | |done|].
  - rewrite reverse_cons, <-Nat.add_1_r. eapply pop_all_app; [exact E3|].
    rewrite (pop_top s3 p pr1 w); [|done|by rewrite Hprocs|by eapply vm_ok_heap_nonnull
      |simpl; pose proof (po_stack _ Hpo); lia|done].
    do 3 f_equal. unfold pr1, set_p_stack_top. destruct pr. simpl. f_equal. lia.
  - simpl. rewrite Hprocs. simpl. by rewrite insert_insert_eq, insert_id.
  - intros a Ha. simpl. rewrite Hfr; [|intros i Hi; apply Ha; simpl in Hi; lia].
    simpl. apply store_Some in Hst as [_ ->]. apply lookup_insert_ne. apply not_eq_sym, Ha. lia.
Qed.

(** C11: The stack is last-in-first-out: words that fit between the heap and
    the stack are all pushed, popping as many returns them in reverse order and
    leaves the process as it was, with no other word of memory changed; and a
    full stack refuses a push, an empty one a pop, without any effect. *)
Theorem stack_lifo s B own p pr ws :
  vm_ok s B own → procs s !! p = Some pr →
  (Z.of_nat (length ws) <= stack_top pr - heap_top pr →
   ∃ s1 s2, push_all p ws s = Some (BEAM_OK, s1) ∧
     pop_all (length ws) p s1 = Some (reverse ws, s2) ∧ procs s2 = procs s ∧
     stack_frame pr (stack_top pr - Z.of_nat (length ws)) (stack_top pr) s s2) ∧
  (stack_top pr <= heap_top pr →
   ∀ w, beam_process_stack_push p w s = Some (BEAM_ERR_NO_MEMORY, s)) ∧
  (stack_top pr = heap_capacity pr →
   beam_process_stack_pop p s = Some (BEAM_ERR_BADARG, None, s)).
Proof.
  intros Hok Hpr. split_and!.
  - intros Hl. destruct (push_pop_all s B own p pr ws Hok Hpr Hl) as (s1 & s2 & ? & ? & ? & _ & ?).
    by exists s1, s2.
  - intros Hst w. pose proof (stack_push_spec s B own p pr w Hok Hpr) as Hpush.
    by destruct (Z.leb_spec (stack_top pr) (heap_top pr)); [|lia].
  - intros Hst. destruct (vo_proc _ _ _ Hok _ _ Hpr) as (Hpn & _).
    pose proof (vm_ok_heap_nonnull _ _ _ _ _ Hok Hpr). unfold beam_process_stack_pop.
    destruct (Z.eqb_spec p NULL); [done|]. rewrite Hpr. cbn [mbind option_bind].
    destruct (Z.eqb_spec (heap pr) NULL); [done|]. rewrite Z.geb_leb.
    by destruct (Z.leb_spec (heap_capacity pr) (stack_top pr)); [|lia].
Qed.
End ProcessProps.

(** ** Examples *)

Lemma process_life_witness :
  ∃ p s' s2, beam_process_create 7 16 empty_vm = (p, s') ∧ p ≠ NULL ∧
    beam_process_destroy p s' = Some s2 ∧ vm_ok s2 ∅ ∅.
Proof.
  destruct (process_life empty_vm ∅ ∅ 7 16 empty_vm_ok ltac:(lia)) as (p & s' & E & Hr).
  destruct Hr as [(-> & _)|Hr]; [exfalso; vm_compute in E; discriminate E|].
  destruct Hr as (Hp & _ & _ & _ & _ & _ & _ & _ & _ & s2 & Hd & Hok & _). by exists p, s', s2.
Defined.

Lemma stack_lifo_witness :
  ∃ s1 s2, push_all demo_p [35; 51; 67] demo_vm = Some (BEAM_OK, s1) ∧
    pop_all 3 demo_p s1 = Some ([67; 51; 35], s2).
Proof.
  destruct demo_vm_ok as (B & own & Hok).
  destruct (proj1 (stack_lifo demo_vm B own demo_p demo_pr [35; 51; 67] Hok demo_vm_proc))
    as (s1 & s2 & E1 & E2 & _); [by vm_compute|]. by exists s1, s2.
Defined.
