(* ===== verification/HeapProps.v ===== *)
(** Terms on a process heap (src/scheduler/erl_process.c): what the
    constructors of tuples and lists promise, and what growing the heap does to
    the stack and to the terms already built. *)
From S2P Require Import Prelude Memory Term Alloc LinkedList Mailbox Process ProcessInv.
From S2P Require Import ProcessLife Demo.
From stdpp Require Import options.

Section HeapProps.
Context {A : Type} `{AllocSpec A}.
Implicit Types (s : vm A).

(** Allocating room for the words [ws] on the heap and writing them. *)
Lemma heap_write s B own p pr ws :
  vm_ok s B own → procs s !! p = Some pr → Z.of_nat (length ws) < 2 ^ 33 →
  ∃ hp s1, beam_process_alloc_heap p (Z.of_nat (length ws)) s = Some (hp, s1) ∧
    ((hp = NULL ∧ procs s1 = procs s ∧ mem s1 = mem s) ∨
     (hp ≠ NULL ∧ aligned hp ∧ beam_process_heap_used p s1 =
        Some (heap_top pr + Z.of_nat (length ws)) ∧
      ∃ m B' own', store_list (mem s1) hp ws = Some m ∧ vm_ok (set_mem m s1) B' own' ∧
        ∀ i w, ws !! i = Some w → load m (word_at hp (Z.of_nat i)) = Some w)).
Proof.
  intros Hok Hp Hn.
  destruct (alloc_heap_spec s B own p pr (Z.of_nat (length ws)) Hok Hp)
    as (hp & s1 & B' & own' & E & Hok' & _ & _ & Hr); [lia|].
  exists hp, s1. split; [done|]. destruct Hr as [?|(h' & cap' & -> & Hnn & Hal & Hcap & _ & Ep)]; [by left|].
  right. split; [done|]. split; [done|].
  assert (procs s1 !! p = Some (set_p_heap h' cap' (heap_top pr + Z.of_nat (length ws)) pr)) as Hp1
    by (rewrite Ep; apply lookup_insert_eq).
  destruct (vo_proc _ _ _ Hok' _ _ Hp1) as (Hpn & Hpo & (_ & _ & Hmap) & _).
  destruct (vo_proc _ _ _ Hok _ _ Hp) as (_ & Hpo0 & _). pose proof (po_heap _ Hpo0).
  split.
  { unfold beam_process_heap_used. destruct (Z.eqb_spec p NULL); [done|]. by rewrite Hp1. }
  destruct (store_list_mapped (mem s1) (word_at h' (heap_top pr)) ws) as [m Hm].
  { intros i Hi. simpl in Hmap. specialize (Hmap (heap_top pr + i)).
    replace (word_at (word_at h' (heap_top pr)) i) with (word_at h' (heap_top pr + i))
      by (unfold word_at, WORD; lia). apply Hmap. lia. }
  exists m, B', own'. split; [done|]. split.
  - apply vm_ok_set_mem; [done|]. intros a. by apply (store_list_is_Some _ _ _ _ _ Hm).
  - intros i w Hw. by eapply store_list_load.
Qed.

Lemma boxed_tuple m hp arity :
  aligned hp → hp ≠ NULL → 0 <= arity < 2 ^ 58 → load m hp = Some (u64 (tuple_header arity)) →
  beam_is_tuple m (tag_ptr hp TAG_PRIMARY_BOXED) = Some true ∧
  beam_tuple_arity m (tag_ptr hp TAG_PRIMARY_BOXED) = Some arity.
Proof.
  intros Hal Hnn Ha Hl. rewrite u64_small in Hl by (rewrite tuple_header_eq; unfold is_u64; lia).
  assert (beam_is_tuple m (tag_ptr hp TAG_PRIMARY_BOXED) = Some true) as Ht.
  { unfold beam_is_tuple, boxed_header. rewrite tag_of_tag_ptr by (done || easy).
    rewrite untag_tag_ptr by (done || easy). change (negb (_ =? _)) with false. cbn iota.
    destruct (Z.eqb_spec hp NULL); [done|]. rewrite Hl. simpl. by rewrite tuple_header_subtag. }
  split; [done|]. unfold beam_tuple_arity. rewrite Ht. cbn [mbind option_bind negb].
  rewrite untag_tag_ptr by (done || easy). rewrite Hl. cbn [mbind option_bind].
  by rewrite tuple_header_arity.
Qed.

(** C9: Round trip of the compound terms: building a tuple (of fewer
    than [2 ^ 32] elements) or a list cell either fails, for lack of memory,
    without touching the process or the memory, or yields a term whose tag, arity, elements, head and tail read
    back as given, on a well-formed machine whose heap has grown by exactly the
    words of the term. *)
Theorem terms_roundtrip s B own p pr :
  vm_ok s B own → procs s !! p = Some pr →
  (∀ es, Z.of_nat (length es) < 2 ^ 32 →
    ∃ t s', beam_make_tuple p (Z.of_nat (length es)) (Some es) s = Some (t, s') ∧
      ((t = 0 ∧ procs s' = procs s ∧ mem s' = mem s) ∨
       ((∃ B' own', vm_ok s' B' own') ∧
        beam_process_heap_used p s' = Some (heap_top pr + Z.of_nat (length es) + 1) ∧
        beam_is_tuple (mem s') t = Some true ∧ beam_is_list t = false ∧
        beam_tuple_arity (mem s') t = Some (Z.of_nat (length es)) ∧
        ∀ i e, es !! i = Some e → beam_tuple_element (mem s') t (Z.of_nat i) = Some e))) ∧
  (∀ hd tl, ∃ t s', beam_make_list p hd tl s = Some (t, s') ∧
      ((t = 0 ∧ procs s' = procs s ∧ mem s' = mem s) ∨
       ((∃ B' own', vm_ok s' B' own') ∧ beam_process_heap_used p s' = Some (heap_top pr + 2) ∧
        beam_is_list t = true ∧ beam_is_nil t = false ∧
        beam_list_head (mem s') t = Some hd ∧ beam_list_tail (mem s') t = Some tl))).
Proof.
  intros Hok Hp. destruct (vo_proc _ _ _ Hok _ _ Hp) as (Hpn & _). split.
  - intros es Hes. set (n := Z.of_nat (length es)) in *.
    destruct (heap_write s B own p pr (u64 (tuple_header n) :: es) Hok Hp)
      as (hp & s1 & E & Hr); [simpl; lia|].
    assert (Z.of_nat (length (u64 (tuple_header n) :: es)) = n + 1) as El by (simpl; lia).
    rewrite El in *. unfold beam_make_tuple. destruct (Z.eqb_spec p NULL); [done|].
    rewrite (u64_small (n + 1)) by (unfold is_u64; lia). rewrite E. cbn [mbind option_bind].
    destruct Hr as [(-> & ? & ?)|(Hnn & Hal & Hu & m & B' & own' & Hm & Hok' & Hl)].
    { eexists _, _. split; [done|]. by left. }
    destruct (Z.eqb_spec hp NULL); [done|].
    assert (Hes2 : (if n >? 0 then if n <? n then None else Some (take (Z.to_nat n) es) else Some [])
      = Some es).
    { rewrite Z.gtb_ltb, Z.ltb_irrefl. unfold n. rewrite Nat2Z.id, firstn_all.
      destruct (Z.ltb_spec 0 (Z.of_nat (length es))); [done|]. by destruct es. }
    fold n. rewrite Hes2. cbn [mbind option_bind]. rewrite Hm. cbn [mbind option_bind].
    eexists _, _. split; [done|]. right. cbn [set_mem mem].
    pose proof (Hl 0%nat _ eq_refl) as Hh. replace (word_at hp (Z.of_nat 0)) with hp in Hh by (unfold word_at, WORD; lia).
    destruct (boxed_tuple m hp n Hal Hnn) as [Ht Har]; [lia|done|].
    split; [by eexists _, _|]. split_and!; try done.
    + unfold beam_process_heap_used in *. destruct (Z.eqb_spec p NULL); [done|]. by rewrite <-Z.add_assoc.
    + unfold beam_is_list. by rewrite tag_of_tag_ptr by (done || easy).
    + intros i e He. unfold beam_tuple_element. rewrite Ht. cbn [mbind option_bind negb].
      rewrite untag_tag_ptr by (done || easy). rewrite <-(Hl (S i) e He). f_equal.
      unfold word_at. lia.
  - intros hd tl. destruct (heap_write s B own p pr [hd; tl] Hok Hp) as (hp & s1 & E & Hr); [done|].
    change (Z.of_nat (length [hd; tl])) with 2 in *.
    unfold beam_make_list. destruct (Z.eqb_spec p NULL); [done|]. rewrite E. cbn [mbind option_bind].
    destruct Hr as [(-> & ? & ?)|(Hnn & Hal & Hu & m & B' & own' & Hm & Hok' & Hl)].
    { eexists _, _. split; [done|]. by left. }
    destruct (Z.eqb_spec hp NULL); [done|]. rewrite Hm. cbn [mbind option_bind].
    eexists _, _. split; [done|]. right. cbn [set_mem mem].
    pose proof (tag_ptr_is_list hp Hal) as Hli.
    split; [by eexists _, _|]. split_and!; try done.
    + unfold beam_is_nil. apply Z.eqb_neq. intros Heq. rewrite Heq in Hli. done.
    + unfold beam_list_head. rewrite Hli, untag_tag_ptr by (done || easy). by apply (Hl 0%nat).
    + unfold beam_list_tail. rewrite Hli, untag_tag_ptr by (done || easy). by apply (Hl 1%nat).
Qed.

(** ** The heap and the stack share one block *)

Lemma alloc_heap_room s B own p pr needed :
  vm_ok s B own → procs s !! p = Some pr → 0 <= needed →
  heap_top pr + needed <= heap_capacity pr →
  beam_process_alloc_heap p needed s =
    Some (word_at (heap pr) (heap_top pr),
          put_proc p (set_p_heap (heap pr) (heap_capacity pr) (heap_top pr + needed) pr) s).
Proof.
  intros Hok Hp Hn Hroom. destruct (vo_proc _ _ _ Hok _ _ Hp) as (Hpn & Hpo & _).
  pose proof (po_heap _ Hpo). pose proof (vm_ok_heap_cap _ _ _ _ _ Hok Hp).
  unfold beam_process_alloc_heap. destruct (Z.eqb_spec p NULL); [done|]. rewrite Hp.
  cbn [mbind option_bind]. rewrite u64_small by (unfold is_u64; lia).
  rewrite Z.gtb_ltb. by destruct (Z.ltb_spec (heap_capacity pr) (heap_top pr + needed)); [lia|].
Qed.

(** C33: The heap overruns the stack: allocation checks the capacity of the
    shared block and not the stack top.  When the stack is not empty and the two
    words of a list cell reach it, the cell is built over the word on top of the
    stack, and the next pop returns the cell's head or tail in its place. *)
Theorem heap_overruns_stack s B own p pr hd tl :
  vm_ok s B own → procs s !! p = Some pr →
  heap_top pr <= stack_top pr < heap_capacity pr →
  stack_top pr < heap_top pr + 2 <= heap_capacity pr →
  ∃ t s' s2, beam_make_list p hd tl s = Some (t, s') ∧ beam_is_list t = true ∧
    beam_process_stack_pop p s' =
      Some (BEAM_OK, Some (if stack_top pr =? heap_top pr then hd else tl), s2).
Proof.
  intros Hok Hp Hst Hroom. destruct (vo_proc _ _ _ Hok _ _ Hp) as (Hpn & Hpo & _).
  destruct (heap_write s B own p pr [hd; tl] Hok Hp) as (hp & s1 & E & Hr); [done|].
  change (Z.of_nat (length [hd; tl])) with 2 in *.
  rewrite (alloc_heap_room s B own p pr 2 Hok Hp) in E by lia. injection E as <- <-.
  pose proof (vm_ok_heap_nonnull _ _ _ _ _ Hok Hp) as Hh.
  destruct Hr as [(Hz & _)|(Hnn & Hal & _ & m & _ & _ & Hm & _ & Hl)].
  { destruct (vo_proc _ _ _ Hok _ _ Hp) as (_ & _ & (HB & _) & _).
    destruct (vm_ok_bounds _ _ _ _ _ Hok HB). pose proof (po_heap _ Hpo).
    unfold word_at, WORD, NULL in *. lia. }
  unfold beam_make_list. destruct (Z.eqb_spec p NULL); [done|].
  rewrite (alloc_heap_room s B own p pr 2 Hok Hp) by lia. cbn [mbind option_bind].
  destruct (Z.eqb_spec (word_at (heap pr) (heap_top pr)) NULL); [done|]. rewrite Hm.
  cbn [mbind option_bind]. eexists _, _, _. split; [done|]. split; [by apply tag_ptr_is_list|].
  unfold beam_process_stack_pop. destruct (Z.eqb_spec p NULL); [done|].
  cbn [set_mem put_proc procs mem]. rewrite lookup_insert_eq. cbn [mbind option_bind].
  cbn [heap set_p_heap stack_top heap_capacity]. destruct (Z.eqb_spec (heap pr) NULL); [done|].
  rewrite Z.geb_leb. destruct (Z.leb_spec (heap_capacity pr) (stack_top pr)); [lia|].
  assert (load m (word_at (heap pr) (stack_top pr)) =
    Some (if stack_top pr =? heap_top pr then hd else tl)) as ->; [|done].
  destruct (Z.eqb_spec (stack_top pr) (heap_top pr)) as [Eq|].
  - rewrite <-(Hl 0%nat hd eq_refl). f_equal. unfold word_at. lia.
  - rewrite <-(Hl 1%nat tl eq_refl). f_equal. unfold word_at, WORD. lia.
Qed.

Lemma realloc_words_tail mv (m : memory) old old_n new n i :
  0 <= old_n <= i → i < n →
  load (realloc_words mv m old old_n new n) (word_at new i) = None.
Proof.
  intros Hi Hn. unfold realloc_words, load.
  assert (∀ m0, map_words m0 new (Z.to_nat n) !! word_at new i = Some Uninit) as Hmap.
  { intros m0. rewrite lookup_map_words. rewrite (proj2 (in_block_spec new _ _)); [done|].
    exists i. split; [lia|done]. }
  destruct mv; [|by rewrite Hmap].
  rewrite copy_words_outside; [by rewrite Hmap|]. apply in_block_false.
  intros j Hj Heq. apply word_at_inj in Heq. lia.
Qed.

Lemma realloc_words_old (m : memory) kept old old_n new n i :
  0 <= i < old_n → in_block new n (word_at old i) = false → 0 <= n →
  realloc_words (Moved kept) m old old_n new n !! word_at old i = None.
Proof.
  intros Hi Hout Hn. unfold realloc_words. rewrite copy_words_outside.
  - rewrite lookup_map_words, Z2Nat.id, Hout by done. rewrite lookup_unmap_words.
    rewrite (proj2 (in_block_spec old _ _)); [done|]. exists i. split; [lia|done].
  - rewrite in_block_false in Hout |- *. intros j Hj. apply Hout. lia.
Qed.

(** C32: Growing the heap strands the stack and the terms: the block is
    reallocated to at least twice its size but the stack top stays, so an empty
    stack, which refused a pop before, now reads a word that was never written;
    and when the block has moved (with a [realloc] that copies), the words every
    existing tuple and list of the process points to are no longer mapped, since
    no pointer is relocated. *)
Theorem heap_growth_strands s B own p pr needed ptr s' :
  vm_ok s B own → procs s !! p = Some pr → 0 <= needed < 2 ^ 33 →
  heap_capacity pr < heap_top pr + needed →
  beam_process_alloc_heap p needed s = Some (ptr, s') → ptr ≠ NULL →
  ∃ pr', procs s' !! p = Some pr' ∧ heap_capacity pr' = heap_capacity pr * 2 + needed ∧
    stack_top pr' = stack_top pr ∧
    (stack_top pr = heap_capacity pr →
      beam_process_stack_pop p s = Some (BEAM_ERR_BADARG, None, s) ∧
      beam_process_stack_pop p s' = None) ∧
    (al_copies (alc s) → ∀ i, 0 <= i < heap_capacity pr →
      in_block (heap pr') (heap_capacity pr') (word_at (heap pr) i) = false →
      load (mem s') (word_at (heap pr) i) = None).
Proof.
  intros Hok Hp Hneed Hgrow E Hptr. destruct (vo_proc _ _ _ Hok _ _ Hp) as (Hnn & Hpo & _).
  pose proof (po_heap _ Hpo). pose proof (vm_ok_heap_cap _ _ _ _ _ Hok Hp) as Hc.
  pose proof (vm_ok_heap_nonnull _ _ _ _ _ Hok Hp) as Hh.
  unfold beam_process_alloc_heap in E. destruct (Z.eqb_spec p NULL); [done|]. rewrite Hp in E.
  cbn [mbind option_bind] in E. rewrite u64_small in E by (unfold is_u64; lia).
  rewrite Z.gtb_ltb in E. destruct (Z.ltb_spec (heap_capacity pr) (heap_top pr + needed)); [|lia].
  rewrite (u64_small (heap_capacity pr * 2 + needed)) in E by (unfold is_u64; lia).
  set (cap' := heap_capacity pr * 2 + needed) in *. unfold words_bytes in E.
  rewrite u64_small in E by (unfold is_u64, WORD, cap'; lia).
  replace (WORD * cap' / WORD) with cap' in E by (rewrite Z.mul_comm, Z.div_mul; done).
  destruct (al_realloc _ _ _) as [[h' mv] a'] eqn:Ea.
  destruct (Z.eqb_spec h' NULL) as [->|Hh']; injection E as <- <-; [done|].
  eexists. split; [apply lookup_insert_eq|]. split; [done|]. split; [done|].
  cbn [mem set_mem put_proc heap heap_capacity set_p_heap]. split.
  - intros Htop. unfold beam_process_stack_pop. destruct (Z.eqb_spec p NULL); [done|].
    cbn [set_mem put_proc procs mem]. rewrite Hp, lookup_insert_eq. cbn [mbind option_bind].
    cbn [heap set_p_heap stack_top heap_capacity].
    destruct (Z.eqb_spec (heap pr) NULL); [done|]. destruct (Z.eqb_spec h' NULL); [done|].
    rewrite !Z.geb_leb, Htop. destruct (Z.leb_spec (heap_capacity pr) (heap_capacity pr)); [|lia].
    split; [done|]. destruct (Z.leb_spec cap' (heap_capacity pr)); [unfold cap' in *; lia|].
    rewrite realloc_words_tail; [done|lia|lia].
  - intros Hcp i Hi Hout. destruct (vo_proc _ _ _ Hok _ _ Hp) as (_ & _ & (HB & _) & _).
    assert (Hsz : alloc_size (WORD * cap')) by (unfold alloc_size, WORD, cap'; lia).
    destruct (al_realloc_kept _ _ _ _ _ _ _ _ Hcp (vo_rep _ _ _ Hok) HB Hsz Ea Hh') as (kept & -> & _). unfold load.
    rewrite realloc_words_old; [done|done|done|unfold cap'; lia].
Qed.
End HeapProps.

(** ** Examples *)

Lemma terms_roundtrip_witness :
  ∃ t s', beam_make_list demo_p 19 ETERM_NIL demo_vm = Some (t, s') ∧
    beam_is_list t = true ∧ beam_list_head (mem s') t = Some 19.
Proof.
  destruct demo_vm_ok as (B & own & Hok).
  destruct (proj2 (terms_roundtrip demo_vm B own demo_p demo_pr Hok demo_vm_proc) 19 ETERM_NIL)
    as (t & s' & E & [(-> & _)|(_ & _ & Hl & _ & Hh & _)]); [by vm_compute in E|].
  by exists t, s'.
Defined.

(** The machine after fifteen words on the heap and one on the stack. *)
Definition demo_full : vm bump_heap :=
  match beam_process_alloc_heap demo_p 14 demo_vm with
  | Some (_, s) => match beam_process_stack_push demo_p 35 s with Some (_, s) => s | None => s end
  | None => demo_vm
  end.

Lemma demo_full_ok : ∃ B own, vm_ok demo_full B own.
Proof.
  destruct demo_vm_ok as (B & own & Hok).
  destruct (alloc_heap_spec _ _ _ _ _ 14 Hok demo_vm_proc ltac:(lia))
    as (ptr & s1 & B1 & own1 & E & Hok1 & _).
  unfold demo_full. rewrite E.
  destruct (procs s1 !! demo_p) as [pr1|] eqn:Hp1; [|vm_compute in E; simplify_eq; by vm_compute in Hp1].
  pose proof (stack_push_spec _ _ _ _ _ 35 Hok1 Hp1) as Hpush.
  destruct (stack_top pr1 <=? heap_top pr1).
  - rewrite Hpush. by eexists _, _.
  - destruct Hpush as (m & -> & _ & Hok2). by eexists _, _.
Qed.

Lemma heap_overruns_stack_witness :
  ∃ t s' s2, beam_make_list demo_p 19 63 demo_full = Some (t, s') ∧
    beam_process_stack_pop demo_p s' = Some (BEAM_OK, Some 63, s2).
Proof.
  destruct demo_full_ok as (B & own & Hok).
  destruct (procs demo_full !! demo_p) as [pr|] eqn:Hp; [|by vm_compute in Hp].
  destruct (heap_overruns_stack demo_full B own demo_p pr 19 63 Hok Hp)
    as (t & s' & s2 & E & _ & E2).
  - vm_compute in Hp. simplify_eq. by vm_compute.
  - vm_compute in Hp. simplify_eq. by vm_compute.
  - vm_compute in Hp. simplify_eq. by exists t, s', s2.
Defined.

Lemma heap_growth_strands_witness :
  ∃ ptr s', beam_process_alloc_heap demo_p 17 demo_vm = Some (ptr, s') ∧ ptr ≠ NULL ∧
    beam_process_stack_pop demo_p demo_vm = Some (BEAM_ERR_BADARG, None, demo_vm) ∧
    beam_process_stack_pop demo_p s' = None.
Proof.
  destruct demo_vm_ok as (B & own & Hok).
  destruct (beam_process_alloc_heap demo_p 17 demo_vm) as [[ptr s']|] eqn:E; [|by vm_compute in E].
  assert (ptr ≠ NULL) as Hn by (vm_compute in E; by simplify_eq).
  destruct (heap_growth_strands demo_vm B own demo_p demo_pr 17 ptr s' Hok demo_vm_proc ltac:(lia)
    eq_refl E Hn) as (pr' & _ & _ & _ & Hpop & _).
  destruct (Hpop eq_refl) as [H1 H2]. by exists ptr, s'.
Defined.
