(* ===== verification/Bif.v ===== *)
(** Built-in functions: src/emulator/beam_bif.c. *)
From S2P Require Import Prelude Memory Term Alloc LinkedList Mailbox Process.
From stdpp Require Import options.

(** The atoms the predicates return: [(1 << 4 | TAG_IMMED1_ATOM)] and
    [(2 << 4 | TAG_IMMED1_ATOM)]. *)
Definition ATOM_TRUE : Z := (1 .<< 4) .| TAG_IMMED1_ATOM.
Definition ATOM_FALSE : Z := (2 .<< 4) .| TAG_IMMED1_ATOM.

(** Result of a built-in: a value, or the [length] loop running forever. *)
Inductive bif_result : Type :=
| BifValue (v : Z)
| BifHangs.

(** Result of the dispatcher: status and [*out_result] when written. *)
Inductive dispatch_result : Type :=
| Dispatched (r : beam_result_t) (out : option Z)
| DispatchHangs.

Section Bif.
Context {A : Type} `{AllocOps A}.
Implicit Types s : vm A.

(** [beam_process_get_pid(proc) << 4] is 32-bit arithmetic. *)
Definition bif_self_0 (p : Z) s : option Z :=
  if p =? NULL then Some 0
  else pd ← beam_process_get_pid p s; Some (u32 (pd .<< 4) .| TAG_IMMED1_PID).

Definition bif_add_2 (args : list Z) (arity : Z) : option Z :=
  if arity <? 2 then Some 0
  else
    v1 ← eterm_to_small_int <$> array_get args 0;
    v2 ← eterm_to_small_int <$> array_get args 1;
    v ← s64_checked (v1 + v2);
    Some (make_small_int v).

Definition bif_sub_2 (args : list Z) (arity : Z) : option Z :=
  if arity <? 2 then Some 0
  else
    v1 ← eterm_to_small_int <$> array_get args 0;
    v2 ← eterm_to_small_int <$> array_get args 1;
    v ← s64_checked (v1 - v2);
    Some (make_small_int v).

Definition bif_is_atom_1 (args : list Z) (arity : Z) : option Z :=
  if arity <? 1 then Some 0
  else x ← array_get args 0; Some (if beam_is_atom x then ATOM_TRUE else ATOM_FALSE).

Definition bif_is_tuple_1 (m : memory) (args : list Z) (arity : Z) : option Z :=
  if arity <? 1 then Some 0
  else
    x ← array_get args 0;
    b ← beam_is_tuple m x;
    Some (if (b : bool) then ATOM_TRUE else ATOM_FALSE).

(** [while (beam_is_list(list)) { len++; list = beam_list_tail(list); }]:
    [Some None] when the fuel is exhausted with the loop still running. *)
Fixpoint length_loop (fuel : nat) (m : memory) (list : Z) (len : Z) : option (option Z) :=
  if beam_is_list list then
    match fuel with
    | O => Some None
    | S fuel' => tl ← beam_list_tail m list; length_loop fuel' m tl (u64 (len + 1))
    end
  else Some (Some len).

(** A list that is still unfinished after more cells than memory has words is
    cyclic. *)
Definition bif_length_1 (m : memory) (args : list Z) (arity : Z) : option bif_result :=
  if arity <? 1 then Some (BifValue 0)
  else
    x ← array_get args 0;
    r ← length_loop (S (size m)) m x 0;
    Some (match r with
          | Some len => BifValue (make_small_int (s64 len))
          | None => BifHangs
          end).

Definition beam_bif_dispatch (bif_index p : Z) (args : list Z) (arity : Z) s
    : option dispatch_result :=
  let ret v := Dispatched BEAM_OK (Some v) in
  if p =? NULL then Some (Dispatched BEAM_ERR_INVALID_ARG None)
  else if bif_index =? 0 then ret <$> bif_self_0 p s
  else if bif_index =? 1 then ret <$> bif_add_2 args arity
  else if bif_index =? 2 then ret <$> bif_sub_2 args arity
  else if bif_index =? 3 then ret <$> bif_is_atom_1 args arity
  else if bif_index =? 4 then ret <$> bif_is_tuple_1 (mem s) args arity
  else if bif_index =? 5 then
    (λ r, match r with BifValue v => ret v | BifHangs => DispatchHangs end)
      <$> bif_length_1 (mem s) args arity
  else Some (Dispatched BEAM_ERR_NOT_FOUND None).
End Bif.
