(* ===== verification/Emu.v ===== *)
(** The bytecode interpreter: src/emulator/beam_emu.c.

    One definition per [case] of the dispatch loop.  A handler returns how the
    loop continues ([break], [continue] with a new [ip], [return]) and the new
    machine state; [None] is undefined behaviour. *)
From S2P Require Import Prelude Memory Term Alloc LinkedList Mailbox Process Bif.
From stdpp Require Import options.

(** ** Instructions (src/emulator/beam_emu_internal.h) *)

Inductive beam_opcode_t : Type :=
| BEAM_OP_LABEL | BEAM_OP_MOVE | BEAM_OP_ADD | BEAM_OP_SUB | BEAM_OP_MUL
| BEAM_OP_INT_DIV | BEAM_OP_ALLOCATE | BEAM_OP_DEALLOCATE | BEAM_OP_CALL
| BEAM_OP_RETURN | BEAM_OP_SEND | BEAM_OP_RECEIVE | BEAM_OP_MATCH_TUPLE
| BEAM_OP_GET_TUPLE_ELEMENT | BEAM_OP_TEST_IS_EQ_EXACT | BEAM_OP_TEST_IS_NE_EXACT
| BEAM_OP_TEST_IS_TUPLE | BEAM_OP_TEST_IS_LIST | BEAM_OP_GET_LIST
| BEAM_OP_SELECT_VAL | BEAM_OP_CALL_EXT | BEAM_OP_CALL_LAST | BEAM_OP_MAKE_FUN2
| BEAM_OP_LOOP_REC | BEAM_OP_LOOP_REC_END | BEAM_OP_REMOVE_MESSAGE | BEAM_OP_WAIT
| BEAM_OP_TRY | BEAM_OP_TRY_CASE | BEAM_OP_CATCH | BEAM_OP_TRY_END | BEAM_OP_RAISE
| BEAM_OP_TRY_CASE_END | BEAM_OP_HALT.

#[export] Instance beam_opcode_eq_dec : EqDecision beam_opcode_t.
Proof. solve_decision. Defined.

(** The enumeration in order; its values start at 1. *)
Definition beam_opcodes : list beam_opcode_t :=
  [ BEAM_OP_LABEL; BEAM_OP_MOVE; BEAM_OP_ADD; BEAM_OP_SUB; BEAM_OP_MUL;
    BEAM_OP_INT_DIV; BEAM_OP_ALLOCATE; BEAM_OP_DEALLOCATE; BEAM_OP_CALL;
    BEAM_OP_RETURN; BEAM_OP_SEND; BEAM_OP_RECEIVE; BEAM_OP_MATCH_TUPLE;
    BEAM_OP_GET_TUPLE_ELEMENT; BEAM_OP_TEST_IS_EQ_EXACT; BEAM_OP_TEST_IS_NE_EXACT;
    BEAM_OP_TEST_IS_TUPLE; BEAM_OP_TEST_IS_LIST; BEAM_OP_GET_LIST;
    BEAM_OP_SELECT_VAL; BEAM_OP_CALL_EXT; BEAM_OP_CALL_LAST; BEAM_OP_MAKE_FUN2;
    BEAM_OP_LOOP_REC; BEAM_OP_LOOP_REC_END; BEAM_OP_REMOVE_MESSAGE; BEAM_OP_WAIT;
    BEAM_OP_TRY; BEAM_OP_TRY_CASE; BEAM_OP_CATCH; BEAM_OP_TRY_END; BEAM_OP_RAISE;
    BEAM_OP_TRY_CASE_END; BEAM_OP_HALT ].

(** The opcode field is an integer: the decoder stores values outside the
    enumeration in it. *)
Definition opcode_of_value (v : Z) : option beam_opcode_t := array_get beam_opcodes (v - 1).

Definition opcode_value (op : beam_opcode_t) : Z :=
  match list_find (eq op) beam_opcodes with
  | Some (i, _) => Z.of_nat i + 1
  | None => 0
  end.

(** [struct beam_instruction]; [extra_args] is [None] for a NULL pointer. *)
Record beam_instruction : Type := {
  opcode : Z;
  arg1 : Z;
  arg2 : Z;
  arg3 : Z;
  literal : Z;
  target_proc : Z;
  extra_args : option (list Z);
  extra_count : Z;
}.

(** How a handler leaves the [switch]: [break], [continue] at a new [ip],
    [return r] with [*out_result] when it is written, or a loop inside the
    instruction that never ends. *)
Inductive ctl : Type :=
| CNext
| CJump (ip : Z)
| CRet (r : beam_result_t) (out : option Z)
| CHangs.

(** [JUMP_TO_LABEL]: the first matching LABEL, or no move at all. *)
Fixpoint scan_label (code : list beam_instruction) (lbl : Z) (scan_ip ip : Z) : Z :=
  match code with
  | [] => ip
  | i :: code' =>
      if (opcode i =? opcode_value BEAM_OP_LABEL) && (arg1 i =? lbl) then scan_ip
      else scan_label code' lbl (scan_ip + 1) ip
  end.

Definition jump_to_label (code : list beam_instruction) (lbl ip : Z) : Z :=
  scan_label code lbl 0 ip.

Section Emu.
Context {A : Type} `{AllocOps A}.
Implicit Types (s : vm A) (i : beam_instruction) (code : list beam_instruction).

(** [frame->x_regs[r]], as a read and as an assignment. *)
Definition get_x (p r : Z) s : option Z :=
  pr ← procs s !! p; array_get (x_regs (frame pr)) r.

Definition set_x (p r v : Z) s : option (vm A) :=
  pr ← procs s !! p;
  xs ← array_set (x_regs (frame pr)) r v;
  Some (put_proc p (set_p_frame (set_fr_x_regs xs (frame pr)) pr) s).

(** An update of the process's own frame. *)
Definition upd_frame (p : Z) (f : beam_emulator_frame_t → beam_emulator_frame_t) s
    : option (vm A) :=
  upd_proc p (λ pr, set_p_frame (f (frame pr)) pr) s.

Definition is_x_reg (r : Z) : bool := r <? BEAM_NUM_X_REGISTERS.

(** ** Moves and arithmetic *)

Definition op_move (p : Z) i s : option (ctl * vm A) :=
  if is_x_reg (arg2 i) then s ← set_x p (arg2 i) (literal i) s; Some (CNext, s)
  else Some (CNext, s).

(** The common shape of ADD, SUB and MUL: the operation is on [intptr_t]. *)
Definition op_arith (f : Z → Z → Z) (p : Z) i s : option (ctl * vm A) :=
  if is_x_reg (arg1 i) && is_x_reg (arg2 i) && is_x_reg (arg3 i) then
    v1 ← eterm_to_small_int <$> get_x p (arg1 i) s;
    v2 ← eterm_to_small_int <$> get_x p (arg2 i) s;
    v ← s64_checked (f v1 v2);
    s ← set_x p (arg3 i) (make_small_int v) s;
    Some (CNext, s)
  else Some (CNext, s).

Definition op_add := op_arith Z.add.
Definition op_sub := op_arith Z.sub.
Definition op_mul := op_arith Z.mul.

Definition op_int_div (p : Z) i s : option (ctl * vm A) :=
  if is_x_reg (arg1 i) && is_x_reg (arg2 i) && is_x_reg (arg3 i) then
    v1 ← eterm_to_small_int <$> get_x p (arg1 i) s;
    v2 ← eterm_to_small_int <$> get_x p (arg2 i) s;
    if v2 =? 0 then Some (CRet BEAM_ERR_BADARG None, s)
    else
      v ← s64_checked (Z.quot v1 v2);
      s ← set_x p (arg3 i) (make_small_int v) s;
      Some (CNext, s)
  else Some (CNext, s).

(** ** The stack *)

(** [for (w = 0; w < words; w++) push(0)], stopping at the first error. *)
Fixpoint push_zeros (n : nat) (p : Z) s : option (beam_result_t * vm A) :=
  match n with
  | O => Some (BEAM_OK, s)
  | S n' =>
      '(r, s) ← beam_process_stack_push p 0 s;
      if result_is_ok r then push_zeros n' p s else Some (r, s)
  end.

Fixpoint pop_words (n : nat) (p : Z) s : option (beam_result_t * vm A) :=
  match n with
  | O => Some (BEAM_OK, s)
  | S n' =>
      '(r, _, s) ← beam_process_stack_pop p s;
      if result_is_ok r then pop_words n' p s else Some (r, s)
  end.

Definition op_allocate (p : Z) i s : option (ctl * vm A) :=
  pr ← procs s !! p;
  '(r, s) ← beam_process_stack_push p (cp (frame pr)) s;
  if negb (result_is_ok r) then Some (CRet r None, s)
  else
    '(r, s) ← push_zeros (Z.to_nat (arg1 i)) p s;
    if negb (result_is_ok r) then Some (CRet r None, s) else Some (CNext, s).

(** Popping [words] Y registers and the saved continuation pointer: the body
    DEALLOCATE and CALL_LAST share. *)
Definition drop_frame (words p : Z) s : option (beam_result_t * vm A) :=
  '(r, s) ← pop_words (Z.to_nat words) p s;
  if negb (result_is_ok r) then Some (r, s)
  else
    '(r, restored_cp, s) ← beam_process_stack_pop p s;
    if negb (result_is_ok r) then Some (r, s)
    else
      c ← restored_cp;
      s ← upd_frame p (set_fr_cp (u32 c)) s;
      Some (BEAM_OK, s).

Definition op_deallocate (p : Z) i s : option (ctl * vm A) :=
  '(r, s) ← drop_frame (arg1 i) p s;
  if negb (result_is_ok r) then Some (CRet r None, s) else Some (CNext, s).

(** ** Control flow *)

Definition op_call (p ip : Z) i s : option (ctl * vm A) :=
  s ← upd_frame p (set_fr_cp (u32 (ip + 1))) s;
  Some (CJump (arg1 i), s).

Definition op_call_last (p : Z) i s : option (ctl * vm A) :=
  '(r, s) ← drop_frame (arg2 i) p s;
  if negb (result_is_ok r) then Some (CRet r None, s) else Some (CJump (arg1 i), s).

Definition op_return (p : Z) s : option (ctl * vm A) :=
  pr ← procs s !! p; Some (CJump (cp (frame pr)), s).

(** ** Messages *)

(** The result of the send is ignored. *)
Definition op_send (p : Z) i s : option (ctl * vm A) :=
  if is_x_reg (arg1 i) && negb (target_proc i =? NULL) then
    msg ← get_x p (arg1 i) s;
    '(_, s) ← beam_message_send_to_process (target_proc i) msg s;
    Some (CNext, s)
  else Some (CNext, s).

Definition op_loop_rec code (p ip : Z) i s : option (ctl * vm A) :=
  pr ← procs s !! p;
  '(r, out, s) ← beam_mailbox_peek_save (mailbox pr) s;
  if result_is_ok r then
    msg ← out;
    if is_x_reg (arg2 i) then s ← set_x p (arg2 i) msg s; Some (CNext, s)
    else Some (CNext, s)
  else
    s ← beam_mailbox_reset_save_cursor (mailbox pr) s;
    Some (CJump (jump_to_label code (arg1 i) ip), s).

Definition op_remove_message (p : Z) s : option (ctl * vm A) :=
  pr ← procs s !! p;
  '(_, s) ← beam_mailbox_remove_current (mailbox pr) s;
  Some (CNext, s).

(** [proc->mailbox->save_cursor] dereferences the mailbox without a check. *)
Definition op_loop_rec_end code (p ip : Z) i s : option (ctl * vm A) :=
  pr ← procs s !! p;
  mbox ← mboxes s !! mailbox pr;
  mbox ← mailbox_advance_cursor mbox;
  Some (CJump (jump_to_label code (arg1 i) ip), put_mbox (mailbox pr) mbox s).

Definition op_wait (p ip : Z) s : option (ctl * vm A) :=
  s ← upd_frame p (set_fr_ip ip) s;
  s ← beam_process_set_state p BEAM_PROC_STATE_WAITING s;
  Some (CRet BEAM_OK None, s).

(** ** Exceptions *)

(** TRY and CATCH. *)
Definition op_try (p : Z) i s : option (ctl * vm A) :=
  pr ← procs s !! p;
  let f := frame pr in
  if catch_depth f >=? BEAM_MAX_CATCH_DEPTH then Some (CRet BEAM_ERR_NO_MEMORY None, s)
  else
    cs ← array_set (catch_stack f) (catch_depth f)
           {| catch_label := arg1 i; catch_stack_top := stack_top pr; catch_cp := cp f |};
    s ← upd_frame p (set_fr_catch cs (catch_depth f + 1) (arg1 i) (stack_top pr)) s;
    Some (CNext, s).

Definition op_try_end (p : Z) s : option (ctl * vm A) :=
  pr ← procs s !! p;
  let f := frame pr in
  if catch_depth f >? 0 then
    let depth := catch_depth f - 1 in
    if depth >? 0 then
      prev ← array_get (catch_stack f) (depth - 1);
      s ← upd_frame p (set_fr_catch (catch_stack f) depth (catch_label prev)
                         (catch_stack_top prev)) s;
      Some (CNext, s)
    else
      s ← upd_frame p (set_fr_catch (catch_stack f) depth 0 0) s;
      Some (CNext, s)
  else Some (CNext, s).

Definition op_raise code (p ip : Z) i s : option (ctl * vm A) :=
  pr ← procs s !! p;
  let f := frame pr in
  exc ← (if is_x_reg (arg1 i) then get_x p (arg1 i) s else Some 0);
  if catch_depth f =? 0 then
    s ← beam_process_set_state p BEAM_PROC_STATE_EXITED s;
    Some (CRet BEAM_ERR_EXCEPTION None, s)
  else
    cf ← array_get (catch_stack f) (catch_depth f - 1);
    s ← upd_proc p (set_p_stack_top (catch_stack_top cf)) s;
    s ← upd_frame p (set_fr_catch (catch_stack f) (catch_depth f - 1)
                       (catch_ip f) (catch_sp f)) s;
    s ← set_x p 0 exc s;
    Some (CJump (jump_to_label code (catch_label cf) ip), s).

(** ** Tuples, lists and tests *)

Definition op_match_tuple (p : Z) i s : option (ctl * vm A) :=
  if is_x_reg (arg1 i) then
    val ← get_x p (arg1 i) s;
    b ← beam_is_tuple (mem s) val;
    if negb b then Some (CRet BEAM_ERR_BADARG None, s)
    else
      n ← beam_tuple_arity (mem s) val;
      if negb (n =? arg2 i) then Some (CRet BEAM_ERR_BADARG None, s) else Some (CNext, s)
  else Some (CNext, s).

Definition op_get_tuple_element (p : Z) i s : option (ctl * vm A) :=
  if is_x_reg (arg1 i) && is_x_reg (arg3 i) then
    val ← get_x p (arg1 i) s;
    e ← beam_tuple_element (mem s) val (arg2 i);
    s ← set_x p (arg3 i) e s;
    Some (CNext, s)
  else Some (CNext, s).

(** The register operands of the tests are not range checked. *)
Definition op_test_is_eq_exact code (p ip : Z) i s : option (ctl * vm A) :=
  x ← get_x p (arg2 i) s;
  y ← get_x p (arg3 i) s;
  Some (if negb (x =? y) then CJump (jump_to_label code (arg1 i) ip) else CNext, s).

Definition op_test_is_ne_exact code (p ip : Z) i s : option (ctl * vm A) :=
  x ← get_x p (arg2 i) s;
  y ← get_x p (arg3 i) s;
  Some (if x =? y then CJump (jump_to_label code (arg1 i) ip) else CNext, s).

Definition op_test_is_tuple code (p ip : Z) i s : option (ctl * vm A) :=
  x ← get_x p (arg2 i) s;
  b ← beam_is_tuple (mem s) x;
  Some (if negb b then CJump (jump_to_label code (arg1 i) ip) else CNext, s).

Definition op_test_is_list code (p ip : Z) i s : option (ctl * vm A) :=
  x ← get_x p (arg2 i) s;
  Some (if negb (beam_is_list x) && negb (beam_is_nil x)
        then CJump (jump_to_label code (arg1 i) ip) else CNext, s).

Definition op_get_list (p : Z) i s : option (ctl * vm A) :=
  lst ← get_x p (arg1 i) s;
  if beam_is_list lst then
    h ← beam_list_head (mem s) lst;
    s ← set_x p (arg2 i) h s;
    t ← beam_list_tail (mem s) lst;
    s ← set_x p (arg3 i) t s;
    Some (CNext, s)
  else Some (CRet BEAM_ERR_BADARG None, s).

(** [for (k = 0; k < extra_count; k += 2)]: the label of the first matching
    pair. *)
Fixpoint select_scan (fuel : nat) (args : list Z) (count k x : Z) : option (option Z) :=
  match fuel with
  | O => Some None
  | S fuel' =>
      if k <? count then
        key ← array_get args k;
        if x =? key then lbl ← array_get args (k + 1); Some (Some (u32 lbl))
        else select_scan fuel' args count (k + 2) x
      else Some None
  end.

Definition op_select_val code (p ip : Z) i s : option (ctl * vm A) :=
  target ← (match extra_args i with
            | Some args =>
                if extra_count i >=? 2 then
                  x ← get_x p (arg1 i) s;
                  select_scan (Z.to_nat (extra_count i)) args (extra_count i) 0 x
                else Some None
            | None => Some None
            end);
  Some (CJump (jump_to_label code (default (arg2 i) target) ip), s).

(** ** Built-ins, closures, halt *)

(** [int arity = (int)instr->arg2] *)
Definition op_call_ext (p : Z) i s : option (ctl * vm A) :=
  pr ← procs s !! p;
  res ← beam_bif_dispatch (arg1 i) p (x_regs (frame pr)) (s32 (arg2 i)) s;
  match res with
  | DispatchHangs => Some (CHangs, s)
  | Dispatched BEAM_OK (Some v) => s ← set_x p 0 v s; Some (CNext, s)
  | Dispatched BEAM_OK None => s ← set_x p 0 0 s; Some (CNext, s)
  | Dispatched r _ => Some (CRet r None, s)
  end.

(** The words of a closure; [num_free] is 32-bit arithmetic. *)
Definition closure_words (xs : list Z) (fun_label num_free : Z) : option (list Z) :=
  free ← mapM (λ fv, if is_x_reg fv then array_get xs fv else Some 0) (seqZ 0 num_free);
  Some ((u32 (u32 (num_free + 1) .<< 6) .| SUBTAG_TUPLE) :: make_small_int fun_label :: free).

Definition op_make_fun2 (p : Z) i s : option (ctl * vm A) :=
  '(hp, s) ← beam_process_alloc_heap p (u32 (arg2 i + 2)) s;
  if hp =? NULL then Some (CRet BEAM_ERR_NO_MEMORY None, s)
  else
    pr ← procs s !! p;
    ws ← closure_words (x_regs (frame pr)) (arg1 i) (arg2 i);
    m ← store_list (mem s) hp ws;
    let s := set_mem m s in
    if is_x_reg (arg3 i) then
      s ← set_x p (arg3 i) (tag_ptr hp TAG_PRIMARY_BOXED) s; Some (CNext, s)
    else Some (CNext, s).

Definition op_halt (p : Z) s : option (ctl * vm A) :=
  x ← get_x p 0 s;
  s ← beam_process_set_state p BEAM_PROC_STATE_EXITED s;
  Some (CRet BEAM_ERR_HALT (Some x), s).

(** ** The dispatch loop *)

Definition exec_instr code (p ip : Z) i s : option (ctl * vm A) :=
  match opcode_of_value (opcode i) with
  | Some BEAM_OP_LABEL => Some (CNext, s)
  | Some BEAM_OP_MOVE => op_move p i s
  | Some BEAM_OP_ADD => op_add p i s
  | Some BEAM_OP_SUB => op_sub p i s
  | Some BEAM_OP_MUL => op_mul p i s
  | Some BEAM_OP_INT_DIV => op_int_div p i s
  | Some BEAM_OP_ALLOCATE => op_allocate p i s
  | Some BEAM_OP_DEALLOCATE => op_deallocate p i s
  | Some BEAM_OP_CALL => op_call p ip i s
  | Some BEAM_OP_CALL_LAST => op_call_last p i s
  | Some BEAM_OP_RETURN => op_return p s
  | Some BEAM_OP_SEND => op_send p i s
  | Some BEAM_OP_LOOP_REC => op_loop_rec code p ip i s
  | Some BEAM_OP_REMOVE_MESSAGE => op_remove_message p s
  | Some BEAM_OP_LOOP_REC_END => op_loop_rec_end code p ip i s
  | Some BEAM_OP_WAIT => op_wait p ip s
  | Some BEAM_OP_TRY | Some BEAM_OP_CATCH => op_try p i s
  | Some BEAM_OP_TRY_CASE | Some BEAM_OP_TRY_CASE_END => Some (CNext, s)
  | Some BEAM_OP_TRY_END => op_try_end p s
  | Some BEAM_OP_RAISE => op_raise code p ip i s
  | Some BEAM_OP_MATCH_TUPLE => op_match_tuple p i s
  | Some BEAM_OP_GET_TUPLE_ELEMENT => op_get_tuple_element p i s
  | Some BEAM_OP_TEST_IS_EQ_EXACT => op_test_is_eq_exact code p ip i s
  | Some BEAM_OP_TEST_IS_NE_EXACT => op_test_is_ne_exact code p ip i s
  | Some BEAM_OP_TEST_IS_TUPLE => op_test_is_tuple code p ip i s
  | Some BEAM_OP_TEST_IS_LIST => op_test_is_list code p ip i s
  | Some BEAM_OP_GET_LIST => op_get_list p i s
  | Some BEAM_OP_SELECT_VAL => op_select_val code p ip i s
  | Some BEAM_OP_CALL_EXT => op_call_ext p i s
  | Some BEAM_OP_MAKE_FUN2 => op_make_fun2 p i s
  | Some BEAM_OP_HALT => op_halt p s
  | Some BEAM_OP_RECEIVE | None => Some (CRet BEAM_ERR_BADARG None, s)
  end.

(** One iteration of [while (ip < code_len)]: the reduction is paid first. *)
Definition emu_step code (p ip : Z) s : option (ctl * vm A) :=
  i ← array_get code ip;
  s ← beam_process_consume_reductions p 1 s;
  r ← beam_process_get_reductions p s;
  if r <=? 0 then
    s ← beam_process_set_state p BEAM_PROC_STATE_RUNNABLE s;
    Some (CRet BEAM_OK None, s)
  else exec_instr code p ip i s.

Inductive outcome : Type :=
| Returned (r : beam_result_t) (out : option Z) (s : vm A)
| Undefined
| Hangs
| OutOfFuel.

Fixpoint emu_loop (fuel : nat) code (p ip : Z) s : outcome :=
  if ip <? Z.of_nat (length code) then
    match fuel with
    | O => OutOfFuel
    | S fuel' =>
        match emu_step code p ip s with
        | None => Undefined
        | Some (CNext, s) => emu_loop fuel' code p (ip + 1) s
        | Some (CJump ip', s) => emu_loop fuel' code p ip' s
        | Some (CRet r out, s) => Returned r out s
        | Some (CHangs, _) => Hangs
        end
    end
  else
    match get_x p 0 s, upd_frame p (set_fr_ip ip) s with
    | Some x, Some s => Returned BEAM_OK (Some x) s
    | _, _ => Undefined
    end.

(** The loop pays one reduction per iteration and returns when they are spent,
    so the process's reductions bound the iterations. *)
Definition emu_fuel (pr : beam_process) : nat := S (Z.to_nat (reductions pr)).

Definition beam_emu_execute_code (p : Z) code s : outcome :=
  if (p =? NULL) || (Z.of_nat (length code) =? 0) then Returned BEAM_ERR_INVALID_ARG None s
  else
    match procs s !! p with
    | None => Undefined
    | Some pr =>
        let f := frame pr in
        let pr := if (cp f =? 0) && (ip f =? 0)
                  then set_p_frame (set_fr_cp (u32 (Z.of_nat (length code))) f) pr else pr in
        emu_loop (emu_fuel pr) code p (ip f) (put_proc p pr s)
    end.

End Emu.
Arguments outcome : clear implicits.
