(* ===== verification/EmuFrame.v ===== *)
(** What one instruction may change of the process table, and termination of
    the interpreter loop. *)
From S2P Require Import Prelude Memory Term Alloc LinkedList Mailbox Process Bif Emu.
From stdpp Require Import options.

(** The fields no instruction but WAIT changes once its reduction is paid. *)
Record keeps (pr pr' : beam_process) : Prop := {
  kp_pid : pid pr' = pid pr;
  kp_priority : priority pr' = priority pr;
  kp_reductions : reductions pr' = reductions pr;
  kp_mailbox : mailbox pr' = mailbox pr;
  kp_ip : ip (frame pr') = ip (frame pr);
}.

#[export] Instance keeps_preorder : PreOrder keeps.
Proof.
  split; [by split|]. intros x y z [] []. split; congruence.
Qed.

(** Open an executed handler down to its primitive operations. *)
Ltac open_instr :=
  repeat (inv_bind; simplify_eq/=; try case_match; simplify_eq/=).

Section Frame.
Context {A : Type} `{AllocOps A}.
Implicit Types (s : vm A) (i : beam_instruction) (code : list beam_instruction).

(** Only the control block of [p] changes, and it keeps those fields. *)
Definition touches (p : Z) s s' : Prop :=
  (∀ q, q ≠ p → procs s' !! q = procs s !! q) ∧
  option_Forall2 keeps (procs s !! p) (procs s' !! p).

#[export] Instance touches_preorder p : PreOrder (touches p).
Proof.
  split.
  - intros s. split; [done|]. destruct (procs s !! p); by constructor.
  - intros s1 s2 s3 [H1 H2] [H3 H4]. split; [intros q Hq; by rewrite H3, H1|].
    inversion H2 as [? ? ? E1 E2|E1 E2]; inversion H4 as [? ? ? E3 E4|E3 E4];
      rewrite <- E2 in E3; simplify_eq; constructor. by etrans.
Qed.

Lemma touches_procs p s s' : procs s' = procs s → touches p s s'.
Proof. intros E. split; rewrite E; [done|]. destruct (procs s !! p); by constructor. Qed.

Lemma touches_put p pr pr' s s' :
  procs s !! p = Some pr → procs s' = <[p := pr']> (procs s) → keeps pr pr' →
  touches p s s'.
Proof.
  intros Hp E Hk. split; rewrite E.
  - intros q Hq. by rewrite lookup_insert_ne.
  - rewrite Hp, lookup_insert_eq. by constructor.
Qed.

Lemma touches_reductions p s s' pr pr' :
  touches p s s' → procs s !! p = Some pr → procs s' !! p = Some pr' →
  reductions pr' = reductions pr.
Proof. intros [_ Hk] Hp Hp'. rewrite Hp, Hp' in Hk. inversion Hk; subst. by apply kp_reductions. Qed.

Lemma touches_is_Some p s s' :
  touches p s s' → is_Some (procs s !! p) → is_Some (procs s' !! p).
Proof. intros [_ Hk] [pr Hp]. rewrite Hp in Hk. inversion Hk. eauto. Qed.

(** ** Operations on processes *)

Ltac touch_put := intros; unfold upd_proc in *; inv_bind; subst;
  (eapply touches_put; [eassumption|reflexivity|by split; simpl; auto]).

Lemma upd_frame_touches p f s s' :
  upd_frame p f s = Some s' → (∀ fr, ip (f fr) = ip fr) → touches p s s'.
Proof. unfold upd_frame. intros Hs Hf. touch_put. Qed.

Lemma set_x_touches p r v s s' : set_x p r v s = Some s' → touches p s s'.
Proof. unfold set_x. touch_put. Qed.

Lemma set_stack_top_touches p t s s' :
  upd_proc p (set_p_stack_top t) s = Some s' → touches p s s'.
Proof. touch_put. Qed.

Lemma set_state_touches p st s s' : beam_process_set_state p st s = Some s' → touches p s s'.
Proof. unfold beam_process_set_state. case_match; [by intros [= ->]|touch_put]. Qed.

Lemma push_touches p w s r s' :
  beam_process_stack_push p w s = Some (r, s') → touches p s s'.
Proof.
  unfold beam_process_stack_push. case_match; [by intros [= <- <-]|]. intros Hs.
  apply bind_Some in Hs as (pr & Hp & Hs).
  case_match; [by simplify_eq|]. case_match; [by simplify_eq|]. inv_bind. subst.
  eapply touches_put; [done|done|by split].
Qed.

Lemma pop_touches p s r out s' :
  beam_process_stack_pop p s = Some (r, out, s') → touches p s s'.
Proof.
  unfold beam_process_stack_pop. case_match; [by intros [= <- <- <-]|]. intros Hs.
  apply bind_Some in Hs as (pr & Hp & Hs).
  case_match; [by simplify_eq|]. case_match; [by simplify_eq|]. inv_bind. simplify_eq.
  eapply touches_put; [done|done|by split].
Qed.

Lemma alloc_heap_touches p n s ptr s' :
  beam_process_alloc_heap p n s = Some (ptr, s') → touches p s s'.
Proof.
  unfold beam_process_alloc_heap. case_match; [by intros [= <- <-]|]. intros Hs.
  apply bind_Some in Hs as (pr & Hp & Hs). case_match.
  - destruct (al_realloc _ _ _) as [[h mv] a]. case_match; simplify_eq; [by apply touches_procs|].
    eapply touches_put; [done|done|by split].
  - simplify_eq. eapply touches_put; [done|done|by split].
Qed.

Lemma peek_save_touches p mb s r out s' :
  beam_mailbox_peek_save mb s = Some (r, out, s') → touches p s s'.
Proof.
  unfold beam_mailbox_peek_save. case_match; [by intros [= <- <- <-]|]. intros Hs.
  inv_bind. simplify_eq. by apply touches_procs.
Qed.

Lemma reset_cursor_touches p mb s s' :
  beam_mailbox_reset_save_cursor mb s = Some s' → touches p s s'.
Proof.
  unfold beam_mailbox_reset_save_cursor. case_match; [by intros [= <-]|]. intros Hs.
  inv_bind. simplify_eq. by apply touches_procs.
Qed.

Lemma remove_current_touches p mb s r s' :
  beam_mailbox_remove_current mb s = Some (r, s') → touches p s s'.
Proof.
  unfold beam_mailbox_remove_current. case_match; [by intros [= <- <-]|]. intros Hs.
  inv_bind. simplify_eq. by apply touches_procs.
Qed.

Lemma send_touches p q msg s r s' :
  beam_message_send_to_process q msg s = Some (r, s') → touches p s s'.
Proof.
  unfold beam_message_send_to_process, beam_mailbox_enqueue. intros Hs. inv_bind.
  repeat case_match; inv_bind; simplify_eq; by apply touches_procs.
Qed.

Lemma push_zeros_touches n p s r s' : push_zeros n p s = Some (r, s') → touches p s s'.
Proof.
  revert s. induction n as [|n IH]; intros s Hs; simpl in Hs; [by simplify_eq|].
  inv_bind. etrans; [by eapply push_touches|]. case_match; [by eapply IH|by simplify_eq].
Qed.

Lemma pop_words_touches n p s r s' : pop_words n p s = Some (r, s') → touches p s s'.
Proof.
  revert s. induction n as [|n IH]; intros s Hs; simpl in Hs; [by simplify_eq|].
  inv_bind. etrans; [by eapply pop_touches|]. case_match; [by eapply IH|by simplify_eq].
Qed.

Lemma drop_frame_touches w p s r s' : drop_frame w p s = Some (r, s') → touches p s s'.
Proof.
  unfold drop_frame. intros Hs. inv_bind. etrans; [by eapply pop_words_touches|].
  case_match; [by simplify_eq|]. inv_bind. etrans; [by eapply pop_touches|].
  case_match; [by simplify_eq|]. inv_bind. simplify_eq. by eapply upd_frame_touches.
Qed.

(** ** Instructions *)

(** Chain the operations an instruction performed. *)
Ltac touch_chain :=
  repeat match goal with
  | H : set_x _ _ _ ?s = Some ?s' |- touches _ ?s _ =>
      etrans; [exact (set_x_touches _ _ _ _ _ H)|]; clear H
  | H : upd_frame _ _ ?s = Some ?s' |- touches _ ?s _ =>
      etrans; [apply (upd_frame_touches _ _ _ _ H); done|]; clear H
  | H : upd_proc _ (set_p_stack_top _) ?s = Some ?s' |- touches _ ?s _ =>
      etrans; [exact (set_stack_top_touches _ _ _ _ H)|]; clear H
  | H : beam_process_set_state _ _ ?s = Some ?s' |- touches _ ?s _ =>
      etrans; [exact (set_state_touches _ _ _ _ H)|]; clear H
  | H : beam_process_stack_push _ _ ?s = Some (_, ?s') |- touches _ ?s _ =>
      etrans; [exact (push_touches _ _ _ _ _ H)|]; clear H
  | H : push_zeros _ _ ?s = Some (_, ?s') |- touches _ ?s _ =>
      etrans; [exact (push_zeros_touches _ _ _ _ _ H)|]; clear H
  | H : drop_frame _ _ ?s = Some (_, ?s') |- touches _ ?s _ =>
      etrans; [exact (drop_frame_touches _ _ _ _ _ H)|]; clear H
  | H : beam_process_alloc_heap _ _ ?s = Some (_, ?s') |- touches _ ?s _ =>
      etrans; [exact (alloc_heap_touches _ _ _ _ _ H)|]; clear H
  | H : beam_message_send_to_process _ _ ?s = Some (_, ?s') |- touches _ ?s _ =>
      etrans; [exact (send_touches _ _ _ _ _ _ H)|]; clear H
  | H : beam_mailbox_peek_save _ ?s = Some (_, _, ?s') |- touches _ ?s _ =>
      etrans; [exact (peek_save_touches _ _ _ _ _ _ H)|]; clear H
  | H : beam_mailbox_reset_save_cursor _ ?s = Some ?s' |- touches _ ?s _ =>
      etrans; [exact (reset_cursor_touches _ _ _ _ H)|]; clear H
  | H : beam_mailbox_remove_current _ ?s = Some (_, ?s') |- touches _ ?s _ =>
      etrans; [exact (remove_current_touches _ _ _ _ _ H)|]; clear H
  | |- touches _ ?s ?s => reflexivity
  | |- touches _ ?s (set_mem ?m ?s) => by apply touches_procs
  | |- touches _ ?s (put_mbox _ _ ?s) => by apply touches_procs
  | H : set_x _ _ _ (set_mem _ ?s) = Some ?s' |- touches _ ?s ?s' =>
      etrans; [|exact (set_x_touches _ _ _ _ _ H)]; by apply touches_procs
  end.

Lemma op_make_fun2_touches p i s c s' :
  op_make_fun2 p i s = Some (c, s') → touches p s s'.
Proof.
  unfold op_make_fun2. intros Hs. open_instr; touch_chain.
Qed.

Lemma exec_instr_touches code p ip i s c s' :
  exec_instr code p ip i s = Some (c, s') →
  opcode_of_value (opcode i) ≠ Some BEAM_OP_WAIT → touches p s s'.
Proof.
  unfold exec_instr. intros Hs Hw. destruct (opcode_of_value (opcode i)) as [[]|];
    try done; try (by simplify_eq);
    unfold op_move, op_add, op_sub, op_mul, op_arith, op_int_div, op_allocate,
      op_deallocate, op_call, op_call_last, op_return, op_send, op_loop_rec,
      op_remove_message, op_loop_rec_end, op_try, op_try_end, op_raise, op_match_tuple,
      op_get_tuple_element, op_test_is_eq_exact, op_test_is_ne_exact, op_test_is_tuple,
      op_test_is_list, op_get_list, op_select_val, op_call_ext, op_halt in Hs;
    try (by eapply op_make_fun2_touches); open_instr; touch_chain.
Qed.

(** ** Steps of the loop *)

(** Does the loop go on after a handler? *)
Definition continues (c : ctl) : bool :=
  match c with CNext | CJump _ => true | CRet _ _ | CHangs => false end.

(** Where it goes on. *)
Definition next_ip (c : ctl) (ip : Z) : Z :=
  match c with CJump ip' => ip' | _ => ip + 1 end.

Lemma op_wait_ctl p ip s c s' : op_wait p ip s = Some (c, s') → c = CRet BEAM_OK None.
Proof. unfold op_wait. intros. inv_bind. by simplify_eq. Qed.

(** Paying the reduction. *)
Lemma emu_step_pay code p ip s c s' pr :
  p ≠ NULL → procs s !! p = Some pr → emu_step code p ip s = Some (c, s') →
  ∃ i, array_get code ip = Some i ∧
    let s1 := put_proc p (set_p_reductions (reductions pr - 1) pr) s in
    if reductions pr - 1 <=? 0
    then c = CRet BEAM_OK None ∧
         s' = put_proc p (set_p_state BEAM_PROC_STATE_RUNNABLE
                (set_p_reductions (reductions pr - 1) pr)) s1
    else exec_instr code p ip i s1 = Some (c, s').
Proof.
  intros Hnn Hp Hs. unfold emu_step in Hs.
  apply bind_Some in Hs as (i & Hi & Hs). exists i. split; [done|].
  unfold beam_process_consume_reductions, beam_process_get_reductions,
    beam_process_set_state, upd_proc in Hs.
  destruct (Z.eqb_spec p NULL); [done|]. rewrite Hp in Hs. simpl in Hs.
  unfold s32_checked in Hs. case_match; [|done]. simpl in Hs.
  rewrite !lookup_insert_eq in Hs. simpl in Hs.
  case_match; [by simplify_eq|done].
Qed.

Lemma emu_step_continues code p ip s c s' pr :
  p ≠ NULL → procs s !! p = Some pr → emu_step code p ip s = Some (c, s') →
  continues c = true →
  1 < reductions pr ∧
  touches p (put_proc p (set_p_reductions (reductions pr - 1) pr) s) s' ∧
  ∃ pr', procs s' !! p = Some pr' ∧ reductions pr' = reductions pr - 1.
Proof.
  intros Hnn Hp Hs Hc. destruct (emu_step_pay _ _ _ _ _ _ _ Hnn Hp Hs) as (i & Hi & Hpay).
  simpl in Hpay. destruct (Z.leb_spec (reductions pr - 1) 0).
  { by destruct Hpay as [-> _]. }
  assert (opcode_of_value (opcode i) ≠ Some BEAM_OP_WAIT) as Hw.
  { intros Hw. unfold exec_instr in Hpay. rewrite Hw in Hpay.
    apply op_wait_ctl in Hpay. by subst. }
  pose proof (exec_instr_touches _ _ _ _ _ _ _ Hpay Hw) as Ht.
  split; [lia|]. split; [done|].
  destruct (touches_is_Some _ _ _ Ht) as [pr' Hp'].
  { simpl. rewrite lookup_insert_eq. eauto. }
  exists pr'. split; [done|]. eapply (touches_reductions _ _ _ _ _ Ht) in Hp' as ->.
  2:{ simpl. by rewrite lookup_insert_eq. }
  done.
Qed.

(** The loop ends before its fuel does. *)
Lemma emu_loop_fuel fuel code p ip s pr :
  p ≠ NULL → procs s !! p = Some pr → (Z.to_nat (reductions pr) < fuel)%nat →
  emu_loop fuel code p ip s ≠ OutOfFuel.
Proof.
  intros Hnn. revert ip s pr. induction fuel as [|fuel IH]; intros ip s pr Hp Hf; [lia|].
  simpl. case_match; [|repeat case_match; done].
  destruct (emu_step code p ip s) as [[c s']|] eqn:Hs; [|done].
  destruct (continues c) eqn:Hc.
  - destruct (emu_step_continues _ _ _ _ _ _ _ Hnn Hp Hs Hc) as (Hr & _ & pr' & Hp' & Hr').
    assert (Z.to_nat (reductions pr') < fuel)%nat by lia.
    destruct c; [by eapply IH..|done|done].
  - by destruct c.
Qed.

(** Invariant rule for completed runs. *)
Lemma emu_loop_inv code p (P : Z → vm A → Prop) (Q : beam_result_t → option Z → vm A → Prop) :
  (∀ ip s c s', P ip s → emu_step code p ip s = Some (c, s') →
     if continues c then P (next_ip c ip) s'
     else match c with CRet r out => Q r out s' | _ => True end) →
  (∀ ip s x s', P ip s → get_x p 0 s = Some x → upd_frame p (set_fr_ip ip) s = Some s' →
     Q BEAM_OK (Some x) s') →
  ∀ fuel ip s r out s', P ip s → emu_loop fuel code p ip s = Returned r out s' → Q r out s'.
Proof.
  intros Hstep Hend fuel. induction fuel as [|fuel IH]; intros ip s r out s' HP Hl; simpl in Hl.
  - case_match; [done|]. repeat case_match; simplify_eq. eauto.
  - case_match; [|repeat case_match; simplify_eq; eauto].
    destruct (emu_step code p ip s) as [[c s1]|] eqn:Hs; [|done].
    specialize (Hstep _ _ _ _ HP Hs). destruct c; simpl in *; simplify_eq; eauto.
Qed.

End Frame.
