(* ===== verification/EmuInv.v ===== *)
(** Every instruction preserves the machine invariant of the file ProcessInv:
    register file and catch stack of fixed extent, catch depth within bounds,
    heap and stack pointers inside the heap block, well-formed mailboxes,
    disjoint live blocks. *)
From S2P Require Import Prelude Memory Term Alloc LinkedList Mailbox Process ProcessInv.
From S2P Require Import Bif Emu EmuFrame.
From stdpp Require Import options.

Section Inv.
Context {A : Type} `{AllocSpec A}.
Implicit Types (s : vm A) (i : beam_instruction) (code : list beam_instruction).

(** The invariant, with blocks [X] that belong to other structures (the run
    queue, say) and that the machine must leave alone. *)
Variable X : blocks.

Definition vm_good s : Prop :=
  ∃ B own, vm_ok s B own ∧ ∀ q k, X !! q = Some k → B !! q = Some k ∧ own !! q = None.

Lemma vm_good_intro s B own B' own' :
  (∀ q k, X !! q = Some k → B !! q = Some k ∧ own !! q = None) →
  vm_ok s B' own' → keeps_unowned B own B' own' → vm_good s.
Proof.
  intros HX Hok Hk. exists B', own'. split; [done|]. intros q k Hq.
  destruct (HX _ _ Hq). by apply Hk.
Qed.

(** ** Primitive updates *)

Lemma good_put_proc s p pr pr' :
  vm_good s → procs s !! p = Some pr →
  (proc_ok pr → proc_ok pr') →
  heap pr' = heap pr → heap_capacity pr' = heap_capacity pr → mailbox pr' = mailbox pr →
  vm_good (put_proc p pr' s).
Proof.
  intros (B & own & Hok & HX) Hp Hpo Hh Hc Hm. exists B, own. split; [|done].
  eapply vm_ok_put_proc; eauto. apply Hpo.
  by destruct (vo_proc _ _ _ Hok _ _ Hp) as (_ & ? & _).
Qed.

Lemma good_upd_proc s s' p f :
  vm_good s → upd_proc p f s = Some s' →
  (∀ pr, procs s !! p = Some pr → proc_ok pr →
     proc_ok (f pr) ∧ heap (f pr) = heap pr ∧
     heap_capacity (f pr) = heap_capacity pr ∧ mailbox (f pr) = mailbox pr) →
  vm_good s'.
Proof.
  intros (B & own & Hok & HX) Hu Hf. unfold upd_proc in Hu. inv_bind. simplify_eq.
  destruct (vo_proc _ _ _ Hok _ _ H1) as (_ & Hpo & _).
  destruct (Hf _ H1 Hpo) as (? & ? & ? & ?). exists B, own. split; [|done]. by eapply vm_ok_put_proc.
Qed.

Lemma good_set_x s s' p r v : vm_good s → set_x p r v s = Some s' → vm_good s'.
Proof.
  intros Hg Hs. unfold set_x in Hs. inv_bind. simplify_eq.
  eapply good_put_proc; try done. intros []. split; simpl; try done.
  by erewrite array_set_length.
Qed.

Lemma good_set_state s s' p st :
  vm_good s → beam_process_set_state p st s = Some s' → vm_good s'.
Proof.
  intros Hg Hs. unfold beam_process_set_state in Hs. case_match; [by simplify_eq|].
  eapply good_upd_proc; [done..|]. intros pr _ []. by split_and!; [split|..].
Qed.

Lemma good_set_reductions s p pr r :
  vm_good s → procs s !! p = Some pr → vm_good (put_proc p (set_p_reductions r pr) s).
Proof. intros. eapply good_put_proc; try done. intros []. by split. Qed.

Lemma good_set_cp s s' p c : vm_good s → upd_frame p (set_fr_cp c) s = Some s' → vm_good s'.
Proof.
  intros Hg Hs. eapply good_upd_proc; [done..|]. intros pr _ []. by split_and!; [split|..].
Qed.

Lemma good_set_ip s s' p c : vm_good s → upd_frame p (set_fr_ip c) s = Some s' → vm_good s'.
Proof.
  intros Hg Hs. eapply good_upd_proc; [done..|]. intros pr _ []. by split_and!; [split|..].
Qed.

Lemma good_set_mem s m :
  vm_good s → (∀ a, is_Some (mem s !! a) → is_Some (m !! a)) → vm_good (set_mem m s).
Proof. intros (B & own & Hok & HX) Hm. exists B, own. split; [|done]. by apply vm_ok_set_mem. Qed.

(** ** The stack *)

Lemma good_push s s' p w r :
  vm_good s → beam_process_stack_push p w s = Some (r, s') → vm_good s'.
Proof.
  intros Hg Hs. destruct (procs s !! p) as [pr|] eqn:Hp.
  - destruct Hg as (B & own & Hok & HX). pose proof (stack_push_spec _ _ _ _ _ w Hok Hp) as Hsp.
    exists B, own. split; [|done]. case_match; [by simplify_eq|].
    destruct Hsp as (m & Hs' & _ & Hok'). by simplify_eq.
  - unfold beam_process_stack_push in Hs. rewrite Hp in Hs. by case_match; simplify_eq.
Qed.

Lemma good_pop s s' p r out :
  vm_good s → beam_process_stack_pop p s = Some (r, out, s') → vm_good s'.
Proof.
  intros Hg Hs. destruct (procs s !! p) as [pr|] eqn:Hp.
  - pose proof Hg as (B & own & Hok & HX).
    destruct (stack_pop_spec _ _ _ _ _ _ _ _ Hok Hp Hs)
      as [(_ & _ & -> & _)|(_ & _ & w & _ & _ & _ & Hok')]; [done|solve [by exists B, own]].
  - unfold beam_process_stack_pop in Hs. rewrite Hp in Hs. by case_match; simplify_eq.
Qed.

Lemma good_push_zeros n s s' p r :
  vm_good s → push_zeros n p s = Some (r, s') → vm_good s'.
Proof.
  revert s. induction n as [|n IH]; intros s Hg Hs; simpl in Hs; [by simplify_eq|].
  inv_bind. assert (vm_good v) by (by eapply good_push). case_match; [by eapply IH|by simplify_eq].
Qed.

Lemma good_pop_words n s s' p r :
  vm_good s → pop_words n p s = Some (r, s') → vm_good s'.
Proof.
  revert s. induction n as [|n IH]; intros s Hg Hs; simpl in Hs; [by simplify_eq|].
  inv_bind. assert (vm_good v) by (by eapply good_pop). case_match; [by eapply IH|by simplify_eq].
Qed.

Lemma good_drop_frame w s s' p r :
  vm_good s → drop_frame w p s = Some (r, s') → vm_good s'.
Proof.
  intros Hg Hs. unfold drop_frame in Hs. inv_bind.
  assert (vm_good v) by (by eapply good_pop_words).
  case_match; [by simplify_eq|]. inv_bind. assert (vm_good v0) by (by eapply good_pop).
  case_match; [by simplify_eq|]. inv_bind. simplify_eq. by eapply good_set_cp.
Qed.

(** ** Heap and mailboxes *)

Lemma good_alloc_heap s s' p n ptr :
  vm_good s → 0 <= n < 2 ^ 33 → beam_process_alloc_heap p n s = Some (ptr, s') → vm_good s'.
Proof.
  intros Hg Hn Hs. destruct (procs s !! p) as [pr|] eqn:Hp.
  - destruct Hg as (B & own & Hok & HX).
    destruct (alloc_heap_spec _ _ _ _ _ _ Hok Hp Hn) as (? & ? & B' & own' & Hs' & Hok' & Hk & _).
    simplify_eq. by eapply vm_good_intro.
  - unfold beam_process_alloc_heap in Hs. rewrite Hp in Hs. by case_match; simplify_eq.
Qed.

Lemma good_peek s s' mb r out :
  vm_good s → beam_mailbox_peek_save mb s = Some (r, out, s') → vm_good s'.
Proof.
  intros (B & own & Hok & HX) Hs. pose proof Hs as Hs0. unfold beam_mailbox_peek_save in Hs.
  destruct (Z.eqb_spec mb NULL) as [|Hnn]; [simplify_eq; solve [by exists B, own]|].
  destruct (mboxes s !! mb) as [mbox|] eqn:Hb; [|done].
  destruct (peek_save_ok _ _ _ _ _ Hok Hnn Hb) as (? & ? & ? & E & Hok' & _).
  rewrite E in Hs0. simplify_eq. solve [by exists B, own].
Qed.

Lemma good_reset s s' mb :
  vm_good s → beam_mailbox_reset_save_cursor mb s = Some s' → vm_good s'.
Proof.
  intros (B & own & Hok & HX) Hs. pose proof Hs as Hs0. unfold beam_mailbox_reset_save_cursor in Hs.
  destruct (Z.eqb_spec mb NULL) as [|Hnn]; [simplify_eq; solve [by exists B, own]|].
  destruct (mboxes s !! mb) as [mbox|] eqn:Hb; [|done].
  destruct (reset_cursor_ok _ _ _ _ _ Hok Hnn Hb) as (? & E & Hok' & _).
  rewrite E in Hs0. simplify_eq. solve [by exists B, own].
Qed.

Lemma good_remove s s' mb r :
  vm_good s → beam_mailbox_remove_current mb s = Some (r, s') → vm_good s'.
Proof.
  intros (B & own & Hok & HX) Hs. pose proof Hs as Hs0. unfold beam_mailbox_remove_current in Hs.
  destruct (Z.eqb_spec mb NULL) as [|Hnn]; [simplify_eq; solve [by exists B, own]|].
  destruct (mboxes s !! mb) as [mbox|] eqn:Hb; [|done].
  destruct (remove_current_ok _ _ _ _ _ Hok Hnn Hb) as (? & ? & B' & own' & E & Hok' & Hk & _).
  rewrite E in Hs0. simplify_eq. by eapply vm_good_intro.
Qed.

Lemma good_enqueue s s' mb msg r :
  vm_good s → beam_mailbox_enqueue mb msg s = Some (r, s') → vm_good s'.
Proof.
  intros (B & own & Hok & HX) Hs. pose proof Hs as Hs0. unfold beam_mailbox_enqueue in Hs.
  destruct (Z.eqb_spec mb NULL) as [|Hnn]; [simplify_eq; solve [by exists B, own]|].
  destruct (mboxes s !! mb) as [mbox|] eqn:Hb; [|done].
  destruct (enqueue_ok _ _ _ _ _ msg Hok Hnn Hb) as (? & ? & B' & own' & E & Hok' & Hk & _).
  rewrite E in Hs0. simplify_eq. by eapply vm_good_intro.
Qed.

Lemma good_send s s' q msg r :
  vm_good s → beam_message_send_to_process q msg s = Some (r, s') → vm_good s'.
Proof.
  intros Hg Hs. unfold beam_message_send_to_process in Hs. inv_bind.
  case_match; [by simplify_eq|]. by eapply good_enqueue.
Qed.

(** ** Exception frames *)

Lemma good_op_try s s' p i c : vm_good s → op_try p i s = Some (c, s') → vm_good s'.
Proof.
  intros Hg Hs. unfold op_try in Hs. apply bind_Some in Hs as (pr & Hp & Hs).
  case_match eqn:Hd; [by simplify_eq|]. inv_bind. simplify_eq.
  eapply good_upd_proc; [done..|]. intros pr' Hp' Hpo. assert (pr' = pr) as -> by congruence.
  match goal with E : array_set _ _ _ = Some _ |- _ =>
    pose proof (array_set_length _ _ _ _ E) as Hlen; apply array_set_Some in E as [Hr ->] end.
  rewrite Z.geb_leb, Z.leb_gt in Hd.
  pose proof (po_catch _ Hpo) as po_catch_old.
  destruct Hpo. split_and!; [split|..]; simpl; try done; try congruence; try lia.
  intros j cf Hj Hcf. apply list_lookup_insert_Some in Hcf as [(<- & <- & _)|[Hne Hcf]];
    [done|]. apply (po_catch_old j); [lia|done].
Qed.

Lemma po_catch_shrink pr d :
  proc_ok pr → 0 <= d <= catch_depth (frame pr) →
  ∀ j cf, (j < Z.to_nat d)%nat → catch_stack (frame pr) !! j = Some cf →
    0 <= catch_stack_top cf <= heap_capacity pr.
Proof. intros Hpo Hd j cf Hj. apply (po_catch _ Hpo). lia. Qed.

Lemma good_op_try_end s s' p c : vm_good s → op_try_end p s = Some (c, s') → vm_good s'.
Proof.
  intros Hg Hs. unfold op_try_end in Hs. apply bind_Some in Hs as (pr & Hp & Hs).
  case_match eqn:Hd; [|by simplify_eq]. rewrite Z.gtb_ltb, Z.ltb_lt in Hd.
  assert (Hsh : ∀ cip csp s1, upd_frame p
    (set_fr_catch (catch_stack (frame pr)) (catch_depth (frame pr) - 1) cip csp) s = Some s1 →
    vm_good s1).
  { intros cip csp s1 Hu. eapply good_upd_proc; [done..|].
    intros pr' Hp' Hpo. assert (pr' = pr) as -> by congruence.
    pose proof (po_catch_shrink _ (catch_depth (frame pr) - 1) Hpo ltac:(lia)).
    destruct Hpo. split_and!; [split|..]; simpl; try done; lia. }
  case_match; inv_bind; simplify_eq; by eapply Hsh.
Qed.

Lemma good_op_raise code s s' p ip i c :
  vm_good s → op_raise code p ip i s = Some (c, s') → vm_good s'.
Proof.
  intros Hg Hs. unfold op_raise in Hs. apply bind_Some in Hs as (pr & Hp & Hs).
  apply bind_Some in Hs as (exc & _ & Hs). case_match eqn:Hd.
  { inv_bind. simplify_eq. by eapply good_set_state. }
  apply Z.eqb_neq in Hd. inv_bind. simplify_eq. eapply good_set_x; [|done].
  unfold upd_frame, upd_proc in *. inv_bind. simplify_eq. simpl in *.
  rewrite lookup_insert_eq in *. simplify_eq.
  match goal with |- vm_good (put_proc p ?b (put_proc p ?a s)) =>
    assert (put_proc p b (put_proc p a s) = put_proc p b s) as -> end.
  { unfold put_proc. simpl. by rewrite insert_insert_eq. }
  eapply good_put_proc; [exact Hg|exact Hp| |done..]. intros Hpo.
  match goal with E : array_get _ _ = Some _ |- _ => unfold array_get in E;
    case_match eqn:Hz; [done|]; apply Z.ltb_ge in Hz;
    pose proof (po_catch _ Hpo (Z.to_nat (catch_depth (frame pr) - 1)) _ ltac:(lia) E) end.
  pose proof (po_catch_shrink _ (catch_depth (frame pr) - 1) Hpo ltac:(lia)).
  destruct Hpo. split; simpl; try done; lia.
Qed.

(** ** Instructions *)

Lemma good_op_make_fun2 s s' p i c : vm_good s → op_make_fun2 p i s = Some (c, s') → vm_good s'.
Proof.
  intros Hg Hs. unfold op_make_fun2 in Hs. apply bind_Some in Hs as ([hp s1] & Ha & Hs).
  assert (vm_good s1).
  { eapply good_alloc_heap; [exact Hg| |exact Ha].
    pose proof (u32_range (arg2 i + 2)) as Hu. unfold is_u32 in Hu. lia. }
  case_match; [by simplify_eq|]. inv_bind. simplify_eq.
  assert (vm_good (set_mem x1 s1)) by (apply good_set_mem; [done|]; eauto using store_list_is_Some).
  case_match; inv_bind; simplify_eq; [by eapply good_set_x|done].
Qed.

Lemma good_op_loop_rec_end code s s' p ip i c :
  vm_good s → op_loop_rec_end code p ip i s = Some (c, s') → vm_good s'.
Proof.
  intros (B & own & Hok & HX) Hs. unfold op_loop_rec_end in Hs. inv_bind. simplify_eq.
  match goal with Hb : mboxes s !! _ = Some _ |- _ =>
    destruct (advance_cursor_ok _ _ _ _ _ Hok Hb) as (mbox' & E & Hok') end.
  simplify_eq. solve [by exists B, own].
Qed.

(** Follow the operations of an executed handler, keeping [vm_good]. *)
Ltac good_chain :=
  repeat match goal with
  | Hg : vm_good ?s, E : set_x _ _ _ ?s = Some _ |- _ => apply (good_set_x _ _ _ _ _ Hg) in E
  | Hg : vm_good ?s, E : beam_process_set_state _ _ ?s = Some _ |- _ =>
      apply (good_set_state _ _ _ _ Hg) in E
  | Hg : vm_good ?s, E : upd_frame _ (set_fr_cp _) ?s = Some _ |- _ =>
      apply (good_set_cp _ _ _ _ Hg) in E
  | Hg : vm_good ?s, E : upd_frame _ (set_fr_ip _) ?s = Some _ |- _ =>
      apply (good_set_ip _ _ _ _ Hg) in E
  | Hg : vm_good ?s, E : beam_process_stack_push _ _ ?s = Some _ |- _ =>
      apply (good_push _ _ _ _ _ Hg) in E
  | Hg : vm_good ?s, E : push_zeros _ _ ?s = Some _ |- _ =>
      apply (good_push_zeros _ _ _ _ _ Hg) in E
  | Hg : vm_good ?s, E : drop_frame _ _ ?s = Some _ |- _ =>
      apply (good_drop_frame _ _ _ _ _ Hg) in E
  | Hg : vm_good ?s, E : beam_message_send_to_process _ _ ?s = Some _ |- _ =>
      apply (good_send _ _ _ _ _ Hg) in E
  | Hg : vm_good ?s, E : beam_mailbox_peek_save _ ?s = Some _ |- _ =>
      apply (good_peek _ _ _ _ _ Hg) in E
  | Hg : vm_good ?s, E : beam_mailbox_reset_save_cursor _ ?s = Some _ |- _ =>
      apply (good_reset _ _ _ Hg) in E
  | Hg : vm_good ?s, E : beam_mailbox_remove_current _ ?s = Some _ |- _ =>
      apply (good_remove _ _ _ _ Hg) in E
  end.

Lemma exec_instr_good code p ip i s c s' :
  vm_good s → exec_instr code p ip i s = Some (c, s') → vm_good s'.
Proof.
  intros Hg Hs. unfold exec_instr in Hs. destruct (opcode_of_value (opcode i)) as [[]|];
    try (by simplify_eq);
    eauto using good_op_make_fun2, good_op_loop_rec_end, good_op_try, good_op_try_end,
      good_op_raise;
    unfold op_move, op_add, op_sub, op_mul, op_arith, op_int_div, op_allocate,
      op_deallocate, op_call, op_call_last, op_return, op_send, op_loop_rec,
      op_remove_message, op_wait, op_match_tuple, op_get_tuple_element,
      op_test_is_eq_exact, op_test_is_ne_exact, op_test_is_tuple, op_test_is_list,
      op_get_list, op_select_val, op_call_ext, op_halt in Hs;
    open_instr; good_chain; done.
Qed.

Lemma emu_step_good code p ip s c s' :
  vm_good s → emu_step code p ip s = Some (c, s') → vm_good s'.
Proof.
  intros Hg Hs. unfold emu_step in Hs. apply bind_Some in Hs as (i & _ & Hs).
  apply bind_Some in Hs as (s1 & Hc & Hs). apply bind_Some in Hs as (r & _ & Hs).
  assert (vm_good s1) as Hg1.
  { unfold beam_process_consume_reductions in Hc.
    destruct (p =? NULL); [by simplify_eq|].
    apply bind_Some in Hc as (pr & Hp & Hc). apply bind_Some in Hc as (x & _ & Hc).
    simplify_eq. by apply good_set_reductions. }
  case_match.
  - inv_bind. simplify_eq. by eapply good_set_state.
  - by eapply exec_instr_good.
Qed.

End Inv.
