(* ===== verification/EmuExec.v ===== *)
(** Whole executions: what [beam_emu_execute_code] (src/emulator/beam_emu.c)
    guarantees from entry to return. *)
From S2P Require Import Prelude Memory Term Alloc LinkedList Mailbox Process ProcessInv.
From S2P Require Import Bif Emu EmuFrame EmuInv.
From stdpp Require Import options.

Section Exec.
Context {A : Type} `{AllocSpec A}.
Implicit Types (s : vm A) (i : beam_instruction) (code : list beam_instruction).

(** Only the control block of [p] may change, and it stays. *)
Definition only (p : Z) s s' : Prop :=
  (∀ q, q ≠ p → procs s' !! q = procs s !! q) ∧
  (is_Some (procs s !! p) → is_Some (procs s' !! p)).

#[export] Instance only_preorder p : PreOrder (only p).
Proof.
  split; [by split|]. intros s1 s2 s3 [H1 H2] [H3 H4]. split; [|auto].
  intros q Hq. by rewrite H3, H1.
Qed.

Lemma touches_only p s s' : touches p s s' → only p s s'.
Proof. intros Ht. split; [apply Ht|]. by apply touches_is_Some. Qed.

Lemma put_proc_only p pr s : only p s (put_proc p pr s).
Proof.
  split; simpl; [intros q Hq; by rewrite lookup_insert_ne|]. rewrite lookup_insert_eq. eauto.
Qed.

Lemma set_state_only p st s s' : beam_process_set_state p st s = Some s' → only p s s'.
Proof. intros. by eapply touches_only, set_state_touches. Qed.

Lemma upd_frame_only p f s s' : upd_frame p f s = Some s' → only p s s'.
Proof. unfold upd_frame, upd_proc. intros. inv_bind. simplify_eq. apply put_proc_only. Qed.

Lemma exec_instr_only code p ip i s c s' :
  exec_instr code p ip i s = Some (c, s') → only p s s'.
Proof.
  intros Hs. destruct (decide (opcode_of_value (opcode i) = Some BEAM_OP_WAIT)) as [Hw|Hw].
  - unfold exec_instr in Hs. rewrite Hw in Hs. unfold op_wait in Hs.
    apply bind_Some in Hs as (s1 & H1 & Hs). apply bind_Some in Hs as (s2 & H2 & Hs).
    simplify_eq. etrans; [by eapply upd_frame_only|by eapply set_state_only].
  - by eapply touches_only, exec_instr_touches.
Qed.

Lemma emu_step_only code p ip s c s' : emu_step code p ip s = Some (c, s') → only p s s'.
Proof.
  intros Hs. unfold emu_step in Hs. apply bind_Some in Hs as (i & _ & Hs).
  apply bind_Some in Hs as (s1 & Hc & Hs). apply bind_Some in Hs as (r & _ & Hs).
  assert (only p s s1).
  { unfold beam_process_consume_reductions in Hc. destruct (p =? NULL); [by simplify_eq|].
    apply bind_Some in Hc as (pr & Hp & Hc). apply bind_Some in Hc as (x & _ & Hc).
    simplify_eq. apply put_proc_only. }
  etrans; [done|]. destruct (r <=? 0).
  - apply bind_Some in Hs as (s2 & H2 & Hs). simplify_eq. by eapply set_state_only.
  - by eapply exec_instr_only.
Qed.

(** ** From entry to return *)

(** The frame on entry: a process that never ran returns past the end. *)
Definition entry_proc code (pr : beam_process) : beam_process :=
  let f := frame pr in
  if (cp f =? 0) && (ip f =? 0)
  then set_p_frame (set_fr_cp (u32 (Z.of_nat (length code))) f) pr else pr.

Lemma execute_entry p code s r out s' :
  beam_emu_execute_code p code s = Returned r out s' →
  (r = BEAM_ERR_INVALID_ARG ∧ out = None ∧ s' = s ∧ (p = NULL ∨ code = [])) ∨
  (p ≠ NULL ∧ code ≠ [] ∧ ∃ pr, procs s !! p = Some pr ∧
     emu_loop (emu_fuel (entry_proc code pr)) code p (ip (frame pr))
       (put_proc p (entry_proc code pr) s) = Returned r out s').
Proof.
  unfold beam_emu_execute_code. destruct (Z.eqb_spec p NULL) as [->|Hp]; cbn [orb].
  { intros [= <- <- <-]. left. auto. }
  destruct (Z.eqb_spec (Z.of_nat (length code)) 0) as [Hl|Hl].
  { intros [= <- <- <-]. left. destruct code; [by auto|done]. }
  destruct (procs s !! p) as [pr|]; [|done]. intros Hx. right.
  split_and!; [done|by intros ->|]. exists pr. split; [done|exact Hx].
Qed.

Lemma entry_proc_ok code pr : proc_ok pr → proc_ok (entry_proc code pr).
Proof. intros []. unfold entry_proc. case_match; by split. Qed.

Lemma entry_proc_same code pr :
  heap (entry_proc code pr) = heap pr ∧ heap_capacity (entry_proc code pr) = heap_capacity pr ∧
  mailbox (entry_proc code pr) = mailbox pr ∧ ip (frame (entry_proc code pr)) = ip (frame pr) ∧
  reductions (entry_proc code pr) = reductions pr.
Proof. unfold entry_proc. by case_match. Qed.

(** A run keeps the machine invariant, the blocks of other structures, and
    every other process. *)
Lemma execute_ok p code s r out s' B own :
  vm_ok s B own → beam_emu_execute_code p code s = Returned r out s' →
  only p s s' ∧ ∃ B' own', vm_ok s' B' own' ∧ keeps_unowned B own B' own'.
Proof.
  intros Hok Hx. destruct (execute_entry _ _ _ _ _ _ Hx)
    as [(_ & _ & -> & _)|(Hnn & _ & pr & Hp & Hl)]; [split; [done|by eauto]|].
  set (X := filter (λ x, own !! x.1 = None) B : blocks).
  destruct (entry_proc_same code pr) as (E1 & E2 & E3 & _).
  assert (Hfin : only p s s' ∧ vm_good X s').
  { revert Hl. refine (emu_loop_inv code p (λ _ s', only p s s' ∧ vm_good X s')
      (λ _ _ s', only p s s' ∧ vm_good X s') _ _ _ _ _ _ _ _ _).
    - intros ip s1 c s2 [Ho Hg] Hs.
      pose proof (emu_step_good X _ _ _ _ _ _ Hg Hs). pose proof (emu_step_only _ _ _ _ _ _ Hs).
      assert (only p s s2) by (by etrans). destruct c; simpl; done.
    - intros ip s1 x s2 [Ho Hg] _ Hs. split; [etrans; [done|by eapply upd_frame_only]|].
      by eapply good_set_ip.
    - split; [apply put_proc_only|]. exists B, own. split.
      + eapply vm_ok_put_proc; [done|done| |done..]. apply entry_proc_ok.
        by destruct (vo_proc _ _ _ Hok _ _ Hp) as (_ & ? & _).
      + intros q k Hq. apply map_lookup_filter_Some in Hq. done. }
  destruct Hfin as (Ho & B' & own' & Hok' & HX). split; [done|]. exists B', own'.
  split; [done|]. intros q k Hq Hqo. apply HX. by apply map_lookup_filter_Some.
Qed.

(** The fuel of the model is never what ends a run. *)
Lemma execute_fuel p code s : beam_emu_execute_code p code s ≠ OutOfFuel.
Proof.
  unfold beam_emu_execute_code. destruct (Z.eqb_spec p NULL) as [|Hnn]; cbn [orb]; [done|].
  destruct (_ =? 0); [done|]. destruct (procs s !! p) as [pr|]; [|done].
  fold (entry_proc code pr).
  apply (emu_loop_fuel _ _ _ _ _ (entry_proc code pr)); [done|apply lookup_insert_eq|].
  unfold emu_fuel. lia.
Qed.

End Exec.
