(* ===== verification/EmuSafe.v ===== *)
(** A fragment of the instruction set that always runs to an answer.

    Most instructions check their operands; some follow whatever pointer a
    register holds, multiply past the machine word, or move the heap under the
    stack.  [safe_instr] is a static check that leaves those out; for code that
    passes it, [beam_emu_execute_code] (src/emulator/beam_emu.c) returns from
    every well-formed state. *)
From S2P Require Import Prelude Memory Term Alloc LinkedList Mailbox Process ProcessInv.
From S2P Require Import Bif Emu EmuFrame EmuInv EmuExec Demo.
From stdpp Require Import options.

(** ** The static check *)

Definition is_read_reg (r : Z) : bool := (0 <=? r) && (r <? BEAM_NUM_X_REGISTERS).

(** [targets]: the processes the code may send to. *)
Definition safe_instr (targets : gset Z) (i : beam_instruction) : bool :=
  (0 <=? arg1 i) && (0 <=? arg2 i) && (0 <=? arg3 i) &&
  match opcode_of_value (opcode i) with
  | Some BEAM_OP_MUL | Some BEAM_OP_MATCH_TUPLE | Some BEAM_OP_GET_TUPLE_ELEMENT
  | Some BEAM_OP_TEST_IS_TUPLE | Some BEAM_OP_GET_LIST | Some BEAM_OP_MAKE_FUN2 => false
  | Some BEAM_OP_TEST_IS_EQ_EXACT | Some BEAM_OP_TEST_IS_NE_EXACT =>
      is_read_reg (arg2 i) && is_read_reg (arg3 i)
  | Some BEAM_OP_TEST_IS_LIST => is_read_reg (arg2 i)
  | Some BEAM_OP_SELECT_VAL =>
      match extra_args i with
      | Some args => (extra_count i <? 2) ||
          (is_read_reg (arg1 i) && Z.even (extra_count i) &&
           (extra_count i <=? Z.of_nat (length args)))
      | None => true
      end
  | Some BEAM_OP_CALL_EXT => negb ((arg1 i =? 4) || (arg1 i =? 5))
  | Some BEAM_OP_SEND => (target_proc i =? NULL) || bool_decide (target_proc i ∈ targets)
  | _ => true
  end.

Definition safe_code (targets : gset Z) (code : list beam_instruction) : bool :=
  forallb (safe_instr targets) code.

(** The stack tops execution can come back to: the current one and those the
    active catch frames saved. *)
Definition stack_tops (pr : beam_process) : list Z :=
  stack_top pr ::
  (catch_stack_top <$> take (Z.to_nat (catch_depth (frame pr))) (catch_stack (frame pr))).

Definition stack_init (m : memory) (pr : beam_process) : Prop :=
  ∀ t i, t ∈ stack_tops pr → t <= i < heap_capacity pr →
    is_Some (load m (word_at (heap pr) i)).

(** How a handler may leave the dispatch. *)
Definition ctl_ok (c : ctl) : Prop :=
  match c with CJump ip => 0 <= ip | CHangs => False | _ => True end.

Section Safe.
Context {A : Type} `{AllocSpec A}.
Implicit Types (s : vm A) (i : beam_instruction) (code : list beam_instruction).
Variables (p : Z) (targets : gset Z).
(** The heap block of the process and the memory at the start: the fragment
    writes nowhere else. *)
Variables (h0 cap0 : Z) (m0 : memory).

Record proc_runs s (pr : beam_process) : Prop := {
  pu_proc : procs s !! p = Some pr;
  pu_cp : 0 <= cp (frame pr);
  pu_ip : 0 <= ip (frame pr);
  pu_init : stack_init (mem s) pr;
  pu_heap : heap pr = h0 ∧ heap_capacity pr = cap0;
}.

Record safe_state s : Prop := {
  sf_good : vm_good ∅ s;
  sf_proc : ∃ pr, proc_runs s pr;
  sf_targets : ∀ t, t ∈ targets → is_Some (procs s !! t);
  sf_frame : ∀ a, in_block h0 cap0 a = false → mem s !! a = m0 !! a;
}.

Lemma safe_proc_ok s : safe_state s →
  ∃ pr, proc_runs s pr ∧ proc_ok pr ∧ p ≠ NULL ∧ heap pr ≠ NULL ∧
    mapped (mem s) (heap pr) (heap_capacity pr) ∧
    mailbox pr ≠ NULL ∧ is_Some (mboxes s !! mailbox pr).
Proof.
  intros [(B & own & Hok & _) [pr Hr] _ _]. exists pr. pose proof (pu_proc _ _ Hr) as Hp.
  pose proof (vm_ok_heap_nonnull _ _ _ _ _ Hok Hp).
  destruct (vo_proc _ _ _ Hok _ _ Hp) as (Hnn & Hpo & (_ & _ & Hmap) & [_ [Hb _]] & Hmb).
  destruct (vm_ok_bounds _ _ _ _ _ Hok Hb).
  split_and!; try done. unfold NULL. lia.
Qed.

(** A step that keeps the machine invariant, the processes and the memory, and
    leaves the process with the same stack, is safe. *)
Lemma safe_same s s' pr pr' :
  safe_state s → proc_runs s pr → vm_good ∅ s' → mem s' = mem s →
  procs s' = <[p := pr']> (procs s) →
  heap pr' = heap pr → heap_capacity pr' = heap_capacity pr →
  (∀ t, t ∈ stack_tops pr' → t ∈ stack_tops pr) → 0 <= cp (frame pr') → 0 <= ip (frame pr') →
  safe_state s'.
Proof.
  intros [Hg _ Ht Hfr] [Hp Hcp Hip Hi Hhc] Hg' Em Ep Eh Ec Etop Hcp' Hip'.
  split; [done| | |by rewrite Em].
  - exists pr'. split; [by rewrite Ep, lookup_insert_eq|done|done| |by rewrite Eh, Ec].
    intros t i Hin Hti. rewrite Em, Eh. apply (Hi t); [by apply Etop|by rewrite <-Ec].
  - intros t Hin. rewrite Ep. destruct (decide (t = p)) as [->|].
    + by rewrite lookup_insert_eq.
    + rewrite lookup_insert_ne by done. by apply Ht.
Qed.

Lemma safe_procs s s' :
  safe_state s → vm_good ∅ s' → mem s' = mem s → procs s' = procs s → safe_state s'.
Proof.
  intros [Hg [pr [Hp Hcp Hip Hi Hhc]] Ht Hfr] Hg' Em Ep.
  split; [done| |by rewrite Ep|by rewrite Em].
  exists pr. split; [by rewrite Ep|done|done| |done]. unfold stack_init. by rewrite Em.
Qed.

(** ** Registers, frame, state *)

Lemma get_x_safe s r : safe_state s → is_read_reg r = true → ∃ v, get_x p r s = Some v.
Proof.
  intros Hs Hr. destruct (safe_proc_ok _ Hs) as (pr & [Hp _ _ _ _] & Hpo & _).
  unfold is_read_reg in Hr. apply andb_true_iff in Hr as [?%Z.leb_le ?%Z.ltb_lt].
  unfold get_x. rewrite Hp. csimpl. apply array_get_Some. rewrite (po_regs _ Hpo).
  unfold BEAM_NUM_X_REGISTERS in *. lia.
Qed.

Lemma set_x_safe s r v :
  safe_state s → is_read_reg r = true → ∃ s', set_x p r v s = Some s' ∧ safe_state s'.
Proof.
  intros Hs Hr. destruct (safe_proc_ok _ Hs) as (pr & Hrun & Hpo & _).
  pose proof Hrun as [Hp Hcp Hip _ _].
  unfold is_read_reg in Hr. apply andb_true_iff in Hr as [?%Z.leb_le ?%Z.ltb_lt].
  assert (array_set (x_regs (frame pr)) r v = Some (<[Z.to_nat r := v]> (x_regs (frame pr))))
    as E.
  { apply array_set_Some. rewrite (po_regs _ Hpo). unfold BEAM_NUM_X_REGISTERS in *.
    split; [lia|done]. }
  assert (∃ s', set_x p r v s = Some s') as [s' Es].
  { unfold set_x. rewrite Hp. csimpl. rewrite E. by eexists. }
  exists s'. split; [done|]. pose proof (good_set_x _ _ _ _ _ _ (sf_good _ Hs) Es) as Hg.
  unfold set_x in Es. rewrite Hp in Es. cbn [mbind option_bind] in Es. rewrite E in Es.
  cbn [mbind option_bind] in Es. simplify_eq.
  by eapply safe_same.
Qed.

Lemma set_state_safe s st :
  safe_state s → ∃ s', beam_process_set_state p st s = Some s' ∧ safe_state s'.
Proof.
  intros Hs. destruct (safe_proc_ok _ Hs) as (pr & Hrun & _ & Hnn & _).
  pose proof Hrun as [Hp Hcp Hip _ _].
  assert (beam_process_set_state p st s = Some (put_proc p (set_p_state st pr) s)) as E.
  { unfold beam_process_set_state, upd_proc. destruct (Z.eqb_spec p NULL); [done|].
    by rewrite Hp. }
  eexists. split; [done|]. eapply safe_same; try done.
  by eapply good_set_state; [apply sf_good|].
Qed.

Lemma set_cp_safe s c :
  safe_state s → 0 <= c → ∃ s', upd_frame p (set_fr_cp c) s = Some s' ∧ safe_state s'.
Proof.
  intros Hs Hc. destruct (safe_proc_ok _ Hs) as (pr & Hrun & _).
  pose proof Hrun as [Hp Hcp Hip _ _].
  assert (∃ s', upd_frame p (set_fr_cp c) s = Some s') as [s' E].
  { unfold upd_frame, upd_proc. rewrite Hp. by eexists. }
  exists s'. split; [done|]. pose proof (good_set_cp _ _ _ _ _ (sf_good _ Hs) E).
  unfold upd_frame, upd_proc in E. rewrite Hp in E. simplify_eq/=. by eapply safe_same.
Qed.

Lemma set_ip_safe s c :
  safe_state s → 0 <= c → ∃ s', upd_frame p (set_fr_ip c) s = Some s' ∧ safe_state s'.
Proof.
  intros Hs Hc. destruct (safe_proc_ok _ Hs) as (pr & Hrun & _).
  pose proof Hrun as [Hp Hcp Hip _ _].
  assert (∃ s', upd_frame p (set_fr_ip c) s = Some s') as [s' E].
  { unfold upd_frame, upd_proc. rewrite Hp. by eexists. }
  exists s'. split; [done|]. pose proof (good_set_ip _ _ _ _ _ (sf_good _ Hs) E).
  unfold upd_frame, upd_proc in E. rewrite Hp in E. simplify_eq/=. by eapply safe_same.
Qed.

(** ** The stack *)

Lemma push_safe s w :
  safe_state s → ∃ r s', beam_process_stack_push p w s = Some (r, s') ∧ safe_state s'.
Proof.
  intros Hs. pose proof (sf_good _ Hs) as (B & own & Hok & HX).
  destruct (safe_proc_ok _ Hs) as (pr & [Hp Hcp Hip Hi Hhc] & Hpo & Hnn & _).
  pose proof (stack_push_spec _ _ _ _ _ w Hok Hp) as Hsp. case_match eqn:Htop; [by eexists _, _|].
  destruct Hsp as (m & E & Hst & Hok'). eexists _, _. split; [done|].
  apply store_Some in Hst as [_ ->].
  pose proof (po_heap _ Hpo). pose proof (po_stack _ Hpo). apply Z.leb_gt in Htop.
  split; [solve [by exists B, own]| | |].
  3:{ intros a Ha. cbn [mem put_proc set_mem]. rewrite lookup_insert_ne.
      - by apply (sf_frame _ Hs).
      - intros <-. destruct Hhc as [Eh Ec]. rewrite in_block_false in Ha.
        apply (Ha (stack_top pr - 1)); [lia|by rewrite Eh]. }
  - exists (set_p_stack_top (stack_top pr - 1) pr).
    split; [apply lookup_insert_eq|done|done| |done]. intros t i Hin Hti. simpl in *.
    destruct (decide (i = stack_top pr - 1)) as [->|Hne]; [rewrite load_insert_eq; by eexists|].
    rewrite load_insert_ne by (intros E2; by apply word_at_inj in E2).
    unfold stack_tops in Hin. simpl in Hin. apply elem_of_cons in Hin as [->|Hin].
    + apply (Hi (stack_top pr)); [left|lia].
    + apply (Hi t); [by right|done].
  - intros t Hin. simpl. apply (sf_targets _ Hs) in Hin.
    destruct (decide (t = p)) as [->|]; [by rewrite lookup_insert_eq|by rewrite lookup_insert_ne].
Qed.

Lemma pop_safe s :
  safe_state s → ∃ r out s', beam_process_stack_pop p s = Some (r, out, s') ∧ safe_state s' ∧
    (r = BEAM_OK → is_Some out).
Proof.
  intros Hs. destruct (safe_proc_ok _ Hs) as (pr & Hrun & Hpo & Hnn & Hh & _).
  pose proof Hrun as [Hp Hcp Hip Hi Hhc]. pose proof (sf_good _ Hs) as Hg.
  assert (∃ r out s', beam_process_stack_pop p s = Some (r, out, s')) as (r & out & s' & E).
  { unfold beam_process_stack_pop. destruct (Z.eqb_spec p NULL); [by eauto|]. rewrite Hp.
    cbn [mbind option_bind]. destruct (Z.eqb_spec (heap pr) NULL); [by eauto|].
    rewrite Z.geb_leb. destruct (Z.leb_spec (heap_capacity pr) (stack_top pr)); [by eauto|].
    destruct (Hi (stack_top pr) (stack_top pr)) as [w ->]; [left|lia|]. by eauto. }
  exists r, out, s'. split; [done|]. pose proof (good_pop _ _ _ _ _ _ Hg E) as Hg'.
  pose proof Hg as (B & own & Hok & _).
  destruct (stack_pop_spec _ _ _ _ _ _ _ _ Hok Hp E)
    as [(-> & -> & -> & _)|(-> & Hlt & w & -> & _ & -> & _)]; [done|].
  split; [|done]. pose proof (po_stack _ Hpo) as Hst. split; [done| | |apply Hs].
  - exists (set_p_stack_top (stack_top pr + 1) pr). split; [apply lookup_insert_eq|done|done| |done].
    intros t i Hin Hti. simpl in *. apply elem_of_cons in Hin as [->|Hin].
    + apply (Hi (stack_top pr)); [left|simpl in *; lia].
    + apply (Hi t); [by right|done].
  - intros t Hin. simpl. apply (sf_targets _ Hs) in Hin.
    destruct (decide (t = p)) as [->|]; [by rewrite lookup_insert_eq|by rewrite lookup_insert_ne].
Qed.

Lemma push_zeros_safe n s :
  safe_state s → ∃ r s', push_zeros n p s = Some (r, s') ∧ safe_state s'.
Proof.
  revert s. induction n as [|n IH]; intros s Hs; simpl; [by eauto|].
  destruct (push_safe s 0 Hs) as (r & s1 & -> & Hs1). cbn [mbind option_bind].
  case_match; [by apply IH|by eauto].
Qed.

Lemma pop_words_safe n s :
  safe_state s → ∃ r s', pop_words n p s = Some (r, s') ∧ safe_state s'.
Proof.
  revert s. induction n as [|n IH]; intros s Hs; simpl; [by eauto|].
  destruct (pop_safe s Hs) as (r & out & s1 & -> & Hs1 & _). cbn [mbind option_bind].
  case_match; [by apply IH|by eauto].
Qed.

Lemma drop_frame_safe w s :
  safe_state s → ∃ r s', drop_frame w p s = Some (r, s') ∧ safe_state s'.
Proof.
  intros Hs. unfold drop_frame.
  destruct (pop_words_safe (Z.to_nat w) s Hs) as (r & s1 & -> & Hs1). cbn [mbind option_bind].
  case_match; [by eauto|].
  destruct (pop_safe s1 Hs1) as (r2 & out & s2 & -> & Hs2 & Hout). cbn [mbind option_bind].
  unfold result_is_ok. destruct (bool_decide_reflect (r2 = BEAM_OK)) as [->|]; [|by eauto].
  destruct Hout as [c ->]; [done|]. cbn [negb mbind option_bind].
  destruct (set_cp_safe s2 (u32 c) Hs2) as (s3 & -> & Hs3).
  { pose proof (u32_range c) as Hu. unfold is_u32 in Hu. lia. }
  cbn [mbind option_bind]. by eauto.
Qed.

(** ** The mailbox *)

Lemma peek_safe s pr :
  safe_state s → procs s !! p = Some pr →
  ∃ r out s', beam_mailbox_peek_save (mailbox pr) s = Some (r, out, s') ∧ safe_state s' ∧
    procs s' = procs s ∧ (r = BEAM_OK → is_Some out).
Proof.
  intros Hs Hp. destruct (safe_proc_ok _ Hs) as (pr2 & Hrun & _ & _ & _ & _ & Hmn & [mbox Hmb]).
  assert (pr2 = pr) as -> by (destruct Hrun; congruence).
  pose proof (sf_good _ Hs) as (B & own & Hok & HX).
  destruct (peek_save_ok _ _ _ _ _ Hok Hmn Hmb) as (r & out & s' & E & Hok' & Ep & Em & Ho).
  exists r, out, s'. split; [done|]. split; [|split; [done|]].
  - apply (safe_procs s); try done. solve [by exists B, own].
  - intros ->. by destruct Ho as [[_ ?]|[? _]].
Qed.

Lemma reset_safe s pr :
  safe_state s → procs s !! p = Some pr →
  ∃ s', beam_mailbox_reset_save_cursor (mailbox pr) s = Some s' ∧ safe_state s'.
Proof.
  intros Hs Hp. destruct (safe_proc_ok _ Hs) as (pr2 & Hrun & _ & _ & _ & _ & Hmn & [mbox Hmb]).
  assert (pr2 = pr) as -> by (destruct Hrun; congruence).
  pose proof (sf_good _ Hs) as (B & own & Hok & HX).
  destruct (reset_cursor_ok _ _ _ _ _ Hok Hmn Hmb) as (s' & E & Hok' & Ep & Em).
  exists s'. split; [done|]. apply (safe_procs s); try done. solve [by exists B, own].
Qed.

Lemma remove_safe s pr :
  safe_state s → procs s !! p = Some pr →
  ∃ r s', beam_mailbox_remove_current (mailbox pr) s = Some (r, s') ∧ safe_state s'.
Proof.
  intros Hs Hp. destruct (safe_proc_ok _ Hs) as (pr2 & Hrun & _ & _ & _ & _ & Hmn & [mbox Hmb]).
  assert (pr2 = pr) as -> by (destruct Hrun; congruence).
  pose proof (sf_good _ Hs) as (B & own & Hok & HX).
  destruct (remove_current_ok _ _ _ _ _ Hok Hmn Hmb) as (r & s' & B' & own' & E & Hok' & Hk & Ep & Em).
  exists r, s'. split; [done|]. apply (safe_procs s); try done. by eapply vm_good_intro.
Qed.

Lemma send_safe s t msg :
  safe_state s → t ∈ targets →
  ∃ r s', beam_message_send_to_process t msg s = Some (r, s') ∧ safe_state s'.
Proof.
  intros Hs Ht. pose proof (sf_good _ Hs) as (B & own & Hok & HX).
  destruct (sf_targets _ Hs _ Ht) as [pr Hp].
  destruct (vo_proc _ _ _ Hok _ _ Hp) as (Hnn & _ & _ & [_ [Hb _]] & [mbox Hmb]).
  destruct (vm_ok_bounds _ _ _ _ _ Hok Hb).
  assert (mailbox pr ≠ NULL) as Hmn by (unfold NULL; lia).
  unfold beam_message_send_to_process, beam_process_get_mailbox.
  destruct (Z.eqb_spec t NULL); [done|]. rewrite Hp. cbn [mbind option_bind].
  destruct (Z.eqb_spec (mailbox pr) NULL); [done|].
  destruct (enqueue_ok _ _ _ _ _ msg Hok Hmn Hmb) as (r & s' & B' & own' & E & Hok' & Hk & Ep & Em & _).
  exists r, s'. split; [done|]. apply (safe_procs s); try done. by eapply vm_good_intro.
Qed.

(** ** Instructions *)

(** The handler answers, leaves the dispatch in order, and keeps the state. *)
Definition handled (o : option (ctl * vm A)) : Prop :=
  ∃ c s', o = Some (c, s') ∧ ctl_ok c ∧ safe_state s'.

Lemma handled_ret c s : ctl_ok c → safe_state s → handled (Some (c, s)).
Proof. intros. by exists c, s. Qed.

Lemma handled_get_x s r (k : Z → option (ctl * vm A)) :
  safe_state s → is_read_reg r = true → (∀ v, handled (k v)) → handled (get_x p r s ≫= k).
Proof. intros Hs Hr Hk. destruct (get_x_safe s r Hs Hr) as [v ->]. apply Hk. Qed.

Lemma handled_get_int s r (k : Z → option (ctl * vm A)) :
  safe_state s → is_read_reg r = true → (∀ v, small_int_range v → handled (k v)) →
  handled ((eterm_to_small_int <$> get_x p r s) ≫= k).
Proof.
  intros Hs Hr Hk. destruct (get_x_safe s r Hs Hr) as [v ->]. simpl.
  apply Hk, eterm_to_small_int_range.
Qed.

Lemma handled_set_x s r v (k : vm A → option (ctl * vm A)) :
  safe_state s → is_read_reg r = true → (∀ s', safe_state s' → handled (k s')) →
  handled (set_x p r v s ≫= k).
Proof. intros Hs Hr Hk. destruct (set_x_safe s r v Hs Hr) as (s' & -> & ?). by apply Hk. Qed.

Lemma handled_set_state s st (k : vm A → option (ctl * vm A)) :
  safe_state s → (∀ s', safe_state s' → handled (k s')) →
  handled (beam_process_set_state p st s ≫= k).
Proof. intros Hs Hk. destruct (set_state_safe s st Hs) as (s' & -> & ?). by apply Hk. Qed.

(** A checked register operand is readable. *)
Lemma read_reg r : 0 <= r → is_x_reg r = true → is_read_reg r = true.
Proof. intros Hr Hx. unfold is_read_reg, is_x_reg in *. apply andb_true_iff. split; [lia|done]. Qed.

Lemma op_move_safe s i : safe_state s → 0 <= arg2 i → handled (op_move p i s).
Proof.
  intros Hs Hr. unfold op_move. destruct (is_x_reg _) eqn:E; [|by apply handled_ret].
  apply handled_set_x; auto using read_reg. intros. by apply handled_ret.
Qed.

Lemma op_arith_safe f s i :
  safe_state s → 0 <= arg1 i → 0 <= arg2 i → 0 <= arg3 i →
  (∀ x y, small_int_range x → small_int_range y → is_s64 (f x y)) →
  handled (op_arith f p i s).
Proof.
  intros Hs H1 H2 H3 Hf. unfold op_arith.
  destruct (_ && _) eqn:E; [|by apply handled_ret]. apply andb_true_iff in E as [[E1 E2]%andb_true_iff E3].
  apply handled_get_int; auto using read_reg. intros x Hx.
  apply handled_get_int; auto using read_reg. intros y Hy.
  rewrite s64_checked_small by auto. cbn [mbind option_bind].
  apply handled_set_x; auto using read_reg. intros. by apply handled_ret.
Qed.

Lemma op_int_div_safe s i :
  safe_state s → 0 <= arg1 i → 0 <= arg2 i → 0 <= arg3 i → handled (op_int_div p i s).
Proof.
  intros Hs H1 H2 H3. unfold op_int_div.
  destruct (_ && _) eqn:E; [|by apply handled_ret]. apply andb_true_iff in E as [[E1 E2]%andb_true_iff E3].
  apply handled_get_int; auto using read_reg. intros x Hx.
  apply handled_get_int; auto using read_reg. intros y Hy.
  destruct (Z.eqb_spec y 0); [by apply handled_ret|].
  assert (Z.abs (Z.quot x y) <= Z.abs x) as Hq.
  { rewrite <-Z.quot_abs by done. apply Z.quot_le_upper_bound; [lia|].
    rewrite <-(Z.mul_1_l (Z.abs x)) at 1. apply Z.mul_le_mono_nonneg_r; lia. }
  rewrite s64_checked_small by (unfold small_int_range, is_s64 in *; lia). cbn [mbind option_bind].
  apply handled_set_x; auto using read_reg. intros. by apply handled_ret.
Qed.

Lemma op_allocate_safe s i : safe_state s → handled (op_allocate p i s).
Proof.
  intros Hs. unfold op_allocate. destruct (safe_proc_ok _ Hs) as (pr & [-> _ _ _ _] & _).
  cbn [mbind option_bind]. destruct (push_safe s (cp (frame pr)) Hs) as (r & s1 & -> & Hs1).
  cbn [mbind option_bind]. case_match; [by apply handled_ret|].
  destruct (push_zeros_safe (Z.to_nat (arg1 i)) s1 Hs1) as (r2 & s2 & -> & Hs2).
  cbn [mbind option_bind]. case_match; by apply handled_ret.
Qed.

Lemma op_deallocate_safe s i : safe_state s → handled (op_deallocate p i s).
Proof.
  intros Hs. unfold op_deallocate. destruct (drop_frame_safe (arg1 i) s Hs) as (r & s1 & -> & Hs1).
  cbn [mbind option_bind]. case_match; by apply handled_ret.
Qed.

Lemma op_call_last_safe s i : safe_state s → 0 <= arg1 i → handled (op_call_last p i s).
Proof.
  intros Hs Hi. unfold op_call_last.
  destruct (drop_frame_safe (arg2 i) s Hs) as (r & s1 & -> & Hs1).
  cbn [mbind option_bind]. case_match; by apply handled_ret.
Qed.

Lemma op_call_safe s ip i : safe_state s → 0 <= arg1 i → handled (op_call p ip i s).
Proof.
  intros Hs Hi. unfold op_call. destruct (set_cp_safe s (u32 (ip + 1)) Hs) as (s1 & -> & Hs1).
  { pose proof (u32_range (ip + 1)) as Hu. unfold is_u32 in Hu. lia. }
  by apply handled_ret.
Qed.

Lemma op_return_safe s : safe_state s → handled (op_return p s).
Proof.
  intros Hs. unfold op_return. destruct (safe_proc_ok _ Hs) as (pr & [-> ? _ _ _] & _).
  by apply handled_ret.
Qed.

Lemma op_wait_safe s ip : safe_state s → 0 <= ip → handled (op_wait p ip s).
Proof.
  intros Hs Hip. unfold op_wait. destruct (set_ip_safe s ip Hs Hip) as (s1 & -> & Hs1).
  apply handled_set_state; [done|]. intros. by apply handled_ret.
Qed.

Lemma op_halt_safe s : safe_state s → handled (op_halt p s).
Proof.
  intros Hs. unfold op_halt. apply handled_get_x; [done..|]. intros v.
  apply handled_set_state; [done|]. intros. by apply handled_ret.
Qed.

Lemma scan_label_nonneg code lbl scan ip : 0 <= scan → 0 <= ip → 0 <= scan_label code lbl scan ip.
Proof.
  revert scan. induction code as [|i code IH]; intros scan Hs Hi; simpl; [done|].
  case_match; [done|]. apply IH; [lia|done].
Qed.

Lemma jump_nonneg code lbl ip : 0 <= ip → 0 <= jump_to_label code lbl ip.
Proof. by apply scan_label_nonneg. Qed.

Lemma op_send_safe s i :
  safe_state s → 0 <= arg1 i →
  (target_proc i =? NULL) || bool_decide (target_proc i ∈ targets) = true →
  handled (op_send p i s).
Proof.
  intros Hs Hi Ht. unfold op_send. destruct (_ && _) eqn:E; [|by apply handled_ret].
  apply andb_true_iff in E as [E1 E2]. rewrite negb_true_iff in E2. rewrite E2 in Ht.
  apply bool_decide_eq_true in Ht. apply handled_get_x; auto using read_reg. intros v.
  destruct (send_safe s _ v Hs Ht) as (r & s' & -> & Hs'). by apply handled_ret.
Qed.

Lemma op_loop_rec_safe code s ip i :
  safe_state s → 0 <= arg2 i → 0 <= ip → handled (op_loop_rec code p ip i s).
Proof.
  intros Hs Hi Hip. unfold op_loop_rec.
  destruct (safe_proc_ok _ Hs) as (pr & [Hp _ _ _ _] & _). rewrite Hp. cbn [mbind option_bind].
  destruct (peek_safe s pr Hs Hp) as (r & out & s1 & -> & Hs1 & Ep & Hout).
  cbn [mbind option_bind]. unfold result_is_ok.
  destruct (bool_decide_reflect (r = BEAM_OK)) as [->|].
  - destruct Hout as [msg ->]; [done|]. cbn [mbind option_bind].
    destruct (is_x_reg _) eqn:E; [|by apply handled_ret].
    apply handled_set_x; auto using read_reg. intros. by apply handled_ret.
  - rewrite <-Ep in Hp. destruct (reset_safe s1 pr Hs1 Hp) as (s2 & -> & Hs2).
    apply handled_ret; [by apply jump_nonneg|done].
Qed.

Lemma op_remove_message_safe s : safe_state s → handled (op_remove_message p s).
Proof.
  intros Hs. unfold op_remove_message.
  destruct (safe_proc_ok _ Hs) as (pr & [Hp _ _ _ _] & _). rewrite Hp. cbn [mbind option_bind].
  destruct (remove_safe s pr Hs Hp) as (r & s1 & -> & Hs1). by apply handled_ret.
Qed.

Lemma op_loop_rec_end_safe code s ip i :
  safe_state s → 0 <= ip → handled (op_loop_rec_end code p ip i s).
Proof.
  intros Hs Hip. unfold op_loop_rec_end.
  destruct (safe_proc_ok _ Hs) as (pr & [Hp _ _ _ _] & _ & _ & _ & _ & _ & [mbox Hmb]).
  rewrite Hp. cbn [mbind option_bind]. rewrite Hmb. cbn [mbind option_bind].
  pose proof (sf_good _ Hs) as (B & own & Hok & HX).
  destruct (advance_cursor_ok _ _ _ _ _ Hok Hmb) as (mbox' & -> & Hok').
  apply handled_ret; [by apply jump_nonneg|]. apply (safe_procs s); try done.
  solve [by exists B, own].
Qed.

(** ** Exceptions *)

Lemma safe_frame_catch s pr cs depth cip csp :
  safe_state s → proc_runs s pr →
  let pr' := set_p_frame (set_fr_catch cs depth cip csp (frame pr)) pr in
  vm_good ∅ (put_proc p pr' s) → (∀ t, t ∈ stack_tops pr' → t ∈ stack_tops pr) →
  safe_state (put_proc p pr' s).
Proof.
  intros Hs Hrun pr' Hg Ht. pose proof Hrun as [Hp Hcp Hip _ _]. by eapply safe_same.
Qed.

Lemma take_insert_last {X} (l : list X) (n : nat) x :
  (n < length l)%nat → take (S n) (<[n := x]> l) = take n l ++ [x].
Proof.
  intros Hn. rewrite (take_S_r _ _ x); [|by apply list_lookup_insert_eq].
  by rewrite take_insert_ge.
Qed.

Lemma op_try_safe s i : safe_state s → handled (op_try p i s).
Proof.
  intros Hs. destruct (safe_proc_ok _ Hs) as (pr & Hrun & Hpo & _).
  pose proof Hrun as [Hp Hcp Hip _ _]. pose proof (po_depth _ Hpo) as Hd.
  destruct (op_try p i s) as [[c s']|] eqn:E.
  - pose proof (good_op_try _ _ _ _ _ _ (sf_good _ Hs) E) as Hg. exists c, s'. split; [done|].
    unfold op_try in E. rewrite Hp in E. cbn [mbind option_bind] in E.
    case_match eqn:Hfull; [by simplify_eq|]. rewrite Z.geb_leb, Z.leb_gt in Hfull.
    apply bind_Some in E as (cs & Ecs & E). apply array_set_Some in Ecs as [Hr ->].
    unfold upd_frame, upd_proc in E. rewrite Hp in E. simplify_eq/=. split; [done|].
    apply safe_frame_catch; [done|done|done|]. intros t. unfold stack_tops. simpl.
    replace (Z.to_nat (catch_depth (frame pr) + 1)) with (S (Z.to_nat (catch_depth (frame pr))))
      by lia.
    rewrite take_insert_last by lia. rewrite fmap_app, !elem_of_cons, elem_of_app. simpl.
    rewrite list_elem_of_singleton. naive_solver.
  - exfalso. revert E. unfold op_try. rewrite Hp. cbn [mbind option_bind].
    case_match eqn:Hfull; [done|]. rewrite Z.geb_leb, Z.leb_gt in Hfull.
    unfold array_set. rewrite (po_catch_len _ Hpo).
    destruct (_ && _) eqn:E;
      [|unfold BEAM_MAX_CATCH_DEPTH in *; apply andb_false_iff in E as [?%Z.leb_gt|?%Z.ltb_ge]; lia].
    cbn [mbind option_bind]. unfold upd_frame, upd_proc. by rewrite Hp.
Qed.

(** Fewer catch frames, a stack top they saved: no new stack tops. *)
Lemma stack_tops_pop pr d cip csp t :
  d <= catch_depth (frame pr) →
  t ∈ stack_tops (set_p_frame (set_fr_catch (catch_stack (frame pr)) d cip csp (frame pr)) pr) →
  t ∈ stack_tops pr.
Proof.
  unfold stack_tops. simpl. rewrite !elem_of_cons, !list_elem_of_fmap.
  intros Hd [?|(cf & -> & Hcf)]; [by left|right]. exists cf. split; [done|].
  apply elem_of_take in Hcf as (j & Hj & Hlt). apply elem_of_take.
  exists j. split; [done|lia].
Qed.

Lemma op_try_end_safe s : safe_state s → handled (op_try_end p s).
Proof.
  intros Hs. destruct (safe_proc_ok _ Hs) as (pr & Hrun & Hpo & _).
  pose proof Hrun as [Hp Hcp Hip _ _]. pose proof (po_depth _ Hpo) as Hd.
  assert (Hpop : ∀ cip csp, vm_good ∅ (put_proc p (set_p_frame (set_fr_catch
      (catch_stack (frame pr)) (catch_depth (frame pr) - 1) cip csp (frame pr)) pr) s) →
    safe_state (put_proc p (set_p_frame (set_fr_catch
      (catch_stack (frame pr)) (catch_depth (frame pr) - 1) cip csp (frame pr)) pr) s)).
  { intros cip csp Hg. apply safe_frame_catch; [done|done|done|].
    intros t Ht. eapply stack_tops_pop; [|done]. lia. }
  destruct (op_try_end p s) as [[c s']|] eqn:E.
  - pose proof (good_op_try_end _ _ _ _ _ (sf_good _ Hs) E) as Hg. exists c, s'. split; [done|].
    unfold op_try_end, upd_frame, upd_proc in E. rewrite Hp in E. cbn [mbind option_bind] in E.
    case_match; [|by simplify_eq]. case_match; inv_bind; simplify_eq; (split; [exact I|auto]).
  - exfalso. revert E. unfold op_try_end, upd_frame, upd_proc. rewrite Hp.
    cbn [mbind option_bind]. case_match; [|done]. case_match eqn:Hz; [|done].
    rewrite Z.gtb_ltb, Z.ltb_lt in Hz.
    destruct (array_get_Some (catch_stack (frame pr)) (catch_depth (frame pr) - 1 - 1))
      as [cf ->]; [|done]. rewrite (po_catch_len _ Hpo). unfold BEAM_MAX_CATCH_DEPTH in *. lia.
Qed.

Lemma op_raise_safe code s ip i :
  safe_state s → 0 <= arg1 i → 0 <= ip → handled (op_raise code p ip i s).
Proof.
  intros Hs Hi Hip. destruct (safe_proc_ok _ Hs) as (pr & Hrun & Hpo & _).
  pose proof Hrun as [Hp Hcp Hip0 _ _]. pose proof (po_depth _ Hpo) as Hd.
  unfold op_raise. rewrite Hp. cbn [mbind option_bind].
  assert (∃ exc, (if is_x_reg (arg1 i) then get_x p (arg1 i) s else Some 0) = Some exc) as [exc ->].
  { destruct (is_x_reg _) eqn:E; [|by eexists]. apply get_x_safe; auto using read_reg. }
  cbn [mbind option_bind]. destruct (Z.eqb_spec (catch_depth (frame pr)) 0).
  { apply handled_set_state; [done|]. intros. by apply handled_ret. }
  destruct (array_get_Some (catch_stack (frame pr)) (catch_depth (frame pr) - 1)) as [cf Hcf].
  { rewrite (po_catch_len _ Hpo). unfold BEAM_MAX_CATCH_DEPTH in *. lia. }
  rewrite Hcf. unfold upd_frame, upd_proc. rewrite Hp. cbn [mbind option_bind].
  cbn [put_proc procs]. rewrite lookup_insert_eq. cbn [mbind option_bind].
  match goal with |- handled (set_x p 0 exc ?s1 ≫= _) => assert (safe_state s1) as Hs1 end.
  2:{ apply handled_set_x; [done..|]. intros s2 Hs2.
      apply handled_ret; [by apply jump_nonneg|done]. }
  unfold array_get in Hcf. case_match eqn:Hz; [done|]. apply Z.ltb_ge in Hz.
  assert (catch_stack_top cf ∈ stack_tops pr) as Hin.
  { right. apply list_elem_of_fmap. exists cf. split; [done|].
    apply elem_of_take. eexists. split; [exact Hcf|lia]. }
  assert (Hcs : ∀ j cf, (j < Z.to_nat (catch_depth (frame pr) - 1))%nat →
    catch_stack (frame pr) !! j = Some cf → 0 <= catch_stack_top cf <= heap_capacity pr).
  { intros j cf0 Hj. apply (po_catch _ Hpo). lia. }
  assert (Z.to_nat (catch_depth (frame pr) - 1) < Z.to_nat (catch_depth (frame pr)))%nat as Hlt by lia.
  pose proof (po_catch _ Hpo _ _ Hlt Hcf) as Hb.
  unfold put_proc. cbn [procs alc mem mboxes]. rewrite insert_insert_eq.
  fold (put_proc p (set_p_frame (set_fr_catch (catch_stack (frame pr))
    (catch_depth (frame pr) - 1) (catch_ip (frame pr)) (catch_sp (frame pr)) (frame pr))
    (set_p_stack_top (catch_stack_top cf) pr)) s).
  eapply safe_same; try done.
  - eapply good_put_proc; [apply Hs|done| |done..]. intros _.
    destruct Hpo. split; simpl; try done; lia.
  - intros t. unfold stack_tops at 1. simpl. rewrite elem_of_cons. intros [->|Ht]; [done|].
    apply (stack_tops_pop _ (catch_depth (frame pr) - 1) 0 0); [lia|]. right. exact Ht.
Qed.

(** ** Tests, built-ins *)

Lemma handled_test code s lbl ip (b : bool) :
  safe_state s → 0 <= ip →
  handled (Some (if b then CJump (jump_to_label code lbl ip) else CNext, s)).
Proof. intros Hs Hip. apply handled_ret; [|done]. destruct b; [by apply jump_nonneg|done]. Qed.

Lemma op_eq_safe code s ip i :
  safe_state s → 0 <= ip → is_read_reg (arg2 i) && is_read_reg (arg3 i) = true →
  handled (op_test_is_eq_exact code p ip i s) ∧ handled (op_test_is_ne_exact code p ip i s).
Proof.
  intros Hs Hip [H2 H3]%andb_true_iff. unfold op_test_is_eq_exact, op_test_is_ne_exact.
  split; apply handled_get_x; try done; intros x; apply handled_get_x; try done; intros y;
    by apply handled_test.
Qed.

Lemma op_is_list_safe code s ip i :
  safe_state s → 0 <= ip → is_read_reg (arg2 i) = true → handled (op_test_is_list code p ip i s).
Proof.
  intros Hs Hip H2. unfold op_test_is_list. apply handled_get_x; [done..|]. intros x.
  by apply handled_test.
Qed.

Lemma select_scan_total fuel args count k x :
  0 <= k → Z.even k = true → Z.even count = true → count <= Z.of_nat (length args) →
  is_Some (select_scan fuel args count k x).
Proof.
  revert k. induction fuel as [|fuel IH]; intros k Hk Hek Hec Hc; simpl; [by eexists|].
  destruct (Z.ltb_spec k count); [|by eexists].
  assert (k + 1 < count) as Hk1.
  { apply Z.even_spec in Hek as [u ->]. apply Z.even_spec in Hec as [v ->]. lia. }
  destruct (array_get_Some args k) as [key ->]; [lia|]. cbn [mbind option_bind].
  case_match.
  - destruct (array_get_Some args (k + 1)) as [l ->]; [lia|]. by eexists.
  - apply IH; try done; [lia|]. rewrite Z.even_add, Hek. done.
Qed.

Lemma op_select_val_safe code s ip i :
  safe_state s → 0 <= ip →
  match extra_args i with
  | Some args => (extra_count i <? 2) ||
      (is_read_reg (arg1 i) && Z.even (extra_count i) &&
       (extra_count i <=? Z.of_nat (length args)))
  | None => true
  end = true →
  handled (op_select_val code p ip i s).
Proof.
  intros Hs Hip Ha. unfold op_select_val.
  assert (Hend : ∀ t : option Z, handled (Some t ≫= λ target : option Z,
    Some (CJump (jump_to_label code (default (arg2 i) target) ip), s))).
  { intros t. apply handled_ret; [by apply jump_nonneg|done]. }
  destruct (extra_args i) as [args|]; [|by apply Hend]. rewrite Z.geb_leb.
  destruct (Z.leb_spec 2 (extra_count i)); [|by apply Hend].
  destruct (Z.ltb_spec (extra_count i) 2); [lia|]. cbn [orb] in Ha.
  apply andb_true_iff in Ha as [[Hr He]%andb_true_iff Hl%Z.leb_le].
  destruct (get_x_safe s _ Hs Hr) as [x ->]. cbn [mbind option_bind].
  destruct (select_scan_total (Z.to_nat (extra_count i)) args (extra_count i) 0 x)
    as [t ->]; done.
Qed.

Lemma op_call_ext_safe s i :
  safe_state s → negb ((arg1 i =? 4) || (arg1 i =? 5)) = true → handled (op_call_ext p i s).
Proof.
  intros Hs Hb. destruct (safe_proc_ok _ Hs) as (pr & [Hp _ _ _ _] & Hpo & Hnn & _).
  unfold op_call_ext. rewrite Hp. cbn [mbind option_bind].
  rewrite negb_true_iff in Hb. apply orb_false_iff in Hb as [H4 H5].
  assert (Hx : ∀ j, 0 <= j < 256 → is_Some (array_get (x_regs (frame pr)) j)).
  { intros j Hj. apply array_get_Some. by rewrite (po_regs _ Hpo). }
  assert (∃ r out, beam_bif_dispatch (arg1 i) p (x_regs (frame pr)) (s32 (arg2 i)) s =
    Some (Dispatched r out)) as (r & out & ->).
  2:{ cbn [mbind option_bind]. destruct r; try by apply handled_ret.
      destruct out; (apply handled_set_x; [done..|]); intros; by apply handled_ret. }
  unfold beam_bif_dispatch. destruct (Z.eqb_spec p NULL); [done|]. rewrite H4, H5.
  unfold bif_self_0, bif_add_2, bif_sub_2, bif_is_atom_1, beam_process_get_pid.
  destruct (Z.eqb_spec p NULL); [done|]. rewrite Hp. cbn [mbind option_bind].
  destruct (Hx 0) as [x0 E0]; [done|]. destruct (Hx 1) as [x1 E1]; [done|]. rewrite E0, E1.
  pose proof (eterm_to_small_int_range x0) as R0. pose proof (eterm_to_small_int_range x1) as R1.
  cbn [fmap option_fmap option_map mbind option_bind].
  rewrite !s64_checked_small by (unfold small_int_range, is_s64 in *; lia).
  repeat case_match; simpl; by eauto.
Qed.

(** ** One iteration, and the run *)

Lemma exec_instr_safe code s ip i :
  safe_state s → 0 <= ip → safe_instr targets i = true → handled (exec_instr code p ip i s).
Proof.
  intros Hs Hip Hi. unfold safe_instr in Hi.
  apply andb_true_iff in Hi as [[[H1%Z.leb_le H2%Z.leb_le]%andb_true_iff H3%Z.leb_le]%andb_true_iff Hi].
  unfold exec_instr, op_add, op_sub. destruct (opcode_of_value (opcode i)) as [[]|]; try done;
    auto using op_move_safe, op_int_div_safe, op_allocate_safe, op_deallocate_safe, op_call_safe,
      op_call_last_safe, op_return_safe, op_send_safe, op_loop_rec_safe, op_remove_message_safe,
      op_loop_rec_end_safe, op_wait_safe, op_try_safe, op_try_end_safe, op_raise_safe,
      op_is_list_safe, op_select_val_safe, op_call_ext_safe, op_halt_safe;
    try (by apply handled_ret); try (by apply op_eq_safe);
    apply op_arith_safe; auto; unfold small_int_range, is_s64; lia.
Qed.

Lemma emu_step_safe code s ip :
  safe_state s → 0 <= ip < Z.of_nat (length code) → safe_code targets code = true →
  (∀ pr, procs s !! p = Some pr → - 2 ^ 31 < reductions pr < 2 ^ 31) →
  handled (emu_step code p ip s).
Proof.
  intros Hs Hip Hc Hr. unfold emu_step.
  destruct (array_get_Some code ip Hip) as [i Hi]. rewrite Hi. cbn [mbind option_bind].
  destruct (safe_proc_ok _ Hs) as (pr & Hrun & _ & Hnn & _). pose proof Hrun as [Hp Hcp Hip0 _ _].
  specialize (Hr _ Hp). unfold beam_process_consume_reductions, beam_process_get_reductions.
  destruct (Z.eqb_spec p NULL); [done|]. rewrite Hp. cbn [mbind option_bind].
  unfold s32_checked. destruct (_ && _) eqn:E; case_bool; try lia. cbn [mbind option_bind].
  cbn [put_proc procs]. rewrite lookup_insert_eq. cbn [mbind option_bind].
  assert (safe_state (put_proc p (set_p_reductions (reductions pr - 1) pr) s)) as Hs1.
  { eapply safe_same; try done. by apply good_set_reductions; [apply Hs|]. }
  case_match; [apply handled_set_state; [done|]; intros; by apply handled_ret|].
  apply exec_instr_safe; [done|lia|].
  unfold safe_code in Hc. rewrite forallb_forall in Hc. apply Hc.
  unfold array_get in Hi. case_match; [done|].
  apply list_elem_of_In. by eapply list_elem_of_lookup_2.
Qed.

Lemma emu_loop_safe code fuel s ip :
  safe_code targets code = true → safe_state s → 0 <= ip →
  (∀ pr, procs s !! p = Some pr → - 2 ^ 31 < reductions pr < 2 ^ 31) →
  emu_loop fuel code p ip s ≠ OutOfFuel →
  ∃ r out s', emu_loop fuel code p ip s = Returned r out s' ∧ safe_state s'.
Proof.
  intros Hc. revert s ip. induction fuel as [|fuel IH]; intros s ip Hs Hip Hr Hf; cbn [emu_loop] in *.
  all: destruct (Z.ltb_spec ip (Z.of_nat (length code))); [try done|].
  1,3: destruct (get_x_safe s 0 Hs eq_refl) as [x ->];
    destruct (set_ip_safe s ip Hs Hip) as (s' & -> & Hs'); by eauto.
  destruct (emu_step_safe code s ip) as (c & s1 & E & Hctl & Hs1); try done.
  rewrite E in Hf |- *.
  destruct (safe_proc_ok _ Hs) as (pr & [Hp _ _ _ _] & _ & Hnn & _).
  assert (Hr1 : continues c = true →
    ∀ pr, procs s1 !! p = Some pr → - 2 ^ 31 < reductions pr < 2 ^ 31).
  { intros Hk pr1 Hp1. specialize (Hr _ Hp).
    destruct (emu_step_continues _ _ _ _ _ _ _ Hnn Hp E Hk) as (Hlt & _ & pr2 & Hp2 & Hr2).
    simplify_eq. lia. }
  destruct c as [|ip'|r out|]; try done; [| |by eauto].
  - apply IH; auto; lia.
  - apply IH; auto.
Qed.

Lemma entry_proc_cp code pr : 0 <= cp (frame pr) → 0 <= cp (frame (entry_proc code pr)).
Proof.
  unfold entry_proc. case_match; [|done]. intros _. simpl.
  pose proof (u32_range (Z.of_nat (length code))) as Hu. unfold is_u32 in Hu. lia.
Qed.

Lemma entry_safe code s pr :
  safe_state s → procs s !! p = Some pr → safe_state (put_proc p (entry_proc code pr) s).
Proof.
  intros Hs Hp. destruct (safe_proc_ok _ Hs) as (pr0 & Hrun & _). pose proof Hrun as [Hp0 Hcp Hip _ _].
  assert (pr0 = pr) as -> by congruence.
  destruct (entry_proc_same code pr) as (E1 & E2 & E3 & E4 & E5).
  apply (safe_same s _ pr (entry_proc code pr)); try done.
  - eapply good_put_proc; [apply Hs|done|apply entry_proc_ok|done..].
  - intros t. unfold stack_tops, entry_proc. by case_match.
  - by apply entry_proc_cp.
  - by rewrite E4.
Qed.

Lemma execute_safe code s :
  safe_state s → safe_code targets code = true →
  (∀ pr, procs s !! p = Some pr → - 2 ^ 31 < reductions pr < 2 ^ 31) →
  ∃ r out s', beam_emu_execute_code p code s = Returned r out s' ∧ safe_state s'.
Proof.
  intros Hs Hc Hr. pose proof (execute_fuel p code s) as Hf. unfold beam_emu_execute_code in *.
  destruct (_ || _); [by eauto|].
  destruct (safe_proc_ok _ Hs) as (pr & Hrun & Hpo & Hnn & _). pose proof Hrun as [Hp Hcp Hip _ _].
  rewrite Hp in Hf |- *. fold (entry_proc code pr) in Hf |- *.
  destruct (entry_proc_same code pr) as (E1 & E2 & E3 & E4 & E5).
  apply emu_loop_safe; [done| |done| |done].
  - by apply entry_safe.
  - intros pr' Hp'. cbn [put_proc procs] in Hp'. rewrite lookup_insert_eq in Hp'.
    injection Hp' as <-. rewrite E5. by apply Hr.
Qed.

End Safe.

(** ** The interface: processes that can be run *)

Section Runnable.
Context {A : Type} `{AllocSpec A}.
Implicit Types (s : vm A) (code : list beam_instruction).

(** The machine is well formed, the words of the stack of [p] are initialised
    up to every top execution can come back to, and the processes it may send
    to exist. *)
Definition runnable (p : Z) (targets : gset Z) s : Prop :=
  ∃ h cap, safe_state p targets h cap (mem s) s.

Lemma runnable_intro p targets s B own pr :
  vm_ok s B own → procs s !! p = Some pr → 0 <= cp (frame pr) → 0 <= ip (frame pr) →
  stack_init (mem s) pr → (∀ t, t ∈ targets → is_Some (procs s !! t)) → runnable p targets s.
Proof.
  intros Hok Hp Hcp Hip Hi Ht. exists (heap pr), (heap_capacity pr).
  split; [exists B, own; by split| |done|done]. exists pr. by split.
Qed.

(** A process with an empty stack and no catch frame. *)
Lemma idle_runnable p targets s B own pr :
  vm_ok s B own → procs s !! p = Some pr → stack_top pr = heap_capacity pr →
  catch_depth (frame pr) = 0 → 0 <= cp (frame pr) → 0 <= ip (frame pr) →
  (∀ t, t ∈ targets → is_Some (procs s !! t)) → runnable p targets s.
Proof.
  intros Hok Hp Htop Hd Hcp Hip Ht. eapply runnable_intro; try done.
  intros t i Hin Hti. unfold stack_tops in Hin.
  rewrite Hd, Htop in Hin. simpl in Hin. apply list_elem_of_singleton in Hin as ->. lia.
Qed.

Lemma runnable_proc p targets s :
  runnable p targets s → ∃ B own pr, vm_ok s B own ∧ procs s !! p = Some pr ∧
    0 <= cp (frame pr) ∧ 0 <= ip (frame pr) ∧ stack_init (mem s) pr ∧
    (∀ t, t ∈ targets → is_Some (procs s !! t)).
Proof.
  intros (h & cap & [(B & own & Hok & _) [pr [Hp Hcp Hip Hi _]] Ht _]). by exists B, own, pr.
Qed.

(** Only the memory of the heap of [p] changes. *)
Definition mem_only (p : Z) s s' : Prop :=
  ∀ pr a, procs s !! p = Some pr → in_block (heap pr) (heap_capacity pr) a = false →
    mem s' !! a = mem s !! a.

Lemma safe_runnable p targets h cap m0 s : safe_state p targets h cap m0 s → runnable p targets s.
Proof. intros [? ? ? _]. exists h, cap. by split. Qed.

Lemma execute_runnable p targets code s :
  runnable p targets s → safe_code targets code = true →
  (∀ pr, procs s !! p = Some pr → - 2 ^ 31 < reductions pr < 2 ^ 31) →
  ∃ r out s', beam_emu_execute_code p code s = Returned r out s' ∧ runnable p targets s' ∧
    only p s s' ∧ mem_only p s s'.
Proof.
  intros (h & cap & Hs) Hc Hr.
  destruct (execute_safe _ _ _ _ _ code s Hs Hc Hr) as (r & out & s' & E & Hs').
  exists r, out, s'. split; [done|]. split; [by eapply safe_runnable|]. split.
  - destruct (sf_good _ _ _ _ _ _ Hs) as (B & own & Hok & _). by eapply execute_ok.
  - intros pr a Hp Ha. apply (sf_frame _ _ _ _ _ _ Hs').
    destruct (sf_proc _ _ _ _ _ _ Hs) as (pr0 & [Hp0 _ _ _ [<- <-]]). by simplify_eq.
Qed.
End Runnable.

(** C1: Type safety and isolation of the interpreter: code that passes the
    static check (any instruction but those that follow a pointer in a register,
    multiply, or allocate closures; register operands of the tests in range;
    sends only to existing processes) always runs to an answer.  From a
    well-formed state the run neither leaves defined behaviour nor hangs nor
    exceeds the fuel, it leaves a state from which the process can be run again,
    no other process control block changes, and no word of memory outside the
    process's own heap. *)
Theorem safe_code_returns {A} `{AllocSpec A} p targets code (s : vm A) :
  runnable p targets s → safe_code targets code = true →
  (∀ pr, procs s !! p = Some pr → - 2 ^ 31 < reductions pr < 2 ^ 31) →
  ∃ r out s', beam_emu_execute_code p code s = Returned r out s' ∧
    runnable p targets s' ∧ only p s s' ∧ mem_only p s s'.
Proof. apply execute_runnable. Qed.

(** ** Examples *)

Definition simple_instr (op : beam_opcode_t) (a1 a2 a3 lit : Z) : beam_instruction :=
  {| opcode := opcode_value op; arg1 := a1; arg2 := a2; arg3 := a3; literal := lit;
     target_proc := NULL; extra_args := None; extra_count := 0 |}.

(** A loop that pushes a frame for ever. *)
Definition demo_loop : list beam_instruction :=
  [simple_instr BEAM_OP_LABEL 1 0 0 0; simple_instr BEAM_OP_ALLOCATE 1 0 0 0;
   simple_instr BEAM_OP_CALL 0 0 0 0].

Lemma demo_runnable : runnable demo_p ∅ demo_vm.
Proof.
  destruct demo_vm_ok as (B & own & Hok).
  eapply idle_runnable; [exact Hok|exact demo_vm_proc|done..|]. intros t Ht. set_solver.
Qed.

Lemma safe_code_returns_witness :
  ∃ r out s', beam_emu_execute_code demo_p demo_loop demo_vm = Returned r out s' ∧
    runnable demo_p ∅ s' ∧ only demo_p demo_vm s' ∧ mem_only demo_p demo_vm s'.
Proof.
  apply (safe_code_returns demo_p ∅ demo_loop demo_vm demo_runnable); [reflexivity|].
  intros pr. rewrite demo_vm_proc. intros [= <-]. split; reflexivity.
Defined.
