(* ===== verification/EmuProps.v ===== *)
(** What the instructions promise to the code that uses them: stack frames,
    exceptions, and time slices (src/emulator/beam_emu.c). *)
From S2P Require Import Prelude Memory Term Alloc LinkedList Mailbox Process ProcessInv Bif Emu.
From S2P Require Import EmuFrame EmuInv EmuExec Demo EmuSafe.
From stdpp Require Import options.

Section EmuProps.
Context {A : Type} `{AllocSpec A}.
Implicit Types (s : vm A) (i : beam_instruction) (code : list beam_instruction).

(** ** Stack frames *)

Lemma put_proc_id p pr s : procs s !! p = Some pr → put_proc p pr s = s.
Proof. intros Hp. destruct s. unfold put_proc. simpl in *. by rewrite insert_id. Qed.

Lemma put_proc_twice p pr pr' s : put_proc p pr' (put_proc p pr s) = put_proc p pr' s.
Proof. unfold put_proc. simpl. by rewrite insert_insert_eq. Qed.

Lemma set_stack_top_id pr : set_p_stack_top (stack_top pr) pr = pr.
Proof. by destruct pr. Qed.

Lemma set_mem_id s : set_mem (mem s) s = s.
Proof. by destruct s. Qed.

(** Only the words [lo, hi) of the heap block [h] differ. *)
Definition words_changed (h lo hi : Z) (m m' : memory) : Prop :=
  ∀ a, (∀ k, lo <= k < hi → a ≠ word_at h k) → m' !! a = m !! a.

Lemma push_zeros_spec n s B own p pr :
  vm_ok s B own → procs s !! p = Some pr → Z.of_nat n <= stack_top pr - heap_top pr →
  ∃ m, push_zeros n p s =
      Some (BEAM_OK, put_proc p (set_p_stack_top (stack_top pr - Z.of_nat n) pr) (set_mem m s)) ∧
    (∀ j, stack_top pr - Z.of_nat n <= j < stack_top pr → load m (word_at (heap pr) j) = Some 0) ∧
    words_changed (heap pr) (stack_top pr - Z.of_nat n) (stack_top pr) (mem s) m.
Proof.
  revert s pr. induction n as [|n IH]; intros s pr Hok Hp Hn.
  { exists (mem s). simpl. rewrite Z.sub_0_r, set_stack_top_id, set_mem_id, put_proc_id by done.
    split_and!; [done|lia|done]. }
  pose proof (stack_push_spec s B own p pr 0 Hok Hp) as Hpush.
  destruct (Z.leb_spec (stack_top pr) (heap_top pr)); [lia|].
  destruct Hpush as (m & E & Hst & Hok1).
  set (pr1 := set_p_stack_top (stack_top pr - 1) pr) in *.
  destruct (IH _ pr1 Hok1 (lookup_insert_eq _ _ _)) as (m2 & E2 & Hz & Hw); [simpl; lia|].
  cbn [push_zeros]. rewrite E. cbn [mbind option_bind].
  change (result_is_ok BEAM_OK) with true. cbn iota. rewrite E2. exists m2. simpl in Hz, Hw.
  assert (stack_top pr - 1 - Z.of_nat n = stack_top pr - Z.of_nat (S n)) as Et by lia.
  split_and!.
  - do 2 f_equal. unfold put_proc, set_mem. simpl. rewrite insert_insert_eq, Et. done.
  - intros j Hj. rewrite Et in Hz. destruct (decide (j = stack_top pr - 1)) as [->|].
    + apply load_store_eq in Hst. rewrite <-Hst. unfold load. rewrite Hw; [done|].
      intros k Hk Heq. apply word_at_inj in Heq. lia.
    + apply Hz. lia.
  - intros a Ha. rewrite Hw by (intros k Hk; apply Ha; lia).
    apply store_Some in Hst as [_ ->]. apply lookup_insert_ne, not_eq_sym, Ha. lia.
Qed.

(** A pop of an initialised word. *)
Lemma stack_pop_top s p pr w :
  p ≠ NULL → procs s !! p = Some pr → heap pr ≠ NULL → stack_top pr < heap_capacity pr →
  load (mem s) (word_at (heap pr) (stack_top pr)) = Some w →
  beam_process_stack_pop p s =
    Some (BEAM_OK, Some w, put_proc p (set_p_stack_top (stack_top pr + 1) pr) s).
Proof.
  intros Hnn Hp Hh Ht Hw. unfold beam_process_stack_pop.
  destruct (Z.eqb_spec p NULL); [done|]. rewrite Hp. cbn [mbind option_bind].
  destruct (Z.eqb_spec (heap pr) NULL); [done|]. rewrite Z.geb_leb.
  destruct (Z.leb_spec (heap_capacity pr) (stack_top pr)); [lia|]. by rewrite Hw.
Qed.

Lemma pop_words_spec n s p pr :
  p ≠ NULL → procs s !! p = Some pr → heap pr ≠ NULL →
  stack_top pr + Z.of_nat n <= heap_capacity pr →
  (∀ j, stack_top pr <= j < stack_top pr + Z.of_nat n →
     is_Some (load (mem s) (word_at (heap pr) j))) →
  pop_words n p s =
    Some (BEAM_OK, put_proc p (set_p_stack_top (stack_top pr + Z.of_nat n) pr) s).
Proof.
  intros Hnn. revert s pr. induction n as [|n IH]; intros s pr Hp Hh Hc Hi.
  { simpl. by rewrite Z.add_0_r, set_stack_top_id, put_proc_id. }
  destruct (Hi (stack_top pr)) as [w Hw]; [lia|]. cbn [pop_words].
  rewrite (stack_pop_top _ _ _ w) by (done || lia). cbn [mbind option_bind].
  change (result_is_ok BEAM_OK) with true. cbn iota.
  rewrite (IH _ (set_p_stack_top (stack_top pr + 1) pr)); simpl.
  - rewrite put_proc_twice. do 3 f_equal. unfold set_p_stack_top. simpl. f_equal. lia.
  - apply lookup_insert_eq.
  - done.
  - lia.
  - intros j Hj. apply Hi. lia.
Qed.

(** Popping the frame of ALLOCATE, whatever the continuation pointer is now. *)
Lemma drop_frame_spec s p pr n saved :
  p ≠ NULL → procs s !! p = Some pr → heap pr ≠ NULL → 0 <= n →
  stack_top pr + n + 1 <= heap_capacity pr →
  (∀ j, stack_top pr <= j < stack_top pr + n → is_Some (load (mem s) (word_at (heap pr) j))) →
  load (mem s) (word_at (heap pr) (stack_top pr + n)) = Some saved → is_u32 saved →
  drop_frame n p s = Some (BEAM_OK,
    put_proc p (set_p_frame (set_fr_cp saved (frame pr))
                  (set_p_stack_top (stack_top pr + n + 1) pr)) s).
Proof.
  intros Hnn Hp Hh Hn Hc Hi Hw Hs. unfold drop_frame.
  rewrite (pop_words_spec _ _ _ pr) by (rewrite ?Z2Nat.id by done; done || lia).
  rewrite Z2Nat.id by done. cbn [mbind option_bind].
  change (negb (result_is_ok BEAM_OK)) with false. cbn iota.
  rewrite (stack_pop_top _ _ (set_p_stack_top (stack_top pr + n) pr) saved);
    [|done|apply lookup_insert_eq|done|simpl; lia|done].
  cbn [mbind option_bind]. change (negb (result_is_ok BEAM_OK)) with false. cbn iota.
  unfold upd_frame, upd_proc. cbn [put_proc procs]. rewrite lookup_insert_eq.
  cbn [mbind option_bind]. rewrite u32_small by done.
  do 2 f_equal. unfold put_proc. simpl. by rewrite !insert_insert_eq.
Qed.

Lemma frame_back pr t1 t2 t3 c :
  t3 = stack_top pr →
  pr = set_p_frame (set_fr_cp (cp (frame pr)) (set_fr_cp c (frame pr)))
         (set_p_stack_top t3 (set_p_frame (set_fr_cp c (frame pr))
           (set_p_stack_top t2 (set_p_stack_top t1 pr)))).
Proof. intros ->. by destruct pr as [? ? ? ? ? ? ? ? ? []]. Qed.

(** C12: Stack frames: when [n + 1] words fit, ALLOCATE [n] succeeds, and
    whatever the continuation pointer has become since (a nested CALL replaces
    it), DEALLOCATE [n] restores it and the stack, so that RETURN continues
    where the function was called from; outside the frame no word of memory
    changes, and inside it the Y registers start at zero. *)
Theorem frame_roundtrip s B own p pr n i j :
  vm_ok s B own → procs s !! p = Some pr → is_u32 (cp (frame pr)) →
  arg1 i = n → arg1 j = n → 0 <= n → n + 1 <= stack_top pr - heap_top pr →
  ∃ s1, op_allocate p i s = Some (CNext, s1) ∧
    (∀ k, stack_top pr - 1 - n <= k < stack_top pr - 1 →
       load (mem s1) (word_at (heap pr) k) = Some 0) ∧
    words_changed (heap pr) (stack_top pr - 1 - n) (stack_top pr) (mem s) (mem s1) ∧
    ∀ c s1', upd_frame p (set_fr_cp c) s1 = Some s1' →
      ∃ s2, op_deallocate p j s1' = Some (CNext, s2) ∧ procs s2 = procs s ∧ mem s2 = mem s1 ∧
        op_return p s2 = Some (CJump (cp (frame pr)), s2).
Proof.
  intros Hok Hp Hcp Hi Hj Hn Hroom.
  pose proof (stack_push_spec s B own p pr (cp (frame pr)) Hok Hp) as Hpush.
  destruct (Z.leb_spec (stack_top pr) (heap_top pr)); [lia|].
  destruct Hpush as (m & E & Hst & Hok1).
  set (pr1 := set_p_stack_top (stack_top pr - 1) pr) in *.
  destruct (push_zeros_spec (Z.to_nat n) _ B own p pr1 Hok1 (lookup_insert_eq _ _ _))
    as (m2 & E2 & Hz & Hw); [simpl; lia|]. simpl in Hz, Hw. rewrite Z2Nat.id in E2, Hz, Hw by done.
  assert (load m2 (word_at (heap pr) (stack_top pr - 1)) = Some (cp (frame pr))) as Hsaved.
  { apply load_store_eq in Hst. rewrite <-Hst. unfold load. rewrite Hw; [done|].
    intros k Hk Heq. apply word_at_inj in Heq. lia. }
  eexists. split_and!.
  - unfold op_allocate. rewrite Hp. cbn [mbind option_bind]. rewrite E. cbn [mbind option_bind].
    change (negb (result_is_ok BEAM_OK)) with false. cbn iota. rewrite Hi, E2. reflexivity.
  - exact Hz.
  - intros a Ha. cbn [mem put_proc set_mem]. rewrite Hw by (intros k Hk; apply Ha; lia).
    apply store_Some in Hst as [_ ->]. apply lookup_insert_ne, not_eq_sym, Ha. lia.
  - intros c s1' Hu. unfold upd_frame, upd_proc in Hu. cbn [put_proc procs] in Hu.
    rewrite lookup_insert_eq in Hu. injection Hu as <-.
    destruct (vo_proc _ _ _ Hok _ _ Hp) as (Hnn & Hpo & _).
    pose proof (vm_ok_heap_nonnull _ _ _ _ _ Hok Hp). pose proof (po_stack _ Hpo).
    eexists. split; [|split; [|split]].
    + unfold op_deallocate. rewrite Hj.
      erewrite (drop_frame_spec _ _ _ n (cp (frame pr))); [reflexivity|done|apply lookup_insert_eq
        |done|done|simpl; lia| |simpl; by replace (stack_top pr - 1 - n + n) with (stack_top pr - 1) by lia|done].
      intros k Hk. simpl in *. exists 0. apply Hz. lia.
    + cbn [put_proc procs set_mem]. rewrite !insert_insert_eq. apply insert_id.
      rewrite Hp. f_equal. apply frame_back. simpl. lia.
    + done.
    + unfold op_return. cbn [put_proc procs]. by rewrite lookup_insert_eq.
Qed.

(** ** Exceptions *)

Lemma jump_to_label_found code lbl ip k i :
  code !! k = Some i → opcode i = opcode_value BEAM_OP_LABEL → arg1 i = lbl →
  (∀ j i', (j < k)%nat → code !! j = Some i' →
     ¬ (opcode i' = opcode_value BEAM_OP_LABEL ∧ arg1 i' = lbl)) →
  jump_to_label code lbl ip = Z.of_nat k.
Proof.
  unfold jump_to_label. intros Hk Ho Hl Hb. rewrite <-(Z.add_0_l (Z.of_nat k)).
  generalize 0. revert k Hk Hb. induction code as [|i0 code IH]; intros k Hk Hb z; [done|].
  cbn [scan_label]. destruct k as [|k].
  - injection Hk as ->. rewrite Ho, Hl, !Z.eqb_refl. simpl. lia.
  - destruct (_ && _) eqn:E.
    + apply andb_true_iff in E as [?%Z.eqb_eq ?%Z.eqb_eq]. destruct (Hb 0%nat i0); [lia|done..].
    + rewrite (IH k Hk); [lia|]. intros j i' Hj. by apply (Hb (S j)); lia.
Qed.

(** C13: Exceptions: after TRY, whatever the code in between did to the
    registers, the stack and the continuation pointer, a RAISE that finds the
    catch frame still innermost jumps to the first instruction with the catch
    label, with the stack as deep as it was at TRY, the exception term in X0 and
    one catch frame less.  The continuation pointer is the one at the RAISE: the
    one TRY saved in the catch frame is never restored. *)
Theorem raise_unwinds s p pr i s1 pr1 code k lbl ip j s2 pr2 :
  procs s !! p = Some pr → proc_ok pr → op_try p i s = Some (CNext, s1) →
  procs s1 !! p = Some pr1 →
  procs s2 !! p = Some pr2 → catch_stack (frame pr2) = catch_stack (frame pr1) →
  catch_depth (frame pr2) = catch_depth (frame pr1) →
  length (x_regs (frame pr2)) = Z.to_nat BEAM_NUM_X_REGISTERS → is_read_reg (arg1 j) = true →
  code !! k = Some lbl → opcode lbl = opcode_value BEAM_OP_LABEL → arg1 lbl = arg1 i →
  (∀ n i', (n < k)%nat → code !! n = Some i' →
     ¬ (opcode i' = opcode_value BEAM_OP_LABEL ∧ arg1 i' = arg1 i)) →
  ∃ exc s3 pr3, get_x p (arg1 j) s2 = Some exc ∧
    op_raise code p ip j s2 = Some (CJump (Z.of_nat k), s3) ∧ procs s3 !! p = Some pr3 ∧
    stack_top pr3 = stack_top pr ∧ catch_depth (frame pr3) = catch_depth (frame pr) ∧
    get_x p 0 s3 = Some exc ∧ cp (frame pr3) = cp (frame pr2) ∧ mem s3 = mem s2 ∧
    (∀ q, q ≠ p → procs s3 !! q = procs s2 !! q).
Proof.
  intros Hp Hpo Ht Hp1 Hp2 Hcs Hd Hx Hj Hk Hko Hkl Hkf.
  (* TRY *)
  unfold op_try in Ht. rewrite Hp in Ht. cbn [mbind option_bind] in Ht.
  case_match; [done|]. apply bind_Some in Ht as (cs & Ecs & Ht).
  unfold upd_frame, upd_proc in Ht. rewrite Hp in Ht. injection Ht as <-.
  cbn [put_proc procs] in Hp1. rewrite lookup_insert_eq in Hp1. injection Hp1 as <-.
  cbn [frame set_p_frame set_fr_catch catch_stack catch_depth] in Hcs, Hd.
  pose proof (po_depth _ Hpo).
  (* RAISE *)
  unfold is_read_reg in Hj. apply andb_true_iff in Hj as [?%Z.leb_le Hj].
  destruct (array_get_Some (x_regs (frame pr2)) (arg1 j)) as [exc Hexc].
  { rewrite Hx. apply Z.ltb_lt in Hj. unfold BEAM_NUM_X_REGISTERS in *. lia. }
  assert (get_x p (arg1 j) s2 = Some exc) as Hget by (unfold get_x; by rewrite Hp2).
  assert (array_set (x_regs (frame pr2)) 0 exc = Some (<[0%nat := exc]> (x_regs (frame pr2)))) as E0.
  { apply array_set_Some. rewrite Hx. done. }
  eexists exc, _, _. split; [done|]. unfold op_raise. rewrite Hp2. cbn [mbind option_bind].
  unfold is_x_reg. rewrite Hj, Hget. cbn [mbind option_bind]. rewrite Hd, Hcs.
  destruct (Z.eqb_spec (catch_depth (frame pr) + 1) 0); [lia|].
  replace (catch_depth (frame pr) + 1 - 1) with (catch_depth (frame pr)) by lia.
  rewrite (array_set_get_eq _ _ _ _ Ecs). cbn [mbind option_bind].
  unfold upd_frame, upd_proc, set_x. rewrite Hp2. cbn [mbind option_bind].
  do 3 (cbn [put_proc procs mbind option_bind]; rewrite ?lookup_insert_eq).
  cbn [mbind option_bind frame set_p_frame set_fr_catch x_regs set_p_stack_top].
  rewrite E0. cbn [mbind option_bind]. cbn [catch_label].
  rewrite (jump_to_label_found _ _ _ _ _ Hk Hko Hkl Hkf).
  split; [reflexivity|]. cbn [put_proc procs mem]. split; [apply lookup_insert_eq|].
  split_and!; try done.
  - unfold get_x. cbn [put_proc procs]. rewrite lookup_insert_eq. cbn [mbind option_bind].
    apply (array_set_get_eq _ _ _ _ E0).
  - intros q Hq. by rewrite !lookup_insert_ne.
Qed.

(** ** Time slices *)

Lemma slice_ip p code s r s' pr pr' :
  p ≠ NULL → procs s !! p = Some pr → beam_emu_execute_code p code s = Returned r None s' →
  procs s' !! p = Some pr' → state pr' ≠ BEAM_PROC_STATE_WAITING →
  ip (frame pr') = ip (frame pr).
Proof.
  intros Hnn Hp Hx Hp' Hw. destruct (execute_entry _ _ _ _ _ _ Hx)
    as [(_ & _ & -> & _)|(_ & _ & pr0 & Hp0 & Hl)]; [congruence|].
  assert (pr0 = pr) as -> by congruence.
  destruct (entry_proc_same code pr) as (_ & _ & _ & Eip & _).
  set (P := λ (_ : Z) s1, ∃ pr1, procs s1 !! p = Some pr1 ∧ ip (frame pr1) = ip (frame pr)).
  set (Q := λ (_ : beam_result_t) (out : option Z) s1, ∀ pr1, procs s1 !! p = Some pr1 →
    out = None → state pr1 ≠ BEAM_PROC_STATE_WAITING → ip (frame pr1) = ip (frame pr)).
  refine (emu_loop_inv code p P Q _ _ _ _ _ _ _ _ _ Hl _ Hp' eq_refl Hw).
  - intros ip0 s1 c s2 (pr1 & Hp1 & E1) Hs.
    destruct (emu_step_pay _ _ _ _ _ _ _ Hnn Hp1 Hs) as (i & Hi & Hpay). cbn zeta in Hpay.
    set (s1' := put_proc p (set_p_reductions (reductions pr1 - 1) pr1) s1) in *.
    destruct (reductions pr1 - 1 <=? 0).
    { destruct Hpay as [-> ->]. cbn [continues]. intros pr2 Hp2 _ _.
      cbn [put_proc procs] in Hp2. rewrite lookup_insert_eq in Hp2. by injection Hp2 as <-. }
    destruct (decide (opcode_of_value (opcode i) = Some BEAM_OP_WAIT)) as [Ew|Ew].
    { unfold exec_instr in Hpay. rewrite Ew in Hpay. unfold op_wait in Hpay.
      unfold upd_frame, upd_proc, beam_process_set_state, s1' in Hpay. cbn [put_proc procs] in Hpay.
      rewrite lookup_insert_eq in Hpay. cbn [mbind option_bind] in Hpay.
      destruct (Z.eqb_spec p NULL); [done|]. unfold upd_proc in Hpay. cbn [put_proc procs] in Hpay.
      rewrite lookup_insert_eq in Hpay. injection Hpay as <- <-. cbn [continues].
      intros pr2 Hp2 _ Hst. cbn [put_proc procs] in Hp2. rewrite lookup_insert_eq in Hp2.
      by injection Hp2 as <-. }
    destruct (exec_instr_touches _ _ _ _ _ _ _ Hpay Ew) as [_ Ht].
    assert (∃ pr2, procs s2 !! p = Some pr2 ∧ ip (frame pr2) = ip (frame pr)) as (pr2 & Hp2 & E2).
    { unfold s1' in Ht. cbn [put_proc procs] in Ht. rewrite lookup_insert_eq in Ht.
      inversion Ht as [? pr2 Hk E2 E3|]; subst. exists pr2. split; [done|].
      rewrite (kp_ip _ _ Hk). done. }
    destruct c; simpl; unfold P, Q; try done; try (by exists pr2).
    intros pr3 Hp3 _ _. congruence.
  - intros ip0 s1 x s2 _ _ _ pr1 _ Ho. done.
  - exists (entry_proc code pr). split; [apply lookup_insert_eq|done].
Qed.

(** Instructions that only go on to the next one. *)
Definition straight (i : beam_instruction) : bool :=
  match opcode_of_value (opcode i) with
  | Some BEAM_OP_LABEL | Some BEAM_OP_MOVE | Some BEAM_OP_ADD | Some BEAM_OP_SUB => true
  | _ => false
  end.

Lemma straight_next code p ip i s c s' :
  straight i = true → exec_instr code p ip i s = Some (c, s') →
  c = CNext ∧ opcode_of_value (opcode i) ≠ Some BEAM_OP_WAIT.
Proof.
  unfold straight, exec_instr. destruct (opcode_of_value (opcode i)) as [[]|]; try done;
    unfold op_move, op_add, op_sub, op_arith; intros _ Hx; (split; [|done]); open_instr; done.
Qed.

(** The next [n] instructions from [ip0] are straight. *)
Definition straight_block code (ip0 n : Z) : Prop :=
  0 <= ip0 ∧ ip0 + n <= Z.of_nat (length code) ∧
  ∀ k i, ip0 <= k < ip0 + n → array_get code k = Some i → straight i = true.

Lemma straight_loop p targets h cap m0 code n fuel ip0 s pr :
  safe_state p targets h cap m0 s → safe_code targets code = true →
  straight_block code ip0 (reductions pr) →
  procs s !! p = Some pr → reductions pr = Z.of_nat n + 1 → reductions pr < 2 ^ 31 →
  (n < fuel)%nat →
  ∃ s' pr', emu_loop fuel code p ip0 s = Returned BEAM_OK None s' ∧ safe_state p targets h cap m0 s' ∧
    procs s' !! p = Some pr' ∧ state pr' = BEAM_PROC_STATE_RUNNABLE ∧
    ip (frame pr') = ip (frame pr).
Proof.
  revert fuel ip0 s pr. induction n as [|n IH]; intros fuel ip0 s pr Hs Hc (Hip & Hlen & Hst) Hp Hr Hmax Hf;
    (destruct fuel as [|fuel]; [lia|]); cbn [emu_loop];
    destruct (Z.ltb_spec ip0 (Z.of_nat (length code))); try lia.
  all: destruct (emu_step_safe p targets h cap m0 code s ip0 Hs (conj Hip H1) Hc) as (c & s1 & E & _ & Hs1);
    [intros pr0 Hp0; assert (pr0 = pr) as -> by congruence; lia|].
  all: destruct (safe_proc_ok _ _ _ _ _ _ Hs) as (_ & _ & _ & Hnn & _).
  all: destruct (emu_step_pay _ _ _ _ _ _ _ Hnn Hp E) as (i & Hi & Hpay); cbn zeta in Hpay.
  all: rewrite E; destruct (Z.leb_spec (reductions pr - 1) 0); try lia.
  - destruct Hpay as [-> ->]. eexists _, _. split; [done|]. split; [done|].
    split; [apply lookup_insert_eq|done].
  - assert (straight i = true) as Hsi by (apply (Hst ip0); [lia|done]).
    destruct (straight_next _ _ _ _ _ _ _ Hsi Hpay) as [-> Hw].
    destruct (exec_instr_touches _ _ _ _ _ _ _ Hpay Hw) as [_ Ht].
    cbn [put_proc procs] in Ht. rewrite lookup_insert_eq in Ht.
    inversion Ht as [? pr1 Hk E1 E2|]; subst. symmetry in E2.
    pose proof (kp_reductions _ _ Hk) as Hr1. pose proof (kp_ip _ _ Hk) as Hip1. simpl in Hr1, Hip1.
    destruct (IH fuel (ip0 + 1) s1 pr1) as (s' & pr' & El & Hs' & Hp' & Hst' & Hip'); try done; try lia.
    { split; [lia|]. split; [lia|]. intros k j Hkj. apply Hst. lia. }
    exists s', pr'. split_and!; try done. congruence.
Qed.

(** One slice of a block longer than the budget. *)
Lemma straight_slice p targets code s pr :
  runnable p targets s → safe_code targets code = true →
  straight_block code (ip (frame pr)) (reductions pr) →
  procs s !! p = Some pr → 0 < reductions pr < 2 ^ 31 →
  ∃ s' pr', beam_emu_execute_code p code s = Returned BEAM_OK None s' ∧ runnable p targets s' ∧
    procs s' !! p = Some pr' ∧ state pr' = BEAM_PROC_STATE_RUNNABLE ∧
    ip (frame pr') = ip (frame pr).
Proof.
  intros Hs Hc Hst Hp Hr. pose proof Hst as (Hip0 & Hlen & _).
  destruct Hs as (h & cap & Hs).
  destruct (safe_proc_ok _ _ _ _ _ _ Hs) as (pr0 & Hrun & _ & Hnn & _).
  pose proof Hrun as [Hp0 _ Hip _ _]. assert (pr0 = pr) as -> by congruence.
  destruct (entry_proc_same code pr) as (_ & _ & _ & E4 & E5).
  unfold beam_emu_execute_code. destruct (Z.eqb_spec p NULL); [done|].
  destruct (Z.eqb_spec (Z.of_nat (length code)) 0); [lia|]. cbn [orb]. rewrite Hp.
  fold (entry_proc code pr). rewrite <-E4.
  destruct (straight_loop p targets h cap (mem s) code (Z.to_nat (reductions pr - 1))
    (emu_fuel (entry_proc code pr)) (ip (frame (entry_proc code pr)))
    (put_proc p (entry_proc code pr) s) (entry_proc code pr))
    as (s' & pr' & El & Hs' & Hp' & Hst' & Hip'); try done.
  - by apply entry_safe.
  - by rewrite E4, E5.
  - apply lookup_insert_eq.
  - lia.
  - lia.
  - unfold emu_fuel. lia.
  - exists s', pr'. split; [exact El|]. split; [by eapply safe_runnable|done].
Qed.

Lemma set_reductions_eq p r s pr :
  p ≠ NULL → procs s !! p = Some pr →
  beam_process_set_reductions p r s = Some (put_proc p (set_p_reductions r pr) s).
Proof.
  intros Hnn Hp. unfold beam_process_set_reductions, upd_proc.
  destruct (Z.eqb_spec p NULL); [done|]. by rewrite Hp.
Qed.

Lemma runnable_set_reductions p targets r s pr :
  runnable p targets s → procs s !! p = Some pr →
  runnable p targets (put_proc p (set_p_reductions r pr) s).
Proof.
  intros (h & cap & Hs) Hp. destruct (safe_proc_ok _ _ _ _ _ _ Hs) as (pr0 & Hrun & _).
  pose proof Hrun as [Hp0 ? ? _ _]. assert (pr0 = pr) as -> by congruence.
  eapply safe_runnable, safe_same; try done. by apply good_set_reductions; [apply Hs|].
Qed.

(** The slices a scheduler gives a process: a run, then the budget is reset. *)
Fixpoint run_slices (n : nat) (p : Z) code s : option (vm A) :=
  match n with
  | O => Some s
  | S n' =>
      match beam_emu_execute_code p code s with
      | Returned _ _ s => s ← beam_process_set_reductions p BEAM_DEFAULT_REDUCTIONS s; run_slices n' p code s
      | _ => None
      end
  end.

(** C34: Preemption loses the instruction pointer: it is stored when a process
    waits or runs off the end of the code, not when the budget is spent.  A
    process with a full budget whose instruction pointer is at the start of 4000
    instructions that only go on to the next one (LABEL, MOVE, ADD, SUB), in any
    code that passes the static check, is given slice after slice, and after any
    number of them it is runnable again with its instruction pointer where it
    was: it never gets past the block. *)
Theorem long_block_never_completes p targets code n s pr :
  runnable p targets s → safe_code targets code = true → procs s !! p = Some pr →
  reductions pr = BEAM_DEFAULT_REDUCTIONS →
  straight_block code (ip (frame pr)) BEAM_DEFAULT_REDUCTIONS →
  ∃ s' pr', run_slices (S n) p code s = Some s' ∧ procs s' !! p = Some pr' ∧
    state pr' = BEAM_PROC_STATE_RUNNABLE ∧ ip (frame pr') = ip (frame pr) ∧
    reductions pr' = BEAM_DEFAULT_REDUCTIONS.
Proof.
  intros Hs Hc. revert s pr Hs. induction n as [|n IH]; intros s pr Hs Hp Hr Hst.
  all: destruct (straight_slice p targets code s pr Hs Hc) as (s1 & pr1 & E & Hs1 & Hp1 & Hrun1 & Hip1);
    [by rewrite Hr|done|by rewrite Hr|].
  all: cbn [run_slices]; rewrite E.
  all: assert (p ≠ NULL) as Hnn by (destruct Hs as (h & cap & Hs); by destruct (safe_proc_ok _ _ _ _ _ _ Hs) as (_ & _ & _ & Hnn & _)).
  all: rewrite (set_reductions_eq _ _ _ _ Hnn Hp1); cbn [mbind option_bind].
  - eexists _, _. split; [done|]. by split; [apply lookup_insert_eq|].
  - destruct (IH (put_proc p (set_p_reductions BEAM_DEFAULT_REDUCTIONS pr1) s1)
      (set_p_reductions BEAM_DEFAULT_REDUCTIONS pr1))
      as (s' & pr' & E' & Hp' & Hst' & Hip' & Hr');
      [by apply runnable_set_reductions|apply lookup_insert_eq|done|simpl; by rewrite Hip1|].
    exists s', pr'. split_and!; try done. rewrite Hip'. exact Hip1.
Qed.
End EmuProps.

(** ** Examples *)

Lemma frame_roundtrip_witness :
  ∃ s1, op_allocate demo_p (simple_instr BEAM_OP_ALLOCATE 3 0 0 0) demo_vm = Some (CNext, s1) ∧
    ∀ c s1', upd_frame demo_p (set_fr_cp c) s1 = Some s1' →
      ∃ s2, op_deallocate demo_p (simple_instr BEAM_OP_DEALLOCATE 3 0 0 0) s1' = Some (CNext, s2) ∧
        procs s2 = procs demo_vm.
Proof.
  destruct demo_vm_ok as (B & own & Hok).
  destruct (frame_roundtrip demo_vm B own demo_p demo_pr 3 (simple_instr BEAM_OP_ALLOCATE 3 0 0 0)
    (simple_instr BEAM_OP_DEALLOCATE 3 0 0 0) Hok demo_vm_proc) as (s1 & E & _ & _ & Hd);
    [by vm_compute|done..|by vm_compute|].
  exists s1. split; [exact E|]. intros c s1' Hu.
  destruct (Hd c s1' Hu) as (s2 & E2 & Ep & _). by exists s2.
Defined.

Definition demo_try : beam_instruction := simple_instr BEAM_OP_TRY 5 0 0 0.
Definition demo_catch : list beam_instruction :=
  [demo_try; simple_instr BEAM_OP_RAISE 2 0 0 0; simple_instr BEAM_OP_LABEL 5 0 0 0].

Lemma raise_unwinds_witness :
  ∃ s1 exc s3, op_try demo_p demo_try demo_vm = Some (CNext, s1) ∧
    op_raise demo_catch demo_p 1 (simple_instr BEAM_OP_RAISE 2 0 0 0) s1 = Some (CJump 2, s3) ∧
    get_x demo_p 0 s3 = Some exc.
Proof.
  destruct (op_try demo_p demo_try demo_vm) as [[c s1]|] eqn:E; [|by vm_compute in E].
  assert (c = CNext) as -> by (vm_compute in E; by simplify_eq).
  destruct (procs s1 !! demo_p) as [pr1|] eqn:Hp1;
    [|vm_compute in E; simplify_eq; by vm_compute in Hp1].
  destruct (raise_unwinds demo_vm demo_p demo_pr demo_try s1 pr1 demo_catch 2
    (simple_instr BEAM_OP_LABEL 5 0 0 0) 1 (simple_instr BEAM_OP_RAISE 2 0 0 0) s1 pr1)
    as (exc & s3 & pr3 & _ & E3 & _ & _ & _ & Hx & _); try done.
  - destruct demo_vm_ok as (B & own & Hok).
    by destruct (vo_proc _ _ _ Hok _ _ demo_vm_proc) as (_ & ? & _).
  - vm_compute in E. simplify_eq. vm_compute in Hp1. by simplify_eq.
  - intros n i Hn Hi [Ho _]. destruct n as [|[|n]]; [| |lia]; injection Hi as <-; by vm_compute in Ho.
  - by exists s1, exc, s3.
Defined.

(** A block of 4000 labels, then the end of the process. *)
Definition demo_block : list beam_instruction :=
  replicate 4000 (simple_instr BEAM_OP_LABEL 1 0 0 0) ++ [simple_instr BEAM_OP_HALT 0 0 0 0].

Lemma demo_block_straight : straight_block demo_block 0 BEAM_DEFAULT_REDUCTIONS.
Proof.
  split; [done|]. split; [by vm_compute|]. intros k i Hk Hi. unfold array_get in Hi.
  case_match; [done|]. unfold BEAM_DEFAULT_REDUCTIONS in Hk. unfold demo_block in Hi.
  rewrite lookup_app_l in Hi by (rewrite length_replicate; lia).
  apply lookup_replicate in Hi as [-> _]. by vm_compute.
Qed.

Lemma long_block_never_completes_witness :
  ∃ s' pr', run_slices 3 demo_p demo_block demo_vm = Some s' ∧
    procs s' !! demo_p = Some pr' ∧ state pr' = BEAM_PROC_STATE_RUNNABLE ∧ ip (frame pr') = 0.
Proof.
  destruct (long_block_never_completes demo_p ∅ demo_block 2 demo_vm demo_pr demo_runnable)
    as (s' & pr' & E & Hp & Hst & Hip & _);
    [by vm_compute|exact demo_vm_proc|reflexivity|exact demo_block_straight|].
  exact (ex_intro _ s' (ex_intro _ pr' (conj E (conj Hp (conj Hst Hip))))).
Defined.
