(* ===== verification/RunQueue.v ===== *)
(** The priority run queue: src/scheduler/run_queue.c.

    Four FIFO levels under one mutex.  The critical sections are definitions
    of their own ([rq_push], [rq_take]); dequeue and steal differ in the order
    in which they visit the levels. *)
From S2P Require Import Prelude Memory Term Alloc LinkedList HashChain Blocks Mailbox.
From S2P Require Import Process ProcessInv ProcessLife.
From stdpp Require Import options.

(** ** Data (src/scheduler/run_queue_internal.h) *)

(** [priority_level_queue_t]; the nodes ([run_queue_node_t]: proc, next) of a
    level are in [q_nodes]. *)
Record priority_level_queue_t : Type := {
  q_head : Z;
  q_tail : Z;
  q_count : Z;
  q_nodes : nodes Z;
}.

(** [struct beam_run_queue]; the mutex is modelled by the atomicity of the
    critical sections, the allocator is the machine's. *)
Record beam_run_queue : Type := {
  queues : list priority_level_queue_t;
  total_count : Z;
}.

Definition sizeof_run_queue_node : Z := 16.
(** Four 24-byte levels, the counter, a 40-byte mutex, the 32-byte vtable. *)
Definition sizeof_beam_run_queue : Z := 176.

Definition empty_level : priority_level_queue_t :=
  {| q_head := NULL; q_tail := NULL; q_count := 0; q_nodes := ∅ |}.

Definition empty_run_queue : beam_run_queue :=
  {| queues := replicate (Z.to_nat BEAM_NUM_PRIORITIES) empty_level; total_count := 0 |}.

(** The machine with its run queues, by address. *)
Record sys (A : Type) : Type := Sys {
  vmach : vm A;
  rqs : gmap Z beam_run_queue;
}.
Arguments Sys {A} _ _.
Arguments vmach {A} _.
Arguments rqs {A} _.

(** ** The critical sections *)

Definition level_push (q : priority_level_queue_t) (node proc : Z)
    : option priority_level_queue_t :=
  let ns := <[node := Node proc NULL]> (q_nodes q) in
  if q_tail q =? NULL then
    Some {| q_head := node; q_tail := node; q_count := u64 (q_count q + 1); q_nodes := ns |}
  else
    ns ← set_next ns (q_tail q) node;
    Some {| q_head := q_head q; q_tail := node; q_count := u64 (q_count q + 1); q_nodes := ns |}.

(** The node leaves the level's store: it is unlinked and about to be freed. *)
Definition level_pop (q : priority_level_queue_t)
    : option (Z * Z * priority_level_queue_t) :=
  nd ← q_nodes q !! q_head q;
  let head := nnext nd in
  Some (q_head q, nval nd,
        {| q_head := head; q_tail := if head =? NULL then NULL else q_tail q;
           q_count := u64 (q_count q - 1); q_nodes := delete (q_head q) (q_nodes q) |}).

Definition rq_push (rq : beam_run_queue) (prio node proc : Z) : option beam_run_queue :=
  q ← array_get (queues rq) prio;
  q ← level_push q node proc;
  qs ← array_set (queues rq) prio q;
  Some {| queues := qs; total_count := u64 (total_count rq + 1) |}.

(** The [for] loop over the levels: pop from the first non-empty one. *)
Fixpoint rq_scan (levels : list Z) (rq : beam_run_queue)
    : option (option (Z * Z) * beam_run_queue) :=
  match levels with
  | [] => Some (None, rq)
  | p :: levels' =>
      q ← array_get (queues rq) p;
      if q_head q =? NULL then rq_scan levels' rq
      else
        '(node, proc, q) ← level_pop q;
        qs ← array_set (queues rq) p q;
        Some (Some (node, proc), {| queues := qs; total_count := u64 (total_count rq - 1) |})
  end.

Definition rq_take (levels : list Z) (rq : beam_run_queue)
    : option (option (Z * Z) * beam_run_queue) :=
  if total_count rq =? 0 then Some (None, rq) else rq_scan levels rq.

(** MAX, HIGH, NORMAL, LOW for dequeue; LOW to MAX for steal. *)
Definition dequeue_order : list Z := seqZ 0 BEAM_NUM_PRIORITIES.
Definition steal_order : list Z := reverse (seqZ 0 BEAM_NUM_PRIORITIES).

(** ** Entry points *)

Section RunQueue.
Context {A : Type} `{AllocOps A}.
Implicit Types (σ : sys A).

Definition set_vm (s : vm A) σ : sys A := Sys s (rqs σ).
Definition put_rq (rq : Z) (q : beam_run_queue) σ : sys A := Sys (vmach σ) (<[rq := q]> (rqs σ)).

Definition beam_run_queue_create σ : Z * sys A :=
  let '(rq, a) := al_alloc (alc (vmach σ)) sizeof_beam_run_queue in
  let σ := set_vm (set_alc a (vmach σ)) σ in
  if rq =? NULL then (NULL, σ) else (rq, put_rq rq empty_run_queue σ).

(** The node loops of the destructor, level by level. *)
Fixpoint free_levels (qs : list priority_level_queue_t) (a : A) : option A :=
  match qs with
  | [] => Some a
  | q :: qs' =>
      '(_, a) ← free_chain (size (q_nodes q)) (q_nodes q) a (q_head q);
      free_levels qs' a
  end.

Definition beam_run_queue_destroy (rq : Z) σ : option (sys A) :=
  if rq =? NULL then Some σ
  else
    q ← rqs σ !! rq;
    a ← free_levels (queues q) (alc (vmach σ));
    Some (Sys (set_alc (al_free a rq) (vmach σ)) (delete rq (rqs σ))).

Definition beam_run_queue_enqueue (rq proc prio : Z) σ : option (beam_result_t * sys A) :=
  if (rq =? NULL) || (proc =? NULL) || (prio >=? BEAM_NUM_PRIORITIES) then
    Some (BEAM_ERR_INVALID_ARG, σ)
  else
    q ← rqs σ !! rq;
    let '(node, a) := al_alloc (alc (vmach σ)) sizeof_run_queue_node in
    let s := set_alc a (vmach σ) in
    if node =? NULL then Some (BEAM_ERR_NO_MEMORY, set_vm s σ)
    else
      q ← rq_push q prio node proc;
      s ← beam_process_set_state proc BEAM_PROC_STATE_RUNNABLE s;
      Some (BEAM_OK, put_rq rq q (set_vm s σ)).

Definition run_queue_take (levels : list Z) (rq : Z) σ : option (Z * sys A) :=
  if rq =? NULL then Some (NULL, σ)
  else
    q ← rqs σ !! rq;
    '(got, q) ← rq_take levels q;
    match got with
    | None => Some (NULL, put_rq rq q σ)
    | Some (node, proc) =>
        let s := set_alc (al_free (alc (vmach σ)) node) (vmach σ) in
        s ← beam_process_set_state proc BEAM_PROC_STATE_RUNNING s;
        Some (proc, put_rq rq q (set_vm s σ))
    end.

Definition beam_run_queue_dequeue : Z → sys A → option (Z * sys A) :=
  run_queue_take dequeue_order.
Definition beam_run_queue_steal : Z → sys A → option (Z * sys A) :=
  run_queue_take steal_order.

Definition beam_run_queue_count (rq : Z) σ : option Z :=
  if rq =? NULL then Some 0 else q ← rqs σ !! rq; Some (total_count q).

End RunQueue.

(** ** Specification

    Abstractly a run queue is one list of processes per level. *)

Abbreviation pqueue := (list (list Z)).

Definition pq_enqueue (Q : pqueue) (prio : nat) (p : Z) : pqueue := alter (.++ [p]) prio Q.

(** The first process of the first non-empty level in the order given. *)
Fixpoint pq_take (levels : list nat) (Q : pqueue) : option (Z * pqueue) :=
  match levels with
  | [] => None
  | i :: levels' =>
      match Q !! i with
      | Some (p :: rest) => Some (p, <[i := rest]> Q)
      | _ => pq_take levels' Q
      end
  end.

Record level_rep (q : priority_level_queue_t) (l : msgs) : Prop := {
  lr_list : llist (q_nodes q) (q_head q) l (q_tail q);
  lr_count : q_count q = u64 (Z.of_nat (length l));
}.

Record rq_rep (rq : beam_run_queue) (L : list msgs) : Prop := {
  rr_levels : Forall2 level_rep (queues rq) L;
  rr_num : length L = Z.to_nat BEAM_NUM_PRIORITIES;
  rr_nodup : NoDup (concat L).*1;
  rr_count : total_count rq = u64 (Z.of_nat (length (concat L)));
}.

Lemma u64_add z k : u64 (u64 z + k) = u64 (z + k).
Proof. unfold u64. by rewrite Zplus_mod_idemp_l. Qed.

Lemma empty_rq_rep : rq_rep empty_run_queue (replicate 4 []).
Proof.
  split; simpl; [|done|constructor|done].
  repeat constructor; simpl; try done; apply llist_nil.
Qed.

Lemma level_push_spec q l node p :
  level_rep q l → node ∉ l.*1 → node ≠ NULL →
  ∃ q', level_push q node p = Some q' ∧ level_rep q' (l ++ [(node, p)]).
Proof.
  intros [Hll Hc] Hn Hnn. unfold level_push.
  destruct (llist_append _ _ _ _ node p Hll) as [Hnil Hcons]; [by rewrite llist_mem|done|].
  assert (Hlen : u64 (q_count q + 1) = u64 (Z.of_nat (length (l ++ [(node, p)])))).
  { by rewrite Hc, u64_add, length_app, Nat2Z.inj_add. }
  destruct (Z.eqb_spec (q_tail q) NULL) as [E|E].
  - eexists. split; [done|]. split; simpl; [|done].
    by rewrite (proj1 (llist_tail_null _ _ _ _ Hll) E) in *; apply Hnil.
  - destruct (Hcons E) as (m2 & -> & Hll2). eexists. split; [done|]. by split.
Qed.

Lemma level_pop_spec q a v l :
  level_rep q ((a, v) :: l) →
  ∃ q', level_pop q = Some (a, v, q') ∧ level_rep q' l.
Proof.
  intros [Hll Hc]. unfold level_pop. destruct (llist_pop _ _ _ _ _ _ Hll) as (-> & n & -> & Hl).
  eexists. split; [done|]. split; simpl; [done|].
  rewrite Hc. simpl length. rewrite <- Z.add_opp_r, u64_add. f_equal. lia.
Qed.

(** Splitting a run queue around one of its levels. *)
Lemma concat_insert_split {X} (L : list (list X)) i l l' :
  L !! i = Some l →
  ∃ L1 L2, L = L1 ++ l :: L2 ∧ <[i := l']> L = L1 ++ l' :: L2 ∧ length L1 = i.
Proof.
  intros Hi. exists (take i L), (drop (S i) L). split_and!.
  - by rewrite take_drop_middle.
  - rewrite insert_take_drop by (by eapply lookup_lt_Some). done.
  - rewrite length_take. apply lookup_lt_Some in Hi. lia.
Qed.

Lemma rq_push_spec rq L (i : nat) l node p :
  rq_rep rq L → L !! i = Some l → node ∉ (concat L).*1 → node ≠ NULL →
  ∃ rq', rq_push rq (Z.of_nat i) node p = Some rq' ∧
    rq_rep rq' (<[i := l ++ [(node, p)]]> L).
Proof.
  intros [Hlv Hnum Hnd Hc] Hi Hn Hnn. unfold rq_push. rewrite array_get_nat.
  destruct (Forall2_lookup_r _ _ _ _ _ Hlv Hi) as (q & Hq & Hrep). rewrite Hq. simpl.
  destruct (concat_insert_split L i l (l ++ [(node, p)]) Hi) as (L1 & L2 & HL & HL' & Hlen).
  assert (node ∉ l.*1) as Hnl.
  { intros Hin. apply Hn. rewrite HL, concat_app. csimpl. rewrite !fmap_app.
    set_solver. }
  destruct (level_push_spec _ _ _ p Hrep Hnl Hnn) as (q' & -> & Hrep'). simpl.
  rewrite array_set_nat by (by eapply lookup_lt_Some). simpl. eexists. split; [done|].
  assert (Hperm : concat (<[i := l ++ [(node, p)]]> L) ≡ₚ (node, p) :: concat L).
  { rewrite HL', HL. rewrite !concat_app. csimpl. rewrite <- !app_assoc. solve_Permutation. }
  split; simpl.
  - by apply Forall2_insert.
  - by rewrite length_insert.
  - rewrite Hperm. csimpl. by constructor.
  - rewrite Hc, u64_add, Hperm. simpl length. f_equal. lia.
Qed.

(** The processes queued, level by level. *)
Definition values (L : list msgs) : pqueue := (λ l : msgs, l.*2) <$> L.

Lemma level_head_null q l : level_rep q l → q_head q = NULL ↔ l = [].
Proof. intros [Hll _]. by eapply llist_head_null. Qed.

Lemma rq_scan_spec levels rq L :
  rq_rep rq L → Forall (λ i, i < Z.to_nat BEAM_NUM_PRIORITIES)%nat levels →
  match pq_take levels (values L) with
  | None => rq_scan (Z.of_nat <$> levels) rq = Some (None, rq)
  | Some (p, Q') => ∃ node rq' L',
      rq_scan (Z.of_nat <$> levels) rq = Some (Some (node, p), rq') ∧
      rq_rep rq' L' ∧ values L' = Q' ∧ concat L ≡ₚ (node, p) :: concat L'
  end.
Proof.
  intros Hrep. induction levels as [|i levels IH]; intros Hlv; [done|].
  apply Forall_cons in Hlv as [Hi Hlv]. specialize (IH Hlv). csimpl.
  destruct Hrep as [HL Hnum Hnd Hc]. rewrite array_get_nat.
  destruct (lookup_lt_is_Some_2 L i) as [l Hl]; [by rewrite Hnum|].
  destruct (Forall2_lookup_r _ _ _ _ _ HL Hl) as (q & Hq & Hq'). rewrite Hq. simpl.
  assert (values L !! i = Some l.*2) as Hv by (unfold values; by rewrite list_lookup_fmap, Hl).
  rewrite Hv. pose proof (level_head_null _ _ Hq') as Hh.
  destruct l as [|[a v] l]; csimpl.
  - rewrite (proj2 Hh eq_refl). exact IH.
  - destruct (Z.eqb_spec (q_head q) NULL) as [E|_]; [by apply Hh in E|].
    destruct (level_pop_spec _ _ _ _ Hq') as (q' & -> & Hq''). simpl.
    rewrite array_set_nat by (by eapply lookup_lt_Some). simpl.
    destruct (concat_insert_split L i _ l Hl) as (L1 & L2 & E1 & E2 & _).
    assert (Hperm : concat L ≡ₚ (a, v) :: concat (<[i := l]> L)).
    { rewrite E2, E1, !concat_app. csimpl. solve_Permutation. }
    eexists _, _, (<[i := l]> L). split; [done|]. split_and!; [|by apply list_fmap_insert|done].
    split; simpl.
    + by apply Forall2_insert.
    + by rewrite length_insert.
    + rewrite Hperm in Hnd. csimpl in Hnd. by apply NoDup_cons in Hnd as [_ ?].
    + rewrite Hc, <- Z.add_opp_r, u64_add, Hperm. simpl length. f_equal. lia.
Qed.

Lemma pq_take_empty levels (L : list msgs) : concat L = [] → pq_take levels (values L) = None.
Proof.
  intros HL. induction levels as [|i levels IH]; [done|]. simpl.
  unfold values in *. rewrite list_lookup_fmap. destruct (L !! i) as [l|] eqn:E; [|done].
  simpl. destruct l as [|x l]; [done|]. exfalso.
  apply concat_nil_Forall in HL. by pose proof (Forall_lookup_1 _ _ _ _ HL E).
Qed.

(** Both removal orders visit every level, so [total_count] only short-cuts
    the empty queue. *)
Lemma rq_take_spec levels rq L :
  rq_rep rq L → Forall (λ i, i < Z.to_nat BEAM_NUM_PRIORITIES)%nat levels →
  Z.of_nat (length (concat L)) < 2 ^ 64 →
  match pq_take levels (values L) with
  | None => rq_take (Z.of_nat <$> levels) rq = Some (None, rq)
  | Some (p, Q') => ∃ node rq' L',
      rq_take (Z.of_nat <$> levels) rq = Some (Some (node, p), rq') ∧
      rq_rep rq' L' ∧ values L' = Q' ∧ concat L ≡ₚ (node, p) :: concat L'
  end.
Proof.
  intros Hrep Hlv Hlen. unfold rq_take. rewrite (rr_count _ _ Hrep).
  rewrite u64_small by (unfold is_u64; lia).
  destruct (Z.eqb_spec (Z.of_nat (length (concat L))) 0) as [E|E].
  - destruct (concat L) eqn:EL; [|done]. by rewrite pq_take_empty.
  - by apply rq_scan_spec.
Qed.

(** ** The run queue inside the machine *)

Section RunQueueSpec.
Context {A : Type} `{AllocSpec A}.
Implicit Types (σ : sys A).

Lemma sizeof_run_queue_node_ok : alloc_size sizeof_run_queue_node.
Proof. unfold alloc_size, sizeof_run_queue_node. lia. Qed.

(** The blocks of the run queue at [rq] with the nodes [ns]. *)
Definition rq_blocks (rq : Z) (ns : list Z) : blocks :=
  own_blocks sizeof_run_queue_node ns {[ rq := sizeof_beam_run_queue ]}.

(** The machine is well formed, the queue at [rq] holds the processes [Q], all
    of them live, and its blocks belong to no heap and no mailbox. *)
Definition rq_ok σ (rq : Z) (Q : pqueue) : Prop :=
  ∃ q L B own, vm_ok (vmach σ) B own ∧
    rqs σ !! rq = Some q ∧ rq_rep q L ∧ values L = Q ∧
    (B !! rq = Some sizeof_beam_run_queue ∧ own !! rq = None) ∧
    (∀ n, n ∈ (concat L).*1 → B !! n = Some sizeof_run_queue_node ∧ own !! n = None) ∧
    (∀ p, p ∈ concat Q → is_Some (procs (vmach σ) !! p)).

Lemma values_concat L : concat (values L) = (concat L).*2.
Proof.
  unfold values. induction L as [|l L IH]; [done|]. csimpl. by rewrite fmap_app, IH.
Qed.

Lemma nodes_bound s B own (l : list Z) :
  vm_ok s B own → NoDup l → (∀ n, n ∈ l → is_Some (B !! n)) → Z.of_nat (length l) < 2 ^ 64.
Proof.
  intros Hok Hnd Hl. pose proof (addresses_bound l ADDR_LIMIT Hnd) as Hb.
  unfold ADDR_LIMIT in *. apply Z.le_lt_trans with (2 := eq_refl : 2 ^ 47 < 2 ^ 64).
  etrans; [apply Hb|done]. intros x Hx. destruct (Hl x Hx) as [k HB].
  pose proof (vm_ok_bounds _ _ _ _ _ Hok HB). unfold ADDR_LIMIT in *. lia.
Qed.

Lemma pq_enqueue_insert Q i l p :
  Q !! i = Some l → pq_enqueue Q i p = <[i := l ++ [p]]> Q.
Proof.
  intros Hl. unfold pq_enqueue. apply list_eq. intros j. destruct (decide (i = j)) as [<-|].
  - rewrite list_lookup_insert_eq by (by eapply lookup_lt_Some).
    by rewrite list_lookup_alter_eq, Hl.
  - by rewrite list_lookup_insert_ne, list_lookup_alter_ne by done.
Qed.

Lemma pq_enqueue_perm Q i p :
  (i < length Q)%nat → concat (pq_enqueue Q i p) ≡ₚ p :: concat Q.
Proof.
  intros [l Hl]%lookup_lt_is_Some_2. rewrite (pq_enqueue_insert _ _ _ _ Hl).
  destruct (concat_insert_split Q i l (l ++ [p]) Hl) as (Q1 & Q2 & E1 & E2 & _).
  rewrite E2, E1, !concat_app. csimpl. rewrite <- !app_assoc. solve_Permutation.
Qed.

Lemma values_enqueue L i l node p :
  L !! i = Some l → values (<[i := l ++ [(node, p)]]> L) = pq_enqueue (values L) i p.
Proof.
  intros Hl. rewrite (pq_enqueue_insert _ _ l.*2).
  - unfold values. by rewrite list_fmap_insert, fmap_app.
  - unfold values. by rewrite list_lookup_fmap, Hl.
Qed.

Lemma rq_push_null s B own rq :
  vm_ok s B own → is_Some (B !! rq) → rq ≠ NULL.
Proof. intros Hok [k HB]. pose proof (vm_ok_bounds _ _ _ _ _ Hok HB). unfold NULL. lia. Qed.

Lemma rq_enqueue_ok σ rq Q p (prio : nat) pr :
  rq_ok σ rq Q → (prio < 4)%nat → procs (vmach σ) !! p = Some pr →
  ∃ r σ', beam_run_queue_enqueue rq p (Z.of_nat prio) σ = Some (r, σ') ∧
    ((r = BEAM_ERR_NO_MEMORY ∧ rq_ok σ' rq Q ∧ procs (vmach σ') = procs (vmach σ)) ∨
     (r = BEAM_OK ∧ rq_ok σ' rq (pq_enqueue Q prio p) ∧
      procs (vmach σ') =
        <[p := set_p_state BEAM_PROC_STATE_RUNNABLE pr]> (procs (vmach σ)))).
Proof.
  intros (q & L & B & own & Hok & Hq & Hrep & <- & [HBr Hor] & Hns & Hlive) Hprio Hp.
  destruct (vo_proc _ _ _ Hok _ _ Hp) as (Hpn & _).
  unfold beam_run_queue_enqueue.
  destruct (Z.eqb_spec rq NULL) as [E|_]; [by eapply rq_push_null in E; eauto|].
  destruct (Z.eqb_spec p NULL) as [E|_]; [done|].
  rewrite Z.geb_leb. destruct (Z.leb_spec BEAM_NUM_PRIORITIES (Z.of_nat prio)) as [E|_].
  { unfold BEAM_NUM_PRIORITIES, BEAM_PRIO_NUM_LEVELS in E. lia. }
  simpl. rewrite Hq. simpl.
  destruct (al_alloc (alc (vmach σ)) sizeof_run_queue_node) as [node a] eqn:Ea.
  destruct (vm_ok_alloc _ _ _ _ _ _ Hok sizeof_run_queue_node_ok Ea)
    as [[-> Hok1]|(Hn & Hf & HBn & Hon & Hok1)].
  { simpl. eexists _, _. split; [done|]. left. split_and!; [done| |done].
    by exists q, L, B, own. }
  destruct (Z.eqb_spec node NULL); [done|].
  destruct (lookup_lt_is_Some_2 L prio) as [l Hl].
  { rewrite (rr_num _ _ Hrep). exact Hprio. }
  assert (node ∉ (concat L).*1) as Hnl by (intros [? _]%Hns; congruence).
  destruct (rq_push_spec _ _ _ _ _ p Hrep Hl Hnl Hn) as (q' & -> & Hrep'). simpl.
  destruct (set_state_ok _ _ _ _ BEAM_PROC_STATE_RUNNABLE pr Hok1 Hp) as [-> Hok2]. simpl.
  eexists _, _. split; [done|]. right. split_and!; [done| |done].
  assert (Hperm : concat (<[prio := l ++ [(node, p)]]> L) ≡ₚ (node, p) :: concat L).
  { destruct (concat_insert_split L prio l (l ++ [(node, p)]) Hl) as (L1 & L2 & E1 & E2 & _).
    rewrite E2, E1, !concat_app. csimpl. rewrite <- !app_assoc. solve_Permutation. }
  eexists q', _, (<[node := sizeof_run_queue_node]> B), own.
  split_and!; [exact Hok2|apply lookup_insert_eq|exact Hrep'| | |done| |].
  - by apply values_enqueue.
  - rewrite lookup_insert_ne; [done|]. congruence.
  - intros x. rewrite Hperm. csimpl. intros [->|Hx]%elem_of_cons.
    + by rewrite lookup_insert_eq.
    + destruct (Hns x Hx). rewrite lookup_insert_ne; [done|congruence].
  - intros x. rewrite pq_enqueue_perm.
    2:{ unfold values. rewrite length_fmap. by eapply lookup_lt_Some. }
    intros [->|Hx]%elem_of_cons; apply lookup_insert_is_Some'; [by left|right].
    by apply Hlive.
Qed.

(** Removal in either order refines [pq_take]. *)
Lemma rq_take_ok levels σ rq Q :
  Forall (λ i, i < Z.to_nat BEAM_NUM_PRIORITIES)%nat levels → rq_ok σ rq Q →
  match pq_take levels Q with
  | None => ∃ σ', run_queue_take (Z.of_nat <$> levels) rq σ = Some (NULL, σ') ∧
      rq_ok σ' rq Q ∧ vmach σ' = vmach σ
  | Some (p, Q') => ∃ σ' pr, run_queue_take (Z.of_nat <$> levels) rq σ = Some (p, σ') ∧
      rq_ok σ' rq Q' ∧ p ≠ NULL ∧ procs (vmach σ) !! p = Some pr ∧
      procs (vmach σ') = <[p := set_p_state BEAM_PROC_STATE_RUNNING pr]> (procs (vmach σ))
  end.
Proof.
  intros Hlv (q & L & B & own & Hok & Hq & Hrep & <- & [HBr Hor] & Hns & Hlive).
  assert (Hlen : Z.of_nat (length (concat L)) < 2 ^ 64).
  { rewrite <- (length_fmap fst). eapply nodes_bound; [done|by apply Hrep|].
    intros n [? _]%Hns. eauto. }
  pose proof (rq_take_spec _ _ _ Hrep Hlv Hlen) as Hspec.
  unfold run_queue_take.
  destruct (Z.eqb_spec rq NULL) as [E|_]; [by eapply rq_push_null in E; eauto|].
  rewrite Hq. simpl. destruct (pq_take levels (values L)) as [[p Q']|] eqn:Ep.
  - destruct Hspec as (node & q' & L' & -> & Hrep' & HQ' & Hperm). simpl.
    assert (p ∈ concat (values L)) as Hin.
    { rewrite values_concat. apply list_elem_of_fmap. exists (node, p). split; [done|].
      rewrite Hperm. by left. }
    destruct (Hlive p Hin) as [pr Hp].
    destruct (vo_proc _ _ _ Hok _ _ Hp) as (Hpn & _).
    destruct (Hns node) as [HBn Hon]; [rewrite Hperm; by left|].
    pose proof (vm_ok_free _ _ _ _ _ Hok HBn Hon) as Hok1.
    destruct (set_state_ok _ _ _ _ BEAM_PROC_STATE_RUNNING pr Hok1 Hp) as [-> Hok2]. simpl.
    eexists _, _. split; [done|]. split_and!; [|done..].
    pose proof (rr_nodup _ _ Hrep) as Hnd. rewrite Hperm in Hnd. csimpl in Hnd.
    apply NoDup_cons in Hnd as [Hnode _].
    eexists q', L', (delete node B), own.
    split_and!; [exact Hok2|apply lookup_insert_eq|done..| |done| |].
    + rewrite lookup_delete_ne; [done|]. intros ->. rewrite HBr in HBn. done.
    + intros x Hx. destruct (Hns x) as [? ?]; [rewrite Hperm; by right|].
      rewrite lookup_delete_ne; [done|congruence].
    + intros x Hx. apply lookup_insert_is_Some'. right. apply Hlive.
      rewrite <- HQ', values_concat in Hx. rewrite values_concat, Hperm. by right.
  - rewrite Hspec. simpl. eexists. split; [done|]. split; [|done].
    exists q, L, B, own. split_and!; try done. apply lookup_insert_eq.
Qed.

(** ** Creation and destruction *)

Lemma rq_create_ok σ B own :
  vm_ok (vmach σ) B own →
  ∃ rq σ', beam_run_queue_create σ = (rq, σ') ∧ procs (vmach σ') = procs (vmach σ) ∧
    ((rq = NULL ∧ vm_ok (vmach σ') B own) ∨
     (vm_ok (vmach σ') (<[rq := sizeof_beam_run_queue]> B) own ∧ B !! rq = None ∧
      rq_ok σ' rq (replicate 4 []))).
Proof.
  intros Hok. unfold beam_run_queue_create.
  destruct (al_alloc _ _) as [rq a] eqn:Ea.
  assert (alloc_size sizeof_beam_run_queue) as Hs
    by (unfold alloc_size, sizeof_beam_run_queue; lia).
  destruct (vm_ok_alloc _ _ _ _ _ _ Hok Hs Ea) as [[-> Hok1]|(Hn & Hf & HBn & Hon & Hok1)].
  { simpl. eexists _, _. split; [done|]. split; [done|]. by left. }
  destruct (Z.eqb_spec rq NULL); [done|]. eexists _, _. split; [done|]. split; [done|]. right.
  split_and!; [done..|]. exists empty_run_queue, (replicate 4 []), (<[rq:=sizeof_beam_run_queue]> B), own.
  split_and!; [done|apply lookup_insert_eq|apply empty_rq_rep|done|
    by rewrite lookup_insert_eq|done|..]; simpl; by intros ? ?%not_elem_of_nil.
Qed.

Lemma free_levels_spec qs (L : list msgs) a B0 :
  Forall2 level_rep qs L → NoDup (concat L).*1 →
  owns sizeof_run_queue_node a (concat L).*1 B0 →
  ∃ a', free_levels qs a = Some a' ∧ al_rep a' B0.
Proof.
  intros HL. revert a. induction HL as [|q l qs L [Hll Hc] HL IH]; intros a Hnd Hown.
  - exists a. split; [done|]. apply Hown.
  - csimpl in *. rewrite fmap_app in *. destruct Hown as [Hrep HB].
    assert (Hown1 : owns sizeof_run_queue_node a l.*1
              (own_blocks sizeof_run_queue_node (concat L).*1 B0)).
    { split.
      - unfold own_blocks in *. by rewrite foldr_app in Hrep.
      - intros p Hp. apply NoDup_app in Hnd as (_ & Hd & _).
        rewrite own_blocks_lookup_ne by (by apply Hd). apply HB. apply elem_of_app. by left. }
    destruct (free_chain_spec _ _ _ _ _ _ _ Hll Hown1) as (a1 & -> & Ha1). simpl.
    apply IH; [by apply NoDup_app in Hnd as (_ & _ & ?)|]. split; [done|].
    intros p Hp. apply HB. apply elem_of_app. by right.
Qed.

(** Destruction frees the queue's own blocks and nothing else. *)
Lemma rq_destroy_ok σ rq q L B own :
  vm_ok (vmach σ) B own → rqs σ !! rq = Some q → rq_rep q L →
  B !! rq = Some sizeof_beam_run_queue → own !! rq = None →
  (∀ n, n ∈ (concat L).*1 → B !! n = Some sizeof_run_queue_node ∧ own !! n = None) →
  ∃ σ', beam_run_queue_destroy rq σ = Some σ' ∧
    vm_ok (vmach σ') (delete rq (drop_blocks (concat L).*1 B)) own ∧
    procs (vmach σ') = procs (vmach σ) ∧ rqs σ' = delete rq (rqs σ).
Proof.
  intros Hok Hq Hrep HBr Hor Hns. unfold beam_run_queue_destroy.
  destruct (Z.eqb_spec rq NULL) as [E|_]; [by eapply rq_push_null in E; eauto|].
  rewrite Hq. simpl.
  pose proof (owns_intro _ _ _ _ (vo_rep _ _ _ Hok) (λ n Hin, proj1 (Hns n Hin))) as Hown.
  destruct (free_levels_spec _ _ _ _ (rr_levels _ _ Hrep) (rr_nodup _ _ Hrep) Hown)
    as (a & -> & Ha). simpl. eexists. split; [done|]. split; [|done].
  assert (rq ∉ (concat L).*1) as Hrq by (intros [E _]%Hns; by rewrite HBr in E).
  apply (vm_ok_drop _ _ _ (rq :: (concat L).*1)); [done| |].
  - intros n [->|Hn]%elem_of_cons; [done|]. by apply Hns.
  - simpl. eapply al_free_spec; [done|]. by rewrite drop_blocks_out.
Qed.

End RunQueueSpec.
