(* ===== verification/Scheduler.v ===== *)
(** The scheduler loop: src/scheduler/beam_scheduler_loop.c. *)
From S2P Require Import Prelude Memory Term Alloc LinkedList Mailbox Process ProcessInv.
From S2P Require Import ProcessLife Bif Emu EmuFrame EmuInv EmuExec RunQueue.
From stdpp Require Import options.

(** ** Data (src/scheduler/beam_scheduler_loop_internal.h) *)

Record beam_scheduler : Type := {
  id : Z;
  run_queue : Z;
}.

Definition sizeof_beam_scheduler : Z := 48.

(** The result of a scheduler function: its return value and the state, or the
    reason why it does not return. *)
Inductive sched_outcome (A : Type) : Type :=
| Stepped (r : beam_result_t) (σ : sys A)
| StepUndefined
| StepHangs
| StepOutOfFuel.
Arguments Stepped {A} _ _.
Arguments StepUndefined {A}.
Arguments StepHangs {A}.
Arguments StepOutOfFuel {A}.

Section Scheduler.
Context {A : Type} `{AllocOps A}.
Implicit Types (σ : sys A) (code : list beam_instruction).

Definition beam_scheduler_create (sid rq : Z) (s : vm A) : Z * option beam_scheduler * vm A :=
  if rq =? NULL then (NULL, None, s)
  else
    let '(p, a) := al_alloc (alc s) sizeof_beam_scheduler in
    if p =? NULL then (NULL, None, set_alc a s)
    else (p, Some {| id := sid; run_queue := rq |}, set_alc a s).

Definition beam_scheduler_destroy (sched : Z) (s : vm A) : vm A :=
  if sched =? NULL then s else set_alc (al_free (alc s) sched) s.

(** The tail shared by the step and the work-stealing branch: reset the
    reductions of a process that is not finished and queue it again, always at
    normal priority.  The status of the enqueue is ignored. *)
Definition requeue (rq p : Z) (res : beam_result_t) σ : option (sys A) :=
  st ← beam_process_get_state p (vmach σ);
  if bool_decide (st = BEAM_PROC_STATE_RUNNABLE) ||
     (result_is_ok res && bool_decide (st = BEAM_PROC_STATE_RUNNING)) then
    s ← beam_process_set_reductions p BEAM_DEFAULT_REDUCTIONS (vmach σ);
    '(_, σ) ← beam_run_queue_enqueue rq p BEAM_PRIO_NORMAL (set_vm s σ);
    Some σ
  else Some σ.

(** Execute one process and queue it again. *)
Definition run_process (rq p : Z) code σ : sched_outcome A :=
  match beam_emu_execute_code p code (vmach σ) with
  | Returned res _ s =>
      match requeue rq p res (set_vm s σ) with
      | Some σ => Stepped res σ
      | None => StepUndefined
      end
  | Undefined => StepUndefined
  | Hangs => StepHangs
  | OutOfFuel => StepOutOfFuel
  end.

(** [sched] is [None] for a NULL pointer. *)
Definition beam_scheduler_step (sched : option beam_scheduler) code σ : sched_outcome A :=
  match sched with
  | None => Stepped BEAM_ERR_INVALID_ARG σ
  | Some sc =>
      if run_queue sc =? NULL then Stepped BEAM_ERR_INVALID_ARG σ
      else
        match beam_run_queue_dequeue (run_queue sc) σ with
        | None => StepUndefined
        | Some (proc, σ) =>
            if proc =? NULL then Stepped BEAM_ERR_NOT_FOUND σ
            else run_process (run_queue sc) proc code σ
        end
  end.

(** One iteration of [scheduler_worker_thread]: a step, and when it reports
    BEAM_ERR_NOT_FOUND an attempt to steal.  The state after the iteration. *)
Definition worker_iteration (sched : beam_scheduler) (pool_rq : Z) code σ : sched_outcome A :=
  match beam_scheduler_step (Some sched) code σ with
  | Stepped BEAM_ERR_NOT_FOUND σ =>
      match beam_run_queue_steal pool_rq σ with
      | None => StepUndefined
      | Some (stolen, σ) =>
          if stolen =? NULL then Stepped BEAM_ERR_NOT_FOUND σ
          else run_process pool_rq stolen code σ
      end
  | r => r
  end.

End Scheduler.

(** ** Specification *)

Definition levels_down : list nat := seq 0 4.
Definition levels_up : list nat := reverse (seq 0 4).

Lemma dequeue_order_eq : dequeue_order = Z.of_nat <$> levels_down.
Proof. reflexivity. Qed.
Lemma steal_order_eq : steal_order = Z.of_nat <$> levels_up.
Proof. reflexivity. Qed.

Lemma levels_in_range :
  Forall (λ i, i < Z.to_nat BEAM_NUM_PRIORITIES)%nat levels_down ∧
  Forall (λ i, i < Z.to_nat BEAM_NUM_PRIORITIES)%nat levels_up.
Proof.
  unfold BEAM_NUM_PRIORITIES, BEAM_PRIO_NUM_LEVELS.
  split; apply Forall_forall; intros i; unfold levels_up; rewrite ?elem_of_reverse;
    intros ?%elem_of_seq; lia.
Qed.

Section SchedulerSpec.
Context {A : Type} `{AllocSpec A}.
Implicit Types (σ : sys A) (code : list beam_instruction).

(** Processes other than [p] are untouched. *)
Definition others_kept (p : option Z) σ σ' : Prop :=
  ∀ q, p ≠ Some q → procs (vmach σ') !! q = procs (vmach σ) !! q.

(** Running a machine keeps the run queue. *)
Lemma rq_ok_run σ rq Q s' :
  rq_ok σ rq Q →
  (∀ B own, vm_ok (vmach σ) B own → ∃ B' own', vm_ok s' B' own' ∧ keeps_unowned B own B' own') →
  (∀ p, is_Some (procs (vmach σ) !! p) → is_Some (procs s' !! p)) →
  rq_ok (set_vm s' σ) rq Q.
Proof.
  intros (q & L & B & own & Hok & Hq & Hrep & HQ & [HBr Hor] & Hns & Hlive) Hrun Hp.
  destruct (Hrun _ _ Hok) as (B1 & own1 & Hok1 & Hk).
  exists q, L, B1, own1. destruct (Hk _ _ HBr Hor). split_and!; try done; [|by auto].
  intros n Hn. destruct (Hns n Hn). by apply Hk.
Qed.

Lemma pq_take_length levels Q p Q' : pq_take levels Q = Some (p, Q') → length Q' = length Q.
Proof.
  induction levels as [|i levels IH]; simpl; [done|].
  destruct (Q !! i) as [[|x l]|]; [done| |done]. intros. simplify_eq. apply length_insert.
Qed.

Lemma rq_ok_length σ rq Q : rq_ok σ rq Q → length Q = 4%nat.
Proof.
  intros (q & L & B & own & _ & _ & Hrep & <- & _). unfold values. rewrite length_fmap.
  apply (rr_num _ _ Hrep).
Qed.

(** The queue operations leave memory and mailboxes alone. *)
Definition same_store (s s' : vm A) : Prop := mem s' = mem s ∧ mboxes s' = mboxes s.

Lemma set_state_store p st s s' : beam_process_set_state p st s = Some s' → same_store s s'.
Proof.
  unfold beam_process_set_state, upd_proc. intros Hs. case_match; [by simplify_eq|].
  apply bind_Some in Hs as (pr & _ & Hs). by simplify_eq.
Qed.

Lemma run_queue_take_store levels rq σ p σ' :
  run_queue_take levels rq σ = Some (p, σ') → same_store (vmach σ) (vmach σ').
Proof.
  unfold run_queue_take. intros Ht. case_match; [by simplify_eq|].
  apply bind_Some in Ht as (q & _ & Ht). apply bind_Some in Ht as ([got q'] & _ & Ht).
  destruct got as [[node proc]|]; [|by simplify_eq].
  apply bind_Some in Ht as (s & Hs & Ht). simplify_eq. by apply set_state_store in Hs.
Qed.

Lemma run_queue_enqueue_store rq p prio σ r σ' :
  beam_run_queue_enqueue rq p prio σ = Some (r, σ') → same_store (vmach σ) (vmach σ').
Proof.
  unfold beam_run_queue_enqueue. intros He. case_match; [by simplify_eq|].
  apply bind_Some in He as (q & _ & He). destruct (al_alloc _ _) as [node a].
  case_match; [by simplify_eq|]. apply bind_Some in He as (q' & _ & He).
  apply bind_Some in He as (s & Hs & He). simplify_eq. by apply set_state_store in Hs.
Qed.

(** An enqueue reports a lack of memory only when the allocator does. *)
Lemma enqueue_no_memory rq p prio σ σ' :
  beam_run_queue_enqueue rq p prio σ = Some (BEAM_ERR_NO_MEMORY, σ') →
  (al_alloc (alc (vmach σ)) sizeof_run_queue_node).1 = NULL.
Proof.
  unfold beam_run_queue_enqueue. intros He. case_match; [done|].
  apply bind_Some in He as (q & _ & He). destruct (al_alloc _ _) as [node a].
  destruct (Z.eqb_spec node NULL); [done|]. apply bind_Some in He as (q' & _ & He).
  by apply bind_Some in He as (s & _ & He).
Qed.

(** *** After the slice *)

(** A process that ran is to run again when it was preempted: it is marked
    runnable, or its execution ended well and it is still running. *)
Definition resumes (res : beam_result_t) (pr : beam_process) : Prop :=
  state pr = BEAM_PROC_STATE_RUNNABLE ∨ (res = BEAM_OK ∧ state pr = BEAM_PROC_STATE_RUNNING).

(** What becomes of the process: left alone; or given a full budget, marked
    runnable and put at the end of the normal level; or, when there is no memory
    for the node, given the budget and lost. *)
Definition requeued (rq : Z) (Q : pqueue) (p : Z) (res : beam_result_t) (pr : beam_process) σ σ'
    : Prop :=
  same_store (vmach σ) (vmach σ') ∧
  ((¬ resumes res pr ∧ rq_ok σ' rq Q ∧ procs (vmach σ') = procs (vmach σ)) ∨
   (resumes res pr ∧ rq_ok σ' rq (pq_enqueue Q (Z.to_nat BEAM_PRIO_NORMAL) p) ∧
    procs (vmach σ') = <[p := set_p_state BEAM_PROC_STATE_RUNNABLE
                                (set_p_reductions BEAM_DEFAULT_REDUCTIONS pr)]> (procs (vmach σ))) ∨
   (resumes res pr ∧ rq_ok σ' rq Q ∧
    (al_alloc (alc (vmach σ)) sizeof_run_queue_node).1 = NULL ∧
    procs (vmach σ') = <[p := set_p_reductions BEAM_DEFAULT_REDUCTIONS pr]> (procs (vmach σ)))).

Lemma resumes_test res pr :
  bool_decide (state pr = BEAM_PROC_STATE_RUNNABLE) ||
    (result_is_ok res && bool_decide (state pr = BEAM_PROC_STATE_RUNNING)) = true ↔ resumes res pr.
Proof.
  unfold resumes. rewrite orb_true_iff, andb_true_iff, !bool_decide_eq_true.
  by destruct res; naive_solver.
Qed.

Lemma rq_ok_proc σ rq Q p pr : rq_ok σ rq Q → procs (vmach σ) !! p = Some pr → p ≠ NULL.
Proof. intros (q & L & B & own & Hvm & _) Hp. by destruct (vo_proc _ _ _ Hvm _ _ Hp). Qed.

Lemma requeue_ok σ rq Q p pr res :
  rq_ok σ rq Q → procs (vmach σ) !! p = Some pr →
  ∃ σ', requeue rq p res σ = Some σ' ∧ requeued rq Q p res pr σ σ'.
Proof.
  intros Hok Hp. pose proof (rq_ok_proc _ _ _ _ _ Hok Hp) as Hpn.
  unfold requeue, beam_process_get_state. destruct (Z.eqb_spec p NULL); [done|].
  rewrite Hp. cbn [mbind option_bind]. pose proof (resumes_test res pr) as Hres.
  destruct (_ || _).
  2:{ exists σ. split; [done|]. split; [done|]. left. split_and!; [naive_solver|done..]. }
  unfold beam_process_set_reductions, upd_proc. destruct (Z.eqb_spec p NULL); [done|].
  rewrite Hp. cbn [mbind option_bind]. set (pr1 := set_p_reductions BEAM_DEFAULT_REDUCTIONS pr).
  assert (Hok1 : rq_ok (set_vm (put_proc p pr1 (vmach σ)) σ) rq Q).
  { eapply (rq_ok_run _ _ _ _ Hok).
    - intros B0 own0 Hv. exists B0, own0. split; [|by auto].
      eapply vm_ok_put_proc; [done|done| |done..].
      destruct (vo_proc _ _ _ Hv _ _ Hp) as (_ & [] & _). by split.
    - intros x Hx. apply lookup_insert_is_Some'. by right. }
  destruct (rq_enqueue_ok _ _ _ p 2 pr1 Hok1) as (r & σ2 & E & Hcase);
    [lia|apply lookup_insert_eq|].
  change (Z.of_nat 2) with BEAM_PRIO_NORMAL in E. rewrite E. cbn [mbind option_bind].
  exists σ2. split; [done|]. split; [by apply run_queue_enqueue_store in E|]. right.
  destruct Hcase as [(-> & Hok2 & Epr)|(-> & Hok2 & Epr)]; cbn [set_vm put_proc vmach procs] in Epr.
  - right. apply enqueue_no_memory in E. split_and!; [by apply Hres|done..].
  - left. rewrite insert_insert_eq in Epr. split_and!; [by apply Hres|done..].
Qed.

Lemma requeued_others rq Q p res pr σ σ' : requeued rq Q p res pr σ σ' → others_kept (Some p) σ σ'.
Proof.
  intros [_ Hr] x Hx. assert (p ≠ x) by congruence.
  destruct Hr as [(_ & _ & ->)|[(_ & _ & ->)|(_ & _ & _ & ->)]]; [done|by apply lookup_insert_ne..].
Qed.

(** *** A slice *)

(** What running [p] does: the outcome [o] is that of the execution; when it
    returns, [p] is requeued as it deserves and no other process changes. *)
Definition slice (rq : Z) (Q : pqueue) (p : Z) code σ (o : sched_outcome A) : Prop :=
  match beam_emu_execute_code p code (vmach σ) with
  | Returned res _ s => ∃ pr σ', o = Stepped res σ' ∧ procs s !! p = Some pr ∧
      requeued rq Q p res pr (set_vm s σ) σ' ∧ others_kept (Some p) σ σ'
  | Undefined => o = StepUndefined
  | Hangs => o = StepHangs
  | OutOfFuel => o = StepOutOfFuel
  end.

Lemma executed_ok σ rq Q p code res out s :
  rq_ok σ rq Q → is_Some (procs (vmach σ) !! p) →
  beam_emu_execute_code p code (vmach σ) = Returned res out s →
  rq_ok (set_vm s σ) rq Q ∧ others_kept (Some p) σ (set_vm s σ) ∧ is_Some (procs s !! p).
Proof.
  intros Hok Hp Hx. pose proof Hok as (q & L & B & own & Hvm & _).
  destruct (execute_ok _ _ _ _ _ _ _ _ Hvm Hx) as [[Hoth Hstay] _]. split_and!; [| |by apply Hstay].
  - eapply (rq_ok_run _ _ _ _ Hok).
    + intros B0 own0 Hv. by destruct (execute_ok _ _ _ _ _ _ _ _ Hv Hx).
    + intros x Hx0. destruct (decide (x = p)) as [->|]; [by apply Hstay|by rewrite Hoth].
  - intros x Hne. simpl. apply Hoth. congruence.
Qed.

Lemma run_process_ok σ rq Q p code :
  rq_ok σ rq Q → is_Some (procs (vmach σ) !! p) → slice rq Q p code σ (run_process rq p code σ).
Proof.
  intros Hok Hp. unfold slice, run_process.
  destruct (beam_emu_execute_code _ _ _) as [res out s| | |] eqn:Hx; try done.
  destruct (executed_ok _ _ _ _ _ _ _ _ Hok Hp Hx) as (Hok1 & Ho & [pr Hpr]).
  destruct (requeue_ok _ _ _ p pr res Hok1 Hpr) as (σ' & -> & Hr). exists pr, σ'.
  split_and!; [done..|]. intros x Hx0. rewrite (requeued_others _ _ _ _ _ _ _ Hr) by done. by apply Ho.
Qed.

(** [p] has been taken: it runs, and nothing else happened. *)
Definition taken (p : Z) σ σ1 : Prop :=
  same_store (vmach σ) (vmach σ1) ∧ ∃ pr, procs (vmach σ) !! p = Some pr ∧
    procs (vmach σ1) = <[p := set_p_state BEAM_PROC_STATE_RUNNING pr]> (procs (vmach σ)).

(** One step of a scheduler that removes processes in the order [levels]. *)
Definition step_promise (levels : list nat) (rq : Z) (Q : pqueue) code σ (o : sched_outcome A)
    : Prop :=
  match pq_take levels Q with
  | None => ∃ σ', o = Stepped BEAM_ERR_NOT_FOUND σ' ∧ vmach σ' = vmach σ ∧ rq_ok σ' rq Q
  | Some (p, Q1) => ∃ σ1, taken p σ σ1 ∧ rq_ok σ1 rq Q1 ∧ slice rq Q1 p code σ1 o
  end.

(** A step that completes keeps the queue. *)
Lemma step_promise_stepped levels rq Q code σ r σ' :
  step_promise levels rq Q code σ (Stepped r σ') → ∃ Q', rq_ok σ' rq Q'.
Proof.
  unfold step_promise, slice. destruct (pq_take levels Q) as [[p Q1]|].
  - intros (σ1 & _ & _ & Hs). destruct (beam_emu_execute_code _ _ _); try done.
    destruct Hs as (pr & σ2 & [= -> ->] & _ & [_ Hr] & _).
    destruct Hr as [(_ & ? & _)|[(_ & ? & _)|(_ & ? & _)]]; by eexists.
  - intros (σ1 & [= _ ->] & _ & ?). by eexists.
Qed.

(** Taking a process, in either order. *)
Lemma take_ok levels σ rq Q :
  Forall (λ i, i < Z.to_nat BEAM_NUM_PRIORITIES)%nat levels → rq_ok σ rq Q →
  ∃ p σ1, run_queue_take (Z.of_nat <$> levels) rq σ = Some (p, σ1) ∧
    match pq_take levels Q with
    | None => p = NULL ∧ vmach σ1 = vmach σ ∧ rq_ok σ1 rq Q
    | Some (p', Q1) => p = p' ∧ p ≠ NULL ∧ taken p σ σ1 ∧ rq_ok σ1 rq Q1
    end.
Proof.
  intros Hlv Hok. pose proof (rq_take_ok _ _ _ _ Hlv Hok) as Ht.
  destruct (pq_take levels Q) as [[p Q1]|].
  - destruct Ht as (σ1 & pr & E & Hok1 & Hn & Hp & Hpr). exists p, σ1. split_and!; [done..| |done].
    split; [by apply run_queue_take_store in E|by exists pr].
  - destruct Ht as (σ1 & -> & Hok1 & Hvm). by exists NULL, σ1.
Qed.

Lemma taken_live p σ σ1 : taken p σ σ1 → is_Some (procs (vmach σ1) !! p).
Proof. intros (_ & pr & _ & ->). rewrite lookup_insert_eq. by eexists. Qed.

Lemma take_run_ok levels σ rq Q code o :
  Forall (λ i, i < Z.to_nat BEAM_NUM_PRIORITIES)%nat levels → rq_ok σ rq Q →
  o = match run_queue_take (Z.of_nat <$> levels) rq σ with
      | None => StepUndefined
      | Some (p, σ1) => if p =? NULL then Stepped BEAM_ERR_NOT_FOUND σ1 else run_process rq p code σ1
      end →
  step_promise levels rq Q code σ o.
Proof.
  intros Hlv Hok ->. destruct (take_ok levels σ rq Q Hlv Hok) as (p & σ1 & -> & Ht).
  unfold step_promise. destruct (pq_take levels Q) as [[p' Q1]|].
  - destruct Ht as (<- & Hn & Ht & Hok1). exists σ1. split_and!; [done..|].
    destruct (Z.eqb_spec p NULL); [done|]. apply run_process_ok; [done|by eapply taken_live].
  - destruct Ht as (-> & Hvm & Hok1). by exists σ1.
Qed.

Lemma rq_ok_nonnull σ rq Q : rq_ok σ rq Q → rq ≠ NULL.
Proof.
  intros (q & L & B & own & Hvm & _ & _ & _ & [HB _] & _). by eapply rq_push_null.
Qed.

Lemma scheduler_step_ok sc σ Q code :
  rq_ok σ (run_queue sc) Q →
  step_promise levels_down (run_queue sc) Q code σ (beam_scheduler_step (Some sc) code σ).
Proof.
  intros Hok. eapply take_run_ok; [apply levels_in_range|done|]. unfold beam_scheduler_step.
  destruct (Z.eqb_spec (run_queue sc) NULL) as [E|_]; [by apply rq_ok_nonnull in Hok|].
  unfold beam_run_queue_dequeue. by rewrite dequeue_order_eq.
Qed.

End SchedulerSpec.
