(* ===== verification/SchedulerProps.v ===== *)
(** What the run queue (src/scheduler/run_queue.c) and the scheduler
    (src/scheduler/beam_scheduler_loop.c) promise: the queue refines four
    first-in-first-out levels, a step runs the first process of the highest
    level and puts it back exactly when it was preempted, and processes of the normal level are run in turn. *)
From S2P Require Import Prelude Memory Term Alloc LinkedList Mailbox Process ProcessInv.
From S2P Require Import ProcessLife Bif Emu EmuFrame EmuInv EmuExec EmuSafe RunQueue Scheduler.
From S2P Require Import Demo.
From stdpp Require Import options.

(** ** The run queue as an abstract data type *)

Inductive rq_op : Type :=
| QEnqueue (p prio : Z)
| QDequeue
| QSteal
| QCount.

Inductive rq_answer : Type :=
| AResult (r : beam_result_t)
| AProcess (p : Z)
| ACount (n : Z).

(** [rq_spec Q op ans Q']: removal looks at the levels from the highest
    priority down, stealing from the lowest up. *)
Inductive rq_spec (Q : pqueue) : rq_op → rq_answer → pqueue → Prop :=
| qs_enqueue p prio :
    0 <= prio < 4 → rq_spec Q (QEnqueue p prio) (AResult BEAM_OK) (pq_enqueue Q (Z.to_nat prio) p)
| qs_no_memory p prio : rq_spec Q (QEnqueue p prio) (AResult BEAM_ERR_NO_MEMORY) Q
| qs_bad_priority p prio :
    4 <= prio → rq_spec Q (QEnqueue p prio) (AResult BEAM_ERR_INVALID_ARG) Q
| qs_dequeue p Q' : pq_take levels_down Q = Some (p, Q') → rq_spec Q QDequeue (AProcess p) Q'
| qs_dequeue_empty : pq_take levels_down Q = None → rq_spec Q QDequeue (AProcess NULL) Q
| qs_steal p Q' : pq_take levels_up Q = Some (p, Q') → rq_spec Q QSteal (AProcess p) Q'
| qs_steal_empty : pq_take levels_up Q = None → rq_spec Q QSteal (AProcess NULL) Q
| qs_count : rq_spec Q QCount (ACount (Z.of_nat (length (concat Q)))) Q.

Section SchedulerProps.
Context {A : Type} `{AllocSpec A}.
Implicit Types (σ : sys A) (code : list beam_instruction) (Q : pqueue).

Definition rq_exec (op : rq_op) (rq : Z) σ : option (rq_answer * sys A) :=
  match op with
  | QEnqueue p prio => '(r, σ) ← beam_run_queue_enqueue rq p prio σ; Some (AResult r, σ)
  | QDequeue => '(p, σ) ← beam_run_queue_dequeue rq σ; Some (AProcess p, σ)
  | QSteal => '(p, σ) ← beam_run_queue_steal rq σ; Some (AProcess p, σ)
  | QCount => n ← beam_run_queue_count rq σ; Some (ACount n, σ)
  end.

(** Only existing processes are enqueued. *)
Definition rq_safe (op : rq_op) σ : Prop :=
  match op with
  | QEnqueue p prio => 0 <= prio ∧ is_Some (procs (vmach σ) !! p)
  | _ => True
  end.

(** What an operation does to the processes: the one that is queued becomes
    runnable, the one that is taken runs, nothing else changes; a lack of memory
    is the allocator's. *)
Definition rq_effect (op : rq_op) (ans : rq_answer) σ σ' : Prop :=
  match op, ans with
  | QEnqueue p _, AResult BEAM_OK => ∃ pr, procs (vmach σ) !! p = Some pr ∧
      procs (vmach σ') = <[p := set_p_state BEAM_PROC_STATE_RUNNABLE pr]> (procs (vmach σ))
  | QEnqueue _ _, AResult BEAM_ERR_NO_MEMORY => procs (vmach σ') = procs (vmach σ) ∧
      (al_alloc (alc (vmach σ)) sizeof_run_queue_node).1 = NULL
  | (QDequeue | QSteal), AProcess p =>
      if p =? NULL then procs (vmach σ') = procs (vmach σ)
      else ∃ pr, procs (vmach σ) !! p = Some pr ∧
        procs (vmach σ') = <[p := set_p_state BEAM_PROC_STATE_RUNNING pr]> (procs (vmach σ))
  | _, _ => procs (vmach σ') = procs (vmach σ)
  end.

Lemma rq_count_ok σ rq Q :
  rq_ok σ rq Q → beam_run_queue_count rq σ = Some (Z.of_nat (length (concat Q))).
Proof.
  intros Hok. pose proof (rq_ok_nonnull _ _ _ Hok) as Hn.
  destruct Hok as (q & L & B & own & Hvm & Hq & Hrep & <- & _ & Hns & _).
  unfold beam_run_queue_count. destruct (Z.eqb_spec rq NULL); [done|]. rewrite Hq. csimpl.
  rewrite (rr_count _ _ Hrep), values_concat, length_fmap, u64_small; [done|].
  split; [lia|]. rewrite <-(length_fmap fst). eapply nodes_bound; [done|by apply Hrep|].
  intros k [? _]%Hns. eauto.
Qed.

Lemma rq_take_refines levels op σ rq Q :
  op = QDequeue ∨ op = QSteal →
  Forall (λ i, i < Z.to_nat BEAM_NUM_PRIORITIES)%nat levels → rq_ok σ rq Q →
  ∃ p σ' Q', run_queue_take (Z.of_nat <$> levels) rq σ = Some (p, σ') ∧ rq_ok σ' rq Q' ∧
    (pq_take levels Q = Some (p, Q') ∨ pq_take levels Q = None ∧ p = NULL ∧ Q' = Q) ∧
    rq_effect op (AProcess p) σ σ'.
Proof.
  intros Hop Hlv Hok. destruct (take_ok levels σ rq Q Hlv Hok) as (p & σ' & -> & Ht).
  exists p, σ'. destruct (pq_take levels Q) as [[p' Q']|].
  - destruct Ht as (<- & Hn & (_ & Ht) & Hok'). exists Q'. split_and!; [done|done|by left|].
    apply Z.eqb_neq in Hn. by destruct Hop as [-> | ->]; unfold rq_effect; rewrite Hn.
  - destruct Ht as (-> & Hvm & Hok'). exists Q. split_and!; [done|done|by right|].
    by destruct Hop as [-> | ->]; simpl; rewrite Hvm.
Qed.

(** C4: Refinement: the run queue implements four first-in-first-out levels.
    Enqueueing appends to the level of its priority and makes the process
    runnable (or refuses, for lack of memory or a priority out of range, without
    effect); dequeueing removes the oldest process of the highest non-empty
    level, stealing that of the lowest, and makes it running; the count is the
    number of queued processes.  Each operation succeeds in the model, keeps the
    representation, and touches no other process. *)
Theorem rq_refines_levels σ rq Q op :
  rq_ok σ rq Q → rq_safe op σ →
  ∃ ans σ' Q', rq_exec op rq σ = Some (ans, σ') ∧ rq_spec Q op ans Q' ∧ rq_ok σ' rq Q' ∧
    rq_effect op ans σ σ'.
Proof.
  intros Hok Hs. pose proof (rq_ok_nonnull _ _ _ Hok) as Hn. destruct op as [p prio| | |]; simpl.
  - destruct Hs as [Hprio [pr Hp]]. destruct (decide (prio < 4)) as [Hlt|Hge].
    + destruct (rq_enqueue_ok σ rq Q p (Z.to_nat prio) pr Hok) as (r & σ' & E & Hr); [lia|done|].
      rewrite Z2Nat.id in E by done. rewrite E. destruct Hr as [(-> & Hok' & Hpr)|(-> & Hok' & Hpr)].
      * eexists _, _, Q. split; [done|]. split; [by apply qs_no_memory|]. split_and!; [done..|].
        by apply enqueue_no_memory in E.
      * eexists _, _, _. split_and!; [done|by constructor|done|]. by exists pr.
    + unfold beam_run_queue_enqueue. rewrite Z.geb_leb.
      destruct (Z.leb_spec BEAM_NUM_PRIORITIES prio) as [_|Hp4];
        [|unfold BEAM_NUM_PRIORITIES, BEAM_PRIO_NUM_LEVELS in Hp4; lia].
      rewrite orb_true_r. eexists _, _, Q. split_and!; [done|constructor; lia|done|done].
  - unfold beam_run_queue_dequeue. rewrite dequeue_order_eq.
    destruct (rq_take_refines levels_down QDequeue σ rq Q) as (p & σ' & Q' & -> & Hok' & Hq & He);
      [auto|apply levels_in_range|done|].
    exists (AProcess p), σ', Q'. split_and!; [done| |done|done].
    destruct Hq as [?|(? & -> & ->)]; by constructor.
  - unfold beam_run_queue_steal. rewrite steal_order_eq.
    destruct (rq_take_refines levels_up QSteal σ rq Q) as (p & σ' & Q' & -> & Hok' & Hq & He);
      [auto|apply levels_in_range|done|].
    exists (AProcess p), σ', Q'. split_and!; [done| |done|done].
    destruct Hq as [?|(? & -> & ->)]; by constructor.
  - rewrite (rq_count_ok _ _ _ Hok). eexists _, _, Q. split_and!; [done|constructor|done|done].
Qed.

(** C21: Refinement: a scheduler step does what the abstract scheduler does.  With
    an empty queue it reports BEAM_ERR_NOT_FOUND and changes nothing.  Otherwise
    the oldest process of the highest non-empty level is taken, marked running
    and executed, and the step ends as the execution does: with its result, or
    undefined, or not at all.  When it returns, the process is put back exactly
    when it was preempted (it is runnable, or running after BEAM_OK): with a full
    budget, marked runnable, at the end of the normal level, or lost if the
    allocator has no memory; in every other case it is left as the execution left
    it, and no other process ever changes. *)
Theorem scheduler_step_refines sc σ Q code :
  rq_ok σ (run_queue sc) Q →
  match pq_take levels_down Q with
  | None => ∃ σ', beam_scheduler_step (Some sc) code σ = Stepped BEAM_ERR_NOT_FOUND σ' ∧
      vmach σ' = vmach σ ∧ rq_ok σ' (run_queue sc) Q
  | Some (p, Q1) => ∃ σ1, taken p σ σ1 ∧ rq_ok σ1 (run_queue sc) Q1 ∧
      match beam_emu_execute_code p code (vmach σ1) with
      | Returned res _ s => ∃ pr σ', beam_scheduler_step (Some sc) code σ = Stepped res σ' ∧
          procs s !! p = Some pr ∧ requeued (run_queue sc) Q1 p res pr (set_vm s σ1) σ' ∧
          others_kept (Some p) σ1 σ'
      | Undefined => beam_scheduler_step (Some sc) code σ = StepUndefined
      | Hangs => beam_scheduler_step (Some sc) code σ = StepHangs
      | OutOfFuel => beam_scheduler_step (Some sc) code σ = StepOutOfFuel
      end
  end.
Proof. apply scheduler_step_ok. Qed.
End SchedulerProps.
