(* ===== verification/RoundRobin.v ===== *)
(** Progress of the scheduler (src/scheduler/beam_scheduler_loop.c): with code
    that passes the static check of the file EmuSafe, every step completes, and
    the processes of the normal level are run in turn. *)
From S2P Require Import Prelude Memory Term Alloc LinkedList Mailbox Process ProcessInv.
From S2P Require Import ProcessLife Bif Emu EmuFrame EmuInv EmuExec EmuSafe RunQueue Scheduler.
From S2P Require Import SchedulerProps Demo.
From stdpp Require Import options.

Section RoundRobin.
Context {A : Type} `{AllocSpec A}.
Implicit Types (σ : sys A) (s : vm A) (code : list beam_instruction) (Q : pqueue).
Variable targets : gset Z.

(** ** Processes that stay runnable while others run *)

(** Same process as far as running it is concerned. *)
Record same_run (pr pr' : beam_process) : Prop := {
  sr_frame : frame pr' = frame pr;
  sr_heap : heap pr' = heap pr;
  sr_capacity : heap_capacity pr' = heap_capacity pr;
  sr_stack : stack_top pr' = stack_top pr;
}.

#[local] Instance same_run_preorder : PreOrder same_run.
Proof. split; [by split|]. intros x y z [] []. split; congruence. Qed.

Lemma stack_tops_nonneg pr t : proc_ok pr → t ∈ stack_tops pr → 0 <= t.
Proof.
  intros Hpo Ht. unfold stack_tops in Ht. apply elem_of_cons in Ht as [->|Ht].
  - apply (po_stack _ Hpo).
  - apply list_elem_of_fmap in Ht as (cf & -> & Hcf). apply elem_of_take in Hcf as (i & Hi & Hlt).
    by apply (po_catch _ Hpo i).
Qed.

Lemma runnable_carry q s s' B' own' pr pr' :
  runnable q targets s → vm_ok s' B' own' → procs s !! q = Some pr → procs s' !! q = Some pr' →
  same_run pr pr' → (∀ i, 0 <= i < heap_capacity pr →
    mem s' !! word_at (heap pr) i = mem s !! word_at (heap pr) i) →
  (∀ t, is_Some (procs s !! t) → is_Some (procs s' !! t)) → runnable q targets s'.
Proof.
  intros Hr Hok' Hp Hp' [Ef Eh Ec Est] Hm Ht.
  destruct (runnable_proc _ _ _ Hr) as (B & own & pr0 & Hok & Hp0 & Hcp & Hip & Hi & Htg).
  assert (pr0 = pr) as -> by congruence.
  destruct (vo_proc _ _ _ Hok _ _ Hp) as (_ & Hpo & _).
  eapply runnable_intro; [exact Hok'|exact Hp'|by rewrite Ef|by rewrite Ef| |by auto].
  intros t i Hin Hti. rewrite Eh. rewrite Ec in Hti.
  assert (t ∈ stack_tops pr) as Hin0 by (unfold stack_tops in *; by rewrite Ef, Est in Hin).
  pose proof (stack_tops_nonneg _ _ Hpo Hin0). unfold load. rewrite Hm by lia.
  by apply (Hi t).
Qed.

(** A run of [p] leaves the heap of [q] alone. *)
Lemma mem_only_other p q s s' B own pr_p pr_q i :
  vm_ok s B own → procs s !! p = Some pr_p → procs s !! q = Some pr_q → p ≠ q →
  mem_only p s s' → 0 <= i < heap_capacity pr_q →
  mem s' !! word_at (heap pr_q) i = mem s !! word_at (heap pr_q) i.
Proof.
  intros Hok Hp Hq Hne Hm Hi. apply (Hm pr_p); [done|].
  destruct (vo_proc _ _ _ Hok _ _ Hp) as (_ & _ & (HBp & Hop & _) & _).
  destruct (vo_proc _ _ _ Hok _ _ Hq) as (_ & _ & (HBq & Hoq & _) & _).
  eapply (blocks_words_apart _ B); [apply (vo_rep _ _ _ Hok)| |exact HBp|exact HBq|done].
  intros E. rewrite E in Hop. congruence.
Qed.

(** ** Queues of runnable processes *)

Definition proc_ready s (q : Z) : Prop :=
  runnable q targets s ∧ ∀ pr, procs s !! q = Some pr → - 2 ^ 31 < reductions pr < 2 ^ 31.

Definition queue_ready σ Q : Prop :=
  NoDup (concat Q) ∧ ∀ q, q ∈ concat Q → proc_ready (vmach σ) q.

Lemma requeue_total σ rq Q p pr res :
  rq_ok σ rq Q → procs (vmach σ) !! p = Some pr →
  ∃ σ' pr', requeue rq p res σ = Some σ' ∧ mem (vmach σ') = mem (vmach σ) ∧
    others_kept (Some p) σ σ' ∧ procs (vmach σ') !! p = Some pr' ∧ same_run pr pr' ∧
    (rq_ok σ' rq Q ∨
     rq_ok σ' rq (pq_enqueue Q 2 p) ∧ reductions pr' = BEAM_DEFAULT_REDUCTIONS).
Proof.
  intros Hok Hp. destruct (requeue_ok _ _ _ p pr res Hok Hp) as (σ' & E & Hr).
  pose proof (requeued_others _ _ _ _ _ _ _ Hr) as Ho. exists σ'.
  destruct Hr as [[Em _] [(_ & Hok' & Epr)|[(_ & Hok' & Epr)|(_ & Hok' & _ & Epr)]]]; rewrite Epr;
    [exists pr|eexists; rewrite lookup_insert_eq..]; split_and!; try done; (by left) || by right.
Qed.

Lemma pq_take_perm levels Q p Q1 : pq_take levels Q = Some (p, Q1) → concat Q ≡ₚ p :: concat Q1.
Proof.
  induction levels as [|i levels IH]; simpl; [done|].
  destruct (Q !! i) as [[|x l]|] eqn:E; [done| |done]. intros [= <- <-].
  destruct (concat_insert_split Q i (x :: l) l E) as (L1 & L2 & -> & -> & _).
  rewrite !concat_app. csimpl. rewrite Permutation_middle. solve_Permutation.
Qed.

Lemma rq_ok_vm σ rq Q : rq_ok σ rq Q → ∃ B own, vm_ok (vmach σ) B own.
Proof. intros (q & L & B & own & Hvm & _). by exists B, own. Qed.

(** Another process is as ready after a change that keeps it. *)
Lemma ready_carry σ σ' rq Q q :
  rq_ok σ' rq Q → proc_ready (vmach σ) q →
  procs (vmach σ') !! q = procs (vmach σ) !! q →
  (∀ pr i, procs (vmach σ) !! q = Some pr → 0 <= i < heap_capacity pr →
    mem (vmach σ') !! word_at (heap pr) i = mem (vmach σ) !! word_at (heap pr) i) →
  (∀ t, is_Some (procs (vmach σ) !! t) → is_Some (procs (vmach σ') !! t)) →
  proc_ready (vmach σ') q.
Proof.
  intros Hok [Hr Hred] Ep Hm Ht. destruct (rq_ok_vm _ _ _ Hok) as (B' & own' & Hvm').
  destruct (runnable_proc _ _ _ Hr) as (B & own & pr & _ & Hp & _).
  split; [|by rewrite Ep]. apply (runnable_carry q (vmach σ) _ B' own' pr pr); try done.
  - by rewrite Ep.
  - intros i Hi. by apply Hm.
Qed.

Lemma ready_is_Some s q : proc_ready s q → is_Some (procs s !! q).
Proof. intros [Hr _]. destruct (runnable_proc _ _ _ Hr) as (B & own & pr & _ & -> & _). by eexists. Qed.

(** Running a taken process completes, and everything queued stays ready. *)
Lemma run_total σ rq Q p code :
  rq_ok σ rq Q → proc_ready (vmach σ) p → NoDup (p :: concat Q) →
  (∀ q, q ∈ concat Q → proc_ready (vmach σ) q) → safe_code targets code = true →
  ∃ r σ' Q', run_process rq p code σ = Stepped r σ' ∧ rq_ok σ' rq Q' ∧ queue_ready σ' Q' ∧
    (Q' = Q ∨ Q' = pq_enqueue Q 2 p).
Proof.
  intros Hok [Hrun Hred] Hnd Hq Hc. apply NoDup_cons in Hnd as [Hnp Hnd].
  destruct (execute_runnable p targets code _ Hrun Hc Hred)
    as (r & out & s & Ex & Hrun' & [Hoth Hstay] & Hmem).
  destruct (rq_ok_vm _ _ _ Hok) as (B & own & Hvm).
  destruct (runnable_proc _ _ _ Hrun) as (_ & _ & pr & _ & Hp & _).
  assert (Hok1 : rq_ok (set_vm s σ) rq Q).
  { eapply (rq_ok_run _ _ _ _ Hok).
    - intros B0 own0 Hv. by destruct (execute_ok _ _ _ _ _ _ _ _ Hv Ex).
    - intros x Hx. destruct (decide (x = p)) as [->|]; [by apply Hstay|by rewrite Hoth]. }
  destruct (Hstay (ex_intro _ pr Hp)) as [pr1 Hp1].
  destruct (requeue_total _ _ _ p pr1 r Hok1 Hp1) as (σ' & pr' & Er & Em & Ho & Hp' & Hsr & Hcase).
  assert (Hlive : ∀ t, is_Some (procs s !! t) → is_Some (procs (vmach σ') !! t)).
  { intros t Ht. destruct (decide (t = p)) as [->|]; [by eexists|]. rewrite Ho; [done|congruence]. }
  assert (∃ Q', rq_ok σ' rq Q' ∧ (Q' = Q ∨ Q' = pq_enqueue Q 2 p ∧
    reductions pr' = BEAM_DEFAULT_REDUCTIONS)) as (Q' & Hok' & HQ').
  { destruct Hcase as [?|[??]]; [exists Q; auto|eexists; eauto]. }
  assert (Hothers : ∀ q, q ∈ concat Q → proc_ready (vmach σ') q).
  { intros q Hin. assert (q ≠ p) as Hne by (intros ->; done).
    apply (ready_carry σ σ' rq Q'); [done|by apply Hq| | |].
    - rewrite Ho by congruence. by apply Hoth.
    - intros prq i Hpq Hi. rewrite Em. by eapply (mem_only_other p q).
    - intros t Ht. apply Hlive. destruct (decide (t = p)) as [->|]; [by eexists|by rewrite Hoth]. }
  exists r, σ', Q'. unfold run_process. rewrite Ex, Er. split; [done|]. split; [done|].
  split; [|by destruct HQ' as [?|[? _]]; auto].
  destruct HQ' as [->|[-> Hr']]; [by split|].
  assert (concat (pq_enqueue Q 2 p) ≡ₚ p :: concat Q) as Hperm.
  { apply pq_enqueue_perm. rewrite (rq_ok_length _ _ _ Hok). lia. }
  split; [rewrite Hperm; by constructor|]. intros q. rewrite Hperm.
  intros [->|Hin]%elem_of_cons; [|by apply Hothers]. split.
  - destruct (rq_ok_vm _ _ _ Hok') as (B' & own' & Hvm').
    apply (runnable_carry p s _ B' own' pr1 pr'); try done. intros i Hi. by rewrite Em.
  - intros pr2 Hp2. assert (pr2 = pr') as -> by congruence. rewrite Hr'. done.
Qed.

Lemma step_total sc σ Q code p Q1 :
  rq_ok σ (run_queue sc) Q → queue_ready σ Q → safe_code targets code = true →
  pq_take levels_down Q = Some (p, Q1) →
  ∃ r σ' Q' σ1, beam_scheduler_step (Some sc) code σ = Stepped r σ' ∧
    beam_run_queue_dequeue (run_queue sc) σ = Some (p, σ1) ∧
    rq_ok σ' (run_queue sc) Q' ∧ queue_ready σ' Q' ∧ (Q' = Q1 ∨ Q' = pq_enqueue Q1 2 p).
Proof.
  intros Hok [Hnd Hrd] Hc HQ. pose proof (pq_take_perm _ _ _ _ HQ) as Hperm.
  pose proof (rq_take_ok _ _ _ _ (proj1 levels_in_range) Hok) as Ht. rewrite HQ in Ht.
  destruct Ht as (σ1 & pr & Ed & Hok1 & Hpn & Hp & Epr).
  destruct (run_queue_take_store _ _ _ _ _ Ed) as [Em _]. rewrite <-dequeue_order_eq in Ed.
  assert (run_queue sc ≠ NULL) as Hn.
  { destruct Hok as (q & L & B & own & Hvm & _ & _ & _ & [HB _] & _). by eapply rq_push_null. }
  rewrite Hperm in Hnd.
  assert (Hlive : ∀ t, is_Some (procs (vmach σ) !! t) → is_Some (procs (vmach σ1) !! t)).
  { intros t Ht. rewrite Epr. apply lookup_insert_is_Some'. by right. }
  assert (proc_ready (vmach σ1) p) as Hpr.
  { destruct (Hrd p) as [Hrun Hred]; [rewrite Hperm; by left|].
    destruct (rq_ok_vm _ _ _ Hok1) as (B1 & own1 & Hvm1). split.
    - apply (runnable_carry p (vmach σ) _ B1 own1 pr (set_p_state BEAM_PROC_STATE_RUNNING pr)); try done.
      + by rewrite Epr, lookup_insert_eq.
      + intros i Hi. by rewrite Em.
    - intros pr2. rewrite Epr, lookup_insert_eq. intros [= <-]. exact (Hred pr Hp). }
  assert (∀ q, q ∈ concat Q1 → proc_ready (vmach σ1) q) as Hrd1.
  { intros q Hin. apply (ready_carry σ σ1 (run_queue sc) Q1); [done| | | |done].
    - apply Hrd. rewrite Hperm. by right.
    - rewrite Epr, lookup_insert_ne; [done|]. intros ->. apply NoDup_cons in Hnd as [? _]. done.
    - intros prq i _ _. by rewrite Em. }
  destruct (run_total σ1 (run_queue sc) Q1 p code Hok1 Hpr Hnd Hrd1 Hc)
    as (r & σ' & Q' & Er & Hok' & Hrd' & HQ').
  exists r, σ', Q', σ1. split_and!; try done. unfold beam_scheduler_step.
  destruct (Z.eqb_spec (run_queue sc) NULL); [done|]. unfold beam_run_queue_dequeue. rewrite Ed.
  by destruct (Z.eqb_spec p NULL).
Qed.

(** ** Turns *)

(** [n] steps of a scheduler, with the processes they dispatch. *)
Fixpoint sched_run (n : nat) (sc : beam_scheduler) code σ : option (list Z * sys A) :=
  match n with
  | O => Some ([], σ)
  | S n' =>
      '(p, _) ← beam_run_queue_dequeue (run_queue sc) σ;
      match beam_scheduler_step (Some sc) code σ with
      | Stepped _ σ => '(ps, σ) ← sched_run n' sc code σ; Some (p :: ps, σ)
      | _ => None
      end
  end.

(** Nothing is waiting above the normal level, which holds [l]. *)
Definition normal_turn Q (l : list Z) : Prop :=
  Q !! 0%nat = Some [] ∧ Q !! 1%nat = Some [] ∧ Q !! 2%nat = Some l.

Lemma normal_take Q x l :
  normal_turn Q (x :: l) → pq_take levels_down Q = Some (x, <[2%nat := l]> Q) ∧
    normal_turn (<[2%nat := l]> Q) l ∧ normal_turn (pq_enqueue (<[2%nat := l]> Q) 2 x) (l ++ [x]).
Proof.
  intros (E0 & E1 & E2). pose proof (lookup_lt_Some _ _ _ E2).
  unfold levels_down. simpl. rewrite E0, E1, E2. split; [done|].
  unfold normal_turn, pq_enqueue. rewrite !list_lookup_alter_ne, !list_lookup_insert_ne by done.
  rewrite list_lookup_alter_eq, list_lookup_insert_eq by done. done.
Qed.

Lemma round_robin_ok sc code l1 : ∀ σ Q p l2,
  rq_ok σ (run_queue sc) Q → queue_ready σ Q → safe_code targets code = true →
  normal_turn Q (l1 ++ p :: l2) →
  ∃ σ', sched_run (S (length l1)) sc code σ = Some (l1 ++ [p], σ').
Proof.
  induction l1 as [|x l1 IH]; intros σ Q p l2 Hok Hrd Hc Ht.
  all: destruct (normal_take _ _ _ Ht) as (HQ & Ht1 & Ht2).
  all: destruct (step_total sc σ Q code _ _ Hok Hrd Hc HQ)
    as (r & σ' & Q' & σ1 & Es & Ed & Hok' & Hrd' & HQ').
  all: cbn [sched_run length app]; rewrite Ed; cbn [mbind option_bind]; rewrite Es.
  - by eexists.
  - assert (∃ l2', normal_turn Q' (l1 ++ p :: l2')) as [l2' Ht'].
    { destruct HQ' as [-> | ->]; [by exists l2|]. exists (l2 ++ [x]).
      by rewrite <-app_assoc in Ht2. }
    destruct (IH σ' Q' p l2' Hok' Hrd' Hc Ht') as (σ2 & E).
    cbn [sched_run] in E. rewrite E. by eexists.
Qed.
End RoundRobin.

(** C2: Liveness of the scheduler: when every queued process is runnable, the
    code passes the static check, and no process waits at the two levels above,
    the scheduler's steps all complete (no undefined behaviour, no hang) and the
    processes of the normal level are dispatched in the order in which they
    wait: a process behind [length l1] others is run at step [length l1 + 1],
    whatever those others do with their slices. *)
Theorem round_robin {A} `{AllocSpec A} targets (sc : beam_scheduler) code (σ : sys A) Q l1 p l2 :
  rq_ok σ (run_queue sc) Q → queue_ready targets σ Q → safe_code targets code = true →
  normal_turn Q (l1 ++ p :: l2) →
  ∃ σ', sched_run (S (length l1)) sc code σ = Some (l1 ++ [p], σ').
Proof. intros Hok Hrd Hc Ht. by eapply round_robin_ok. Qed.

(** ** Examples *)

(** Two processes waiting at the normal level. *)
Definition demo_two : Z * vm bump_heap := beam_process_create 8 16 demo_vm.
Definition demo_rq : Z * sys bump_heap := beam_run_queue_create (Sys demo_two.2 ∅).
Definition enqueued (p : Z) (σ : sys bump_heap) : sys bump_heap :=
  match beam_run_queue_enqueue demo_rq.1 p BEAM_PRIO_NORMAL σ with
  | Some (_, σ) => σ | None => σ
  end.
Definition demo_sys1 : sys bump_heap := enqueued demo_p demo_rq.2.
Definition demo_sys : sys bump_heap := enqueued demo_two.1 demo_sys1.
Definition demo_queue : pqueue := [[]; []; [demo_p; demo_two.1]; []].
Definition demo_sched : beam_scheduler := {| id := 1; run_queue := demo_rq.1 |}.

Lemma enqueued_ok (σ : sys bump_heap) Q p pr :
  rq_ok σ demo_rq.1 Q → procs (vmach σ) !! p = Some pr →
  beam_run_queue_count demo_rq.1 (enqueued p σ) ≠ beam_run_queue_count demo_rq.1 σ →
  rq_ok (enqueued p σ) demo_rq.1 (pq_enqueue Q 2 p).
Proof.
  intros Hok Hp. destruct (rq_enqueue_ok σ demo_rq.1 Q p 2 pr Hok) as (r & σ' & E & Hr); [lia|done|].
  change (Z.of_nat 2) with BEAM_PRIO_NORMAL in E. unfold enqueued. rewrite E.
  destruct Hr as [(-> & Hok' & _)|(_ & Hok' & _)]; [|done]. intros Hn. destruct Hn.
  pose proof (rq_count_ok _ _ _ Hok) as ->. by rewrite (rq_count_ok _ _ _ Hok').
Qed.

Lemma demo_two_ok : ∃ B own, vm_ok demo_two.2 B own.
Proof.
  destruct demo_vm_ok as (B & own & Hok).
  destruct (process_create_ok demo_vm B own 8 16 Hok ltac:(lia)) as (p & s & E & Hr).
  unfold demo_two. rewrite E. destruct Hr as [(-> & Hok' & _)|(h & mb & _ & Hok' & _)];
    by eexists _, _.
Qed.

Lemma demo_rq_ok : rq_ok demo_rq.2 demo_rq.1 (replicate 4 []).
Proof.
  destruct demo_two_ok as (B & own & Hok).
  destruct (rq_create_ok (Sys demo_two.2 ∅) B own Hok) as (rq & σ & E & _ & Hr).
  assert (rq ≠ NULL) as Hn by (assert (demo_rq.1 = rq) as <- by (unfold demo_rq; by rewrite E); by vm_compute).
  unfold demo_rq. rewrite E. by destruct Hr as [[? _]|(_ & _ & Hr)].
Qed.

Lemma demo_sys_ok : rq_ok demo_sys (run_queue demo_sched) demo_queue.
Proof.
  change demo_queue with (pq_enqueue (pq_enqueue (replicate 4 []) 2 demo_p) 2 demo_two.1).
  destruct (procs (vmach demo_rq.2) !! demo_p) as [pr|] eqn:Hp; [|by vm_compute in Hp].
  destruct (procs (vmach demo_sys1) !! demo_two.1) as [pr2|] eqn:Hp2; [|by vm_compute in Hp2].
  apply (enqueued_ok _ _ _ pr2); [|exact Hp2|by vm_compute].
  apply (enqueued_ok _ _ _ pr); [exact demo_rq_ok|exact Hp|by vm_compute].
Qed.

(** A process that has not run yet, as a test. *)
Definition idle_test (s : vm bump_heap) (q : Z) : bool :=
  match procs s !! q with
  | Some pr => (stack_top pr =? heap_capacity pr) && (catch_depth (frame pr) =? 0) &&
      (cp (frame pr) =? 0) && (ip (frame pr) =? 0) && (reductions pr =? BEAM_DEFAULT_REDUCTIONS)
  | None => false
  end.

Lemma idle_ready s B own q : vm_ok s B own → idle_test s q = true → proc_ready ∅ s q.
Proof.
  intros Hok. unfold idle_test. destruct (procs s !! q) as [pr|] eqn:Hp; [|done].
  rewrite !andb_true_iff, !Z.eqb_eq. intros ((((Ht & Hd) & Hcp) & Hip) & Hr). split.
  - eapply idle_runnable; [exact Hok|exact Hp|done|done|lia|lia|]. intros t Hin. set_solver.
  - intros pr' Hp'. assert (pr' = pr) as -> by congruence. rewrite Hr. done.
Qed.

Lemma demo_queue_ready : queue_ready ∅ demo_sys demo_queue.
Proof.
  split; [apply (bool_decide_unpack (NoDup (concat demo_queue))); by vm_compute|].
  destruct (rq_ok_vm _ _ _ demo_sys_ok) as (B & own & Hok).
  intros q Hq. change (q ∈ [demo_p; demo_two.1]) in Hq. apply (idle_ready _ B own _ Hok).
  apply elem_of_cons in Hq as [->|Hq]; [|apply list_elem_of_singleton in Hq as ->];
    vm_compute; reflexivity.
Qed.

Lemma round_robin_witness :
  ∃ σ', sched_run 2 demo_sched demo_loop demo_sys = Some ([demo_p; demo_two.1], σ').
Proof.
  apply (round_robin ∅ demo_sched demo_loop demo_sys demo_queue [demo_p] demo_two.1 []);
    [exact demo_sys_ok|exact demo_queue_ready|reflexivity|]. split; [|split]; reflexivity.
Defined.

Lemma rq_refines_levels_witness :
  ∃ ans σ' Q', rq_exec QDequeue (run_queue demo_sched) demo_sys = Some (ans, σ') ∧
    rq_spec demo_queue QDequeue ans Q' ∧ rq_ok σ' (run_queue demo_sched) Q'.
Proof.
  destruct (rq_refines_levels demo_sys (run_queue demo_sched) demo_queue QDequeue demo_sys_ok I)
    as (ans & σ' & Q' & E & Hs & Hok & _). exists ans, σ', Q'.
  exact (conj E (conj Hs Hok)).
Defined.

Lemma scheduler_step_refines_witness :
  pq_take levels_down demo_queue = Some (demo_p, [[]; []; [demo_two.1]; []]) ∧
  ∃ σ1, taken demo_p demo_sys σ1 ∧ rq_ok σ1 (run_queue demo_sched) [[]; []; [demo_two.1]; []].
Proof.
  pose proof (scheduler_step_refines demo_sched demo_sys demo_queue demo_loop demo_sys_ok) as Hs.
  assert (pq_take levels_down demo_queue = Some (demo_p, [[]; []; [demo_two.1]; []])) as E
    by reflexivity.
  rewrite E in Hs. destruct Hs as (σ1 & Ht & Hok & _).
  exact (conj E (ex_intro _ σ1 (conj Ht Hok))).
Defined.
