(* ===== verification/Pool.v ===== *)
(** The pool of scheduler threads: the second half of
    src/scheduler/beam_scheduler_loop.c.

    The life cycle of the pool (create, start, stop, destroy) is a function per
    operation.  A worker thread is a sequence of phases, each of which touches
    the shared state once: a critical section of the run queue, an execution, a
    write to the process's state.  The phases of several workers interleave
    freely. *)
From stdpp Require Import relations.
From S2P Require Import Prelude Memory Term Alloc LinkedList Mailbox Process.
From S2P Require Import Emu RunQueue Scheduler.
From stdpp Require Import options.

(** ** Data (src/scheduler/beam_scheduler_loop_internal.h) *)

(** [struct beam_scheduler_pool].  The two arrays have their address and their
    cells; a cell nothing was written to is [None]. *)
Record beam_scheduler_pool : Type := {
  num_workers : Z;
  schedulers : Z;
  sched_cells : list (option Z);
  threads : Z;
  thread_cells : list (option Z);
  pool_run_queue : Z;
  pool_code : list beam_instruction;
  running : bool;
}.

Definition sizeof_beam_scheduler_pool : Z := 88.
Definition sizeof_pointer : Z := 8.
Definition sizeof_pthread_t : Z := 8.
(** [worker_arg_t]: the pool and the scheduler. *)
Definition sizeof_worker_arg : Z := 16.

Definition set_cells (cells : list (option Z)) (p : beam_scheduler_pool) : beam_scheduler_pool :=
  {| num_workers := num_workers p; schedulers := schedulers p; sched_cells := cells;
     threads := threads p; thread_cells := thread_cells p;
     pool_run_queue := pool_run_queue p; pool_code := pool_code p; running := running p |}.

Definition set_started (ths : list (option Z)) code (r : bool) (p : beam_scheduler_pool)
    : beam_scheduler_pool :=
  {| num_workers := num_workers p; schedulers := schedulers p; sched_cells := sched_cells p;
     threads := threads p; thread_cells := ths;
     pool_run_queue := pool_run_queue p; pool_code := code; running := r |}.

(** POSIX threads: the new state of the thread system with the return code and,
    for a creation, the thread's identifier. *)
Class ThreadOps (T : Type) : Type := {
  pthread_create : T → Z → Z * Z * T;   (* the argument of the thread *)
  pthread_join : T → Z → Z * T;
}.

(** ** Life cycle *)

Section PoolLife.
Context {A : Type} `{AllocOps A} {T : Type} `{ThreadOps T}.
Implicit Types (s : vm A) (a : A) (k : T) (pool : beam_scheduler_pool).

(** Joining reads the identifier of every thread. *)
Fixpoint join_all (cells : list (option Z)) k : option T :=
  match cells with
  | [] => Some k
  | c :: cells' => h ← c; join_all cells' (pthread_join k h).2
  end.

Definition beam_scheduler_pool_stop (pool : option beam_scheduler_pool) k
    : option (option beam_scheduler_pool * T) :=
  match pool with
  | None => Some (None, k)
  | Some po =>
      if negb (running po) then Some (Some po, k)
      else
        k ← join_all (thread_cells po) k;
        Some (Some (set_started (thread_cells po) (pool_code po) false po), k)
  end.

(** The destructor reads every cell of the array of schedulers. *)
Fixpoint destroy_schedulers (cells : list (option Z)) s : option (vm A) :=
  match cells with
  | [] => Some s
  | c :: cells' =>
      p ← c;
      destroy_schedulers cells' (if p =? NULL then s else beam_scheduler_destroy p s)
  end.

Definition free_if (p : Z) s : vm A := if p =? NULL then s else set_alc (al_free (alc s) p) s.

Definition beam_scheduler_pool_destroy (pool : option (Z * beam_scheduler_pool)) s k
    : option (vm A * T) :=
  match pool with
  | None => Some (s, k)
  | Some (p, po) =>
      '(_, k) ← (if running po then beam_scheduler_pool_stop (Some po) k else Some (Some po, k));
      s ← (if schedulers po =? NULL then Some s
           else s ← destroy_schedulers (sched_cells po) s; Some (free_if (schedulers po) s));
      let s := free_if (threads po) s in
      Some (set_alc (al_free (alc s) p) s, k)
  end.

(** The loop stops at the first scheduler that cannot be created; its cell is
    then NULL and the cells after it are still unwritten. *)
Fixpoint create_schedulers (m i : nat) (rq : Z) (cells : list (option Z)) s
    : bool * list (option Z) * vm A :=
  match m with
  | O => (true, cells, s)
  | S m' =>
      let '(p, _, s) := beam_scheduler_create (u32 (Z.of_nat i + 1)) rq s in
      let cells := <[i := Some p]> cells in
      if p =? NULL then (false, cells, s) else create_schedulers m' (S i) rq cells s
  end.

Definition beam_scheduler_pool_create (n rq : Z) s k
    : option (option (Z * beam_scheduler_pool) * vm A * T) :=
  if (n =? 0) || (rq =? NULL) then Some (None, s, k)
  else
    let '(p, a) := al_alloc (alc s) sizeof_beam_scheduler_pool in
    let s := set_alc a s in
    if p =? NULL then Some (None, s, k)
    else
      let '(sp, a) := al_alloc (alc s) (sizeof_pointer * n) in
      let '(tp, a) := al_alloc a (sizeof_pthread_t * n) in
      let s := set_alc a s in
      let po := {| num_workers := n; schedulers := sp;
                   sched_cells := replicate (Z.to_nat n) None; threads := tp;
                   thread_cells := replicate (Z.to_nat n) None; pool_run_queue := rq;
                   pool_code := []; running := false |} in
      if (sp =? NULL) || (tp =? NULL) then
        '(s, k) ← beam_scheduler_pool_destroy (Some (p, po)) s k; Some (None, s, k)
      else
        let '(ok, cells, s) := create_schedulers (Z.to_nat n) 0 rq (sched_cells po) s in
        let po := set_cells cells po in
        if (ok : bool) then Some (Some (p, po), s, k)
        else '(s, k) ← beam_scheduler_pool_destroy (Some (p, po)) s k; Some (None, s, k).

(** One thread per scheduler.  The argument block belongs to the thread, which
    frees it; POSIX leaves the identifier of a failed creation unspecified. *)
Fixpoint start_workers (scs : list (option Z)) (i : nat) (ths : list (option Z)) a k
    : option (beam_result_t * list (option Z) * A * T) :=
  match scs with
  | [] => Some (BEAM_OK, ths, a, k)
  | c :: scs' =>
      let '(warg, a) := al_alloc a sizeof_worker_arg in
      if warg =? NULL then Some (BEAM_ERR_NO_MEMORY, ths, a, k)
      else
        _ ← c;
        let '(rc, h, k) := pthread_create k warg in
        if negb (rc =? 0) then Some (BEAM_ERR_INVALID_ARG, <[i := None]> ths, al_free a warg, k)
        else start_workers scs' (S i) (<[i := Some h]> ths) a k
  end.

Definition beam_scheduler_pool_start (pool : option beam_scheduler_pool) code s k
    : option (beam_result_t * option beam_scheduler_pool * vm A * T) :=
  match pool with
  | None => Some (BEAM_ERR_INVALID_ARG, None, s, k)
  | Some po =>
      if running po then Some (BEAM_ERR_INVALID_ARG, Some po, s, k)
      else
        '(r, ths, a, k) ← start_workers (sched_cells po) 0 (thread_cells po) (alc s) k;
        Some (r, Some (set_started ths code (result_is_ok r) po), set_alc a s, k)
  end.

End PoolLife.

(** ** Worker threads *)

(** Where a worker is.  [stolen]: the process came from the stealing branch;
    [look]: the worker goes on to that branch, because the step reported
    BEAM_ERR_NOT_FOUND. *)
Inductive worker : Type :=
| WStart (warg : Z)                                (* about to free its argument *)
| WIdle                                            (* about to read pool->running *)
| WStep                                            (* about to dequeue *)
| WLook                                            (* about to steal *)
| WTaken (stolen : bool) (node p : Z)              (* unlinked, lock released *)
| WRunning (stolen : bool) (p : Z)                 (* about to execute *)
| WRan (stolen : bool) (p : Z) (res : beam_result_t)
| WQueueing (look : bool) (node p : Z)             (* node filled, lock not taken *)
| WQueued (look : bool) (p : Z)                    (* linked, lock released *)
| WDone.

Section Workers.
Context {A : Type} `{AllocOps A}.
Implicit Types (σ : sys A) (code : list beam_instruction) (w : worker).

Definition sys_free_block (x : Z) σ : sys A :=
  set_vm (set_alc (al_free (alc (vmach σ)) x) (vmach σ)) σ.

Definition after (look : bool) : worker := if look then WLook else WIdle.

(** The critical section of [beam_run_queue_dequeue] and [beam_run_queue_steal]. *)
Definition take_phase (levels : list Z) (stolen : bool) (rq : Z) σ : option (worker * sys A) :=
  q ← rqs σ !! rq;
  '(got, q) ← rq_take levels q;
  match got with
  | None => Some (after (negb stolen), put_rq rq q σ)
  | Some (node, p) => Some (WTaken stolen node p, put_rq rq q σ)
  end.

(** After the execution: the test, the reset of the reductions and the
    allocation of the node; without a node the process is dropped. *)
Definition ran_phase (stolen : bool) (p : Z) (res : beam_result_t) σ : option (worker * sys A) :=
  let look := negb stolen && bool_decide (res = BEAM_ERR_NOT_FOUND) in
  st ← beam_process_get_state p (vmach σ);
  if bool_decide (st = BEAM_PROC_STATE_RUNNABLE) ||
     (result_is_ok res && bool_decide (st = BEAM_PROC_STATE_RUNNING)) then
    s ← beam_process_set_reductions p BEAM_DEFAULT_REDUCTIONS (vmach σ);
    let '(node, a) := al_alloc (alc s) sizeof_run_queue_node in
    let σ := set_vm (set_alc a s) σ in
    if node =? NULL then Some (after look, σ) else Some (WQueueing look node p, σ)
  else Some (after look, σ).

(** One phase.  [None] is undefined behaviour, or an execution that does not
    return. *)
Definition worker_phase (rq : Z) code (run : bool) w σ : option (worker * sys A) :=
  match w with
  | WStart warg => Some (WIdle, sys_free_block warg σ)
  | WIdle => Some (if run then WStep else WDone, σ)
  | WStep => take_phase dequeue_order false rq σ
  | WLook => take_phase steal_order true rq σ
  | WTaken stolen node p =>
      let σ := sys_free_block node σ in
      s ← beam_process_set_state p BEAM_PROC_STATE_RUNNING (vmach σ);
      Some (WRunning stolen p, set_vm s σ)
  | WRunning stolen p =>
      match beam_emu_execute_code p code (vmach σ) with
      | Returned res _ s => Some (WRan stolen p res, set_vm s σ)
      | _ => None
      end
  | WRan stolen p res => ran_phase stolen p res σ
  | WQueueing look node p =>
      q ← rqs σ !! rq;
      q ← rq_push q BEAM_PRIO_NORMAL node p;
      Some (WQueued look p, put_rq rq q σ)
  | WQueued look p =>
      s ← beam_process_set_state p BEAM_PROC_STATE_RUNNABLE (vmach σ);
      Some (after look, set_vm s σ)
  | WDone => Some (WDone, σ)
  end.

Record pool_state : Type := PoolState {
  ps_sys : sys A;
  ps_running : bool;
  ps_workers : list worker;
}.

(** Any worker advances by a phase; the main thread clears [running]. *)
Inductive pool_step (rq : Z) code : pool_state → pool_state → Prop :=
| pool_phase σ run ws i w w' σ' :
    ws !! i = Some w → worker_phase rq code run w σ = Some (w', σ') →
    pool_step rq code (PoolState σ run ws) (PoolState σ' run (<[i := w']> ws))
| pool_stopped σ ws :
    pool_step rq code (PoolState σ true ws) (PoolState σ false ws).

End Workers.
Arguments pool_state : clear implicits.
