(* ===== verification/PoolRace.v ===== *)
(** Workers of the scheduler pool under interleaving
    (src/scheduler/beam_scheduler_loop.c, src/scheduler/run_queue.c): no process
    is ever run by two workers or run while it is queued, and what the unlocked
    write of [beam_run_queue_enqueue] can still do. *)
From stdpp Require Import relations.
From S2P Require Import Prelude Memory Term Alloc LinkedList Mailbox Process ProcessInv.
From S2P Require Import ProcessLife Emu EmuExec RunQueue Scheduler SchedulerProps Demo.
From S2P Require Import RoundRobin Pool.
From stdpp Require Import options.

(** ** What a worker holds *)

(** The block it has to free or to link. *)
Definition hand (w : worker) : option Z :=
  match w with
  | WStart x | WTaken _ x _ | WQueueing _ x _ => Some x
  | _ => None
  end.

(** The process that it alone may run or queue. *)
Definition held (w : worker) : option Z :=
  match w with
  | WTaken _ _ p | WRunning _ p | WRan _ p _ | WQueueing _ _ p => Some p
  | _ => None
  end.

(** The process it still writes to. *)
Definition named (w : worker) : option Z :=
  match w with
  | WQueued _ p => Some p
  | _ => held w
  end.

(** ** The shared state *)

Section Share.
Context {A : Type} `{AllocSpec A}.
Implicit Types (σ : sys A) (code : list beam_instruction) (w : worker) (Q : pqueue).

(** The queue at [rq] holds [Q]; the blocks in the workers' hands are [hs], the
    processes they hold [ps], those they may write to [ns].  Nodes have one
    holder, and so have processes. *)
Definition share_ok σ (rq : Z) Q (hs ps ns : list Z) : Prop :=
  ∃ q L B own, vm_ok (vmach σ) B own ∧
    rqs σ !! rq = Some q ∧ rq_rep q L ∧ values L = Q ∧
    (B !! rq = Some sizeof_beam_run_queue ∧ own !! rq = None) ∧
    (∀ n, n ∈ (concat L).*1 ++ hs → B !! n = Some sizeof_run_queue_node ∧ own !! n = None) ∧
    NoDup ((concat L).*1 ++ hs) ∧ NoDup (concat Q ++ ps) ∧
    (∀ p, p ∈ concat Q ++ ns → is_Some (procs (vmach σ) !! p)).

#[export] Instance share_ok_proper σ rq Q :
  Proper ((≡ₚ) ==> (≡ₚ) ==> (≡ₚ) ==> iff) (share_ok σ rq Q).
Proof.
  intros h1 h2 Hh p1 p2 Hp n1 n2 Hn. unfold share_ok.
  split; intros (q & L & B & own & Hvm & Hq & Hrep & HQ & [HB Ho] & Hns & Hnd & Hpd & Hl);
    exists q, L, B, own; split_and!; try done.
  - intros x. rewrite <-Hh. apply Hns.
  - by rewrite <-Hh.
  - by rewrite <-Hp.
  - intros x. rewrite <-Hn. apply Hl.
  - intros x. rewrite Hh. apply Hns.
  - by rewrite Hh.
  - by rewrite Hp.
  - intros x. rewrite Hn. apply Hl.
Qed.

Lemma share_start σ rq Q :
  rq_ok σ rq Q → NoDup (concat Q) → share_ok σ rq Q [] [] [].
Proof.
  intros (q & L & B & own & Hvm & Hq & Hrep & HQ & [HB Ho] & Hns & Hl) Hnd.
  exists q, L, B, own. setoid_rewrite app_nil_r. split_and!; try done. apply Hrep.
Qed.

(** Letting go of a process. *)
Lemma share_weaken σ rq Q hs ps ns ps' ns' :
  share_ok σ rq Q hs ps ns → ps' `sublist_of` ps → ns' ⊆ ns → share_ok σ rq Q hs ps' ns'.
Proof.
  intros (q & L & B & own & Hvm & Hq & Hrep & HQ & [HB Ho] & Hns & Hnd & Hpd & Hl) Hps Hn.
  exists q, L, B, own. split_and!; try done.
  - eapply sublist_NoDup; [done|]. by apply sublist_app.
  - intros x [Hx|Hx]%elem_of_app; apply Hl, elem_of_app; auto.
Qed.

Lemma share_free σ rq Q x hs ps ns :
  share_ok σ rq Q (x :: hs) ps ns → share_ok (sys_free_block x σ) rq Q hs ps ns.
Proof.
  intros (q & L & B & own & Hvm & Hq & Hrep & HQ & [HB Ho] & Hns & Hnd & Hpd & Hl).
  rewrite <-Permutation_middle in Hnd. apply NoDup_cons in Hnd as [Hx Hnd].
  destruct (Hns x) as [HBx Hox]; [apply elem_of_app; right; by left|].
  exists q, L, (delete x B), own. split_and!; try done.
  - by eapply vm_ok_free.
  - rewrite lookup_delete_ne; [done|]. intros ->. by rewrite HB in HBx.
  - intros n Hn. rewrite lookup_delete_ne by (by intros ->). apply Hns.
    rewrite elem_of_app, elem_of_cons. rewrite elem_of_app in Hn. tauto.
Qed.

Lemma share_proc σ rq Q hs ps ns p :
  share_ok σ rq Q hs ps ns → p ∈ ns → ∃ pr, procs (vmach σ) !! p = Some pr ∧ p ≠ NULL.
Proof.
  intros (q & L & B & own & Hvm & Hq & Hrep & HQ & [HB Ho] & Hns & Hnd & Hpd & Hl) Hp.
  destruct (Hl p) as [pr Hpr]; [apply elem_of_app; by right|]. exists pr. split; [done|].
  by destruct (vo_proc _ _ _ Hvm _ _ Hpr).
Qed.

(** A change to control blocks that keeps the machine well formed. *)
Lemma share_vm σ rq Q hs ps ns s' :
  share_ok σ rq Q hs ps ns →
  (∀ B own, vm_ok (vmach σ) B own → ∃ B' own', vm_ok s' B' own' ∧ keeps_unowned B own B' own') →
  (∀ p, is_Some (procs (vmach σ) !! p) → is_Some (procs s' !! p)) →
  share_ok (set_vm s' σ) rq Q hs ps ns.
Proof.
  intros (q & L & B & own & Hvm & Hq & Hrep & HQ & [HB Ho] & Hns & Hnd & Hpd & Hl) Hrun Hst.
  destruct (Hrun _ _ Hvm) as (B' & own' & Hvm' & Hk).
  exists q, L, B', own'. split_and!; try done.
  - by apply (Hk _ _ HB Ho).
  - by apply (Hk _ _ HB Ho).
  - intros n Hn. destruct (Hns n Hn). by apply Hk.
  - intros p Hp. by apply Hst, Hl.
Qed.

Lemma share_put σ rq Q hs ps ns p pr pr' :
  share_ok σ rq Q hs ps ns → procs (vmach σ) !! p = Some pr → (proc_ok pr → proc_ok pr') →
  heap pr' = heap pr → heap_capacity pr' = heap_capacity pr → mailbox pr' = mailbox pr →
  share_ok (set_vm (put_proc p pr' (vmach σ)) σ) rq Q hs ps ns.
Proof.
  intros Hs Hp Hok Hh Hc Hm. apply share_vm; [done| |].
  - intros B own Hvm. exists B, own. split; [|by auto].
    eapply vm_ok_put_proc; [done|done| |done..].
    destruct (vo_proc _ _ _ Hvm _ _ Hp) as (_ & ? & _). by apply Hok.
  - intros x Hx. apply lookup_insert_is_Some'. by right.
Qed.

Lemma share_state σ rq Q hs ps ns p st :
  share_ok σ rq Q hs ps ns → p ∈ ns →
  ∃ pr, procs (vmach σ) !! p = Some pr ∧
    beam_process_set_state p st (vmach σ) = Some (put_proc p (set_p_state st pr) (vmach σ)) ∧
    share_ok (set_vm (put_proc p (set_p_state st pr) (vmach σ)) σ) rq Q hs ps ns.
Proof.
  intros Hs Hp. destruct (share_proc _ _ _ _ _ _ _ Hs Hp) as (pr & Hpr & Hn). exists pr.
  split; [done|]. unfold beam_process_set_state, upd_proc. destruct (Z.eqb_spec p NULL); [done|].
  rewrite Hpr. split; [done|]. eapply share_put; [done..| |done|done|done].
  intros []. by split.
Qed.

Lemma share_alloc σ rq Q hs ps ns x a :
  share_ok σ rq Q hs ps ns → al_alloc (alc (vmach σ)) sizeof_run_queue_node = (x, a) →
  share_ok (set_vm (set_alc a (vmach σ)) σ) rq Q (if x =? NULL then hs else x :: hs) ps ns.
Proof.
  intros (q & L & B & own & Hvm & Hq & Hrep & HQ & [HB Ho] & Hns & Hnd & Hpd & Hl) Ea.
  destruct (vm_ok_alloc _ _ _ _ _ _ Hvm sizeof_run_queue_node_ok Ea)
    as [[-> Hvm1]|(Hx & _ & HBx & Hox & Hvm1)].
  - by exists q, L, B, own.
  - destruct (Z.eqb_spec x NULL) as [|_]; [done|].
    exists q, L, (<[x := sizeof_run_queue_node]> B), own. split_and!; try done.
    + rewrite lookup_insert_ne; [done|congruence].
    + intros n Hn. destruct (decide (n = x)) as [->|]; [by rewrite lookup_insert_eq|].
      rewrite lookup_insert_ne by done. apply Hns. revert Hn.
      rewrite !elem_of_app, elem_of_cons. tauto.
    + rewrite <-Permutation_middle. apply NoDup_cons. split; [|done].
      intros Hin. destruct (Hns x Hin). congruence.
Qed.

Lemma share_bound σ rq Q hs ps ns q L :
  share_ok σ rq Q hs ps ns → rqs σ !! rq = Some q → rq_rep q L → values L = Q →
  Z.of_nat (length (concat L)) < 2 ^ 64.
Proof.
  intros (q' & L' & B & own & Hvm & Hq' & Hrep' & HQ' & _ & Hns & Hnd & _) Hq Hrep HQ.
  assert (length (concat L) = length (concat L')) as ->.
  { rewrite <-(length_fmap snd (concat L)), <-(length_fmap snd (concat L')), <-!values_concat.
    congruence. }
  rewrite <-(length_fmap fst). eapply nodes_bound; [done|by apply NoDup_app in Hnd as [? _]|].
  intros n Hn. destruct (Hns n) as [? _]; [apply elem_of_app; by left|]. eauto.
Qed.

(** Unlinking: the worker gets the node and the process. *)
Lemma share_take levels st σ rq Q hs ps ns :
  Forall (λ i, i < Z.to_nat BEAM_NUM_PRIORITIES)%nat levels → share_ok σ rq Q hs ps ns →
  match pq_take levels Q with
  | None => ∃ σ', take_phase (Z.of_nat <$> levels) st rq σ = Some (after (negb st), σ') ∧
      share_ok σ' rq Q hs ps ns ∧ vmach σ' = vmach σ
  | Some (p, Q') => ∃ n σ', take_phase (Z.of_nat <$> levels) st rq σ = Some (WTaken st n p, σ') ∧
      share_ok σ' rq Q' (n :: hs) (p :: ps) (p :: ns) ∧ vmach σ' = vmach σ
  end.
Proof.
  intros Hlv Hs. pose proof Hs as (q & L & B & own & Hvm & Hq & Hrep & HQ & [HB Ho] & Hns & Hnd & Hpd & Hl).
  pose proof (rq_take_spec _ _ _ Hrep Hlv (share_bound _ _ _ _ _ _ _ _ Hs Hq Hrep HQ)) as Ht.
  unfold take_phase. rewrite Hq. cbn [mbind option_bind]. rewrite HQ in Ht.
  destruct (pq_take levels Q) as [[p Q']|].
  - destruct Ht as (n & q' & L' & -> & Hrep' & HQ' & Hperm). cbn [mbind option_bind].
    eexists n, _. split; [done|]. split; [|done].
    assert (Hv : concat Q ≡ₚ p :: concat Q').
    { by rewrite <-HQ, <-HQ', !values_concat, Hperm. }
    exists q', L', B, own. split_and!; try done.
    + apply lookup_insert_eq.
    + intros x Hx. apply Hns. revert Hx. rewrite Hperm, !elem_of_app. csimpl.
      rewrite !elem_of_cons. tauto.
    + rewrite Hperm in Hnd. csimpl in Hnd. by rewrite <-Permutation_middle.
    + rewrite Hv in Hpd. by rewrite <-Permutation_middle.
    + intros x Hx. apply Hl. revert Hx. rewrite Hv, !elem_of_app, !elem_of_cons. tauto.
  - rewrite Ht. cbn [mbind option_bind]. eexists. split; [done|]. split; [|done].
    exists q, L, B, own. split_and!; try done. apply lookup_insert_eq.
Qed.

(** Linking: the worker gives both to the queue. *)
Lemma share_push σ rq Q n p hs ps ns :
  share_ok σ rq Q (n :: hs) (p :: ps) (p :: ns) →
  ∃ q q', rqs σ !! rq = Some q ∧ rq_push q BEAM_PRIO_NORMAL n p = Some q' ∧
    share_ok (put_rq rq q' σ) rq (pq_enqueue Q (Z.to_nat BEAM_PRIO_NORMAL) p) hs ps (p :: ns).
Proof.
  intros (q & L & B & own & Hvm & Hq & Hrep & HQ & [HB Ho] & Hns & Hnd & Hpd & Hl).
  change BEAM_PRIO_NORMAL with (Z.of_nat 2). rewrite Nat2Z.id.
  destruct (Hns n) as [HBn _]; [apply elem_of_app; right; by left|].
  assert (n ≠ NULL) as Hn by (destruct (vm_ok_bounds _ _ _ _ _ Hvm HBn); unfold NULL; lia).
  destruct (lookup_lt_is_Some_2 L 2) as [l Hl2].
  { rewrite (rr_num _ _ Hrep). unfold BEAM_NUM_PRIORITIES, BEAM_PRIO_NUM_LEVELS. lia. }
  rewrite <-Permutation_middle in Hnd. apply NoDup_cons in Hnd as [Hnn Hnd].
  assert (n ∉ (concat L).*1) as Hnl by (intros ?; apply Hnn, elem_of_app; by left).
  destruct (rq_push_spec _ _ _ _ _ p Hrep Hl2 Hnl Hn) as (q' & E & Hrep').
  exists q, q'. split; [done|]. split; [done|].
  assert (HpL : concat (<[2%nat := l ++ [(n, p)]]> L) ≡ₚ (n, p) :: concat L).
  { destruct (concat_insert_split L 2 l (l ++ [(n, p)]) Hl2) as (L1 & L2 & E1 & E2 & _).
    rewrite E2, E1, !concat_app. csimpl. rewrite <- !app_assoc. solve_Permutation. }
  assert (HpQ : concat (pq_enqueue Q 2 p) ≡ₚ p :: concat Q).
  { apply pq_enqueue_perm. rewrite <-HQ. unfold values. rewrite length_fmap.
    by eapply lookup_lt_Some. }
  eexists q', _, B, own. split_and!; [done|apply lookup_insert_eq|done| |done|done| | | |].
  - rewrite <-HQ. by apply values_enqueue.
  - intros x Hx. apply Hns. revert Hx. rewrite HpL, !elem_of_app. csimpl.
    rewrite !elem_of_cons. tauto.
  - rewrite HpL. csimpl. by apply NoDup_cons.
  - rewrite HpQ. by rewrite <-Permutation_middle in Hpd.
  - intros x Hx. apply Hl. revert Hx. rewrite HpQ, !elem_of_app, !elem_of_cons. tauto.
Qed.

Lemma share_run σ rq Q hs ps ns p code r out s' :
  share_ok σ rq Q hs ps ns → p ∈ ns → beam_emu_execute_code p code (vmach σ) = Returned r out s' →
  share_ok (set_vm s' σ) rq Q hs ps ns.
Proof.
  intros Hs Hp Hx. eapply share_vm; [done| |].
  - intros B own Hvm. by destruct (execute_ok _ _ _ _ _ _ _ _ Hvm Hx).
  - intros x Hx0. pose proof Hs as (q & L & B & own & Hvm & _).
    destruct (execute_ok _ _ _ _ _ _ _ _ Hvm Hx) as [[Ho Hst] _].
    destruct (decide (x = p)) as [->|]; [by apply Hst|by rewrite Ho].
Qed.
End Share.

(** ** Phases keep the shares *)

Section Phases.
Context {A : Type} `{AllocSpec A}.
Implicit Types (σ : sys A) (code : list beam_instruction) (w : worker) (Q : pqueue).

(** The share of [w] next to that of the others. *)
Definition w_share σ (rq : Z) Q w (hs ps ns : list Z) : Prop :=
  share_ok σ rq Q (option_list (hand w) ++ hs) (option_list (held w) ++ ps)
    (option_list (named w) ++ ns).

Lemma after_share σ rq Q look hs ps ns :
  share_ok σ rq Q hs ps ns → w_share σ rq Q (after look) hs ps ns.
Proof. by destruct look. Qed.

Lemma take_phase_share levels st σ rq Q hs ps ns :
  Forall (λ i, i < Z.to_nat BEAM_NUM_PRIORITIES)%nat levels → share_ok σ rq Q hs ps ns →
  ∃ w' σ' Q', take_phase (Z.of_nat <$> levels) st rq σ = Some (w', σ') ∧
    w_share σ' rq Q' w' hs ps ns.
Proof.
  intros Hlv Hs. pose proof (share_take levels st σ rq Q hs ps ns Hlv Hs) as Ht.
  destruct (pq_take levels Q) as [[p Q']|].
  - destruct Ht as (n & σ' & E & Hs' & _). by exists (WTaken st n p), σ', Q'.
  - destruct Ht as (σ' & E & Hs' & _). eexists _, σ', Q. split; [done|]. by apply after_share.
Qed.

Lemma ran_phase_share st p res σ rq Q hs ps ns :
  share_ok σ rq Q hs (p :: ps) (p :: ns) →
  ∃ w' σ', ran_phase st p res σ = Some (w', σ') ∧ w_share σ' rq Q w' hs ps ns.
Proof.
  intros Hs. destruct (share_proc σ rq Q hs (p :: ps) (p :: ns) p Hs) as (pr & Hp & Hn); [by left|].
  assert (Hdrop : ∀ σ', share_ok σ' rq Q hs (p :: ps) (p :: ns) → share_ok σ' rq Q hs ps ns).
  { intros σ' Hs'. eapply share_weaken; [exact Hs'|by apply sublist_cons|set_solver]. }
  unfold ran_phase, beam_process_get_state, beam_process_set_reductions, upd_proc.
  destruct (Z.eqb_spec p NULL); [done|]. rewrite Hp. cbn [mbind option_bind].
  destruct (_ || _).
  - set (pr' := set_p_reductions _ pr).
    assert (Hs1 : share_ok (set_vm (put_proc p pr' (vmach σ)) σ) rq Q hs (p :: ps) (p :: ns)).
    { eapply share_put; [done|done| |done..]. intros []. by split. }
    destruct (al_alloc _ _) as [x a] eqn:Ea.
    pose proof (share_alloc _ _ _ _ _ _ _ _ Hs1 Ea) as Hs2. destruct (Z.eqb_spec x NULL).
    + eexists _, _. split; [done|]. apply after_share, Hdrop, Hs2.
    + eexists _, _. split; [done|]. exact Hs2.
  - eexists _, σ. split; [done|]. by apply after_share, Hdrop.
Qed.

(** Every phase but an execution is defined. *)
Lemma phase_total rq code run w σ Q hs ps ns :
  w_share σ rq Q w hs ps ns → (∀ st p, w ≠ WRunning st p) →
  ∃ w' σ' Q', worker_phase rq code run w σ = Some (w', σ') ∧ w_share σ' rq Q' w' hs ps ns.
Proof.
  intros Hs Hw. destruct w as [x| | | |st n p|st p|st p res|look n p|look p|];
    unfold w_share in Hs; cbn [worker_phase hand held named option_list app] in *.
  - eexists _, _, Q. split; [done|]. by apply share_free.
  - destruct run; by eexists _, σ, Q.
  - rewrite dequeue_order_eq. eapply take_phase_share; [apply levels_in_range|done].
  - rewrite steal_order_eq. eapply take_phase_share; [apply levels_in_range|done].
  - apply share_free in Hs.
    destruct (share_state _ _ _ _ _ _ p BEAM_PROC_STATE_RUNNING Hs) as (pr & _ & -> & Hs');
      [by left|]. by eexists _, _, Q.
  - by destruct (Hw st p).
  - destruct (ran_phase_share st p res _ _ _ _ _ _ Hs) as (w' & σ' & E & Hs').
    by exists w', σ', Q.
  - destruct (share_push _ _ _ _ _ _ _ _ Hs) as (q & q' & Hq & E & Hs').
    rewrite Hq. cbn [mbind option_bind]. rewrite E. by eexists _, _, _.
  - destruct (share_state _ _ _ _ _ _ p BEAM_PROC_STATE_RUNNABLE Hs) as (pr & _ & -> & Hs');
      [by left|]. eexists _, _, Q. split; [done|]. apply after_share.
    eapply share_weaken; [exact Hs'|done|set_solver].
  - by exists WDone, σ, Q.
Qed.

Lemma phase_share rq code run w σ Q hs ps ns w' σ' :
  w_share σ rq Q w hs ps ns → worker_phase rq code run w σ = Some (w', σ') →
  ∃ Q', w_share σ' rq Q' w' hs ps ns.
Proof.
  intros Hs E.
  assert ((∃ st p, w = WRunning st p) ∨ ∀ st p, w ≠ WRunning st p) as [(st & p & ->)|Hw].
  { destruct w; try (by right). left. eauto. }
  - cbn [worker_phase] in E. destruct (beam_emu_execute_code _ _ _) eqn:Hx; simplify_eq.
    exists Q. eapply share_run; [exact Hs| |done]. by left.
  - destruct (phase_total rq code run w σ Q hs ps ns Hs) as (w2 & σ2 & Q2 & E2 & Hs2);
      [by eauto|]. rewrite E in E2. simplify_eq. by exists Q2.
Qed.

Definition workers_ok (st : pool_state A) (rq : Z) Q : Prop :=
  share_ok (ps_sys st) rq Q (omap hand (ps_workers st)) (omap held (ps_workers st))
    (omap named (ps_workers st)).

(** Looking at one worker, and replacing it. *)
Lemma workers_share st rq Q i w :
  ps_workers st !! i = Some w →
  workers_ok st rq Q ↔ w_share (ps_sys st) rq Q w (omap hand (delete i (ps_workers st)))
    (omap held (delete i (ps_workers st))) (omap named (delete i (ps_workers st))).
Proof. intros Hi. unfold workers_ok. by rewrite !(omap_split _ _ _ _ Hi). Qed.

Lemma workers_insert σ run ws rq Q i w w' :
  ws !! i = Some w →
  w_share σ rq Q w' (omap hand (delete i ws)) (omap held (delete i ws)) (omap named (delete i ws)) →
  workers_ok (PoolState σ run (<[i := w']> ws)) rq Q.
Proof. intros Hi Hs. unfold workers_ok. simpl. by rewrite !(omap_split_insert _ _ _ _ w' Hi). Qed.

Lemma pool_step_ok rq code st st' Q :
  workers_ok st rq Q → pool_step rq code st st' → ∃ Q', workers_ok st' rq Q'.
Proof.
  intros Hok Hs. destruct Hs as [σ run ws i w w' σ' Hi E|σ ws]; [|by exists Q].
  apply (workers_share (PoolState σ run ws) _ _ i w Hi) in Hok.
  destruct (phase_share _ _ _ _ _ _ _ _ _ _ _ Hok E) as [Q' Hok'].
  exists Q'. by eapply workers_insert.
Qed.

Lemma pool_reach_ok rq code st st' Q :
  workers_ok st rq Q → rtc (pool_step rq code) st st' → ∃ Q', workers_ok st' rq Q'.
Proof.
  intros Hok Hs. revert Q Hok. induction Hs as [st|st1 st2 st3 H1 _ IH]; intros Q Hok; [by exists Q|].
  destruct (pool_step_ok _ _ _ _ _ Hok H1) as [Q' Hok']. by eapply IH.
Qed.

Lemma idle_workers_ok σ rq Q n run :
  rq_ok σ rq Q → NoDup (concat Q) → workers_ok (PoolState σ run (replicate n WIdle)) rq Q.
Proof.
  intros Hok Hnd. unfold workers_ok. simpl.
  assert (Hnil : ∀ f : worker → option Z, f WIdle = None → omap f (replicate n WIdle) = []).
  { intros f Hf. induction n as [|n IH]; [done|]. csimpl. by rewrite Hf. }
  rewrite !Hnil by done. by apply share_start.
Qed.

(** C3: Mutual exclusion in the worker pool: started on a run queue that holds
    no process twice, any number of workers, under every interleaving of their
    phases and of a stop, never have two of them holding the same process (from
    unlinking it until it is linked again), never hold one that is queued, and
    never queue one twice; the queue stays well formed, and no phase but an
    execution can be undefined. *)
Theorem workers_exclusive rq code σ Q n st :
  rq_ok σ rq Q → NoDup (concat Q) →
  rtc (pool_step rq code) (PoolState σ true (replicate n WIdle)) st →
  ∃ Q' q L, rqs (ps_sys st) !! rq = Some q ∧ rq_rep q L ∧ values L = Q' ∧ NoDup (concat Q') ∧
    (∀ i j w w' p, ps_workers st !! i = Some w → ps_workers st !! j = Some w' →
       held w = Some p → held w' = Some p → i = j) ∧
    (∀ i w p, ps_workers st !! i = Some w → held w = Some p → p ∉ concat Q') ∧
    (∀ i w, ps_workers st !! i = Some w → (∀ b p, w ≠ WRunning b p) →
       is_Some (worker_phase rq code (ps_running st) w (ps_sys st))).
Proof.
  intros Hok Hnd Hs.
  destruct (pool_reach_ok _ _ _ _ _ (idle_workers_ok σ rq Q n true Hok Hnd) Hs) as [Q' Hok'].
  pose proof Hok' as (q & L & B & own & _ & Hq & Hrep & HQ & _ & _ & _ & Hpd & _).
  apply NoDup_app in Hpd as (Hq1 & Hq2 & Hq3).
  exists Q', q, L. split_and!; try done.
  - intros. by eapply (omap_inj_index held).
  - intros i w p Hi Hw Hin. apply (Hq2 p Hin), list_elem_of_omap. exists w.
    split; [by eapply list_elem_of_lookup_2|done].
  - intros i w Hi Hw. apply (workers_share _ _ _ _ _ Hi) in Hok'.
    destruct (phase_total rq code (ps_running st) w _ _ _ _ _ Hok' Hw) as (w' & σ' & Q2 & -> & _).
    eauto.
Qed.
End Phases.
