(* ===== verification/PoolProps.v ===== *)
(** What the phases of a worker amount to (src/scheduler/beam_scheduler_loop.c):
    run without interruption they are one iteration of the worker's loop, and do
    what the abstract scheduler does; interrupted after the queue is unlocked, they bring an exited process back. *)
From stdpp Require Import relations.
From S2P Require Import Prelude Memory Term Alloc LinkedList Mailbox Process ProcessInv.
From S2P Require Import ProcessLife Emu EmuExec EmuSafe RunQueue Scheduler SchedulerProps Demo.
From S2P Require Import RoundRobin Pool PoolRace.
From stdpp Require Import options.

Section PoolProps.
Context {A : Type} `{AllocSpec A}.
Implicit Types (σ : sys A) (code : list beam_instruction) (w : worker) (Q : pqueue).

(** ** Sequential composition *)

(** A phase of a worker that nothing interrupts. *)
Definition phase_step (rq : Z) code (x y : worker * sys A) : Prop :=
  worker_phase rq code true x.1 x.2 = Some y.

Lemma take_phases levels st σ rq Q p σ' code :
  Forall (λ i, i < Z.to_nat BEAM_NUM_PRIORITIES)%nat levels → rq_ok σ rq Q →
  run_queue_take (Z.of_nat <$> levels) rq σ = Some (p, σ') →
  if p =? NULL then take_phase (Z.of_nat <$> levels) st rq σ = Some (after (negb st), σ')
  else ∃ n σ1, take_phase (Z.of_nat <$> levels) st rq σ = Some (WTaken st n p, σ1) ∧
    worker_phase rq code true (WTaken st n p) σ1 = Some (WRunning st p, σ').
Proof.
  intros Hlv Hok Ht. pose proof (rq_take_ok _ _ _ _ Hlv Hok) as Hspec.
  assert (Hp : p = NULL → pq_take levels Q = None).
  { intros ->. destruct (pq_take levels Q) as [[p' Q']|]; [|done].
    destruct Hspec as (σ2 & pr & E & _ & Hn & _). rewrite E in Ht. by simplify_eq. }
  assert (Hs : pq_take levels Q = None → p = NULL).
  { intros E. rewrite E in Hspec. destruct Hspec as (σ2 & E2 & _). rewrite E2 in Ht.
    by simplify_eq. }
  clear Hspec. unfold run_queue_take in Ht.
  destruct (Z.eqb_spec rq NULL) as [->|_].
  { by apply rq_ok_nonnull in Hok. }
  apply bind_Some in Ht as (q & Hq & Ht). apply bind_Some in Ht as ([got q'] & Hg & Ht).
  unfold take_phase. rewrite Hq. cbn [mbind option_bind]. rewrite Hg. cbn [mbind option_bind].
  destruct got as [[n p']|].
  - apply bind_Some in Ht as (s & Hst & Ht). simplify_eq. destruct (Z.eqb_spec p NULL) as [E|_].
    + specialize (Hp E). exfalso. pose proof Hok as (q2 & L & B & own & Hvm & Hq2 & Hrep & HQ & _ & Hns & _).
      assert (q2 = q) as -> by congruence.
      pose proof (rq_take_spec _ _ _ Hrep Hlv) as Hsp. rewrite HQ, Hp, Hg in Hsp.
      discriminate Hsp. rewrite <-(length_fmap fst).
      eapply nodes_bound; [done|by apply Hrep|]. intros k [? _]%Hns. eauto.
    + eexists n, _. split; [done|]. 
      cbn [worker_phase sys_free_block vmach set_vm put_rq]. by rewrite Hst.
  - simplify_eq. done.
Qed.

Lemma run_process_phases rq p st code σ r σ' :
  rq ≠ NULL → p ≠ NULL → run_process rq p code σ = Stepped r σ' →
  tc (phase_step rq code) (WRunning st p, σ)
    (after (negb st && bool_decide (r = BEAM_ERR_NOT_FOUND)), σ').
Proof.
  intros Hrq Hpn Hr. unfold run_process in Hr.
  destruct (beam_emu_execute_code p code (vmach σ)) as [res out s| | |] eqn:Hx; try done.
  destruct (requeue rq p res (set_vm s σ)) as [σ1|] eqn:Hq; [|done]. simplify_eq.
  eapply tc_rtc_r; [apply tc_once; unfold phase_step; cbn [worker_phase fst snd]; by rewrite Hx|].
  unfold requeue in Hq. apply bind_Some in Hq as (x & Hst & Hq).
  assert (Hphase : ran_phase st p r (set_vm s σ) = ran_phase st p r (set_vm s σ)) by done.
  unfold ran_phase at 2 in Hphase. rewrite Hst in Hphase. cbn [mbind option_bind] in Hphase.
  destruct (_ || _).
  2:{ simplify_eq. apply rtc_once. exact Hphase. }
  apply bind_Some in Hq as (s1 & Hs1 & Hq). rewrite Hs1 in Hphase. cbn [mbind option_bind] in Hphase.
  apply bind_Some in Hq as ([e σ2] & He & Hq). simplify_eq. unfold beam_run_queue_enqueue in He.
  destruct (Z.eqb_spec rq NULL) as [|_]; [done|]. destruct (Z.eqb_spec p NULL) as [|_]; [done|].
  change (BEAM_PRIO_NORMAL >=? BEAM_NUM_PRIORITIES) with false in He. cbn [orb] in He.
  apply bind_Some in He as (q & Hrq2 & He). cbn [vmach set_vm] in He.
  destruct (al_alloc (alc s1) sizeof_run_queue_node) as [x0 a] eqn:Ea.
  destruct (Z.eqb_spec x0 NULL); [simplify_eq; apply rtc_once; exact Hphase|].
  apply bind_Some in He as (q' & Hpush & He). apply bind_Some in He as (s2 & Hs2 & He). simplify_eq.
  eapply rtc_l; [exact Hphase|].
  eapply rtc_l; [unfold phase_step; cbn [worker_phase fst snd set_vm rqs] in *; rewrite Hrq2;
    cbn [mbind option_bind]; by rewrite Hpush|].
  apply rtc_once. unfold phase_step. cbn [worker_phase fst snd put_rq set_vm vmach].
  by rewrite Hs2.
Qed.

(** Where a turn starts: the step at the head of the loop, the stealing after a
    step that found nothing. *)
Definition turn (stolen : bool) : worker := if stolen then WLook else WIdle.
Definition turn_levels (stolen : bool) : list nat := if stolen then levels_up else levels_down.

Lemma turn_take rq code σ st w' σ' :
  take_phase (Z.of_nat <$> turn_levels st) st rq σ = Some (w', σ') →
  tc (phase_step rq code) (turn st, σ) (w', σ').
Proof.
  intros E. destruct st; cbn [turn turn_levels] in *.
  - apply tc_once. unfold phase_step. cbn [worker_phase fst snd]. by rewrite steal_order_eq.
  - eapply tc_l; [done|]. apply tc_once. unfold phase_step. cbn [worker_phase fst snd].
    by rewrite dequeue_order_eq.
Qed.

Lemma turn_in_range st : Forall (λ i, i < Z.to_nat BEAM_NUM_PRIORITIES)%nat (turn_levels st).
Proof. by destruct levels_in_range, st. Qed.

(** Taking a process and running it is what the sequential code does. *)
Lemma take_run_phases st σ rq Q code p σ1 r σ' :
  rq_ok σ rq Q → run_queue_take (Z.of_nat <$> turn_levels st) rq σ = Some (p, σ1) →
  (if p =? NULL then Stepped BEAM_ERR_NOT_FOUND σ1 else run_process rq p code σ1) = Stepped r σ' →
  tc (phase_step rq code) (turn st, σ)
    (after (negb st && bool_decide (r = BEAM_ERR_NOT_FOUND)), σ').
Proof.
  intros Hok Ht Hr. pose proof (take_phases _ st σ rq Q p σ1 code (turn_in_range st) Hok Ht) as Htp.
  destruct (Z.eqb_spec p NULL).
  - simplify_eq. rewrite bool_decide_true, andb_true_r by done. by apply turn_take.
  - destruct Htp as (x & σ2 & E1 & E2). eapply tc_rtc_r; [by apply turn_take|].
    eapply rtc_l; [exact E2|]. apply tc_rtc, run_process_phases; [by eapply rq_ok_nonnull|done|done].
Qed.

(** The phases are the code: a worker that nothing interrupts goes through one
    iteration of [scheduler_worker_thread]. *)
Lemma phases_are_iteration sched rq code σ Q r σ' :
  rq_ok σ rq Q → run_queue sched = rq → worker_iteration sched rq code σ = Stepped r σ' →
  tc (phase_step rq code) (WIdle, σ) (WIdle, σ').
Proof.
  intros Hok <- Hit. pose proof (rq_ok_nonnull _ _ _ Hok) as Hn. unfold worker_iteration in Hit.
  destruct (beam_scheduler_step (Some sched) code σ) as [r1 σ1| | |] eqn:Hst; try done.
  pose proof (scheduler_step_ok _ _ _ code Hok) as Hpr. rewrite Hst in Hpr.
  assert (H1 : tc (phase_step (run_queue sched) code) (turn false, σ)
      (after (bool_decide (r1 = BEAM_ERR_NOT_FOUND)), σ1)).
  { unfold beam_scheduler_step in Hst. destruct (Z.eqb_spec (run_queue sched) NULL); [done|].
    unfold beam_run_queue_dequeue in Hst. rewrite dequeue_order_eq in Hst.
    destruct (run_queue_take _ _ _) as [[p σ2]|] eqn:Ht; [|done]. by eapply (take_run_phases false). }
  destruct (decide (r1 = BEAM_ERR_NOT_FOUND)) as [->|Hr1].
  - rewrite bool_decide_true in H1 by done. eapply tc_transitive; [exact H1|].
    destruct (step_promise_stepped _ _ _ _ _ _ _ Hpr) as [Q1 Hok1].
    destruct (beam_run_queue_steal (run_queue sched) σ1) as [[p σ2]|] eqn:Ht; [|done].
    unfold beam_run_queue_steal in Ht. rewrite steal_order_eq in Ht.
    by eapply (take_run_phases true).
  - rewrite bool_decide_false in H1 by done. assert (σ' = σ1) as ->; [|exact H1].
    destruct r1; by simplify_eq.
Qed.

(** C22: Refinement: the phases of a worker that nothing interrupts do what the
    abstract scheduler does.  From the head of its loop, or from the stealing
    branch, a worker reaches the execution of the process that the queue puts
    first (the oldest of the highest level, for stealing of the lowest), which is
    then unlinked and marked running, and nothing else has changed; an empty
    queue sends it on to stealing, respectively back to the loop, and changes
    nothing.  When the execution returns, the worker reaches its loop again, or
    the stealing branch if a step reported BEAM_ERR_NOT_FOUND, and has put the
    process back exactly when it was preempted. *)
Theorem worker_turn_refines rq code σ Q stolen :
  rq_ok σ rq Q →
  match pq_take (turn_levels stolen) Q with
  | None => ∃ σ', tc (phase_step rq code) (turn stolen, σ) (after (negb stolen), σ') ∧
      vmach σ' = vmach σ ∧ rq_ok σ' rq Q
  | Some (p, Q1) => ∃ σ1, taken p σ σ1 ∧ rq_ok σ1 rq Q1 ∧
      tc (phase_step rq code) (turn stolen, σ) (WRunning stolen p, σ1) ∧
      ∀ res out s, beam_emu_execute_code p code (vmach σ1) = Returned res out s →
        ∃ pr σ', procs s !! p = Some pr ∧ requeued rq Q1 p res pr (set_vm s σ1) σ' ∧
          tc (phase_step rq code) (WRunning stolen p, σ1)
            (after (negb stolen && bool_decide (res = BEAM_ERR_NOT_FOUND)), σ')
  end.
Proof.
  intros Hok. pose proof (rq_ok_nonnull _ _ _ Hok) as Hn.
  destruct (take_ok _ σ rq Q (turn_in_range stolen) Hok) as (p & σ1 & Et & Ht).
  pose proof (take_phases _ stolen σ rq Q p σ1 code (turn_in_range stolen) Hok Et) as Hph.
  destruct (pq_take _ Q) as [[p' Q1]|].
  - destruct Ht as (<- & Hpn & Htk & Hok1). apply Z.eqb_neq in Hpn as Hpb. rewrite Hpb in Hph.
    destruct Hph as (x & σ2 & E1 & E2). exists σ1. split_and!; [done|done| |].
    + eapply tc_r; [by apply turn_take|exact E2].
    + intros res out s Hx. pose proof (run_process_ok _ _ _ p code Hok1 (taken_live _ _ _ Htk)) as Hs.
      unfold slice in Hs. rewrite Hx in Hs. destruct Hs as (pr & σ' & Er & Hp & Hrq & _).
      exists pr, σ'. split_and!; [done..|]. by apply run_process_phases.
  - destruct Ht as (-> & Hvm & Hok1). exists σ1. split_and!; [by apply turn_take|done..].
Qed.

(** ** The write after the unlock *)

Lemma worker_runs rq code σ run ws i w w' σ' Q :
  workers_ok (PoolState σ run ws) rq Q → ws !! i = Some w →
  worker_phase rq code run w σ = Some (w', σ') →
  ∃ Q', pool_step rq code (PoolState σ run ws) (PoolState σ' run (<[i := w']> ws)) ∧
    workers_ok (PoolState σ' run (<[i := w']> ws)) rq Q'.
Proof.
  intros Hok Hi E. assert (Hst : pool_step rq code (PoolState σ run ws)
    (PoolState σ' run (<[i := w']> ws))) by (by eapply pool_phase).
  destruct (pool_step_ok _ _ _ _ _ Hok Hst) as [Q' Hok']. by exists Q'.
Qed.

(** From a worker that found its process runnable to the end of the enqueue. *)
Lemma requeue_runs rq code σ run ws i st p res pr Q :
  workers_ok (PoolState σ run ws) rq Q → ws !! i = Some (WRan st p res) →
  procs (vmach σ) !! p = Some pr → state pr = BEAM_PROC_STATE_RUNNABLE →
  (al_alloc (alc (vmach σ)) sizeof_run_queue_node).1 ≠ NULL →
  ∃ σ' ws' Q' pr', rtc (pool_step rq code) (PoolState σ run ws) (PoolState σ' run ws') ∧
    workers_ok (PoolState σ' run ws') rq Q' ∧ p ∈ concat Q' ∧
    procs (vmach σ') !! p = Some pr' ∧ state pr' = BEAM_PROC_STATE_RUNNABLE.
Proof.
  intros Hok Hi Hp Hst Ha. destruct (al_alloc _ _) as [x a] eqn:Ea. cbn [fst] in Ha.
  pose proof (proj1 (workers_share (PoolState σ run ws) rq Q i _ Hi) Hok) as Hsh.
  destruct (share_proc _ _ _ _ _ _ p Hsh) as (pr0 & Hp0 & Hpn); [by left|].
  set (look := negb st && bool_decide (res = BEAM_ERR_NOT_FOUND)).
  set (pr1 := set_p_reductions BEAM_DEFAULT_REDUCTIONS pr).
  set (σ1 := set_vm (set_alc a (put_proc p pr1 (vmach σ))) σ).
  assert (E1 : worker_phase rq code run (WRan st p res) σ = Some (WQueueing look x p, σ1)).
  { cbn [worker_phase]. unfold ran_phase, beam_process_get_state, beam_process_set_reductions, upd_proc.
    destruct (Z.eqb_spec p NULL) as [|_]; [done|]. rewrite Hp. cbn [mbind option_bind].
    rewrite Hst, bool_decide_true by done. cbn [orb].
    change (alc (put_proc p _ (vmach σ))) with (alc (vmach σ)). rewrite Ea.
    by destruct (Z.eqb_spec x NULL). }
  destruct (worker_runs _ _ _ _ _ _ _ _ _ _ Hok Hi E1) as (Q1 & S1 & Hok1).
  set (ws1 := <[i := WQueueing look x p]> ws) in *.
  assert (Hi1 : ws1 !! i = Some (WQueueing look x p))
    by (apply list_lookup_insert_eq; by eapply lookup_lt_Some).
  pose proof (proj1 (workers_share (PoolState σ1 run ws1) rq Q1 i _ Hi1) Hok1) as Hsh1.
  destruct (share_push _ _ _ _ _ _ _ _ Hsh1) as (q & q' & Hq & Hpush & Hsh2).
  assert (E2 : worker_phase rq code run (WQueueing look x p) σ1 =
    Some (WQueued look p, put_rq rq q' σ1)).
  { cbn [worker_phase]. cbn [ps_sys] in Hq. rewrite Hq. cbn [mbind option_bind]. by rewrite Hpush. }
  assert (S2 : pool_step rq code (PoolState σ1 run ws1)
    (PoolState (put_rq rq q' σ1) run (<[i := WQueued look p]> ws1))) by (by eapply pool_phase).
  eexists _, _, (pq_enqueue Q1 (Z.to_nat BEAM_PRIO_NORMAL) p), pr1. split_and!.
  - eapply rtc_l; [exact S1|]. eapply rtc_l; [exact S2|apply rtc_refl].
  - by eapply workers_insert.
  - rewrite pq_enqueue_perm; [by left|]. destruct Hsh1 as (q0 & L & B & own & _ & _ & Hrep & HQ & _).
    rewrite <-HQ. unfold values. rewrite length_fmap, (rr_num _ _ Hrep).
    unfold BEAM_NUM_PRIORITIES, BEAM_PRIO_NUM_LEVELS, BEAM_PRIO_NORMAL. lia.
  - apply lookup_insert_eq.
  - done.
Qed.

(** C36: The race of [beam_run_queue_enqueue]: it marks the process runnable
    after it has released the lock.  If another worker takes the process in
    between and runs it to its exit, the late write makes it runnable again, and
    the worker that saw it exit puts it back into the queue; in the other order
    it would be dropped for good. *)
Theorem exited_process_returns rq code σ run ws Q i j look st p res out s' pr' :
  workers_ok (PoolState σ run ws) rq Q → i ≠ j →
  ws !! i = Some (WQueued look p) → ws !! j = Some (WRunning st p) →
  beam_emu_execute_code p code (vmach σ) = Returned res out s' →
  procs s' !! p = Some pr' → state pr' = BEAM_PROC_STATE_EXITED →
  (al_alloc (alc s') sizeof_run_queue_node).1 ≠ NULL →
  (∃ w', ran_phase st p res (set_vm s' σ) = Some (w', set_vm s' σ) ∧ held w' = None) ∧
  ∃ σ' ws' Q' pr2, rtc (pool_step rq code) (PoolState σ run ws) (PoolState σ' run ws') ∧
    workers_ok (PoolState σ' run ws') rq Q' ∧ p ∈ concat Q' ∧
    procs (vmach σ') !! p = Some pr2 ∧ state pr2 = BEAM_PROC_STATE_RUNNABLE.
Proof.
  intros Hok Hne Hi Hj Hx Hp Hst Ha.
  pose proof (proj1 (workers_share (PoolState σ run ws) rq Q j _ Hj) Hok) as Hsh.
  destruct (share_proc _ _ _ _ _ _ p Hsh) as (pr0 & Hp0 & Hpn); [by left|].
  split.
  { eexists. unfold ran_phase, beam_process_get_state. destruct (Z.eqb_spec p NULL) as [|_]; [done|].
    cbn [vmach set_vm]. rewrite Hp. cbn [mbind option_bind]. rewrite Hst.
    rewrite !bool_decide_false by done. rewrite andb_false_r. cbn [orb].
    split; [done|]. by destruct st, (bool_decide (res = BEAM_ERR_NOT_FOUND)). }
  assert (E1 : worker_phase rq code run (WRunning st p) σ = Some (WRan st p res, set_vm s' σ))
    by (cbn [worker_phase]; by rewrite Hx).
  destruct (worker_runs _ _ _ _ _ _ _ _ _ _ Hok Hj E1) as (Q1 & S1 & Hok1).
  set (ws1 := <[j := WRan st p res]> ws) in *.
  assert (Hi1 : ws1 !! i = Some (WQueued look p)) by (unfold ws1; by rewrite list_lookup_insert_ne).
  set (pr1 := set_p_state BEAM_PROC_STATE_RUNNABLE pr').
  assert (E2 : worker_phase rq code run (WQueued look p) (set_vm s' σ) =
    Some (after look, set_vm (put_proc p pr1 s') (set_vm s' σ))).
  { cbn [worker_phase]. unfold beam_process_set_state, upd_proc.
    destruct (Z.eqb_spec p NULL) as [|_]; [done|]. cbn [vmach set_vm]. by rewrite Hp. }
  destruct (worker_runs _ _ _ _ _ _ _ _ _ _ Hok1 Hi1 E2) as (Q2 & S2 & Hok2).
  edestruct (requeue_runs rq code _ run _ j st p res pr1 Q2 Hok2) as (σ' & ws' & Q3 & pr3 & S3 & Hr).
  - rewrite list_lookup_insert_ne by done. apply list_lookup_insert_eq. by eapply lookup_lt_Some.
  - apply lookup_insert_eq.
  - done.
  - exact Ha.
  - exists σ', ws', Q3, pr3. split; [|exact Hr].
    eapply rtc_l; [exact S1|]. eapply rtc_l; [exact S2|exact S3].
Qed.
End PoolProps.

(** ** Examples *)

(** A schedule names the worker that advances next. *)
Fixpoint run_schedule (rq : Z) (code : list beam_instruction) (schedule : list nat)
    (st : pool_state bump_heap) : option (pool_state bump_heap) :=
  match schedule with
  | [] => Some st
  | i :: schedule' =>
      w ← ps_workers st !! i;
      '(w', σ) ← worker_phase rq code (ps_running st) w (ps_sys st);
      run_schedule rq code schedule' (PoolState σ (ps_running st) (<[i := w']> (ps_workers st)))
  end.

Lemma run_schedule_steps rq code schedule st st' :
  run_schedule rq code schedule st = Some st' → rtc (pool_step rq code) st st'.
Proof.
  revert st. induction schedule as [|i l IH]; intros st Hs; [by simplify_eq/=|].
  cbn [run_schedule] in Hs. apply bind_Some in Hs as (w & Hi & Hs).
  apply bind_Some in Hs as ([w' σ] & Hw & Hs). eapply rtc_l; [|by apply IH].
  destruct st as [σ0 run ws]. by eapply pool_phase.
Qed.

Definition demo_halt : list beam_instruction := [simple_instr BEAM_OP_HALT 0 0 0 0].

Lemma demo_queue_nodup : NoDup (concat demo_queue).
Proof. apply (bool_decide_unpack (NoDup (concat demo_queue))). by vm_compute. Qed.

(** Two workers have a process each. *)
Lemma workers_exclusive_witness :
  ∃ st, rtc (pool_step demo_rq.1 demo_halt) (PoolState demo_sys true (replicate 2 WIdle)) st ∧
    ps_workers st = [WRunning false demo_p; WRunning false demo_two.1] ∧
    ∃ (Q' : pqueue) q, rqs (ps_sys st) !! demo_rq.1 = Some q ∧ NoDup (concat Q').
Proof.
  pose (start := PoolState demo_sys true (replicate 2 WIdle)).
  assert (ps_workers <$> run_schedule demo_rq.1 demo_halt [0; 0; 1; 1; 1; 0]%nat start =
    Some [WRunning false demo_p; WRunning false demo_two.1]) as Hw by (vm_compute; reflexivity).
  destruct (run_schedule demo_rq.1 demo_halt [0; 0; 1; 1; 1; 0]%nat start) as [st|] eqn:E; [|discriminate Hw].
  injection Hw as Hw. exists st. apply run_schedule_steps in E.
  destruct (workers_exclusive demo_rq.1 demo_halt demo_sys demo_queue 2 st demo_sys_ok
    demo_queue_nodup E) as (Q' & q & L & Hq & _ & _ & Hnd & _).
  exact (conj E (conj Hw (ex_intro _ Q' (ex_intro _ q (conj Hq Hnd))))).
Defined.

Lemma worker_turn_refines_witness :
  ∃ σ1, taken demo_p demo_sys σ1 ∧
    tc (phase_step demo_rq.1 demo_halt) (WIdle, demo_sys) (WRunning false demo_p, σ1).
Proof.
  pose proof (worker_turn_refines demo_rq.1 demo_halt demo_sys demo_queue false demo_sys_ok) as Ht.
  change (pq_take (turn_levels false) demo_queue) with (Some (demo_p, [[]; []; [demo_two.1]; []])) in Ht.
  destruct Ht as (σ1 & Htk & _ & Hs & _). exact (ex_intro _ σ1 (conj Htk Hs)).
Defined.

(** The first process with one reduction left, alone in the queue. *)
Definition demo_tired : sys bump_heap :=
  enqueued demo_p (set_vm (put_proc demo_p (set_p_reductions 1 demo_pr) (vmach demo_rq.2)) demo_rq.2).

Lemma demo_tired_ok : rq_ok demo_tired demo_rq.1 [[]; []; [demo_p]; []].
Proof.
  change [[]; []; [demo_p]; []] with (pq_enqueue (replicate 4 []) 2 demo_p).
  apply (enqueued_ok _ _ _ (set_p_reductions 1 demo_pr)); [|apply lookup_insert_eq|by vm_compute].
  apply (rq_ok_run demo_rq.2); [exact demo_rq_ok| |].
  - intros B own Hok. exists B, own. split; [|by auto].
    assert (procs (vmach demo_rq.2) !! demo_p = Some demo_pr) as Hp by by vm_compute.
    eapply vm_ok_put_proc; [exact Hok|exact Hp| |done..].
    destruct (vo_proc _ _ _ Hok _ _ Hp) as (_ & Hpr & _). destruct Hpr. by split.
  - intros q Hq. apply lookup_insert_is_Some'. by right.
Qed.

(** The first worker has queued the process again and is about to mark it
    runnable; the second has already taken it, and will run it to its exit. *)
Definition demo_race : option (pool_state bump_heap) :=
  run_schedule demo_rq.1 demo_halt [0; 0; 0; 0; 0; 0; 1; 1; 1]%nat
    (PoolState demo_tired true (replicate 2 WIdle)).

(** The last premises of the race, as a test. *)
Definition exits (p : Z) (code : list beam_instruction) (s : vm bump_heap) : bool :=
  match beam_emu_execute_code p code s with
  | Returned _ _ s' =>
      bool_decide (state <$> procs s' !! p = Some BEAM_PROC_STATE_EXITED) &&
      bool_decide ((al_alloc (alc s') sizeof_run_queue_node).1 ≠ NULL)
  | _ => false
  end.

Lemma demo_race_workers :
  ps_workers <$> demo_race = Some [WQueued false demo_p; WRunning false demo_p] ∧
  exits demo_p demo_halt <$> (vmach ∘ ps_sys <$> demo_race) = Some true ∧
  ps_running <$> demo_race = Some true.
Proof. split; [|split]; vm_compute; reflexivity. Qed.

Lemma exited_process_returns_witness :
  ∃ st st' Q' pr, rtc (pool_step demo_rq.1 demo_halt) (PoolState demo_tired true (replicate 2 WIdle)) st ∧
    rtc (pool_step demo_rq.1 demo_halt) st st' ∧ exits demo_p demo_halt (vmach (ps_sys st)) = true ∧
    workers_ok st' demo_rq.1 Q' ∧ demo_p ∈ concat Q' ∧
    procs (vmach (ps_sys st')) !! demo_p = Some pr ∧ state pr = BEAM_PROC_STATE_RUNNABLE.
Proof.
  destruct demo_race_workers as (Hw & Hx & Hr). destruct demo_race as [st|] eqn:E; [|discriminate Hw].
  injection Hw as Hw. injection Hx as Hx. injection Hr as Hr. apply run_schedule_steps in E.
  destruct (pool_reach_ok _ _ _ _ _
    (idle_workers_ok demo_tired demo_rq.1 [[]; []; [demo_p]; []] 2 true demo_tired_ok
      (NoDup_singleton demo_p)) E) as [Q Hok].
  destruct st as [σ run ws]. cbn [ps_sys ps_workers ps_running compose] in *. subst run ws.
  pose proof Hx as Hx'. unfold exits in Hx'.
  destruct (beam_emu_execute_code demo_p demo_halt (vmach σ)) as [res out s'| | |] eqn:Ex;
    [|discriminate Hx'..].
  apply andb_true_iff in Hx' as [Hst Ha]. apply bool_decide_eq_true_1 in Hst, Ha.
  destruct (procs s' !! demo_p) as [pr'|] eqn:Hp; [|discriminate Hst]. injection Hst as Hst.
  destruct (exited_process_returns demo_rq.1 demo_halt σ true _ Q 0 1 false false demo_p res out s' pr'
    Hok ltac:(discriminate) eq_refl eq_refl Ex Hp Hst Ha) as (_ & σ' & ws' & Q' & pr2 & Hs & Hr2).
  eexists _, _, Q', pr2. exact (conj E (conj Hs (conj Hx Hr2))).
Defined.
