(* ===== verification/PoolLife.v ===== *)
(** The life cycle of the scheduler pool
    (src/scheduler/beam_scheduler_loop.c): creation and destruction balance,
    start and stop balance, and what the error paths leave behind. *)
From S2P Require Import Prelude Memory Term Alloc LinkedList HashChain Blocks Mailbox Process.
From S2P Require Import Demo Emu RunQueue Scheduler Pool.
From stdpp Require Import options.

(** ** The thread library *)

(** A creation adds a thread or fails; after a join the thread is gone. *)
Class ThreadSpec (T : Type) `{ThreadOps T} : Type := {
  live : T → gset Z;
  pthread_create_spec k arg rc h k' :
    pthread_create k arg = (rc, h, k') →
    (rc = 0 ∧ (h ∉ live k) ∧ live k' = ({[h]} ∪ live k)) ∨ (rc ≠ 0 ∧ live k' = live k);
  pthread_join_spec k h : h ∈ live k → live (pthread_join k h).2 = live k ∖ {[h]};
}.

Section PoolLife.
Context {A : Type} `{AllocSpec A} {T : Type} `{ThreadSpec T}.
Implicit Types (s : vm A) (a : A) (k : T) (po : beam_scheduler_pool).

Lemma set_alc_same s : set_alc (alc s) s = s.
Proof. by destruct s. Qed.

(** ** Creation and destruction *)

(** The pointers a destructor frees. *)
Definition live_ptrs (ptrs : list Z) : list Z := filter (.≠ NULL) ptrs.

Lemma live_ptrs_all ptrs : Forall (.≠ NULL) ptrs → live_ptrs ptrs = ptrs.
Proof.
  induction 1 as [|p ptrs Hp _ IH]; [done|]. unfold live_ptrs in *.
  by rewrite filter_cons_True, IH.
Qed.

Lemma live_ptrs_null ptrs : Forall (.≠ NULL) ptrs → live_ptrs (ptrs ++ [NULL]) = ptrs.
Proof.
  intros Hn. unfold live_ptrs. rewrite filter_app. fold (live_ptrs ptrs).
  rewrite live_ptrs_all by done. by rewrite app_nil_r.
Qed.

Lemma destroy_schedulers_ok ptrs s B ps :
  extends (alc s) B (live_ptrs ptrs ++ ps) →
  ∃ a', destroy_schedulers (Some <$> ptrs) s = Some (set_alc a' s) ∧ extends a' B ps.
Proof.
  revert s. induction ptrs as [|p ptrs IH]; intros s Hx.
  - exists (alc s). by rewrite set_alc_same.
  - csimpl. unfold beam_scheduler_destroy. unfold live_ptrs in Hx.
    destruct (Z.eqb_spec p NULL) as [->|Hp]; [by apply IH|].
    rewrite filter_cons_True in Hx by done.
    destruct (IH (set_alc (al_free (alc s) p) s)) as (a' & -> & Hx').
    { by apply extends_free. }
    by exists a'.
Qed.

Lemma create_schedulers_one m i j rq cells s p a :
  rq ≠ NULL → al_alloc (alc s) sizeof_beam_scheduler = (p, a) → p ≠ NULL →
  create_schedulers (S i) j rq (cells ++ replicate (S m) None) s =
    create_schedulers i (S j) rq (<[j := Some p]> (cells ++ replicate (S m) None)) (set_alc a s).
Proof.
  intros Hrq E Hp. cbn [create_schedulers]. unfold beam_scheduler_create.
  destruct (Z.eqb_spec rq NULL) as [|_]; [done|]. rewrite E. apply Z.eqb_neq in Hp as Hp'.
  rewrite Hp'. cbn iota zeta. by rewrite Hp'.
Qed.

(** A failure leaves NULL and unwritten cells behind. *)
Lemma create_schedulers_ok m ptrs rq s B ps :
  rq ≠ NULL → Forall (.≠ NULL) ptrs → extends (alc s) B (ptrs ++ ps) →
  ∃ ok cells a', create_schedulers m (length ptrs) rq ((Some <$> ptrs) ++ replicate m None) s =
      (ok, cells, set_alc a' s) ∧
    if (ok : bool) then ∃ qs, cells = Some <$> qs ∧ length qs = (length ptrs + m)%nat ∧
      Forall (.≠ NULL) qs ∧ extends a' B (qs ++ ps)
    else ∃ qs i j cj sj, cells = (Some <$> qs) ++ Some NULL :: replicate j None ∧
      (length qs + 1 + j = length ptrs + m)%nat ∧ Forall (.≠ NULL) qs ∧ extends a' B (qs ++ ps) ∧
      length qs = (length ptrs + i)%nat ∧
      create_schedulers i (length ptrs) rq ((Some <$> ptrs) ++ replicate m None) s = (true, cj, sj) ∧
      (al_alloc (alc sj) sizeof_beam_scheduler).1 = NULL.
Proof.
  intros Hrq. revert ptrs s. induction m as [|m IH]; intros ptrs s Hn Hx; cbn [create_schedulers].
  - eexists _, _, (alc s). rewrite set_alc_same. split; [done|]. exists ptrs.
    rewrite app_nil_r. split_and!; [done|lia|done..].
  - unfold beam_scheduler_create. destruct (Z.eqb_spec rq NULL) as [|_]; [done|].
    destruct (al_alloc (alc s) sizeof_beam_scheduler) as [p a1] eqn:E.
    assert (alloc_size sizeof_beam_scheduler) as Hs by done.
    assert (Hcells : ∀ x, <[length ptrs := Some x]> ((Some <$> ptrs) ++ replicate (S m) None) =
      (Some <$> ptrs) ++ Some x :: replicate m None).
    { intros x. rewrite insert_app_r_alt by (by rewrite length_fmap).
      by rewrite length_fmap, Nat.sub_diag. }
    destruct (extends_alloc _ _ _ _ _ _ Hx Hs E) as [[-> Hx1]|[Hp Hx1]].
    + eexists _, _, a1. split; [reflexivity|]. rewrite Hcells. eexists ptrs, 0%nat, m, _, s.
      split_and!; [done|lia|done|done|lia|done|by rewrite E].
    + apply Z.eqb_neq in Hp as Hp'. rewrite Hp'. cbn iota zeta. rewrite Hp', Hcells.
      assert (Hone : ∀ i, create_schedulers (S i) (length ptrs) rq
          ((Some <$> ptrs) ++ replicate (S m) None) s =
        create_schedulers i (S (length ptrs)) rq ((Some <$> ptrs) ++ Some p :: replicate m None)
          (set_alc a1 s)) by (intros i; by rewrite (create_schedulers_one _ _ _ _ _ _ p a1), Hcells).
      destruct (IH (ptrs ++ [p]) (set_alc a1 s)) as (ok & cells & a' & E' & Hr).
      { apply Forall_app_2; [done|by apply Forall_singleton]. }
      { cbn [alc set_alc]. eapply extends_perm; [|exact Hx1]. solve_Permutation. }
      rewrite length_app, fmap_app, <-app_assoc in E'. cbn [length fmap list_fmap app] in E'.
      rewrite Nat.add_1_r in E'. rewrite E'. exists ok, cells, a'. split; [reflexivity|].
      rewrite length_app in Hr. cbn [length] in Hr. destruct ok.
      * destruct Hr as (qs & -> & Hl & ? & ?). exists qs. split_and!; [done|lia|done..].
      * destruct Hr as (qs & i & j & cj & sj & -> & Hl & ? & ? & Hi & Ej & Hz).
        exists qs, (S i), j, cj, sj. split_and!; [done|lia|done|done|lia| |done].
        rewrite Hone. by rewrite fmap_app, <-app_assoc, Nat.add_1_r in Ej.
Qed.

(** A pool whose cells are all written. *)
Definition pool_ok po (ptrs : list Z) : Prop :=
  sched_cells po = Some <$> ptrs ∧ Forall (.≠ NULL) ptrs ∧
  length (thread_cells po) = length ptrs ∧ schedulers po ≠ NULL ∧ threads po ≠ NULL.

Lemma pool_destroy_ok p po ptrs s k B ps :
  sched_cells po = Some <$> ptrs → schedulers po ≠ NULL → threads po ≠ NULL →
  running po = false →
  extends (alc s) B (live_ptrs ptrs ++ schedulers po :: threads po :: p :: ps) →
  ∃ a', beam_scheduler_pool_destroy (Some (p, po)) s k = Some (set_alc a' s, k) ∧ extends a' B ps.
Proof.
  intros Hc Hs Ht Hr Hx. unfold beam_scheduler_pool_destroy. rewrite Hr, Hc.
  cbn [mbind option_bind]. destruct (Z.eqb_spec (schedulers po) NULL) as [|_]; [done|].
  destruct (destroy_schedulers_ok _ _ _ _ Hx) as (a1 & -> & Hx1). cbn [mbind option_bind].
  unfold free_if. destruct (Z.eqb_spec (schedulers po) NULL) as [|_]; [done|].
  destruct (Z.eqb_spec (threads po) NULL) as [|_]; [done|].
  eexists. split; [reflexivity|]. by do 3 apply extends_free.
Qed.

(** The three blocks of the pool itself. *)
Lemma pool_sizes_ok n :
  0 < n < 2 ^ 32 →
  alloc_size sizeof_beam_scheduler_pool ∧ alloc_size (sizeof_pointer * n) ∧
  alloc_size (sizeof_pthread_t * n).
Proof.
  intros. unfold alloc_size, sizeof_beam_scheduler_pool, sizeof_pointer, sizeof_pthread_t. lia.
Qed.

(** The pool before its schedulers are created. *)
Definition fresh_pool (n rq sp tp : Z) : beam_scheduler_pool :=
  {| num_workers := n; schedulers := sp; sched_cells := replicate (Z.to_nat n) None; threads := tp;
     thread_cells := replicate (Z.to_nat n) None; pool_run_queue := rq; pool_code := [];
     running := false |}.

(** Reading an unwritten cell. *)
Lemma destroy_garbage cells cells' s : destroy_schedulers (cells ++ None :: cells') s = None.
Proof.
  revert s. induction cells as [|c cells IH]; intros s; [done|]. cbn [app destroy_schedulers].
  destruct c; [|done]. apply IH.
Qed.

Lemma pool_destroy_garbage p po cells cells' s k :
  sched_cells po = cells ++ None :: cells' → schedulers po ≠ NULL → running po = false →
  beam_scheduler_pool_destroy (Some (p, po)) s k = None.
Proof.
  intros Hc Hs Hr. unfold beam_scheduler_pool_destroy. rewrite Hr, Hc. cbn [mbind option_bind].
  destruct (Z.eqb_spec (schedulers po) NULL) as [|_]; [done|]. by rewrite destroy_garbage.
Qed.

(** The allocation that fails, in the order of the requests.  [garbage]: some
    cells of the array of schedulers have not been written by then. *)
Inductive create_fails (n rq : Z) s : bool → Prop :=
| cf_pool :
    (al_alloc (alc s) sizeof_beam_scheduler_pool).1 = NULL → create_fails n rq s false
| cf_schedulers p a1 :
    al_alloc (alc s) sizeof_beam_scheduler_pool = (p, a1) → p ≠ NULL →
    (al_alloc a1 (sizeof_pointer * n)).1 = NULL → create_fails n rq s false
| cf_threads p a1 sp a2 :
    al_alloc (alc s) sizeof_beam_scheduler_pool = (p, a1) → p ≠ NULL →
    al_alloc a1 (sizeof_pointer * n) = (sp, a2) → sp ≠ NULL →
    (al_alloc a2 (sizeof_pthread_t * n)).1 = NULL → create_fails n rq s true
| cf_scheduler p a1 sp a2 tp a3 (i : nat) cells si :
    al_alloc (alc s) sizeof_beam_scheduler_pool = (p, a1) → p ≠ NULL →
    al_alloc a1 (sizeof_pointer * n) = (sp, a2) → sp ≠ NULL →
    al_alloc a2 (sizeof_pthread_t * n) = (tp, a3) → tp ≠ NULL → Z.of_nat i < n →
    create_schedulers i 0 rq (replicate (Z.to_nat n) None) (set_alc a3 s) = (true, cells, si) →
    (al_alloc (alc si) sizeof_beam_scheduler).1 = NULL →
    create_fails n rq s (bool_decide (Z.of_nat i + 1 < n)).

(** What a creation leads to. *)
Definition created (n rq : Z) s k B (o : option (option (Z * beam_scheduler_pool) * vm A * T))
    : Prop :=
  match o with
  | Some (None, s', k') =>
      create_fails n rq s false ∧ k' = k ∧ ∃ a', s' = set_alc a' s ∧ al_rep a' B
  | Some (Some (p, po), s', k') =>
      k' = k ∧ running po = false ∧ pool_run_queue po = rq ∧
      ∃ ptrs, sched_cells po = Some <$> ptrs ∧ length ptrs = Z.to_nat n ∧ NoDup ptrs ∧
        ∃ a', beam_scheduler_pool_destroy (Some (p, po)) s' k = Some (set_alc a' s, k) ∧ al_rep a' B
  | None => create_fails n rq s true
  end.

Definition fill_pool (n rq p sp tp : Z) s k : option (option (Z * beam_scheduler_pool) * vm A * T) :=
  let '(ok, cells, s) := create_schedulers (Z.to_nat n) 0 rq (replicate (Z.to_nat n) None) s in
  let po := set_cells cells (fresh_pool n rq sp tp) in
  if (ok : bool) then Some (Some (p, po), s, k)
  else '(s, k) ← beam_scheduler_pool_destroy (Some (p, po)) s k; Some (None, s, k).

Lemma fill_pool_ok n rq p sp tp s k B a1 a2 a3 :
  al_alloc (alc s) sizeof_beam_scheduler_pool = (p, a1) → p ≠ NULL →
  al_alloc a1 (sizeof_pointer * n) = (sp, a2) → sp ≠ NULL → rq ≠ NULL →
  al_alloc a2 (sizeof_pthread_t * n) = (tp, a3) → tp ≠ NULL → 0 < n →
  extends a3 B [tp; sp; p] → created n rq s k B (fill_pool n rq p sp tp (set_alc a3 s) k).
Proof.
  intros E1 Hp E2 Hsp Hrq E3 Htp Hn Hx3. unfold fill_pool.
  destruct (create_schedulers_ok (Z.to_nat n) [] rq (set_alc a3 s) B [tp; sp; p] Hrq)
    as (ok & cells & a' & E & Hr); [done|exact Hx3|].
  cbn [length fmap list_fmap app] in E |- *. rewrite E.
  change (set_alc a' (set_alc a3 s)) with (set_alc a' s). destruct ok.
  - destruct Hr as (qs & -> & Hl & Hq & Hx4). split_and!; [done..|]. exists qs.
    split_and!; [done|exact Hl|by apply extends_nodup, NoDup_app in Hx4 as [? _]|].
    edestruct (pool_destroy_ok p (set_cells (Some <$> qs) (fresh_pool n rq sp tp)) qs
      (set_alc a' s) k B []) as (a4 & E4 & Hx5); [done..| |].
    + rewrite live_ptrs_all by done. eapply extends_perm; [|exact Hx4].
      cbn [schedulers threads set_cells fresh_pool]. solve_Permutation.
    + exists a4. split; [exact E4|]. by apply extends_nil.
  - destruct Hr as (qs & i & j & cj & sj & -> & Hl & Hq & Hx4 & Hi & Ej & Hz). cbn [length plus] in Hi, Hl.
    assert (create_fails n rq s (bool_decide (Z.of_nat i + 1 < n))) as Hcf
      by (eapply (cf_scheduler n rq s p a1 sp a2 tp a3 i cj sj); try done; lia).
    destruct j as [|j].
    + rewrite bool_decide_false in Hcf by lia.
      edestruct (pool_destroy_ok p (set_cells ((Some <$> qs) ++ [Some NULL]) (fresh_pool n rq sp tp))
        (qs ++ [NULL]) (set_alc a' s) k B []) as (a4 & E4 & Hx5); [|done..| |].
      * by rewrite fmap_app.
      * rewrite live_ptrs_null by done. eapply extends_perm; [|exact Hx4].
        cbn [schedulers threads set_cells fresh_pool]. solve_Permutation.
      * change (replicate 0 (@None Z)) with (@nil (option Z)). cbn zeta. rewrite E4. cbn [mbind option_bind].
        split_and!; [done..|]. exists a4. split; [done|]. by apply extends_nil.
    + rewrite bool_decide_true in Hcf by lia.
      rewrite (pool_destroy_garbage _ _ ((Some <$> qs) ++ [Some NULL]) (replicate j None));
        [done|cbn [sched_cells set_cells]; by rewrite <-app_assoc|done|done].
Qed.

(** C23: Creating a pool of [n] workers ends in one of three ways.  It succeeds,
    with [n] distinct schedulers and no thread, and destroying it gives every
    block back.  Or an allocation fails (that of the pool, of the array of
    schedulers, or of the last scheduler) and every block is given back.  Or it
    is undefined, and then an allocation failed while cells of the array of
    schedulers were still unwritten: that of the array of threads, or of a
    scheduler before the last.  When no allocation fails it therefore succeeds. *)
Theorem pool_life n rq s k B :
  0 < n < 2 ^ 32 → rq ≠ NULL → al_rep (alc s) B →
  created n rq s k B (beam_scheduler_pool_create n rq s k).
Proof.
  intros Hn Hrq Hrep. destruct (pool_sizes_ok n Hn) as (S1 & S2 & S3). apply extends_nil in Hrep.
  unfold beam_scheduler_pool_create. destruct (Z.eqb_spec n 0) as [|_]; [lia|].
  destruct (Z.eqb_spec rq NULL) as [|_]; [done|]. cbn [orb].
  destruct (al_alloc (alc s) sizeof_beam_scheduler_pool) as [p a1] eqn:E1.
  destruct (extends_alloc _ _ _ _ _ _ Hrep S1 E1) as [[-> Hx1]|[Hp Hx1]].
  { split_and!; [apply cf_pool; by rewrite E1|done|]. exists a1. split; [done|]. by apply extends_nil. }
  destruct (Z.eqb_spec p NULL) as [|_]; [done|]. cbn [alc set_alc].
  destruct (al_alloc a1 (sizeof_pointer * n)) as [sp a2] eqn:E2.
  destruct (al_alloc a2 (sizeof_pthread_t * n)) as [tp a3] eqn:E3.
  destruct (extends_alloc _ _ _ _ _ _ Hx1 S2 E2) as [[-> Hx2]|[Hsp Hx2]].
  { change (NULL =? NULL) with true. cbn [orb]. unfold beam_scheduler_pool_destroy, free_if.
    cbn [running schedulers threads mbind option_bind].
    change (NULL =? NULL) with true. cbn [mbind option_bind].
    split_and!; [eapply cf_schedulers; [done..|by rewrite E2]|done|].
    destruct (extends_alloc _ _ _ _ _ _ Hx2 S3 E3) as [[-> Hx3]|[Htp Hx3]].
    - eexists. split; [reflexivity|]. apply extends_nil. by apply extends_free.
    - destruct (Z.eqb_spec tp NULL) as [|_]; [done|].
      eexists. split; [reflexivity|]. apply extends_nil. by do 2 apply extends_free. }
  destruct (Z.eqb_spec sp NULL) as [|_]; [done|]. cbn [orb].
  destruct (extends_alloc _ _ _ _ _ _ Hx2 S3 E3) as [[-> Hx3]|[Htp Hx3]].
  - change (NULL =? NULL) with true.
    rewrite (pool_destroy_garbage _ _ [] (replicate (pred (Z.to_nat n)) None)); [|simpl|done|done].
    + eapply cf_threads; [done..|by rewrite E3].
    + by replace (Z.to_nat n) with (S (pred (Z.to_nat n))) at 1 by lia.
  - destruct (Z.eqb_spec tp NULL) as [|_]; [done|].
    change (set_alc a3 (set_alc a1 s)) with (set_alc a3 s). apply (fill_pool_ok n rq p sp tp s k B a1 a2 a3); try done; lia.
Qed.

(** The loop that creates the schedulers, cut after the first [i]. *)
Lemma create_schedulers_cut i m j rq cells s cells' s' :
  create_schedulers i j rq cells s = (true, cells', s') →
  create_schedulers (i + m) j rq cells s = create_schedulers m (j + i) rq cells' s'.
Proof.
  revert j cells s. induction i as [|i IH]; intros j cells s Hc; cbn [create_schedulers plus] in *.
  - simplify_eq. by rewrite Nat.add_0_r.
  - destruct (beam_scheduler_create _ rq s) as [[p sc] s1]. cbn zeta iota in *.
    destruct (p =? NULL); [done|]. rewrite (IH _ _ _ Hc). f_equal. lia.
Qed.

Lemma create_schedulers_rest m j rq cells s ok cells' s' q :
  create_schedulers m j rq cells s = (ok, cells', s') → (j + m <= q)%nat → cells' !! q = cells !! q.
Proof.
  revert j cells s. induction m as [|m IH]; intros j cells s Hc Hq; cbn [create_schedulers] in Hc.
  - by simplify_eq.
  - destruct (beam_scheduler_create _ rq s) as [[p sc] s1]. cbn zeta iota in Hc.
    rewrite <-(list_lookup_insert_ne cells j q (Some p)) by lia.
    destruct (p =? NULL); [by simplify_eq|]. apply (IH (S j) _ s1); [done|lia].
Qed.

(** C37: The error path of the creation is itself an error: the array of
    schedulers is not cleared, and the clean-up reads all of it.  When there is
    no memory for the array of threads, or for any scheduler but the last, the
    creation reads a pointer that was never written and frees what it finds. *)
Theorem pool_create_reads_garbage n rq s k p sp tp a1 a2 a3 :
  0 < n → rq ≠ NULL → al_alloc (alc s) sizeof_beam_scheduler_pool = (p, a1) → p ≠ NULL →
  al_alloc a1 (sizeof_pointer * n) = (sp, a2) → sp ≠ NULL →
  al_alloc a2 (sizeof_pthread_t * n) = (tp, a3) →
  (tp = NULL ∨
   ∃ (i : nat) cells si, Z.of_nat i + 1 < n ∧
     create_schedulers i 0 rq (replicate (Z.to_nat n) None) (set_alc a3 s) = (true, cells, si) ∧
     (al_alloc (alc si) sizeof_beam_scheduler).1 = NULL) →
  beam_scheduler_pool_create n rq s k = None.
Proof.
  intros Hn Hrq E1 Hp E2 Hsp E3 Hcase. unfold beam_scheduler_pool_create.
  destruct (Z.eqb_spec n 0) as [|_]; [lia|]. destruct (Z.eqb_spec rq NULL) as [|_]; [done|].
  cbn [orb]. rewrite E1. destruct (Z.eqb_spec p NULL) as [|_]; [done|]. cbn [alc set_alc].
  rewrite E2, E3. destruct (Z.eqb_spec sp NULL) as [|_]; [done|]. cbn [orb].
  destruct (Z.eqb_spec tp NULL) as [Htp|Htp].
  - rewrite (pool_destroy_garbage _ _ [] (replicate (pred (Z.to_nat n)) None)); [done|simpl|done|done].
    by replace (Z.to_nat n) with (S (pred (Z.to_nat n))) at 1 by lia.
  - destruct Hcase as [|(i & cells & si & Hi & Ec & Hz)]; [done|]. cbn [sched_cells].
    change (set_alc a3 (set_alc a1 s)) with (set_alc a3 s).
    replace (Z.to_nat n) with (i + S (S (Z.to_nat n - i - 2)))%nat at 1 by lia.
    rewrite (create_schedulers_cut _ _ _ _ _ _ _ _ Ec). cbn [create_schedulers plus].
    unfold beam_scheduler_create. destruct (Z.eqb_spec rq NULL) as [|_]; [done|].
    destruct (al_alloc (alc si) sizeof_beam_scheduler) as [x a4]. cbn [fst] in Hz. subst x.
    change (NULL =? NULL) with true. cbn iota zeta. change (NULL =? NULL) with true. cbn iota.
    assert (Hg : <[i := Some NULL]> cells !! S i = Some None).
    { rewrite list_lookup_insert_ne by lia.
      rewrite (create_schedulers_rest _ _ _ _ _ _ _ _ (S i) Ec) by lia.
      apply lookup_replicate_2. lia. }
    apply take_drop_middle in Hg. by erewrite pool_destroy_garbage.
Qed.

(** ** Start and stop *)

(** Threads [hs] were added to those of [k]. *)
Definition threads_added (hs : list Z) k k' : Prop :=
  NoDup hs ∧ (∀ h, h ∈ hs → h ∉ live k) ∧ live k' = list_to_set hs ∪ live k.

Lemma start_workers_ok ptrs i ths a k B ps :
  extends a B ps → length ths = (i + length ptrs)%nat →
  ∃ r ths' a' k' hs ws, start_workers (Some <$> ptrs) i ths a k = Some (r, ths', a', k') ∧
    threads_added hs k k' ∧ extends a' B (ws ++ ps) ∧ length ws = length hs ∧
    if result_is_ok r then ths' = take i ths ++ (Some <$> hs) ∧ length hs = length ptrs
    else (length hs < length ptrs)%nat.
Proof.
  assert (Hsz : alloc_size sizeof_worker_arg) by done.
  assert (Hnone : ∀ k k', live k' = live k → threads_added [] k k').
  { intros k0 k1 E. split; [constructor|]. split; [by intros h Hh%not_elem_of_nil|].
    simpl. set_solver. }
  revert i ths a k ps. induction ptrs as [|p ptrs IH]; intros i ths a k ps Hx Hl; csimpl in *.
  - exists BEAM_OK, ths, a, k, [], []. split_and!; [done|by apply Hnone|done|done|cbn].
    split; [|done]. by rewrite app_nil_r, take_ge by lia.
  - destruct (al_alloc a sizeof_worker_arg) as [w a1] eqn:Ea.
    destruct (extends_alloc _ _ _ _ _ _ Hx Hsz Ea) as [[-> Hx1]|[Hw Hx1]].
    { exists BEAM_ERR_NO_MEMORY, ths, a1, k, [], []. split_and!; [done|by apply Hnone|done..|].
      simpl. lia. }
    destruct (Z.eqb_spec w NULL) as [|_]; [done|]. cbn [mbind option_bind].
    destruct (pthread_create k w) as [[rc h] k1] eqn:Ep.
    destruct (pthread_create_spec _ _ _ _ _ Ep) as [(-> & Hh & Hk)|(Hrc & Hk)].
    + change (negb (0 =? 0)) with false. cbn iota.
      destruct (IH (S i) (<[i := Some h]> ths) a1 k1 (w :: ps)) as
        (r & ths' & a' & k' & hs & ws & -> & (Hnd & Hfr & Hlv) & Hx' & Hlen & Hr);
        [done|rewrite length_insert; lia|].
      exists r, ths', a', k', (h :: hs), (ws ++ [w]). split; [done|]. split; [split_and!|split_and!].
      * apply NoDup_cons. split; [|done]. intros Hin. apply (Hfr _ Hin). rewrite Hk. set_solver.
      * intros x [->|Hx0]%elem_of_cons; [done|]. specialize (Hfr _ Hx0). rewrite Hk in Hfr. set_solver.
      * rewrite Hlv, Hk. simpl. set_solver.
      * by rewrite <-app_assoc.
      * rewrite length_app. simpl. lia.
      * destruct (result_is_ok r); [|simpl; lia]. destruct Hr as [-> Hr].
        split; [|simpl; lia]. rewrite (take_S_r _ _ (Some h)) by (apply list_lookup_insert_eq; lia).
        rewrite take_insert_ge by lia. by rewrite <-app_assoc.
    + destruct (Z.eqb_spec rc 0) as [|_]; [done|]. cbn [negb].
      exists BEAM_ERR_INVALID_ARG, (<[i := None]> ths), (al_free a1 w), k1, [], [].
      split_and!; [done|by apply Hnone|by apply extends_free|done|]. simpl. lia.
Qed.

Lemma join_all_ok hs k :
  NoDup hs → (∀ h, h ∈ hs → h ∈ live k) →
  ∃ k', join_all (Some <$> hs) k = Some k' ∧ live k' = live k ∖ list_to_set hs.
Proof.
  revert k. induction hs as [|h hs IH]; intros k Hnd Hl; csimpl.
  - exists k. split; [done|]. set_solver.
  - apply NoDup_cons in Hnd as [Hh Hnd].
    pose proof (pthread_join_spec k h (Hl h ltac:(by left))) as Hj.
    destruct (IH (pthread_join k h).2 Hnd) as (k' & -> & Hk').
    { intros x Hx. rewrite Hj. apply elem_of_difference. split; [apply Hl; by right|].
      intros ->%elem_of_singleton. done. }
    exists k'. split; [done|]. rewrite Hk', Hj. set_solver.
Qed.

(** C24: Starting a pool of [n] workers either runs [n] new threads, and
    stopping it then ends exactly those; or it reports an error, and then the
    threads it had already created are lost: the pool counts as stopped, so that
    stopping it does nothing, and destroying it frees the pool under the threads
    that still use it.  Each thread has been given one block, which it frees
    itself. *)
Theorem pool_start_stop p po ptrs code s k B :
  pool_ok po ptrs → running po = false →
  extends (alc s) B (ptrs ++ [schedulers po; threads po; p]) →
  ∃ r po' a' k' hs ws,
    beam_scheduler_pool_start (Some po) code s k = Some (r, Some po', set_alc a' s, k') ∧
    threads_added hs k k' ∧ length ws = length hs ∧ pool_code po' = code ∧
    if result_is_ok r then
      running po' = true ∧ length hs = length ptrs ∧
      ∃ po2 k2, beam_scheduler_pool_stop (Some po') k' = Some (Some po2, k2) ∧
        running po2 = false ∧ live k2 = live k ∧
        ∃ a2, beam_scheduler_pool_destroy (Some (p, po2)) (set_alc a' s) k2 = Some (set_alc a2 s, k2) ∧
          extends a2 B ws
    else
      running po' = false ∧ (length hs < length ptrs)%nat ∧
      beam_scheduler_pool_stop (Some po') k' = Some (Some po', k') ∧
      ∃ a2, beam_scheduler_pool_destroy (Some (p, po')) (set_alc a' s) k' = Some (set_alc a2 s, k') ∧
        extends a2 B ws.
Proof.
  intros (Hc & Hn & Hlt & Hs & Ht) Hr Hx. unfold beam_scheduler_pool_start. rewrite Hr, Hc.
  destruct (start_workers_ok ptrs 0 (thread_cells po) (alc s) k B _ Hx Hlt)
    as (r & ths' & a' & k' & hs & ws & -> & Hadd & Hx' & Hlen & Hcase).
  cbn [mbind option_bind].
  assert (Hdes : ∀ ths c k0, ∃ a2, beam_scheduler_pool_destroy
      (Some (p, set_started ths c false po)) (set_alc a' s) k0 = Some (set_alc a2 s, k0) ∧
      extends a2 B ws).
  { intros ths c k0. destruct (pool_destroy_ok p (set_started ths c false po) ptrs (set_alc a' s) k0 B ws)
      as (a2 & E & Hx2); [done..| |].
    - rewrite live_ptrs_all by done. eapply extends_perm; [|exact Hx'].
      cbn [schedulers threads set_started]. solve_Permutation.
    - by exists a2. }
  eexists r, _, a', k', hs, ws. split; [reflexivity|]. split; [done|]. split; [done|]. split; [done|].
  destruct (result_is_ok r).
  - destruct Hcase as [-> Hl2]. split; [done|]. split; [done|].
    destruct Hadd as (Hnd & Hfr & Hlv).
    destruct (join_all_ok hs k' Hnd) as (k2 & Ej & Hk2); [rewrite Hlv; set_solver|].
    unfold beam_scheduler_pool_stop. cbn [running set_started negb thread_cells pool_code take app].
    rewrite take_0. cbn [app]. rewrite Ej. cbn [mbind option_bind]. eexists _, k2.
    split; [reflexivity|]. split; [done|]. split; [rewrite Hk2, Hlv; set_solver|]. apply Hdes.
  - split; [done|]. split; [done|]. split; [done|]. apply Hdes.
Qed.
End PoolLife.

(** ** Examples *)

(** A thread library with room for [max_threads] threads. *)
Record thread_table : Type := { max_threads : Z; alive : gset Z }.

Definition next_tid (t : thread_table) : Z := foldr Z.max 0 (elements (alive t)) + 1.

#[export] Instance thread_table_ops : ThreadOps thread_table := {
  pthread_create t _ :=
    if Z.of_nat (size (alive t)) >=? max_threads t then (11, 0, t)
    else (0, next_tid t, {| max_threads := max_threads t; alive := {[next_tid t]} ∪ alive t |});
  pthread_join t h := (0, {| max_threads := max_threads t; alive := alive t ∖ {[h]} |});
}.

Lemma next_tid_fresh t : next_tid t ∉ alive t.
Proof.
  assert (Hmax : ∀ l x, x ∈ l → x <= foldr Z.max 0 l).
  { induction l as [|y l IH]; intros x; [by intros ?%not_elem_of_nil|].
    intros [->|Hx]%elem_of_cons; simpl; [lia|]. specialize (IH x Hx). lia. }
  intros Hin%elem_of_elements%Hmax. unfold next_tid in Hin. lia.
Qed.

#[export] Program Instance thread_table_spec : ThreadSpec thread_table := {| live := alive |}.
Next Obligation.
  intros t x rc h t' E. cbn in E. destruct (_ >=? _); simplify_eq/=; [by right|left].
  split_and!; [done|apply next_tid_fresh|done].
Qed.
Next Obligation. done. Qed.

Definition demo_threads : thread_table := {| max_threads := 1; alive := ∅ |}.

Lemma pool_life_witness :
  ∃ p po s' a', beam_scheduler_pool_create 2 4096 empty_vm demo_threads =
      Some (Some (p, po), s', demo_threads) ∧
    beam_scheduler_pool_destroy (Some (p, po)) s' demo_threads =
      Some (set_alc a' empty_vm, demo_threads) ∧ al_rep a' ∅.
Proof.
  pose proof (pool_life 2 4096 empty_vm demo_threads ∅ ltac:(lia) ltac:(done)
    (bump_init_rep (2 ^ 20) ltac:(done))) as Hl.
  destruct (beam_scheduler_pool_create 2 4096 empty_vm demo_threads) as [[[[[p po]|] s'] k']|] eqn:E;
    [|by vm_compute in E..].
  destruct Hl as (-> & _ & _ & ptrs & _ & _ & _ & a' & Ed & Ha).
  exists p, po, s', a'. exact (conj eq_refl (conj Ed Ha)).
Defined.

(** Memory for the pool and its arrays, but for no scheduler. *)
Lemma pool_create_reads_garbage_witness :
  beam_scheduler_pool_create 2 4096 (Vm (bump_init 4264) ∅ ∅ ∅) demo_threads = None.
Proof.
  eapply (pool_create_reads_garbage 2 4096 (Vm (bump_init 4264) ∅ ∅ ∅) demo_threads);
    [lia|done|vm_compute; reflexivity|done|vm_compute; reflexivity|done|vm_compute; reflexivity|].
  right. exists 0%nat. eexists _, _. split; [lia|]. split; vm_compute; reflexivity.
Defined.

(** Two workers, but the system has room for one thread: the thread outlives the
    pool. *)
Definition demo_pool : option (Z * beam_scheduler_pool) * vm bump_heap :=
  match beam_scheduler_pool_create 2 4096 empty_vm demo_threads with
  | Some (o, s, _) => (o, s)
  | None => (None, empty_vm)
  end.

Definition alloc_next (a : bump_heap) (n : Z) : bump_heap := (al_alloc a n).2.

Lemma extends_next (a : bump_heap) n p ps :
  extends a ∅ ps → alloc_size n → (al_alloc a n).1 = p → p ≠ NULL →
  extends (alloc_next a n) ∅ (p :: ps).
Proof.
  intros Hx Hn Hp Hnn. unfold alloc_next. destruct (al_alloc a n) as [p' a'] eqn:E. simpl in *. subst p'.
  by destruct (extends_alloc _ _ _ _ _ _ Hx Hn E) as [[? _]|[_ ?]].
Qed.

Lemma demo_pool_blocks : extends (alc demo_pool.2) ∅ [4272; 4224; 4208; 4192; 4096].
Proof.
  assert (alc demo_pool.2 = foldl alloc_next (alc empty_vm) [sizeof_beam_scheduler_pool; 16; 16;
    sizeof_beam_scheduler; sizeof_beam_scheduler]) as -> by (vm_compute; reflexivity).
  cbn [foldl]. do 5 (apply extends_next; [|done|by vm_compute|done]).
  apply extends_nil, bump_init_rep. done.
Qed.

Lemma pool_start_stop_witness :
  ∃ p po po' s' k', demo_pool.1 = Some (p, po) ∧
    beam_scheduler_pool_start (Some po) [] demo_pool.2 demo_threads =
      Some (BEAM_ERR_INVALID_ARG, Some po', s', k') ∧
    beam_scheduler_pool_stop (Some po') k' = Some (Some po', k') ∧
    (∃ s2, beam_scheduler_pool_destroy (Some (p, po')) s' k' = Some (s2, k')) ∧
    size (live k') = 1%nat.
Proof.
  destruct (demo_pool.1) as [[p po]|] eqn:Ep; [|by vm_compute in Ep].
  assert (p = 4096 ∧ schedulers po = 4192 ∧ threads po = 4208 ∧ running po = false ∧
    sched_cells po = Some <$> [4224; 4272] ∧ length (thread_cells po) = 2%nat)
    as (-> & Hs & Ht & Hr & Hc & Hl) by (vm_compute in Ep; by simplify_eq).
  destruct (pool_start_stop 4096 po [4224; 4272] [] demo_pool.2 demo_threads ∅)
    as (r & po' & a' & k' & hs & ws & E & _ & _ & _ & Hres).
  - split_and!; [done|by repeat constructor|done|by rewrite Hs|by rewrite Ht].
  - done.
  - rewrite Hs, Ht. eapply extends_perm; [|exact demo_pool_blocks]. cbn. solve_Permutation.
  - assert (r = BEAM_ERR_INVALID_ARG ∧ size (live k') = 1%nat) as [-> Hk].
    { vm_compute in Ep. injection Ep as <-. vm_compute in E. by simplify_eq. }
    destruct Hres as (_ & _ & Hstop & a2 & Hd & _).
    exists 4096, po, po', (set_alc a' demo_pool.2), k'.
    exact (conj eq_refl (conj E (conj Hstop (conj (ex_intro _ _ Hd) Hk)))).
Defined.
