(* ===== verification/Ets.v ===== *)
(** ETS tables: src/global/ets.c.

    A table is refined to a function from keys to the list of their values,
    newest first; the four table types differ in how an insertion changes that
    list. *)
From S2P Require Import Prelude Memory Term Alloc LinkedList HashChain Blocks.
From stdpp Require Import options.

(** ** Data (include/beam_global.h, src/global/ets_internal.h) *)

Inductive beam_ets_type_t : Type :=
| BEAM_ETS_SET
| BEAM_ETS_ORDERED_SET
| BEAM_ETS_BAG
| BEAM_ETS_DUPLICATE_BAG.

Inductive beam_ets_protection_t : Type :=
| BEAM_ETS_PUBLIC
| BEAM_ETS_PROTECTED
| BEAM_ETS_PRIVATE.

#[export] Instance beam_ets_type_eq_dec : EqDecision beam_ets_type_t.
Proof. solve_decision. Defined.

Definition ETS_DEFAULT_BUCKETS : Z := 64.

(** [struct beam_ets_table]; [t_heads] are the contents of the bucket array at
    [t_buckets], [t_entries] the entries ([ets_entry_t]: key and value, next). *)
Record beam_ets_table : Type := {
  t_name : list Z;
  t_type : beam_ets_type_t;
  t_protection : beam_ets_protection_t;
  t_buckets : Z;
  t_heads : list Z;
  t_bucket_count : Z;
  t_item_count : Z;
  t_entries : nodes (Z * Z);
}.

Definition sizeof_ets_entry : Z := 24.
Definition sizeof_beam_ets_table : Z := 96.
Definition sizeof_pointer : Z := 8.

Definition hash_eterm (key : Z) : Z :=
  let x := u32 key in
  let x := u32 (((x .>> 16) .^ x) * 0x45d9f3b) in
  let x := u32 (((x .>> 16) .^ x) * 0x45d9f3b) in
  (x .>> 16) .^ x.

(** Updates of the entries, the buckets and the count. *)
Definition set_t_chains (es : nodes (Z * Z)) (hs : list Z) (n : Z) (t : beam_ets_table)
    : beam_ets_table :=
  {| t_name := t_name t; t_type := t_type t; t_protection := t_protection t;
     t_buckets := t_buckets t; t_heads := hs; t_bucket_count := t_bucket_count t;
     t_item_count := n; t_entries := es |}.

Section Ets.
Context {A : Type} `{AllocOps A}.
Implicit Types (a : A) (t : beam_ets_table).

(** [name] is [None] for NULL; the copy is cut to 31 characters. *)
Definition beam_ets_table_create_typed (name : option (list Z)) (type : beam_ets_type_t)
    (protection : beam_ets_protection_t) a : option (Z * beam_ets_table) * A :=
  let '(p, a) := al_alloc a sizeof_beam_ets_table in
  if p =? NULL then (None, a)
  else
    let '(bs, a) := al_alloc a (sizeof_pointer * ETS_DEFAULT_BUCKETS) in
    if bs =? NULL then (None, al_free a p)
    else
      (Some (p, {| t_name := take 31 (default [] name); t_type := type;
                   t_protection := protection; t_buckets := bs;
                   t_heads := replicate (Z.to_nat ETS_DEFAULT_BUCKETS) NULL;
                   t_bucket_count := ETS_DEFAULT_BUCKETS; t_item_count := 0;
                   t_entries := ∅ |}), a).

Definition beam_ets_table_create (name : option (list Z)) a
    : option (Z * beam_ets_table) * A :=
  beam_ets_table_create_typed name BEAM_ETS_SET BEAM_ETS_PUBLIC a.

(** A table is given with its address, [None] for NULL. *)
Definition beam_ets_table_destroy (tab : option (Z * beam_ets_table)) a : option A :=
  match tab with
  | None => Some a
  | Some (p, t) =>
      '(_, a) ← free_buckets (λ q _ a, al_free a q) (t_entries t) a (t_heads t);
      let a := if t_buckets t =? NULL then a else al_free a (t_buckets t) in
      Some (al_free a p)
  end.

Definition bucket_of t (key : Z) : Z := hash_eterm key mod t_bucket_count t.

(** The first entry of the bucket that passes the test. *)
Definition ets_find t (key : Z) (test : Z * Z → bool) : option (option (Z * (Z * Z))) :=
  h ← array_get (t_heads t) (bucket_of t key);
  find_node (size (t_entries t)) (t_entries t) h test.

(** [entry->value = value] *)
Definition ets_overwrite t (p value : Z) : option beam_ets_table :=
  nd ← t_entries t !! p;
  es ← set_val (t_entries t) p ((nval nd).1, value);
  Some (set_t_chains es (t_heads t) (t_item_count t) t).

(** The allocation of a new entry in front of its bucket. *)
Definition ets_add t a (key value : Z) : option (beam_result_t * beam_ets_table * A) :=
  let '(p, a) := al_alloc a sizeof_ets_entry in
  if p =? NULL then Some (BEAM_ERR_NO_MEMORY, t, a)
  else
    h ← array_get (t_heads t) (bucket_of t key);
    hs ← array_set (t_heads t) (bucket_of t key) p;
    Some (BEAM_OK, set_t_chains (<[p := Node (key, value) h]> (t_entries t)) hs
                     (u64 (t_item_count t + 1)) t, a).

Definition beam_ets_insert t a (key value : Z) : option (beam_result_t * beam_ets_table * A) :=
  match t_type t with
  | BEAM_ETS_SET | BEAM_ETS_ORDERED_SET =>
      e ← ets_find t key (λ kv, kv.1 =? key);
      match e with
      | Some (p, _) => t ← ets_overwrite t p value; Some (BEAM_OK, t, a)
      | None => ets_add t a key value
      end
  | BEAM_ETS_BAG =>
      e ← ets_find t key (λ kv, (kv.1 =? key) && (kv.2 =? value));
      match e with
      | Some _ => Some (BEAM_OK, t, a)
      | None => ets_add t a key value
      end
  | BEAM_ETS_DUPLICATE_BAG => ets_add t a key value
  end.

Definition beam_ets_lookup t (key : Z) : option (beam_result_t * option Z) :=
  e ← ets_find t key (λ kv, kv.1 =? key);
  match e with
  | Some (_, kv) => Some (BEAM_OK, Some kv.2)
  | None => Some (BEAM_ERR_NOT_FOUND, None)
  end.

Definition beam_ets_delete t a (key : Z) : option (beam_result_t * beam_ets_table * A) :=
  h ← array_get (t_heads t) (bucket_of t key);
  e ← find_slot (size (t_entries t)) (t_entries t) None h (λ kv, kv.1 =? key);
  match e with
  | Some (slot, p, next) =>
      '(es, hs) ← write_slot (t_entries t) (t_heads t) (Z.to_nat (bucket_of t key)) slot next;
      Some (BEAM_OK, set_t_chains (delete p es) hs (u64 (t_item_count t - 1)) t, al_free a p)
  | None => Some (BEAM_ERR_NOT_FOUND, t, a)
  end.

Definition beam_ets_count (tab : option beam_ets_table) : Z :=
  match tab with Some t => t_item_count t | None => 0 end.

(** The addition is on [intptr_t]. *)
Definition beam_ets_update_counter t (key increment : Z)
    : option (beam_result_t * option Z * beam_ets_table) :=
  e ← ets_find t key (λ kv, kv.1 =? key);
  match e with
  | Some (p, kv) =>
      new_val ← s64_checked (eterm_to_small_int kv.2 + increment);
      t ← ets_overwrite t p (make_small_int new_val);
      Some (BEAM_OK, Some (make_small_int new_val), t)
  | None => Some (BEAM_ERR_NOT_FOUND, None, t)
  end.

End Ets.

(** ** Specification *)

(** A table as a map from keys to their values, newest first. *)
Abbreviation ets_map := (Z → list Z).

Definition ets_put (key : Z) (vs : list Z) (f : ets_map) : ets_map :=
  λ k, if decide (k = key) then vs else f k.

(** The values of a key after an insertion. *)
Definition vals_insert (ty : beam_ets_type_t) (vs : list Z) (v : Z) : list Z :=
  match ty with
  | BEAM_ETS_SET | BEAM_ETS_ORDERED_SET => v :: tail vs
  | BEAM_ETS_BAG => if bool_decide (v ∈ vs) then vs else v :: vs
  | BEAM_ETS_DUPLICATE_BAG => v :: vs
  end.

(** What a table of each type may hold for a key. *)
Definition vals_ok (ty : beam_ets_type_t) (vs : list Z) : Prop :=
  match ty with
  | BEAM_ETS_SET | BEAM_ETS_ORDERED_SET => (length vs <= 1)%nat
  | BEAM_ETS_BAG => NoDup vs
  | BEAM_ETS_DUPLICATE_BAG => True
  end.

Abbreviation entry_list := (list (Z * (Z * Z))).

Definition bucket_vals (key : Z) (l : entry_list) : list Z :=
  (λ x, x.2.2) <$> filter (λ x, x.2.1 = key) l.

Definition bucket_idx (key : Z) : nat := Z.to_nat (hash_eterm key mod ETS_DEFAULT_BUCKETS).

(** [B0]: the live blocks that are not the table's. *)
Record ets_rep (t : beam_ets_table) (L : list entry_list) (f : ets_map) : Prop := {
  er_chains : chains (t_entries t) (t_heads t) L;
  er_num : length L = Z.to_nat ETS_DEFAULT_BUCKETS;
  er_buckets : t_bucket_count t = ETS_DEFAULT_BUCKETS;
  er_count : t_item_count t = u64 (Z.of_nat (length (concat L)));
  er_vals : ∀ key, f key = bucket_vals key (L !!! bucket_idx key);
  er_home : ∀ i l x, L !! i = Some l → x ∈ l → bucket_idx x.2.1 = i;
  er_ok : ∀ key, vals_ok (t_type t) (f key);
}.

Lemma hash_eterm_range key : 0 <= hash_eterm key < 2 ^ 32.
Proof.
  unfold hash_eterm. generalize (u32 (((u32 key .>> 16) .^ u32 key) * 0x45d9f3b)). intros y.
  pose proof (u32_range (((y .>> 16) .^ y) * 0x45d9f3b)) as Hx. unfold is_u32 in Hx.
  revert Hx. generalize (u32 (((y .>> 16) .^ y) * 0x45d9f3b)). intros x Hx.
  apply lxor_range; [lia| |done]. rewrite Z.shiftr_div_pow2 by lia.
  Z.to_euclidean_division_equations; lia.
Qed.

Lemma bucket_idx_lt key : (bucket_idx key < Z.to_nat ETS_DEFAULT_BUCKETS)%nat.
Proof.
  unfold bucket_idx, ETS_DEFAULT_BUCKETS. pose proof (Z.mod_pos_bound (hash_eterm key) 64). lia.
Qed.

Section EtsSpec.
Implicit Types (t : beam_ets_table) (L : list entry_list) (f : ets_map).

Lemma ets_bucket t L f key :
  ets_rep t L f →
  bucket_of t key = Z.of_nat (bucket_idx key) ∧
  L !! bucket_idx key = Some (L !!! bucket_idx key).
Proof.
  intros Hr. split.
  - unfold bucket_of, bucket_idx. rewrite (er_buckets _ _ _ Hr).
    pose proof (Z.mod_pos_bound (hash_eterm key) ETS_DEFAULT_BUCKETS). 
    unfold ETS_DEFAULT_BUCKETS in *. lia.
  - apply list_lookup_lookup_total_lt. rewrite (er_num _ _ _ Hr). apply bucket_idx_lt.
Qed.

Lemma ets_find_spec t L f key test :
  ets_rep t L f →
  ets_find t key test = Some (match split_first test (L !!! bucket_idx key) with
                              | Some (_, x, _) => Some x | None => None end).
Proof.
  intros Hr. destruct (ets_bucket _ _ _ key Hr) as [Hb HL]. unfold ets_find.
  destruct (chains_find _ _ _ _ _ test (er_chains _ _ _ Hr) HL) as (h & Hh & Hf).
  rewrite Hb. unfold array_get. destruct (Z.ltb_spec (Z.of_nat (bucket_idx key)) 0); [lia|].
  rewrite Nat2Z.id, Hh. exact Hf.
Qed.

(** The values of a key around its first entry. *)
Lemma bucket_vals_app key l1 l2 :
  bucket_vals key (l1 ++ l2) = bucket_vals key l1 ++ bucket_vals key l2.
Proof. unfold bucket_vals. by rewrite filter_app, fmap_app. Qed.

Lemma bucket_vals_cons key p k v l :
  bucket_vals key ((p, (k, v)) :: l) =
    if decide (k = key) then v :: bucket_vals key l else bucket_vals key l.
Proof. unfold bucket_vals. rewrite filter_cons. simpl. by case_decide. Qed.

Lemma bucket_vals_none key l :
  Forall (λ y : Z * (Z * Z), (y.2.1 =? key) = false) l → bucket_vals key l = [].
Proof.
  induction 1 as [|[p [k v]] l Hx _ IH]; [done|]. rewrite bucket_vals_cons, IH.
  simpl in Hx. apply Z.eqb_neq in Hx. by rewrite decide_False.
Qed.

Lemma split_key_Some key l l1 x l2 :
  split_first (λ kv : Z * Z, kv.1 =? key) l = Some (l1, x, l2) →
  ∃ p v, x = (p, (key, v)) ∧ l = l1 ++ (p, (key, v)) :: l2 ∧
    bucket_vals key l1 = [] ∧ bucket_vals key l = v :: bucket_vals key l2.
Proof.
  intros Hs. destruct (split_first_Some _ _ _ _ _ Hs) as (-> & Ht & Hl1).
  destruct x as [p [k v]]. simpl in Ht. apply Z.eqb_eq in Ht as ->.
  pose proof (bucket_vals_none key l1 Hl1) as E.
  exists p, v. split_and!; [done..|]. by rewrite bucket_vals_app, E, bucket_vals_cons, decide_True.
Qed.

Lemma split_key_None key l :
  split_first (λ kv : Z * Z, kv.1 =? key) l = None → bucket_vals key l = [].
Proof. intros Hs%split_first_None. by apply bucket_vals_none. Qed.

(** Replacing the bucket of [key]. *)
Lemma ets_rep_bucket t t' L f key l' n' vs' :
  ets_rep t L f → chains (t_entries t') (t_heads t') (<[bucket_idx key := l']> L) →
  t_bucket_count t' = t_bucket_count t → t_type t' = t_type t →
  t_item_count t' = u64 n' →
  n' = Z.of_nat (length (concat (<[bucket_idx key := l']> L))) →
  bucket_vals key l' = vs' → vals_ok (t_type t) vs' →
  (∀ k, k ≠ key → bucket_vals k l' = bucket_vals k (L !!! bucket_idx key)) →
  (∀ x, x ∈ l' → x.2.1 = key ∨ ∃ y, y ∈ L !!! bucket_idx key ∧ x.2.1 = y.2.1) →
  ets_rep t' (<[bucket_idx key := l']> L) (ets_put key vs' f).
Proof.
  intros Hr Hc Hbc Hty Hcnt -> Hvs Hok Hoth Hin.
  destruct (ets_bucket _ _ _ key Hr) as [_ HL].
  assert (bucket_idx key < length L)%nat as Hlt by (by eapply lookup_lt_Some).
  pose proof Hr as [? Hnum Hbk Hct Hv Hh Hk]. split; try done.
  - by rewrite length_insert.
  - congruence.
  - intros k. unfold ets_put. case_decide as Hk'.
    + subst k. rewrite list_lookup_total_insert_eq by done. done.
    + rewrite Hv. destruct (decide (bucket_idx key = bucket_idx k)) as [E|E].
      * rewrite <- E, list_lookup_total_insert_eq by done. by rewrite Hoth.
      * by rewrite list_lookup_total_insert_ne.
  - intros i l x Hi Hx. destruct (decide (bucket_idx key = i)) as [<-|Hne].
    + rewrite list_lookup_insert_eq in Hi by done. simplify_eq.
      destruct (Hin x Hx) as [->|(y & Hy & ->)]; [done|by eapply Hh].
    + rewrite list_lookup_insert_ne in Hi by done. by eapply Hh.
  - intros k. rewrite Hty. unfold ets_put. case_decide; [done|apply Hk].
Qed.

#[global] Opaque bucket_idx hash_eterm.

(** Length of the table when one bucket changes. *)
Lemma concat_bucket_length {X} (L : list (list X)) i l l' :
  L !! i = Some l →
  Z.of_nat (length (concat (<[i := l']> L))) =
    Z.of_nat (length (concat L)) + Z.of_nat (length l') - Z.of_nat (length l).
Proof.
  intros Hi. pose proof (lookup_lt_Some _ _ _ Hi).
  rewrite <- (take_drop_middle _ _ _ Hi) at 2.
  rewrite insert_take_drop by done. rewrite !concat_app, !length_app. csimpl.
  rewrite !length_app. lia.
Qed.

Lemma u64_add_u64 z k : u64 (u64 z + k) = u64 (z + k).
Proof. unfold u64. by rewrite Zplus_mod_idemp_l. Qed.

(** The entry found for a key is the head of its values; overwriting it. *)
Lemma ets_overwrite_spec t L f key l1 p v l2 v' :
  ets_rep t L f → L !!! bucket_idx key = l1 ++ (p, (key, v)) :: l2 →
  bucket_vals key l1 = [] →
  vals_ok (t_type t) (v' :: bucket_vals key l2) →
  ∃ t', ets_overwrite t p v' = Some t' ∧ t_type t' = t_type t ∧
    t_buckets t' = t_buckets t ∧ t_item_count t' = t_item_count t ∧
    ets_rep t' (<[bucket_idx key := l1 ++ (p, (key, v')) :: l2]> L)
      (ets_put key (v' :: bucket_vals key l2) f).
Proof.
  intros Hr Hl Hl1 Hok. destruct (ets_bucket _ _ _ key Hr) as [_ HL]. rewrite Hl in HL.
  pose proof (er_chains _ _ _ Hr) as Hc.
  destruct (chains_set_val _ _ _ _ _ _ _ _ (key, v') Hc HL) as (es & Hes & Hc').
  unfold ets_overwrite.
  assert (∃ nd, t_entries t !! p = Some nd ∧ nval nd = (key, v)) as (nd & Hnd & Hnv).
  { destruct (chains_bucket _ _ _ _ _ Hc HL) as (h & _ & Hs & _).
    apply lseg_app in Hs as (r & _ & -> & _ & n & Hm & _). eauto. }
  rewrite Hnd. simpl. rewrite Hnv. simpl. rewrite Hes. simpl.
  eexists. split_and!; [done..|].
  apply (ets_rep_bucket t _ _ _ key _ (Z.of_nat (length (concat
    (<[bucket_idx key := l1 ++ (p, (key, v')) :: l2]> L))))); try done; simpl.
  - rewrite (er_count _ _ _ Hr), (concat_bucket_length _ _ _ _ HL).
    f_equal. rewrite !length_app. simpl. lia.
  - rewrite bucket_vals_app, Hl1, bucket_vals_cons. by rewrite decide_True.
  - intros k Hk. rewrite Hl, !bucket_vals_app, !bucket_vals_cons.
    by rewrite !decide_False by congruence.
  - intros x Hx. rewrite Hl. apply elem_of_app in Hx as [Hx|[->|Hx]%elem_of_cons];
      [right; exists x|by left|right; exists x]; (split; [|done]); apply elem_of_app; [by left|].
    right. by right.
Qed.

Lemma tail_cons_ok ty vs v v' : vals_ok ty (v :: vs) → ty ≠ BEAM_ETS_BAG → vals_ok ty (v' :: vs).
Proof. by destruct ty. Qed.

End EtsSpec.

(** ** Tables in memory *)

Section EtsAlloc.
Context {A : Type} `{AllocSpec A}.
Implicit Types (a : A) (t : beam_ets_table) (f : ets_map) (B : blocks).

(** The table [t] at [p] stands for [f]; its structures and entries are live
    blocks of the allocator. *)
Definition ets_ok a B (p : Z) t f : Prop :=
  ∃ L, ets_rep t L f ∧ al_rep a B ∧
    B !! p = Some sizeof_beam_ets_table ∧
    B !! t_buckets t = Some (sizeof_pointer * ETS_DEFAULT_BUCKETS) ∧
    ∀ n, n ∈ (concat L).*1 → B !! n = Some sizeof_ets_entry.

Lemma in_bucket_concat {X} (L : list (list X)) i l x :
  L !! i = Some l → x ∈ l → x ∈ concat L.
Proof.
  intros Hi Hx. apply elem_of_concat. exists l. split; [done|]. by eapply list_elem_of_lookup_2.
Qed.

Lemma ets_add_ok a B p t f key v :
  ets_ok a B p t f → vals_ok (t_type t) (v :: f key) →
  ∃ r t' a', ets_add t a key v = Some (r, t', a') ∧
    ((r = BEAM_ERR_NO_MEMORY ∧ t' = t ∧ ets_ok a' B p t f) ∨
     (r = BEAM_OK ∧ t_type t' = t_type t ∧ t_item_count t' = u64 (t_item_count t + 1) ∧
      ∃ q, B !! q = None ∧
        ets_ok a' (<[q := sizeof_ets_entry]> B) p t' (ets_put key (v :: f key) f))).
Proof.
  intros (L & Hr & Ha & Hp & Hb & Hn) Hok. unfold ets_add.
  destruct (al_alloc a sizeof_ets_entry) as [q a'] eqn:Ea.
  assert (alloc_size sizeof_ets_entry) as Hsz by (unfold alloc_size, sizeof_ets_entry; lia).
  destruct (al_alloc_spec _ _ _ _ _ Ha Hsz Ea) as [[-> Ha']|[Hf Ha']].
  { simpl. eexists _, _, _. split; [done|]. left. split_and!; [done..|]. by exists L. }
  pose proof (fresh_block_nonnull _ _ _ Hf) as Hq. destruct (Z.eqb_spec q NULL); [done|].
  assert (B !! q = None) as HBq by (eapply fresh_block_None; [done| |done]; done).
  destruct (ets_bucket _ _ _ key Hr) as [Hbk HL]. rewrite Hbk.
  pose proof (er_chains _ _ _ Hr) as Hc.
  destruct (chains_bucket _ _ _ _ _ Hc HL) as (h & Hh & _).
  unfold array_get. destruct (Z.ltb_spec (Z.of_nat (bucket_idx key)) 0); [lia|].
  rewrite Nat2Z.id, Hh. cbn [mbind option_bind].
  destruct (array_set (t_heads t) (Z.of_nat (bucket_idx key)) q) as [hs|] eqn:Es.
  2:{ unfold array_set in Es. apply lookup_lt_Some in Hh. case_bool; simpl in Es; (done || lia). }
  apply array_set_Some in Es as [_ ->]. rewrite Nat2Z.id. cbn [mbind option_bind].
  assert (q ∉ (concat L).*1) as HqL by (intros Hin; apply Hn in Hin; congruence).
  assert (q ∉ dom (t_entries t)) as Hqd by (by rewrite (chains_mem _ _ _ _ Hc)).
  eexists _, _, _. split; [done|]. right. split_and!; [done..|]. exists q. split; [done|].
  exists (<[bucket_idx key := (q, (key, v)) :: (L !!! bucket_idx key)]> L).
  assert (q ≠ p ∧ q ≠ t_buckets t) as [??] by (split; congruence).
  split_and!; [|done|by rewrite lookup_insert_ne..|].
  - apply (ets_rep_bucket t _ _ _ key _ (Z.of_nat (length (concat
      (<[bucket_idx key := (q, (key, v)) :: (L !!! bucket_idx key)]> L))))); try done; simpl.
    + by apply chains_push.
    + rewrite (er_count _ _ _ Hr), u64_add_u64, (concat_bucket_length _ _ _ _ HL).
      f_equal. simpl length. lia.
    + rewrite bucket_vals_cons, decide_True by done. by rewrite (er_vals _ _ _ Hr).
    + intros k Hk. by rewrite bucket_vals_cons, decide_False by congruence.
    + intros x [->|Hx]%elem_of_cons; [by left|right; by exists x].
  - intros z. destruct (concat_insert_perm L _ _ ((q, (key, v)) :: (L !!! bucket_idx key)) HL)
      as (R & E1 & E2).
    rewrite E2. csimpl. intros [->|Hx]%elem_of_cons; [by rewrite lookup_insert_eq|].
    rewrite <- E1 in Hx. rewrite lookup_insert_ne; [by apply Hn|]. intros ->. done.
Qed.

(** What an insertion may answer: no memory and no effect, or the table with the
    values of the key changed. *)
Definition inserted a B (p : Z) t (f : ets_map) (key v : Z)
    (o : option (beam_result_t * beam_ets_table * A)) : Prop :=
  ∃ r t' a', o = Some (r, t', a') ∧
    ((r = BEAM_ERR_NO_MEMORY ∧ t' = t ∧ ets_ok a' B p t f) ∨
     (r = BEAM_OK ∧ t_type t' = t_type t ∧
      let vs := vals_insert (t_type t) (f key) v in
      t_item_count t' = u64 (t_item_count t + Z.of_nat (length vs - length (f key))) ∧
      ∃ B', B ⊆ B' ∧ ets_ok a' B' p t' (ets_put key vs f))).

(** A new entry. *)
Lemma ets_add_inserted a B p t f key v :
  ets_ok a B p t f → vals_ok (t_type t) (v :: f key) →
  vals_insert (t_type t) (f key) v = v :: f key → inserted a B p t f key v (ets_add t a key v).
Proof.
  intros Hok Hvv Hins. unfold inserted. rewrite Hins.
  destruct (ets_add_ok _ _ _ _ _ key v Hok Hvv) as (r & t' & a' & E & Hcase).
  exists r, t', a'. split; [done|].
  destruct Hcase as [?|(? & ? & Hc & q & HBq & Hok')]; [by left|right].
  split_and!; [done..| |].
  - rewrite Hc. do 2 f_equal. simpl length. lia.
  - exists (<[q := sizeof_ets_entry]> B). split; [by apply insert_subseteq|done].
Qed.

(** A count that does not change. *)
Lemma item_count_same t L f (vs : list Z) :
  ets_rep t L f → t_item_count t = u64 (t_item_count t + Z.of_nat (length vs - length vs)).
Proof.
  intros Hr. rewrite Nat.sub_diag, Z.add_0_r, (er_count _ _ _ Hr). unfold u64. by rewrite Z.mod_mod.
Qed.

(** Sets and ordered sets replace the value in place. *)
Lemma ets_insert_set a B p t f key v :
  ets_ok a B p t f → t_type t = BEAM_ETS_SET ∨ t_type t = BEAM_ETS_ORDERED_SET →
  inserted a B p t f key v
    (e ← ets_find t key (λ kv, kv.1 =? key);
     match e with
     | Some (p, _) => t ← ets_overwrite t p v; Some (BEAM_OK, t, a)
     | None => ets_add t a key v
     end).
Proof.
  intros Hok Hty. pose proof Hok as (L & Hr & Ha & Hp & Hb & Hn).
  destruct (ets_bucket _ _ _ key Hr) as [_ HL].
  pose proof (er_vals _ _ _ Hr key) as Hv. pose proof (er_ok _ _ _ Hr key) as Hvk.
  rewrite (ets_find_spec _ _ _ key _ Hr). simpl.
  assert (Hins : vals_insert (t_type t) (f key) v = v :: tail (f key))
    by (by destruct Hty as [-> | ->]).
  destruct (split_first _ _) as [[[l1 x] l2]|] eqn:Es.
  - destruct (split_key_Some _ _ _ _ _ Es) as (q & w & -> & El & El1 & Ev).
    rewrite <- Hv in Ev. unfold inserted. rewrite Hins, Ev. simpl tail.
    destruct (ets_overwrite_spec _ _ _ _ _ _ _ _ v Hr El El1)
      as (t' & -> & Ht & Htb & Hcnt & Hr').
    { rewrite Ev in Hvk. by destruct Hty as [E|E]; rewrite E in *. }
    simpl. eexists _, _, _. split; [done|]. right. split_and!; [done..| |].
    + rewrite Hcnt. by apply (item_count_same t L f (v :: bucket_vals key l2)).
    + exists B. split; [done|]. eexists. split; [done|]. rewrite Htb. split_and!; [done..|].
      intros n. rewrite El in HL.
      destruct (concat_insert_perm L _ _ (l1 ++ (q, (key, v)) :: l2) HL) as (R & E1 & E2).
      rewrite E2. intros Hx. apply Hn. rewrite E1.
      by rewrite !fmap_app in Hx |- *.
  - apply split_key_None in Es. rewrite <- Hv in Es. apply ets_add_inserted; [done| |].
    + rewrite Es. destruct Hty as [-> | ->]; simpl; lia.
    + by rewrite Hins, Es.
Qed.

(** A bag keeps an entry it already has. *)
Lemma ets_insert_bag a B p t f key v :
  ets_ok a B p t f → t_type t = BEAM_ETS_BAG →
  inserted a B p t f key v
    (e ← ets_find t key (λ kv, (kv.1 =? key) && (kv.2 =? v));
     match e with
     | Some _ => Some (BEAM_OK, t, a)
     | None => ets_add t a key v
     end).
Proof.
  intros Hok Ety. pose proof Hok as (L & Hr & Ha & Hp & Hb & Hn).
  pose proof (er_vals _ _ _ Hr key) as Hv. pose proof (er_ok _ _ _ Hr key) as Hvk.
  rewrite (ets_find_spec _ _ _ key _ Hr). simpl.
  destruct (split_first _ _) as [[[l1 x] l2]|] eqn:Es.
  - destruct (split_first_Some _ _ _ _ _ Es) as (El & Ht & _).
    apply andb_true_iff in Ht as [E1%Z.eqb_eq E2%Z.eqb_eq].
    destruct x as [q [k w]]. simpl in E1, E2. subst k w.
    assert (v ∈ f key) as Hin.
    { rewrite Hv, El, bucket_vals_app, bucket_vals_cons, decide_True by done.
      apply elem_of_app. right. by left. }
    unfold inserted. rewrite Ety. simpl vals_insert. rewrite bool_decide_true by done.
    eexists _, _, _. split; [done|]. right. split_and!; [done|done|by eapply item_count_same|].
    exists B. split; [done|]. exists L. split_and!; [|done..].
    destruct Hr as [? ? ? ? Hv' ? Hk']. split; try done.
    + intros k. unfold ets_put. case_decide; [by subst|done].
    + intros k. unfold ets_put. case_decide; [by subst|done].
  - apply split_first_None in Es.
    assert (v ∉ f key) as Hni.
    { rewrite Hv. unfold bucket_vals. rewrite list_elem_of_fmap.
      intros ([q [k w]] & -> & [E Hx]%list_elem_of_filter). simpl in *. subst k.
      rewrite Forall_forall in Es. specialize (Es _ Hx). simpl in Es.
      by rewrite !Z.eqb_refl in Es. }
    apply ets_add_inserted; [done| |]; rewrite Ety in *; simpl.
    + by constructor.
    + by rewrite bool_decide_false.
Qed.

(** Insertion. *)
Lemma ets_insert_ok a B p t f key v :
  ets_ok a B p t f →
  ∃ r t' a', beam_ets_insert t a key v = Some (r, t', a') ∧
    ((r = BEAM_ERR_NO_MEMORY ∧ t' = t ∧ ets_ok a' B p t f) ∨
     (r = BEAM_OK ∧ t_type t' = t_type t ∧
      let vs := vals_insert (t_type t) (f key) v in
      t_item_count t' = u64 (t_item_count t + Z.of_nat (length vs - length (f key))) ∧
      ∃ B', B ⊆ B' ∧ ets_ok a' B' p t' (ets_put key vs f))).
Proof.
  intros Hok. change (inserted a B p t f key v (beam_ets_insert t a key v)).
  unfold beam_ets_insert. destruct (t_type t) eqn:Ety.
  - apply ets_insert_set; auto.
  - apply ets_insert_set; auto.
  - by apply ets_insert_bag.
  - destruct Hok as (L & Hr & Hrest). apply ets_add_inserted; [by exists L| |]; by rewrite Ety.
Qed.

(** Lookup returns the newest value. *)
Lemma ets_lookup_ok a B p t f key :
  ets_ok a B p t f →
  beam_ets_lookup t key = Some (match f key with
                                | v :: _ => (BEAM_OK, Some v)
                                | [] => (BEAM_ERR_NOT_FOUND, None)
                                end).
Proof.
  intros (L & Hr & _). unfold beam_ets_lookup. rewrite (ets_find_spec _ _ _ key _ Hr). simpl.
  rewrite (er_vals _ _ _ Hr key). destruct (split_first _ _) as [[[l1 x] l2]|] eqn:Es.
  - destruct (split_key_Some _ _ _ _ _ Es) as (q & w & -> & El & El1 & Ev). by rewrite Ev.
  - by rewrite (split_key_None _ _ Es).
Qed.

(** Deletion removes the newest value of the key, and only that one. *)
Lemma ets_delete_ok a B p t f key :
  ets_ok a B p t f →
  match f key with
  | [] => beam_ets_delete t a key = Some (BEAM_ERR_NOT_FOUND, t, a)
  | v :: vs => ∃ t' q, beam_ets_delete t a key = Some (BEAM_OK, t', al_free a q) ∧
      t_type t' = t_type t ∧ t_item_count t' = u64 (t_item_count t - 1) ∧
      B !! q = Some sizeof_ets_entry ∧
      ets_ok (al_free a q) (delete q B) p t' (ets_put key vs f)
  end.
Proof.
  intros (L & Hr & Ha & Hp & Hb & Hn). destruct (ets_bucket _ _ _ key Hr) as [Hbk HL].
  pose proof (er_chains _ _ _ Hr) as Hc.
  destruct (chains_bucket _ _ _ _ _ Hc HL) as (h & Hh & Hs & Hlen).
  pose proof (er_vals _ _ _ Hr key) as Hv. unfold beam_ets_delete. rewrite Hbk.
  unfold array_get. destruct (Z.ltb_spec (Z.of_nat (bucket_idx key)) 0); [lia|].
  rewrite Nat2Z.id, Hh. cbn [mbind option_bind].
  rewrite (find_slot_spec _ _ _ _ _ _ Hs Hlen). cbn [mbind option_bind].
  destruct (split_first _ _) as [[[l1 x] l2]|] eqn:Es.
  2:{ rewrite Hv, (split_key_None _ _ Es). done. }
  destruct (split_key_Some _ _ _ _ _ Es) as (q & w & -> & El & El1 & Ev).
  rewrite Hv, Ev. rewrite El in HL.
  destruct (chains_unlink _ _ _ _ _ _ _ _ Hc HL) as (es & hs & Hw & Hc').
  assert ((match last l1 with Some y => Some y.1 | None => None end) = fst <$> last l1) as ->
    by (by destruct (last l1)).
  change (match l2 with [] => NULL | y :: _ => y.1 end) with (head_addr l2).
  rewrite Hw. cbn [mbind option_bind fst].
  destruct (concat_insert_perm L _ _ (l1 ++ l2) HL) as (R & E1 & E2).
  assert (Hq : B !! q = Some sizeof_ets_entry).
  { apply Hn. rewrite E1, !fmap_app. csimpl. set_solver. }
  assert (Hqn : q ∉ (concat (<[bucket_idx key := l1 ++ l2]> L)).*1).
  { pose proof (ch_nodup _ _ _ Hc) as Hnd. rewrite E1 in Hnd. rewrite E2.
    rewrite !fmap_app in *. csimpl in *. rewrite <- app_assoc in Hnd. csimpl in Hnd.
    apply NoDup_app in Hnd as (_ & Hd & Hnd). apply NoDup_cons in Hnd as [Hq2 _].
    rewrite <- app_assoc, !elem_of_app in *. intros [Hq1|Hq1]; [|tauto].
    apply (Hd q Hq1). by left. }
  eexists _, q. split_and!; [done..|].
  exists (<[bucket_idx key := l1 ++ l2]> L). split_and!.
  - apply (ets_rep_bucket t _ _ _ key _ (Z.of_nat (length (concat
      (<[bucket_idx key := l1 ++ l2]> L))))); try done.
    + cbn [t_item_count set_t_chains].
      rewrite (er_count _ _ _ Hr), <- Z.add_opp_r, u64_add_u64, (concat_bucket_length _ _ _ _ HL).
      f_equal. rewrite !length_app. simpl length. lia.
    + by rewrite bucket_vals_app, El1.
    + pose proof (er_ok _ _ _ Hr key) as Hk. rewrite Hv, Ev in Hk.
      destruct (t_type t); simpl in *; try lia. by apply NoDup_cons in Hk as [_ ?].
    + intros k Hk. rewrite El, !bucket_vals_app, bucket_vals_cons.
      by rewrite decide_False by congruence.
    + intros x Hx. right. exists x. split; [|done]. rewrite El.
      apply elem_of_app in Hx as [Hx|Hx]; apply elem_of_app; [by left|right; by right].
  - by eapply al_free_spec.
  - rewrite lookup_delete_ne; [done|]. intros ->. rewrite Hp in Hq. done.
  - cbn [t_buckets set_t_chains]. rewrite lookup_delete_ne; [done|]. intros ->.
    rewrite Hb in Hq. done.
  - intros z Hz. rewrite lookup_delete_ne by congruence. apply Hn.
    rewrite E2 in Hz. rewrite E1. rewrite !fmap_app in *. csimpl. set_solver.
Qed.

(** Counters: the newest value, read as a small integer, plus the increment. *)
Lemma ets_update_counter_ok a B p t f key inc :
  ets_ok a B p t f →
  match f key with
  | [] => beam_ets_update_counter t key inc = Some (BEAM_ERR_NOT_FOUND, None, t)
  | v :: vs =>
      match s64_checked (eterm_to_small_int v + inc) with
      | None => beam_ets_update_counter t key inc = None
      | Some n => vals_ok (t_type t) (make_small_int n :: vs) →
          ∃ t', beam_ets_update_counter t key inc =
                  Some (BEAM_OK, Some (make_small_int n), t') ∧
            t_item_count t' = t_item_count t ∧ t_type t' = t_type t ∧
            ets_ok a B p t' (ets_put key (make_small_int n :: vs) f)
      end
  end.
Proof.
  intros (L & Hr & Ha & Hp & Hb & Hn). destruct (ets_bucket _ _ _ key Hr) as [_ HL].
  pose proof (er_vals _ _ _ Hr key) as Hv.
  unfold beam_ets_update_counter. rewrite (ets_find_spec _ _ _ key _ Hr). cbn [mbind option_bind].
  destruct (split_first _ _) as [[[l1 x] l2]|] eqn:Es.
  2:{ rewrite Hv, (split_key_None _ _ Es). done. }
  destruct (split_key_Some _ _ _ _ _ Es) as (q & w & -> & El & El1 & Ev).
  rewrite Hv, Ev. cbn [snd]. destruct (s64_checked _) as [n|]; [|done]. cbn [mbind option_bind].
  intros Hok. destruct (ets_overwrite_spec _ _ _ _ _ _ _ _ _ Hr El El1 Hok)
    as (t' & -> & Ht & Htb & Hcnt & Hr').
  cbn [mbind option_bind]. eexists. split; [done|]. split; [done|]. split; [done|].
  eexists. split; [done|]. rewrite Htb. split_and!; [done..|].
  intros z. rewrite El in HL.
  destruct (concat_insert_perm L _ _ (l1 ++ (q, (key, make_small_int n)) :: l2) HL)
    as (R & E1 & E2).
  rewrite E2. intros Hx. apply Hn. rewrite E1. by rewrite !fmap_app in Hx |- *.
Qed.

(** ** Creation and destruction *)

Lemma ets_create_ok a B name ty prot :
  al_rep a B →
  ∃ r a', beam_ets_table_create_typed name ty prot a = (r, a') ∧
    match r with
    | None => al_rep a' B
    | Some (p, t) => ∃ B', B ⊆ B' ∧ ets_ok a' B' p t (λ _, []) ∧ t_item_count t = 0 ∧
        t_type t = ty ∧ B !! p = None ∧ B !! t_buckets t = None
    end.
Proof.
  intros Ha. unfold beam_ets_table_create_typed.
  destruct (al_alloc a sizeof_beam_ets_table) as [p a1] eqn:E1.
  assert (alloc_size sizeof_beam_ets_table ∧ alloc_size (sizeof_pointer * ETS_DEFAULT_BUCKETS))
    as [S1 S2] by done.
  destruct (al_alloc_spec _ _ _ _ _ Ha S1 E1) as [[-> Ha1]|[Hf1 Ha1]].
  { simpl. by eexists _, _. }
  pose proof (fresh_block_nonnull _ _ _ Hf1). destruct (Z.eqb_spec p NULL); [done|].
  assert (B !! p = None) as HBp by (eapply fresh_block_None; [done| |done]; done).
  destruct (al_alloc a1 _) as [bs a2] eqn:E2.
  destruct (al_alloc_spec _ _ _ _ _ Ha1 S2 E2) as [[-> Ha2]|[Hf2 Ha2]].
  { simpl. eexists None, _. split; [done|].
    rewrite <- (delete_insert_id B p sizeof_beam_ets_table) by done.
    eapply al_free_spec; [done|]. apply lookup_insert_eq. }
  pose proof (fresh_block_nonnull _ _ _ Hf2). destruct (Z.eqb_spec bs NULL); [done|].
  assert (<[p := sizeof_beam_ets_table]> B !! bs = None) as HBb
    by (eapply fresh_block_None; [done| |done]; done).
  apply lookup_insert_None in HBb as [HBb Hne].
  eexists (Some _), _. split; [done|].
  exists (<[bs := sizeof_pointer * ETS_DEFAULT_BUCKETS]> (<[p := sizeof_beam_ets_table]> B)).
  split_and!; [|  |done..].
  - etrans; [by apply (insert_subseteq B p sizeof_beam_ets_table)|].
    apply insert_subseteq. by rewrite lookup_insert_ne.
  - exists (replicate (Z.to_nat ETS_DEFAULT_BUCKETS) []). split_and!.
    + assert (Hc : concat (replicate (Z.to_nat ETS_DEFAULT_BUCKETS) ([] : entry_list)) = []) by done.
      split; cbn [t_entries t_heads t_bucket_count t_item_count t_type]; try done.
      * apply chains_empty.
      * intros key. rewrite list_lookup_total_alt, lookup_replicate_2 by apply bucket_idx_lt. done.
      * intros i l x [-> _]%lookup_replicate Hx. by apply not_elem_of_nil in Hx.
      * intros _. destruct ty; simpl; (lia || constructor).
    + done.
    + by rewrite lookup_insert_ne, lookup_insert_eq.
    + apply lookup_insert_eq.
    + by intros z ?%not_elem_of_nil.
Qed.

(** The blocks of a table: the structure, the bucket array, the entries. *)
Definition ets_blocks (p : Z) t (L : list entry_list) : list Z :=
  p :: t_buckets t :: (concat L).*1.

(** They are distinct: their sizes are. *)
Lemma ets_blocks_ok B p t L f :
  ets_rep t L f → B !! p = Some sizeof_beam_ets_table →
  B !! t_buckets t = Some (sizeof_pointer * ETS_DEFAULT_BUCKETS) →
  (∀ n, n ∈ (concat L).*1 → B !! n = Some sizeof_ets_entry) →
  NoDup (ets_blocks p t L) ∧ ∀ q, q ∈ ets_blocks p t L → is_Some (B !! q).
Proof.
  intros Hr Hp Hb Hn. split.
  - constructor; [|constructor; [|apply (er_chains _ _ _ Hr)]].
    + intros [E|Hin%Hn]%elem_of_cons; [rewrite <-E, Hp in Hb; done|by rewrite Hp in Hin].
    + intros Hin%Hn. by rewrite Hb in Hin.
  - intros q [->|[->|Hq%Hn]%elem_of_cons]%elem_of_cons; eauto.
Qed.

(** Destruction frees the table, its bucket array and every entry. *)
Lemma ets_destroy_ok a B p t L f :
  ets_rep t L f → al_rep a B → NoDup (ets_blocks p t L) →
  (∀ q, q ∈ ets_blocks p t L → is_Some (B !! q)) →
  ∃ a', beam_ets_table_destroy (Some (p, t)) a = Some a' ∧
    al_rep a' (drop_blocks (ets_blocks p t L) B).
Proof.
  intros Hr Ha Hnd HB. pose proof (er_chains _ _ _ Hr) as [Hs Hns _]. unfold ets_blocks in *.
  assert (Hadr : ∀ l : entry_list, concat ((λ x, [x.1]) <$> l) = l.*1).
  { induction l as [|x l IH]; [done|]. csimpl. by rewrite IH. }
  apply NoDup_cons in Hnd as [Hn1 Hnd]. apply NoDup_cons in Hnd as [Hn2 Hnd].
  apply not_elem_of_cons in Hn1 as [? Hn1].
  destruct (free_buckets_spec (λ q (_ : Z * Z) a, al_free a q) (λ x, [x.1])) with
    (m := t_entries t) (heads := t_heads t) (L := L) (a := a) (B := B)
    as (m' & a' & E & Ha'); rewrite ?Hadr; try done.
  { intros a0 B0 q v Ha0 _ Hq. destruct (Hq q) as [k Hk]; [by left|].
    by eapply al_free_spec. }
  { intros q Hq. apply HB. by do 2 right. }
  rewrite Hadr in Ha'. unfold beam_ets_table_destroy. rewrite E. cbn [mbind option_bind].
  destruct (HB p) as [k1 Hk1]; [by left|]. destruct (HB (t_buckets t)) as [k2 Hk2]; [right; by left|].
  pose proof (al_rep_pos _ _ _ _ Ha Hk2).
  destruct (Z.eqb_spec (t_buckets t) NULL); [unfold NULL in *; lia|].
  eexists. split; [done|].
  change (drop_blocks (p :: t_buckets t :: (concat L).*1) B) with
    (delete p (delete (t_buckets t) (drop_blocks (concat L).*1 B))).
  eapply al_free_spec; [eapply al_free_spec; [done|]|].
  - by rewrite drop_blocks_out.
  - by rewrite lookup_delete_ne, drop_blocks_out.
Qed.

End EtsAlloc.
