(* ===== verification/EtsProps.v ===== *)
(** What an ETS table promises its clients (src/global/ets.c): the operations
    refine a map from keys to lists of values, newest value first. *)
From S2P Require Import Prelude Memory Term Alloc LinkedList HashChain Ets.
From stdpp Require Import options.

(** ** The abstract table *)

Inductive ets_op : Type :=
| EInsert (key value : Z)
| ELookup (key : Z)
| EDelete (key : Z)
| ECounter (key increment : Z).

Definition ets_key (op : ets_op) : Z :=
  match op with EInsert k _ | ELookup k | EDelete k | ECounter k _ => k end.

(** [ets_spec ty op f r out f']: an operation of a table of type [ty] on the
    contents [f] may answer [r] with the value [out] and leave [f']. *)
Inductive ets_spec (ty : beam_ets_type_t) :
    ets_op → ets_map → beam_result_t → option Z → ets_map → Prop :=
| es_insert k v f :
    ets_spec ty (EInsert k v) f BEAM_OK None (ets_put k (vals_insert ty (f k) v) f)
| es_no_memory k v f : ets_spec ty (EInsert k v) f BEAM_ERR_NO_MEMORY None f
| es_lookup k v vs f : f k = v :: vs → ets_spec ty (ELookup k) f BEAM_OK (Some v) f
| es_lookup_miss k f : f k = [] → ets_spec ty (ELookup k) f BEAM_ERR_NOT_FOUND None f
| es_delete k v vs f : f k = v :: vs → ets_spec ty (EDelete k) f BEAM_OK None (ets_put k vs f)
| es_delete_miss k f : f k = [] → ets_spec ty (EDelete k) f BEAM_ERR_NOT_FOUND None f
| es_counter k i v vs f :
    f k = v :: vs →
    let n := make_small_int (eterm_to_small_int v + i) in
    ets_spec ty (ECounter k i) f BEAM_OK (Some n) (ets_put k (n :: vs) f)
| es_counter_miss k i f : f k = [] → ets_spec ty (ECounter k i) f BEAM_ERR_NOT_FOUND None f.

(** Counters overflow at the width of [intptr_t], and in a bag they can make
    two entries equal. *)
Definition ets_safe (ty : beam_ets_type_t) (op : ets_op) (f : ets_map) : Prop :=
  match op with
  | ECounter k i =>
      match f k with
      | v :: vs => is_s64 (eterm_to_small_int v + i) ∧
          (ty = BEAM_ETS_BAG → make_small_int (eterm_to_small_int v + i) ∉ vs)
      | [] => True
      end
  | _ => True
  end.

Section EtsProps.
Context {A : Type} `{AllocSpec A}.
Implicit Types (a : A) (t : beam_ets_table) (f : ets_map) (B : blocks).

Definition ets_exec (op : ets_op) t a
    : option (beam_result_t * option Z * beam_ets_table * A) :=
  match op with
  | EInsert k v => '(r, t, a) ← beam_ets_insert t a k v; Some (r, None, t, a)
  | ELookup k => '(r, out) ← beam_ets_lookup t k; Some (r, out, t, a)
  | EDelete k => '(r, t, a) ← beam_ets_delete t a k; Some (r, None, t, a)
  | ECounter k i => '(r, out, t) ← beam_ets_update_counter t k i; Some (r, out, t, a)
  end.

Lemma ets_ok_count a B p t f : ets_ok a B p t f → u64 (t_item_count t) = t_item_count t.
Proof. intros (L & Hr & _). rewrite (er_count _ _ _ Hr). apply u64_small, u64_range. Qed.

Lemma ets_put_same key f : ets_put key (f key) f key = f key.
Proof. unfold ets_put. by case_decide. Qed.

Lemma ets_put_eq key vs f : ets_put key vs f key = vs.
Proof. unfold ets_put. by case_decide. Qed.

Lemma vals_ok_counter ty v vs n :
  vals_ok ty (v :: vs) → (ty = BEAM_ETS_BAG → n ∉ vs) → vals_ok ty (n :: vs).
Proof. destruct ty; simpl; try done. intros [_ Hnd]%NoDup_cons Hn. constructor; auto. Qed.

(** C7: Refinement: an ETS table of any of the four types implements a map from
    keys to lists of values, newest first.  Every operation succeeds in the
    model, answers what the abstract table answers (replacing in sets, refusing
    duplicates in bags, prepending in duplicate bags; deleting the newest value
    of the key), keeps the representation, and counts the entries; the excluded
    uses are a counter that overflows its machine word and a counter that makes
    two values of a bag equal. *)
Theorem ets_refines_map a B p t f op :
  ets_ok a B p t f → ets_safe (t_type t) op f →
  ∃ r out t' a' B' f', ets_exec op t a = Some (r, out, t', a') ∧
    ets_spec (t_type t) op f r out f' ∧ ets_ok a' B' p t' f' ∧ t_type t' = t_type t ∧
    t_item_count t' = u64 (t_item_count t +
      (Z.of_nat (length (f' (ets_key op))) - Z.of_nat (length (f (ets_key op))))).
Proof.
  intros Hok Hs. pose proof (ets_ok_count _ _ _ _ _ Hok) as Hc. destruct op as [k v|k|k|k i]; simpl.
  - destruct (ets_insert_ok _ _ _ _ _ k v Hok) as (r & t' & a' & -> & [(-> & -> & Hok')|Hr]).
    { eexists _, _, _, _, B, f. split_and!; [done|constructor|done..|]. by rewrite Z.sub_diag, Z.add_0_r. }
    destruct Hr as (-> & Ht & Hn & B' & _ & Hok').
    eexists _, _, _, _, B', _. split_and!; [done|constructor|done..|].
    rewrite ets_put_eq, Hn. f_equal. destruct (t_type t); simpl.
    all: try (destruct (f k); simpl; lia). case_bool_decide; simpl; lia.
  - rewrite (ets_lookup_ok _ _ _ _ _ k Hok). destruct (f k) as [|v vs] eqn:E.
    all: eexists _, _, _, _, B, f; split_and!; [done|by econstructor|done..|].
    all: by rewrite E, Z.sub_diag, Z.add_0_r.
  - pose proof (ets_delete_ok _ _ _ _ _ k Hok) as Hd. destruct (f k) as [|v vs] eqn:E.
    + rewrite Hd. eexists _, _, _, _, B, f. split_and!; [done|by econstructor|done..|].
      by rewrite E, Z.sub_diag, Z.add_0_r.
    + destruct Hd as (t' & q & -> & Ht & Hn & _ & Hok').
      eexists _, _, _, _, _, _. split_and!; [done|by econstructor|done..|].
      rewrite ets_put_eq, Hn. f_equal. simpl. lia.
  - pose proof (ets_update_counter_ok _ _ _ _ _ k i Hok) as Hd. simpl in Hs.
    destruct (f k) as [|v vs] eqn:E.
    + rewrite Hd. eexists _, _, _, _, B, f. split_and!; [done|by econstructor|done..|].
      by rewrite E, Z.sub_diag, Z.add_0_r.
    + destruct Hs as [Hs Hb]. rewrite s64_checked_small in Hd by done.
      destruct Hd as (t' & -> & Hn & Ht & Hok').
      { apply (vals_ok_counter _ v); [|done]. destruct Hok as (L & Hr & _).
        rewrite <-E. apply (er_ok _ _ _ Hr). }
      eexists _, _, _, _, _, _. split_and!; [done|by econstructor|done..|].
      rewrite ets_put_eq, Hn. simpl. by rewrite Z.sub_diag, Z.add_0_r.
Qed.

End EtsProps.

(** ** Examples *)

(** A bag created over the C heap. *)
Definition demo_bag : option (Z * beam_ets_table) * bump_heap :=
  beam_ets_table_create_typed None BEAM_ETS_BAG BEAM_ETS_PUBLIC (bump_init (2 ^ 20)).

Lemma demo_bag_ok :
  ∃ B p t, demo_bag.1 = Some (p, t) ∧ ets_ok demo_bag.2 B p t (λ _, []) ∧
    t_type t = BEAM_ETS_BAG ∧ t_item_count t = 0.
Proof.
  destruct (ets_create_ok (bump_init (2 ^ 20)) ∅ None BEAM_ETS_BAG BEAM_ETS_PUBLIC)
    as (r & a & E & Hr); [by apply bump_init_rep|].
  unfold demo_bag. rewrite E. destruct r as [[p t]|]; [|by vm_compute in E].
  destruct Hr as (B & _ & Hok & Hn & Ht & _). by eexists B, p, t.
Qed.

Lemma ets_refines_map_witness :
  ∃ p t r out t' a' f', demo_bag.1 = Some (p, t) ∧
    ets_exec (EInsert 5 9) t demo_bag.2 = Some (r, out, t', a') ∧
    ets_spec BEAM_ETS_BAG (EInsert 5 9) (λ _, []) r out f' ∧
    t_item_count t' = u64 (Z.of_nat (length (f' 5))).
Proof.
  destruct demo_bag_ok as (B & p & t & E & Hok & Ht & Hn).
  destruct (ets_refines_map demo_bag.2 B p t (λ _, []) (EInsert 5 9) Hok I)
    as (r & out & t' & a' & B' & f' & Hx & Hs & _ & _ & Hc).
  rewrite Ht in Hs. rewrite Hn, Z.add_0_l, Z.sub_0_r in Hc. by exists p, t, r, out, t', a', f'.
Defined.
