(* ===== verification/AtomTable.v ===== *)
(** The atom table: src/global/atom_table.c.

    Atoms are interned names: the table is refined to the list of the names in
    the order of their indices.  The two locked phases of an intern are
    definitions of their own, shared with the concurrent model of the file
    AtomRace. *)
From S2P Require Import Prelude Memory Term Alloc LinkedList HashChain Blocks.
From stdpp Require Import options.

(** ** Data *)

(** [beam_atom_entry_t]; [ae_bytes] are the characters at [ae_name]. *)
Record beam_atom_entry : Type := {
  ae_name : Z;
  ae_bytes : list Z;
  ae_len : Z;
  ae_hash : Z;
  ae_index : Z;
}.

(** [struct beam_atom_table]; [at_heads] and [at_cells] are the contents of
    the arrays at [at_buckets] and [at_index_map]; a cell is [None] until it is
    written. *)
Record beam_atom_table : Type := {
  at_buckets : Z;
  at_heads : list Z;
  at_index_map : Z;
  at_cells : list (option Z);
  at_bucket_count : Z;
  at_count : Z;
  at_capacity : Z;
  at_entries : nodes beam_atom_entry;
}.

Definition BEAM_ATOM_DEFAULT_CAPACITY : Z := 256.
Definition sizeof_beam_atom_entry : Z := 32.
Definition sizeof_beam_atom_table : Z := 128.

(** FNV-1a on 32 bits. *)
Fixpoint hash_loop (hash : Z) (name : list Z) : Z :=
  match name with
  | [] => hash
  | c :: name' => hash_loop (u32 ((hash .^ u8 c) * 16777619)) name'
  end.

Definition hash_atom_name (name : list Z) : Z := hash_loop 2166136261 name.

Definition atom_eterm (index : Z) : Z := (index .<< 4) .| TAG_IMMED1_ATOM.
Definition atom_index (term : Z) : Z := u32 (term .>> 4).

(** The characters of a C string: up to the first NUL. *)
Fixpoint c_string (s : list Z) : list Z :=
  match s with
  | [] => []
  | c :: s' => if c =? 0 then [] else c :: c_string s'
  end.

(** Number of pointers an array of [n] of them is allocated for. *)
Definition array_cells (n : Z) : nat := Z.to_nat (u64 (8 * n) / 8).

Section Atom.
Context {A : Type} `{AllocOps A}.
Implicit Types (a : A) (t : beam_atom_table).

Definition beam_atom_table_create a (initial_capacity : Z) : option (Z * beam_atom_table) * A :=
  let capacity := if initial_capacity >? 0 then initial_capacity
                  else BEAM_ATOM_DEFAULT_CAPACITY in
  let '(p, a) := al_alloc a sizeof_beam_atom_table in
  if p =? NULL then (None, a)
  else
    let '(bs, a) := al_alloc a (u64 (8 * capacity)) in
    if bs =? NULL then (None, al_free a p)
    else
      let '(im, a) := al_alloc a (u64 (8 * capacity)) in
      if im =? NULL then (None, al_free (al_free a bs) p)
      else
        (Some (p, {| at_buckets := bs; at_heads := replicate (array_cells capacity) NULL;
                     at_index_map := im;
                     at_cells := replicate (array_cells capacity) (Some NULL);
                     at_bucket_count := capacity; at_count := 0; at_capacity := capacity;
                     at_entries := ∅ |}), a).

(** What the destruction loop frees for one entry. *)
Definition free_atom_entry (p : Z) (e : beam_atom_entry) a : A :=
  let a := if ae_name e =? NULL then a else al_free a (ae_name e) in al_free a p.

Definition beam_atom_table_destroy (tab : option (Z * beam_atom_table)) a : option A :=
  match tab with
  | None => Some a
  | Some (p, t) =>
      '(_, a) ← free_buckets free_atom_entry (at_entries t) a (at_heads t);
      let a := if at_buckets t =? NULL then a else al_free a (at_buckets t) in
      let a := if at_index_map t =? NULL then a else al_free a (at_index_map t) in
      Some (al_free a p)
  end.

(** The comparison of a name with an entry. *)
Definition entry_matches (hash : Z) (name : list Z) (e : beam_atom_entry) : bool :=
  (ae_hash e =? hash) && (ae_len e =? Z.of_nat (length name)) &&
  bool_decide (ae_bytes e = name).

Definition atom_table_find_entry t (name : list Z)
    : option (option (Z * beam_atom_entry)) :=
  let hash := hash_atom_name name in
  h ← array_get (at_heads t) (hash mod at_bucket_count t);
  find_node (size (at_entries t)) (at_entries t) h (entry_matches hash name).

(** The cells of a reallocated array of [n] pointers: those whose bytes the new
    block took over, then cells nothing was written to. *)
Definition realloc_cells (mv : realloc_effect) (cells : list (option Z)) (n : nat)
    : list (option Z) :=
  let kept := match mv with Moved k => take (Z.to_nat (k / 8)) (take n cells) | NotMoved => [] end in
  kept ++ replicate (n - length kept) None.

(** Doubling the index map; [false] in the first component when it fails. *)
Definition atom_table_grow t a : bool * beam_atom_table * A :=
  if at_count t >=? at_capacity t then
    let new_cap := u64 (at_capacity t * 2) in
    let '(new_map, mv, a) := al_realloc a (at_index_map t) (u64 (8 * new_cap)) in
    if new_map =? NULL then (false, t, a)
    else
      (true, {| at_buckets := at_buckets t; at_heads := at_heads t;
                at_index_map := new_map;
                at_cells := realloc_cells mv (at_cells t) (array_cells new_cap);
                at_bucket_count := at_bucket_count t; at_count := at_count t;
                at_capacity := new_cap; at_entries := at_entries t |}, a)
  else (true, t, a).

Definition atom_table_insert t a (name : list Z) : option (Z * beam_atom_table * A) :=
  let '(ok, t, a) := atom_table_grow t a in
  if negb ok then Some (0, t, a)
  else
    let hash := hash_atom_name name in
    let bucket_idx := hash mod at_bucket_count t in
    let '(entry, a) := al_alloc a sizeof_beam_atom_entry in
    if entry =? NULL then Some (0, t, a)
    else
      let '(np, a) := al_alloc a (u64 (Z.of_nat (length name) + 1)) in
      if np =? NULL then Some (0, t, al_free a entry)
      else
        let e := {| ae_name := np; ae_bytes := name; ae_len := Z.of_nat (length name);
                    ae_hash := hash; ae_index := u32 (at_count t) |} in
        h ← array_get (at_heads t) bucket_idx;
        hs ← array_set (at_heads t) bucket_idx entry;
        cells ← array_set (at_cells t) (at_count t) (Some entry);
        Some (atom_eterm (ae_index e),
              {| at_buckets := at_buckets t; at_heads := hs;
                 at_index_map := at_index_map t; at_cells := cells;
                 at_bucket_count := at_bucket_count t; at_count := u64 (at_count t + 1);
                 at_capacity := at_capacity t;
                 at_entries := <[entry := Node e h]> (at_entries t) |}, a).

(** The read-locked phase: the atom when the name is there. *)
Definition intern_read t (name : list Z) : option (option Z) :=
  e ← atom_table_find_entry t name;
  Some (match e with Some (_, e) => Some (atom_eterm (ae_index e)) | None => None end).

(** The write-locked phase: look again, then insert. *)
Definition intern_write t a (name : list Z) : option (Z * beam_atom_table * A) :=
  e ← atom_table_find_entry t name;
  match e with
  | Some (_, e) => Some (atom_eterm (ae_index e), t, a)
  | None => atom_table_insert t a name
  end.

(** [name] must have at least [len] characters. *)
Definition beam_atom_intern_length t a (name : list Z) (len : nat)
    : option (Z * beam_atom_table * A) :=
  if (length name <? len)%nat then None
  else
    r ← intern_read t (take len name);
    match r with
    | Some term => Some (term, t, a)
    | None => intern_write t a (take len name)
    end.

Definition beam_atom_intern t a (name : list Z) : option (Z * beam_atom_table * A) :=
  let name := c_string name in
  r ← intern_read t name;
  match r with
  | Some term => Some (term, t, a)
  | None => intern_write t a name
  end.

(** The returned pointer is given by the string it points to. *)
Definition beam_atom_lookup t (term : Z) : option (option (list Z)) :=
  if negb (term .& 0x0F =? TAG_IMMED1_ATOM) then Some None
  else
    let index := atom_index term in
    if index >=? at_count t then Some None
    else
      cell ← array_get (at_cells t) index;
      entry ← cell;
      if entry =? NULL then Some None
      else e ← at_entries t !! entry; Some (Some (c_string (ae_bytes (nval e)))).

Definition beam_atom_table_count (tab : option beam_atom_table) : Z :=
  match tab with Some t => at_count t | None => 0 end.

End Atom.

(** ** Specification *)

Abbreviation atom_list := (list (Z * beam_atom_entry)).

(** The blocks of an entry. *)
Definition entry_blocks (x : Z * beam_atom_entry) : list Z := [x.1; ae_name x.2].

(** [names !! i] is the name of the atom of index [i]. *)
Record atoms_rep (t : beam_atom_table) (L : list atom_list) (names : list (list Z)) : Prop := {
  ar_chains : chains (at_entries t) (at_heads t) L;
  ar_num : at_bucket_count t = Z.of_nat (length L);
  ar_pos : 0 < at_bucket_count t;
  ar_count : at_count t = Z.of_nat (length names);
  ar_cap : at_count t <= at_capacity t < 2 ^ 44 ∧
           length (at_cells t) = Z.to_nat (at_capacity t);
  ar_nodup : NoDup names;
  ar_entry : ∀ i l p e, L !! i = Some l → (p, e) ∈ l →
    ae_hash e = hash_atom_name (ae_bytes e) ∧ ae_len e = Z.of_nat (length (ae_bytes e)) ∧
    Z.of_nat i = ae_hash e mod at_bucket_count t ∧
    ∃ j, ae_index e = Z.of_nat j ∧ names !! j = Some (ae_bytes e);
  ar_index : ∀ j name, names !! j = Some name →
    ∃ p e, (p, e) ∈ concat L ∧ ae_bytes e = name ∧ at_cells t !! j = Some (Some p);
}.

(** Hashes fit 32 bits. *)
Lemma hash_atom_range name : 0 <= hash_atom_name name < 2 ^ 32.
Proof.
  unfold hash_atom_name. assert (0 <= 2166136261 < 2 ^ 32) as Hh by lia. revert Hh.
  generalize 2166136261. induction name as [|c name IH]; intros h Hh; [done|].
  simpl. apply IH. apply u32_range.
Qed.

#[global] Opaque hash_atom_name.

Lemma atom_eterm_eq i : atom_eterm i = i * 16 + 11.
Proof. unfold atom_eterm. change TAG_IMMED1_ATOM with 11. by rewrite lor_low by lia. Qed.

Lemma atom_index_eterm i : 0 <= i < 2 ^ 32 → atom_index (atom_eterm i) = i.
Proof.
  intros Hi. unfold atom_index. rewrite atom_eterm_eq, Z.shiftr_div_pow2 by lia.
  replace ((i * 16 + 11) / 2 ^ 4) with i by (Z.to_euclidean_division_equations; lia).
  apply u32_small. exact Hi.
Qed.

Lemma atom_eterm_tag i : atom_eterm i .& 0x0F = TAG_IMMED1_ATOM.
Proof.
  rewrite atom_eterm_eq, land_15. change TAG_IMMED1_ATOM with 11.
  Z.to_euclidean_division_equations; lia.
Qed.

Lemma atom_eterm_nonzero i : 0 <= i → atom_eterm i ≠ 0.
Proof. intros. rewrite atom_eterm_eq. lia. Qed.

Section AtomRep.
Implicit Types (t : beam_atom_table) (L : list atom_list) (names : list (list Z)).

Lemma atoms_bucket t L names name :
  atoms_rep t L names →
  ∃ i l, hash_atom_name name mod at_bucket_count t = Z.of_nat i ∧ L !! i = Some l.
Proof.
  intros Hr. pose proof (ar_pos _ _ _ Hr). pose proof (ar_num _ _ _ Hr).
  pose proof (Z.mod_pos_bound (hash_atom_name name) (at_bucket_count t)).
  destruct (lookup_lt_is_Some_2 L (Z.to_nat (hash_atom_name name mod at_bucket_count t)))
    as [l Hl]; [lia|].
  eexists _, l. split; [|done]. lia.
Qed.

(** The entries an atom list and an index list agree on. *)
Lemma atoms_entry t L names p e :
  atoms_rep t L names → (p, e) ∈ concat L →
  ∃ j, ae_index e = Z.of_nat j ∧ names !! j = Some (ae_bytes e).
Proof.
  intros Hr (l & Hin & Hl)%elem_of_concat. apply list_elem_of_lookup in Hl as [i Hi].
  by destruct (ar_entry _ _ _ Hr _ _ _ _ Hi Hin) as (_ & _ & _ & ?).
Qed.

(** Searching a name: found exactly when it is interned, with its index. *)
Lemma atom_find_spec t L names name :
  atoms_rep t L names →
  ∃ r, atom_table_find_entry t name = Some r ∧
    match r with
    | Some (p, e) => (p, e) ∈ concat L ∧ ae_bytes e = name ∧
        ∃ j, ae_index e = Z.of_nat j ∧ names !! j = Some name
    | None => name ∉ names
    end.
Proof.
  intros Hr. destruct (atoms_bucket _ _ _ name Hr) as (i & l & Hi & Hl).
  destruct (chains_find _ _ _ _ _ (entry_matches (hash_atom_name name) name)
              (ar_chains _ _ _ Hr) Hl) as (h & Hh & Hf).
  unfold atom_table_find_entry. rewrite Hi. unfold array_get.
  destruct (Z.ltb_spec (Z.of_nat i) 0); [lia|]. rewrite Nat2Z.id, Hh. simpl. rewrite Hf.
  eexists. split; [done|]. destruct (split_first _ l) as [[[l1 [p e]] l2]|] eqn:Es.
  - destruct (split_first_Some _ _ _ _ _ Es) as (-> & Ht & _). unfold entry_matches in Ht.
    apply andb_true_iff in Ht as [_ Hn]. simpl in Hn. apply bool_decide_eq_true in Hn.
    assert ((p, e) ∈ concat L) as Hin.
    { apply elem_of_concat. eexists. split; [|by eapply list_elem_of_lookup_2].
      apply elem_of_app. right. by left. }
    split_and!; [done..|]. destruct (atoms_entry _ _ _ _ _ Hr Hin) as (j & ? & ?).
    exists j. by rewrite <- Hn.
  - apply split_first_None in Es. intros [j Hj]%list_elem_of_lookup.
    destruct (ar_index _ _ _ Hr _ _ Hj) as (p & e & Hin & <- & _).
    apply elem_of_concat in Hin as (l' & Hin & Hl').
    apply list_elem_of_lookup in Hl' as [i' Hi'].
    destruct (ar_entry _ _ _ Hr _ _ _ _ Hi' Hin) as (Hh' & Hlen & Hmod & _).
    assert (i' = i) as -> by (rewrite Hh' in Hmod; lia). simplify_eq.
    rewrite Forall_forall in Es. specialize (Es _ Hin). unfold entry_matches in Es. simpl in Es.
    rewrite Hh', Hlen, !Z.eqb_refl, bool_decide_true in Es; done.
Qed.

(** Lookup inverts the encoding of indices. *)
Lemma atom_lookup_spec t L names i :
  atoms_rep t L names → 0 <= i < 2 ^ 32 →
  beam_atom_lookup t (atom_eterm i) = Some (c_string <$> names !! Z.to_nat i).
Proof.
  intros Hr Hi. unfold beam_atom_lookup. rewrite atom_eterm_tag, Z.eqb_refl.
  cbn [negb]. rewrite atom_index_eterm by done. rewrite (ar_count _ _ _ Hr), Z.geb_leb.
  destruct (Z.leb_spec (Z.of_nat (length names)) i) as [Hle|Hlt].
  { rewrite lookup_ge_None_2 by lia. done. }
  destruct (lookup_lt_is_Some_2 names (Z.to_nat i)) as [name Hn]; [lia|]. rewrite Hn.
  destruct (ar_index _ _ _ Hr _ _ Hn) as (p & e & Hin & <- & Hc).
  unfold array_get. destruct (Z.ltb_spec i 0); [lia|]. rewrite Hc. cbn [mbind option_bind].
  pose proof (ar_chains _ _ _ Hr) as Hch.
  apply elem_of_concat in Hin as (l & Hin & Hl). apply list_elem_of_lookup in Hl as [b Hb].
  destruct (chains_bucket _ _ _ _ _ Hch Hb) as (h & _ & Hs & _).
  apply list_elem_of_split in Hin as (l1 & l2 & ->).
  apply lseg_app in Hs as (r & _ & -> & Hnn & n & Hm & _).
  destruct (Z.eqb_spec p NULL); [done|]. rewrite Hm. done.
Qed.

End AtomRep.

(** ** The table in memory *)

Section AtomAlloc.
Context {A : Type} `{AllocSpec A}.
Implicit Types (a : A) (t : beam_atom_table) (B : blocks).

Definition table_blocks (tp : Z) t (L : list atom_list) : list Z :=
  tp :: at_buckets t :: at_index_map t :: concat (entry_blocks <$> concat L).

Definition atoms_ok a B (tp : Z) t (names : list (list Z)) : Prop :=
  ∃ L, atoms_rep t L names ∧ al_rep a B ∧ NoDup (table_blocks tp t L) ∧
    B !! at_index_map t = Some (8 * at_capacity t) ∧
    ∀ q, q ∈ table_blocks tp t L → is_Some (B !! q).

(** Growing keeps the table; it fails without effect. *)
(** Growing keeps the atoms when the allocator's [realloc] copies. *)
Definition can_grow a t : Prop := al_copies a ∨ at_count t < at_capacity t.

Lemma realloc_cells_kept kept cells n :
  (length cells <= n)%nat → 8 * Z.of_nat (length cells) <= kept →
  realloc_cells (Moved kept) cells n = cells ++ replicate (n - length cells) None.
Proof.
  intros Hn Hk. unfold realloc_cells. rewrite (take_ge cells) by lia.
  rewrite take_ge; [done|]. pose proof (Z.div_le_mono _ _ 8 ltac:(lia) Hk) as Hd.
  rewrite Z.mul_comm, Z.div_mul in Hd by done. lia.
Qed.

Lemma atom_grow_ok a B tp t names :
  atoms_ok a B tp t names → can_grow a t →
  ∃ ok t' a' B', atom_table_grow t a = (ok, t', a') ∧ atoms_ok a' B' tp t' names ∧
    at_count t' = at_count t ∧ at_bucket_count t' = at_bucket_count t ∧
    at_heads t' = at_heads t ∧ at_entries t' = at_entries t ∧
    (ok = true → at_count t' < at_capacity t').
Proof.
  intros (L & Hr & Ha & Hnd & HBi & HB) Hcp. unfold atom_table_grow. rewrite Z.geb_leb.
  pose proof (ar_cap _ _ _ Hr) as [[Hc1 Hc2] Hc3].
  destruct (Z.leb_spec (at_capacity t) (at_count t)) as [Hle|Hlt].
  2:{ eexists true, t, a, B. split; [done|]. split; [by exists L|]. by split_and!. }
  destruct Hcp as [Hcp|]; [|lia]. pose proof (ar_count _ _ _ Hr) as Hcnt.
  destruct (al_rep_pos _ _ _ _ Ha HBi) as (_ & Hpos & _).
  rewrite (u64_small (at_capacity t * 2)) by (unfold is_u64; lia).
  unfold array_cells.
  rewrite (u64_small (8 * (at_capacity t * 2))) by (unfold is_u64; lia).
  replace (8 * (at_capacity t * 2) / 8) with (at_capacity t * 2)
    by (rewrite (Z.mul_comm 8), Z.div_mul; done).
  destruct (al_realloc a (at_index_map t) (8 * (at_capacity t * 2))) as [[q mv] a'] eqn:Ea.
  assert (Hsz : alloc_size (8 * (at_capacity t * 2))) by (unfold alloc_size; lia).
  destruct (al_realloc_spec _ _ _ _ _ _ _ _ Ha HBi Hsz Ea) as [[-> Ha']|[Hf Ha']].
  { eexists false, t, a', B. split; [done|]. split; [by exists L|]. by split_and!. }
  pose proof (fresh_block_nonnull _ _ _ Hf) as Hq. destruct (Z.eqb_spec q NULL); [done|].
  destruct (al_realloc_kept _ _ _ _ _ _ _ _ Hcp Ha HBi Hsz Ea Hq) as (kept & -> & Hkept).
  rewrite realloc_cells_kept by lia. set (cells' := at_cells t ++ _).
  assert (Hlen : length cells' = Z.to_nat (at_capacity t * 2)).
  { unfold cells'. rewrite length_app, length_replicate. lia. }
  assert (Hqn : ∀ x, x ≠ at_index_map t → is_Some (B !! x) → x ≠ q).
  { intros x Hx [k Hk] ->. destruct Hf as (_ & _ & _ & Hd).
    pose proof (al_rep_pos _ _ _ _ Ha Hk).
    destruct (Hd q k); [by rewrite lookup_delete_ne|lia..]. }
  eexists true, _, a', _. split; [done|]. split.
  - exists L. split_and!; [|exact Ha'| |by rewrite lookup_insert_eq|].
    + destruct Hr as [? ? ? ? ? ? He Hi]. split; cbn [at_entries at_heads at_bucket_count
        at_count at_capacity at_cells]; try done.
      * destruct Hf as (? & ? & ? & ?). unfold ADDR_LIMIT in *. split; [lia|done].
      * intros j name Hj. destruct (Hi _ _ Hj) as (p & e & ? & ? & ?). exists p, e.
        split_and!; [done..|]. unfold cells'. by apply lookup_app_l_Some.
    + unfold table_blocks in *. cbn [at_buckets at_index_map] in *.
      apply NoDup_cons in Hnd as [Hn1 Hnd]. apply NoDup_cons in Hnd as [Hn2 Hnd].
      apply NoDup_cons in Hnd as [Hn3 Hnd]. rewrite !not_elem_of_cons in *.
      assert (∀ x, x ∈ concat (entry_blocks <$> concat L) → x ≠ q) as Hx.
      { intros x Hx. apply Hqn; [by intros ->|]. apply HB. do 3 right. done. }
      assert (tp ≠ q) by (apply Hqn; [tauto|apply HB; by left]).
      assert (at_buckets t ≠ q) by (apply Hqn; [tauto|apply HB; right; by left]).
      repeat constructor; rewrite ?not_elem_of_cons; try tauto. intros Hin. by apply (Hx q).
    + intros x. unfold table_blocks in *. cbn [at_buckets at_index_map] in *. intros Hx.
      destruct (decide (x = q)) as [->|Hxq]; [rewrite lookup_insert_eq; eauto|].
      rewrite lookup_insert_ne by done.
      assert (x ≠ at_index_map t) as Hxi.
      { intros ->. apply NoDup_cons in Hnd as [Hn1 Hnd]. apply NoDup_cons in Hnd as [Hn2 Hnd].
        apply NoDup_cons in Hnd as [Hn3 Hnd]. rewrite !not_elem_of_cons in *.
        rewrite !elem_of_cons in Hx. naive_solver. }
      rewrite lookup_delete_ne by done. apply HB. rewrite !elem_of_cons in *. tauto.
  - cbn [at_count at_bucket_count at_heads at_entries at_capacity].
    split_and!; [done..|]. intros _. lia.
Qed.

Lemma sizeof_atom_entry_ok : alloc_size sizeof_beam_atom_entry.
Proof. done. Qed.

(** The table with one more atom: the entry [e] at [p], in front of bucket [i]
    whose head was [h], at index [n]. *)
Definition with_atom t (p : Z) (e : beam_atom_entry) (i : nat) (h : Z) (n : nat) : beam_atom_table :=
  {| at_buckets := at_buckets t; at_heads := <[i := p]> (at_heads t);
     at_index_map := at_index_map t; at_cells := <[n := Some p]> (at_cells t);
     at_bucket_count := at_bucket_count t; at_count := u64 (Z.of_nat n + 1);
     at_capacity := at_capacity t; at_entries := <[p := Node e h]> (at_entries t) |}.

Definition new_entry (np : Z) (name : list Z) (n : nat) : beam_atom_entry :=
  {| ae_name := np; ae_bytes := name; ae_len := Z.of_nat (length name);
     ae_hash := hash_atom_name name; ae_index := Z.of_nat n |}.

Lemma concat_push (L : list atom_list) i l p e :
  L !! i = Some l → concat (<[i := (p, e) :: l]> L) ≡ₚ (p, e) :: concat L.
Proof.
  intros Hl. destruct (concat_insert_perm L i l ((p, e) :: l) Hl) as (R & P1 & P2).
  by rewrite P1, P2.
Qed.

(** Entries keep their place, and the new one has the new index. *)
Lemma with_atom_entry t L names name np p i l i' l' p' e' :
  atoms_rep t L names → L !! i = Some l → Z.of_nat i = hash_atom_name name mod at_bucket_count t →
  <[i := (p, new_entry np name (length names)) :: l]> L !! i' = Some l' → (p', e') ∈ l' →
  ae_hash e' = hash_atom_name (ae_bytes e') ∧ ae_len e' = Z.of_nat (length (ae_bytes e')) ∧
  Z.of_nat i' = ae_hash e' mod at_bucket_count t ∧
  ∃ j, ae_index e' = Z.of_nat j ∧ (names ++ [name]) !! j = Some (ae_bytes e').
Proof.
  intros Hr Hl Hi Hi' Hin.
  assert (Hold : ∀ k lk, L !! k = Some lk → (p', e') ∈ lk →
    ae_hash e' = hash_atom_name (ae_bytes e') ∧ ae_len e' = Z.of_nat (length (ae_bytes e')) ∧
    Z.of_nat k = ae_hash e' mod at_bucket_count t ∧
    ∃ j, ae_index e' = Z.of_nat j ∧ (names ++ [name]) !! j = Some (ae_bytes e')).
  { intros k lk Hk Hink. destruct (ar_entry _ _ _ Hr _ _ _ _ Hk Hink) as (? & ? & ? & j & ? & Hj).
    split_and!; [done..|]. exists j. split; [done|]. by apply lookup_app_l_Some. }
  destruct (decide (i = i')) as [<-|Hne].
  - rewrite list_lookup_insert_eq in Hi' by (by eapply lookup_lt_Some). simplify_eq.
    apply elem_of_cons in Hin as [[= -> ->]|Hin]; [|by apply (Hold i l)].
    cbn [ae_hash ae_len ae_bytes ae_index new_entry]. split_and!; [done..|].
    exists (length names). split; [done|]. by rewrite lookup_app_r, Nat.sub_diag.
  - rewrite list_lookup_insert_ne in Hi' by done. by apply (Hold i' l').
Qed.

Lemma with_atom_rep t L names name np p i l h :
  atoms_rep t L names → name ∉ names → at_count t < at_capacity t →
  L !! i = Some l → Z.of_nat i = hash_atom_name name mod at_bucket_count t →
  at_heads t !! i = Some h → p ≠ NULL → (p ∉ dom (at_entries t)) →
  atoms_rep (with_atom t p (new_entry np name (length names)) i h (length names))
    (<[i := (p, new_entry np name (length names)) :: l]> L) (names ++ [name]).
Proof.
  intros Hr Hnew Hlt Hl Hi Hh Hp Hpd. set (e := new_entry np name (length names)).
  pose proof (ar_cap _ _ _ Hr) as [Hcap Hcl]. pose proof (ar_count _ _ _ Hr) as Hcnt.
  split; cbn [with_atom at_entries at_heads at_bucket_count at_count at_capacity at_cells].
  - apply chains_push; [apply Hr|done..].
  - rewrite length_insert. apply Hr.
  - apply Hr.
  - rewrite u64_small by (unfold is_u64; lia). rewrite length_app. simpl. lia.
  - rewrite length_insert, u64_small by (unfold is_u64; lia). split; [lia|done].
  - apply NoDup_app. split_and!; [apply Hr| |apply NoDup_singleton].
    by intros x Hx ->%list_elem_of_singleton.
  - intros i' l' p' e' Hi' Hin. by eapply with_atom_entry.
  - intros j nm [Hj|[Hle Hj]]%lookup_app_Some.
    + destruct (ar_index _ _ _ Hr _ _ Hj) as (p' & e' & ? & ? & Hcell). exists p', e'.
      split_and!; [rewrite concat_push by done; by right|done|].
      rewrite list_lookup_insert_ne; [done|]. apply lookup_lt_Some in Hj. lia.
    + apply list_lookup_singleton_Some in Hj as [Hj <-].
      assert (j = length names) as -> by lia. exists p, e.
      split_and!; [rewrite concat_push by done; by left|done|]. apply list_lookup_insert_eq. lia.
Qed.

(** The blocks of the new table: two more. *)
Lemma with_atom_blocks tp t L i l p e h n :
  L !! i = Some l → NoDup (table_blocks tp t L) → (p ∉ table_blocks tp t L) →
  (ae_name e ∉ table_blocks tp t L) → p ≠ ae_name e →
  table_blocks tp (with_atom t p e i h n) (<[i := (p, e) :: l]> L) ≡ₚ
    p :: ae_name e :: table_blocks tp t L ∧
  NoDup (table_blocks tp (with_atom t p e i h n) (<[i := (p, e) :: l]> L)).
Proof.
  intros Hl Hnd Hp Hnp Hne.
  assert (E : table_blocks tp (with_atom t p e i h n) (<[i := (p, e) :: l]> L) ≡ₚ
    p :: ae_name e :: table_blocks tp t L).
  { unfold table_blocks. cbn [with_atom at_buckets at_index_map].
    rewrite (concat_push _ _ _ _ _ Hl). csimpl. solve_Permutation. }
  split; [exact E|]. rewrite E. apply NoDup_cons. split.
  - by intros [?|?]%elem_of_cons.
  - by apply NoDup_cons.
Qed.

Lemma table_blocks_entry tp t L p :
  chains (at_entries t) (at_heads t) L → p ∈ dom (at_entries t) → p ∈ table_blocks tp t L.
Proof.
  intros Hc Hin. rewrite (chains_mem _ _ _ _ Hc) in Hin.
  apply list_elem_of_fmap in Hin as ([p' e'] & -> & Hin).
  unfold table_blocks. do 3 right. apply elem_of_concat. exists (entry_blocks (p', e')).
  split; [by left|]. by apply list_elem_of_fmap_2.
Qed.

(** The two array writes of an insertion are within bounds. *)
Lemma atom_insert_writes t L names i p :
  atoms_rep t L names → (i < length (at_heads t))%nat → at_count t < at_capacity t →
  array_set (at_heads t) (Z.of_nat i) p = Some (<[i := p]> (at_heads t)) ∧
  array_set (at_cells t) (at_count t) (Some p) = Some (<[length names := Some p]> (at_cells t)).
Proof.
  intros Hr Hi Hlt. pose proof (ar_cap _ _ _ Hr) as [_ Hcl]. rewrite (ar_count _ _ _ Hr) in *.
  split; apply array_set_Some; rewrite Nat2Z.id; (split; [lia|done]).
Qed.

(** Inserting a name that is not there: the next index, or failure. *)
Lemma atom_insert_ok a B tp t names name :
  atoms_ok a B tp t names → can_grow a t → name ∉ names →
  Z.of_nat (length names) < 2 ^ 32 → Z.of_nat (length name) < 2 ^ 61 →
  ∃ r t' a' B', atom_table_insert t a name = Some (r, t', a') ∧
    ((r = 0 ∧ atoms_ok a' B' tp t' names) ∨
     (r = atom_eterm (Z.of_nat (length names)) ∧ atoms_ok a' B' tp t' (names ++ [name]))).
Proof.
  intros Hok Hcp Hnew Hnum Hlen.
  destruct (atom_grow_ok _ _ _ _ _ Hok Hcp)
    as (ok & t1 & a1 & B1 & Eg & Hok1 & Ec & Eb & Eh & Ee & Hlt).
  unfold atom_table_insert. rewrite Eg.
  destruct ok; [specialize (Hlt eq_refl)|eexists _, _, _, B1; split; [done|by left]]. cbn [negb].
  clear dependent t. rename t1 into t. destruct Hok1 as (L & Hr & Ha & Hnd & HBi & HB).
  destruct (al_alloc a1 sizeof_beam_atom_entry) as [p a2] eqn:E1.
  destruct (al_alloc_spec _ _ _ _ _ Ha sizeof_atom_entry_ok E1) as [[-> Ha2]|[Hf1 Ha2]].
  { eexists _, _, _, B1. split; [done|]. left. split; [done|]. by exists L. }
  pose proof (fresh_block_nonnull _ _ _ Hf1) as Hp. destruct (Z.eqb_spec p NULL); [done|].
  assert (B1 !! p = None) as HBp by (eapply fresh_block_None; [done| |done]; done).
  rewrite (u64_small (Z.of_nat (length name) + 1)) by (unfold is_u64; lia).
  destruct (al_alloc a2 _) as [np a3] eqn:E2.
  assert (alloc_size (Z.of_nat (length name) + 1)) as Hsz by (unfold alloc_size; lia).
  destruct (al_alloc_spec _ _ _ _ _ Ha2 Hsz E2) as [[-> Ha3]|[Hf2 Ha3]].
  { eexists _, _, _, B1. split; [done|]. left. split; [done|]. exists L. split_and!; try done.
    rewrite <- (delete_insert_id B1 p sizeof_beam_atom_entry) by done.
    eapply al_free_spec; [done|]. apply lookup_insert_eq. }
  pose proof (fresh_block_nonnull _ _ _ Hf2) as Hnp. destruct (Z.eqb_spec np NULL); [done|].
  assert (<[p := sizeof_beam_atom_entry]> B1 !! np = None) as HBnp
    by (eapply fresh_block_None; [exact Ha2| |exact Hf2]; lia).
  apply lookup_insert_None in HBnp as [HBnp Hpnp].
  assert (Hfresh : (p ∉ table_blocks tp t L) ∧ np ∉ table_blocks tp t L).
  { split; intros Hin; destruct (HB _ Hin); congruence. }
  destruct Hfresh as [Hpt Hnt]. destruct (atoms_bucket _ _ _ name Hr) as (i & l & Hi & Hl).
  destruct (chains_bucket _ _ _ _ _ (ar_chains _ _ _ Hr) Hl) as (h & Hh & _).
  destruct (atom_insert_writes t L names i p Hr (lookup_lt_Some _ _ _ Hh) Hlt) as [Es1 Es2].
  rewrite Hi, array_get_nat, Hh. cbn [mbind option_bind]. rewrite Es1. cbn [mbind option_bind].
  rewrite Es2. cbn [mbind option_bind ae_index].
  rewrite (ar_count _ _ _ Hr), (u32_small (Z.of_nat (length names))) by (unfold is_u32; lia).
  eexists _, _, _, _. split; [done|]. right. split; [done|].
  fold (new_entry np name (length names)). set (e := new_entry np name (length names)).
  destruct (with_atom_blocks tp t L i l p e h (length names) Hl Hnd Hpt Hnt) as [Eb' Hnd']; [exact Hpnp|].
  exists (<[i := (p, e) :: l]> L). split_and!.
  - apply with_atom_rep; try done. intros Hin. apply Hpt. by eapply table_blocks_entry; [apply Hr|].
  - exact Ha3.
  - exact Hnd'.
  - cbn [at_index_map at_capacity]. assert (at_index_map t ∈ table_blocks tp t L) by (do 2 right; by left).
    rewrite !lookup_insert_ne; [done|intros ->; done..].
  - intros q Hq. fold (with_atom t p e i h (length names)) in Hq. rewrite Eb' in Hq.
    rewrite !elem_of_cons in Hq. apply lookup_insert_is_Some'. destruct Hq as [->|[->|Hq]].
    + right. rewrite lookup_insert_eq. eauto.
    + by left.
    + right. apply lookup_insert_is_Some'. right. by apply HB.
Qed.

(** The write-locked phase. *)
Lemma atom_write_ok a B tp t names name :
  atoms_ok a B tp t names → can_grow a t →
  Z.of_nat (length names) < 2 ^ 32 → Z.of_nat (length name) < 2 ^ 61 →
  ∃ r t' a' B', intern_write t a name = Some (r, t', a') ∧
    ((r = 0 ∧ atoms_ok a' B' tp t' names) ∨
     (∃ i names', r = atom_eterm (Z.of_nat i) ∧ names' !! i = Some name ∧
        (names' = names ∧ t' = t ∧ a' = a ∨ names' = names ++ [name] ∧ (name ∉ names)) ∧
        atoms_ok a' B' tp t' names')).
Proof.
  intros Hok Hcp Hnum Hlen. pose proof Hok as (L & Hr & _).
  destruct (atom_find_spec _ _ _ name Hr) as (e & E & He). unfold intern_write. rewrite E.
  cbn [mbind option_bind]. destruct e as [[p e]|].
  - destruct He as (_ & _ & j & Hj & Hn). eexists _, t, a, B. split; [done|]. right.
    exists j, names. rewrite Hj. split_and!; try done. by left.
  - destruct (atom_insert_ok _ _ _ _ _ name Hok Hcp He Hnum Hlen)
      as (r & t' & a' & B' & E' & Hcase). exists r, t', a', B'. split; [done|].
    destruct Hcase as [?|[-> Hok']]; [by left|right]. exists (length names), (names ++ [name]).
    split_and!; try done; [by rewrite lookup_app_r, Nat.sub_diag|by right].
Qed.

(** Both phases in a row. *)
Lemma atom_phases_ok a B tp t names name :
  atoms_ok a B tp t names → can_grow a t →
  Z.of_nat (length names) < 2 ^ 32 → Z.of_nat (length name) < 2 ^ 61 →
  ∃ r t' a' B',
    (r ← intern_read t name;
     match r with Some term => Some (term, t, a) | None => intern_write t a name end)
      = Some (r, t', a') ∧
    ((r = 0 ∧ (name ∉ names) ∧ atoms_ok a' B' tp t' names) ∨
     (∃ i names', r = atom_eterm (Z.of_nat i) ∧ names' !! i = Some name ∧
        (names' = names ∧ t' = t ∧ a' = a ∨ names' = names ++ [name] ∧ (name ∉ names)) ∧
        atoms_ok a' B' tp t' names')).
Proof.
  intros Hok Hcp Hnum Hlen. pose proof Hok as (L & Hr & _).
  destruct (atom_find_spec _ _ _ name Hr) as (e & E & He). unfold intern_read. rewrite E.
  cbn [mbind option_bind]. destruct e as [[p e]|].
  - destruct He as (_ & _ & j & Hj & Hn). eexists _, t, a, B. split; [done|]. right.
    exists j, names. rewrite Hj. split_and!; try done. by left.
  - destruct (atom_write_ok _ _ _ _ _ name Hok Hcp Hnum Hlen)
      as (r & t' & a' & B' & E' & Hcase). exists r, t', a', B'. split; [done|].
    destruct Hcase as [[-> ?]|?]; [left|by right]. by split_and!.
Qed.

Lemma atom_grow_copies a t ok t1 a1 :
  al_copies a → atom_table_grow t a = (ok, t1, a1) → al_copies a1.
Proof using All.
  intros Hcp. unfold atom_table_grow. destruct (_ >=? _); [|by intros [= _ _ <-]].
  pose proof (al_realloc_copies a (at_index_map t) (u64 (8 * u64 (at_capacity t * 2))) Hcp) as Hc.
  destruct (al_realloc _ _ _) as [[q mv] aq]. destruct (q =? NULL); intros; by simplify_eq.
Qed.

Lemma intern_write_copies a name t r t' a' :
  intern_write t a name = Some (r, t', a') → al_copies a → al_copies a'.
Proof using All.
  intros Hw Hcp. unfold intern_write in Hw. apply bind_Some in Hw as (e & _ & Hw).
  destruct e as [[p e]|]; [by simplify_eq|]. unfold atom_table_insert in Hw.
  destruct (atom_table_grow t a) as [[ok t1] a1] eqn:Eg.
  pose proof (atom_grow_copies _ _ _ _ _ Hcp Eg) as Hg.
  destruct ok; [|simpl in Hw; by simplify_eq]. cbn [negb] in Hw.
  pose proof (al_alloc_copies a1 sizeof_beam_atom_entry Hg) as Hc1.
  destruct (al_alloc a1 _) as [p a2]. cbn [snd] in Hc1. destruct (p =? NULL); [by simplify_eq|].
  pose proof (al_alloc_copies a2 (u64 (Z.of_nat (length name) + 1)) Hc1) as Hc2.
  destruct (al_alloc a2 _) as [np a3]. cbn [snd] in Hc2. destruct (np =? NULL).
  - simplify_eq. by apply al_free_copies.
  - inv_bind. by simplify_eq.
Qed.

(** ** Creation and destruction *)

Lemma atom_create_ok a B n :
  al_rep a B → 0 <= n < 2 ^ 58 →
  ∃ r a', beam_atom_table_create a n = (r, a') ∧
    match r with
    | None => al_rep a' B
    | Some (tp, t) => ∃ B', B ⊆ B' ∧ atoms_ok a' B' tp t []
    end.
Proof.
  intros Ha Hn. unfold beam_atom_table_create.
  set (cap := if n >? 0 then n else _).
  assert (0 < cap < 2 ^ 58) as Hcap
    by (unfold cap, BEAM_ATOM_DEFAULT_CAPACITY; case_bool; lia).
  assert (Hcells : array_cells cap = Z.to_nat cap).
  { unfold array_cells. rewrite u64_small by (unfold is_u64; lia).
    by rewrite (Z.mul_comm 8), Z.div_mul. }
  rewrite Hcells, (u64_small (8 * cap)) by (unfold is_u64; lia).
  destruct (al_alloc a _) as [p a1] eqn:E1.
  assert (alloc_size sizeof_beam_atom_table ∧ alloc_size (8 * cap)) as [S1 S2]
    by (split; [done|unfold alloc_size; lia]).
  destruct (al_alloc_spec _ _ _ _ _ Ha S1 E1) as [[-> Ha1]|[Hf1 Ha1]].
  { simpl. by eexists _, _. }
  pose proof (fresh_block_nonnull _ _ _ Hf1). destruct (Z.eqb_spec p NULL); [done|].
  assert (B !! p = None) as HBp by (eapply fresh_block_None; [done| |done]; done).
  assert (Hdel : ∀ a, al_rep a (<[p := sizeof_beam_atom_table]> B) → al_rep (al_free a p) B).
  { intros a0 Ha0. rewrite <- (delete_insert_id B p sizeof_beam_atom_table) by done.
    eapply al_free_spec; [done|]. apply lookup_insert_eq. }
  destruct (al_alloc a1 _) as [bs a2] eqn:E2.
  destruct (al_alloc_spec _ _ _ _ _ Ha1 S2 E2) as [[-> Ha2]|[Hf2 Ha2]].
  { eexists None, _. split; [done|]. by apply Hdel. }
  pose proof (fresh_block_nonnull _ _ _ Hf2). destruct (Z.eqb_spec bs NULL); [done|].
  assert (<[p := sizeof_beam_atom_table]> B !! bs = None) as HBb
    by (eapply fresh_block_None; [exact Ha1| |exact Hf2]; lia).
  destruct (al_alloc a2 _) as [im a3] eqn:E3.
  destruct (al_alloc_spec _ _ _ _ _ Ha2 S2 E3) as [[-> Ha3]|[Hf3 Ha3]].
  { eexists None, _. split; [done|]. apply Hdel.
    rewrite <- (delete_insert_id (<[p := sizeof_beam_atom_table]> B) bs (8 * cap)) by done.
    eapply al_free_spec; [done|]. apply lookup_insert_eq. }
  pose proof (fresh_block_nonnull _ _ _ Hf3). destruct (Z.eqb_spec im NULL); [done|].
  assert (<[bs := 8 * cap]> (<[p := sizeof_beam_atom_table]> B) !! im = None) as HBi
    by (eapply fresh_block_None; [exact Ha2| |exact Hf3]; lia).
  apply lookup_insert_None in HBi as [HBi Hn1]. apply lookup_insert_None in HBi as [HBi Hn2].
  apply lookup_insert_None in HBb as [HBb Hn3].
  assert (Hc44 : cap < 2 ^ 44).
  { destruct Hf2 as (? & _ & Hl & _). unfold ADDR_LIMIT in Hl. lia. }
  eexists (Some _), _. split; [done|].
  exists (<[im := 8 * cap]> (<[bs := 8 * cap]> (<[p := sizeof_beam_atom_table]> B))). split.
  - etrans; [|apply insert_subseteq; by rewrite !lookup_insert_ne].
    etrans; [|apply insert_subseteq; by rewrite lookup_insert_ne].
    by apply insert_subseteq.
  - assert (Hc : concat (replicate (Z.to_nat cap) ([] : atom_list)) = []).
    { clear. induction (Z.to_nat cap); done. }
    exists (replicate (Z.to_nat cap) []). unfold table_blocks. rewrite Hc.
    split_and!; cbn [at_buckets at_index_map at_capacity].
    + split; cbn [at_entries at_heads at_bucket_count at_count at_capacity at_cells];
        rewrite ?length_replicate; try (done || lia).
      * apply chains_empty.
      * constructor.
      * intros i l q e [-> _]%lookup_replicate Hin. by apply not_elem_of_nil in Hin.
    + exact Ha3.
    + simpl. repeat constructor; rewrite ?elem_of_cons, ?elem_of_nil; naive_solver.
    + apply lookup_insert_eq.
    + simpl. intros q. rewrite !elem_of_cons. intros [->|[->|[->|Hq]]].
      * rewrite !lookup_insert_ne by done. rewrite lookup_insert_eq. eauto.
      * rewrite lookup_insert_ne by done. rewrite lookup_insert_eq. eauto.
      * rewrite lookup_insert_eq. eauto.
      * by apply not_elem_of_nil in Hq.
Qed.

Lemma free_atom_entry_ok a B p e :
  al_rep a B → NoDup (entry_blocks (p, e)) → (∀ q, q ∈ entry_blocks (p, e) → is_Some (B !! q)) →
  al_rep (free_atom_entry p e a) (drop_blocks (entry_blocks (p, e)) B).
Proof.
  intros Ha Hnd HB. unfold free_atom_entry, entry_blocks in *. cbn [fst snd] in *.
  destruct (HB p) as [k1 Hk1]; [by left|]. destruct (HB (ae_name e)) as [k2 Hk2]; [right; by left|].
  pose proof (al_rep_pos _ _ _ _ Ha Hk2).
  destruct (Z.eqb_spec (ae_name e) NULL); [unfold NULL in *; lia|].
  apply NoDup_cons in Hnd as [Hne _]. rewrite list_elem_of_singleton in Hne.
  change (drop_blocks [p; ae_name e] B) with (delete p (delete (ae_name e) B)).
  eapply al_free_spec; [by eapply al_free_spec|]. by rewrite lookup_delete_ne.
Qed.

(** Destruction frees every block of the table. *)
Lemma atom_destroy_ok a B tp t names L :
  atoms_rep t L names → al_rep a B → NoDup (table_blocks tp t L) →
  (∀ q, q ∈ table_blocks tp t L → is_Some (B !! q)) →
  ∃ a', beam_atom_table_destroy (Some (tp, t)) a = Some a' ∧
    al_rep a' (drop_blocks (table_blocks tp t L) B).
Proof.
  intros Hr Ha Hnd HB. pose proof (ar_chains _ _ _ Hr) as [Hs Hns _].
  unfold table_blocks in *. set (es := concat (entry_blocks <$> concat L)) in *.
  apply NoDup_cons in Hnd as [Hn1 Hnd]. apply NoDup_cons in Hnd as [Hn2 Hnd].
  apply NoDup_cons in Hnd as [Hn3 Hnd]. apply not_elem_of_cons in Hn1 as [? Hn1]. apply not_elem_of_cons in Hn1 as [? Hn1].
  apply not_elem_of_cons in Hn2 as [? Hn2].
  destruct (free_buckets_spec free_atom_entry entry_blocks free_atom_entry_ok
              (at_entries t) a (at_heads t) L B) as (m' & a' & E & Ha'); try done.
  { intros q Hq. apply HB. by do 3 right. }
  unfold beam_atom_table_destroy. rewrite E. cbn [mbind option_bind].
  destruct (HB tp) as [k1 Hk1]; [by left|]. destruct (HB (at_buckets t)) as [k2 Hk2]; [right; by left|].
  destruct (HB (at_index_map t)) as [k3 Hk3]; [do 2 right; by left|].
  pose proof (al_rep_pos _ _ _ _ Ha Hk2). pose proof (al_rep_pos _ _ _ _ Ha Hk3).
  destruct (Z.eqb_spec (at_buckets t) NULL); [unfold NULL in *; lia|].
  destruct (Z.eqb_spec (at_index_map t) NULL); [unfold NULL in *; lia|].
  eexists. split; [done|].
  assert (drop_blocks (tp :: at_buckets t :: at_index_map t :: es) B =
          delete tp (delete (at_index_map t) (delete (at_buckets t) (drop_blocks es B)))) as ->.
  { change (drop_blocks (tp :: at_buckets t :: at_index_map t :: es) B) with
      (delete tp (delete (at_buckets t) (delete (at_index_map t) (drop_blocks es B)))).
    f_equal. apply delete_delete. }
  eapply al_free_spec; [eapply al_free_spec; [eapply al_free_spec; [exact Ha'|]|]|].
  - by rewrite drop_blocks_out.
  - by rewrite lookup_delete_ne, drop_blocks_out by done.
  - by rewrite !lookup_delete_ne, drop_blocks_out by done.
Qed.

End AtomAlloc.

(** ** Properties *)

Lemma c_string_idemp s : c_string (c_string s) = c_string s.
Proof.
  induction s as [|c s IH]; simpl; [done|]. destruct (Z.eqb_spec c 0); [done|]. simpl.
  destruct (Z.eqb_spec c 0); [done|]. by rewrite IH.
Qed.

Section AtomProps.
Context {A : Type} `{AllocSpec A}.
Implicit Types (a : A) (t : beam_atom_table) (B : blocks).

Lemma intern_read_found a B tp t names i name :
  atoms_ok a B tp t names → names !! i = Some name →
  intern_read t name = Some (Some (atom_eterm (Z.of_nat i))).
Proof.
  intros (L & HL & _) Hi. unfold intern_read.
  destruct (atom_find_spec _ _ _ name HL) as (e & -> & He). cbn [mbind option_bind].
  destruct e as [[q e]|].
  - destruct He as (_ & _ & j & -> & Hj). by rewrite (NoDup_lookup _ _ _ _ (ar_nodup _ _ _ HL) Hi Hj).
  - destruct He. by eapply list_elem_of_lookup_2.
Qed.

(** C14: Interning: the result is 0 when memory is exhausted, with the table
    as it was; otherwise it is an atom that the lookup maps back to the name,
    the names interned before keep their atoms, a known name changes nothing,
    and interning the name again gives the same atom and the same table. *)
Theorem atom_intern_roundtrip a B tp t names name :
  atoms_ok a B tp t names → al_copies a →
  Z.of_nat (length names) + 1 < 2 ^ 32 → Z.of_nat (length name) < 2 ^ 61 →
  let nm := c_string name in
  ∃ r t' a' B' names', beam_atom_intern t a name = Some (r, t', a') ∧
    atoms_ok a' B' tp t' names' ∧
    ((r = 0 ∧ names' = names) ∨
     (beam_atom_lookup t' r = Some (Some nm) ∧
      (names' = names ∧ t' = t ∨ names' = names ++ [nm] ∧ (nm ∉ names)) ∧
      (∀ a2, beam_atom_intern t' a2 name = Some (r, t', a2)) ∧
      ∀ i old, names !! i = Some old →
        beam_atom_lookup t' (atom_eterm (Z.of_nat i)) = Some (Some (c_string old)))).
Proof.
  intros Hok Hc Hn Hl nm.
  assert (Z.of_nat (length nm) < 2 ^ 61) as Hl'.
  { assert (∀ s, length (c_string s) <= length s)%nat as Hle.
    { induction s as [|c s IH]; simpl; [lia|]. destruct (c =? 0); simpl; lia. }
    specialize (Hle name). unfold nm. lia. }
  unfold beam_atom_intern. fold nm.
  destruct (atom_phases_ok a B tp t names nm Hok (or_introl Hc) ltac:(lia) Hl')
    as (r & t' & a' & B' & E & Hr).
  destruct Hr as [(-> & _ & Hok')|(i & names' & -> & Hi & Hnames & Hok')].
  - exists 0, t', a', B', names. split_and!; [exact E|done|by left].
  - exists (atom_eterm (Z.of_nat i)), t', a', B', names'. split_and!; [exact E|done|right].
    assert (length names' <= length names + 1)%nat as Hlen.
    { destruct Hnames as [(-> & _)|[-> _]]; rewrite ?length_app; simpl; lia. }
    pose proof (lookup_lt_Some _ _ _ Hi). split_and!.
    + destruct Hok' as (L & HL & _). rewrite (atom_lookup_spec t' L names') by (done || lia).
      rewrite Nat2Z.id, Hi. simpl. unfold nm. by rewrite c_string_idemp.
    + destruct Hnames as [(-> & -> & _)|?]; [by left|by right].
    + intros a2. by rewrite (intern_read_found _ _ _ _ _ _ _ Hok' Hi).
    + intros j old Hj. pose proof (lookup_lt_Some _ _ _ Hj). destruct Hok' as (L & HL & _).
      rewrite (atom_lookup_spec t' L names') by (done || lia). rewrite Nat2Z.id.
      destruct Hnames as [(-> & _)|[-> _]]; [by rewrite Hj|]. by rewrite (lookup_app_l_Some _ _ _ _ Hj).
Qed.

End AtomProps.

(** ** Growing in an arena *)

Section AtomArena.
Context {H : Type} `{AllocSpec H}.
Implicit Types (h : H) (t : beam_atom_table) (B : blocks).

(** The arena's [realloc] takes nothing over. *)
Lemma arena_grow_cells t ctx h ok t1 a1 :
  at_count t = at_capacity t → 0 < at_capacity t < 2 ^ 44 →
  atom_table_grow t (ArenaAllocator ctx, h) = (ok, t1, a1) →
  (ok = false ∧ t1 = t) ∨
  (ok = true ∧ at_heads t1 = at_heads t ∧ at_bucket_count t1 = at_bucket_count t ∧
   at_count t1 = at_count t ∧ at_entries t1 = at_entries t ∧
   at_cells t1 = replicate (Z.to_nat (2 * at_capacity t)) None).
Proof.
  intros Hc Hp E. unfold atom_table_grow in E. rewrite Hc, Z.geb_leb, Z.leb_refl in E.
  rewrite (u64_small (at_capacity t * 2)) in E by (unfold is_u64; lia). cbn in E.
  unfold arena_realloc in E. destruct (arena_alloc _ _) as [q st].
  destruct (q =? NULL); injection E as <- <- <-; [by left|right].
  cbn [at_heads at_bucket_count at_count at_entries at_cells]. split_and!; try done.
  unfold realloc_cells, array_cells. rewrite (u64_small (8 * _)) by (unfold is_u64; lia).
  rewrite Z.mul_comm, Z.div_mul by done. cbn [length app]. f_equal. lia.
Qed.

(** Reading a cell nothing was written to. *)
Lemma lookup_unwritten t i :
  0 <= i < at_count t → at_count t < 2 ^ 32 →
  (∀ c, at_cells t !! Z.to_nat i = Some c → c = None) → beam_atom_lookup t (atom_eterm i) = None.
Proof.
  intros Hi Hn Hc. unfold beam_atom_lookup. rewrite atom_eterm_tag. simpl.
  rewrite atom_index_eterm by lia. rewrite Z.geb_leb. destruct (Z.leb_spec (at_count t) i); [lia|].
  unfold array_get. destruct (Z.ltb_spec i 0); [lia|].
  destruct (at_cells t !! Z.to_nat i) as [c|] eqn:Ec; [|done]. by rewrite (Hc c).
Qed.

(** C39: Over an arena allocator the table cannot grow without losing its atoms:
    interning a new name when the index map is full either fails for lack of
    arena space and leaves the table alone, or (whether the new name then gets
    its atom or not) leaves a table in which looking up any atom interned before
    reads a pointer that was never written, because [arena_realloc] returns a
    new block and copies nothing.  The new atom itself can be looked up. *)
Theorem atom_grow_arena ctx h B tp t names name :
  atoms_ok (ArenaAllocator ctx, h) B tp t names → at_count t = at_capacity t →
  Z.of_nat (length names) + 1 < 2 ^ 32 → (c_string name ∉ names) →
  ∃ r t' a', beam_atom_intern t (ArenaAllocator ctx, h) name = Some (r, t', a') ∧
    ((r = 0 ∧ t' = t) ∨
     (∀ i, (i < length names)%nat → beam_atom_lookup t' (atom_eterm (Z.of_nat i)) = None)) ∧
    (r ≠ 0 → beam_atom_lookup t' r = Some (Some (c_string name))).
Proof.
  intros (L & Hr & Ha & Hnd & HBi & HB) Hfull Hnum Hnew. set (nm := c_string name) in *.
  pose proof (ar_cap _ _ _ Hr) as [[_ Hc2] _]. pose proof (ar_count _ _ _ Hr) as Hcnt.
  destruct (al_rep_pos _ _ _ _ Ha HBi) as (_ & Hpos & _).
  destruct (atom_find_spec _ _ _ nm Hr) as (e & E & He).
  destruct e as [[q e]|]; [destruct He as (_ & _ & j & _ & Hj); by apply list_elem_of_lookup_2 in Hj|].
  unfold beam_atom_intern, intern_read, intern_write. fold nm. rewrite E. cbn [mbind option_bind]. unfold atom_table_insert.
  destruct (atom_table_grow t _) as [[ok t1] a1] eqn:Eg.
  destruct (arena_grow_cells _ _ _ _ _ _ Hfull ltac:(lia) Eg)
    as [(-> & ->)|(-> & Eh & Eb & Ec & Ee & Ecl)]; cbn [negb].
  { exists 0, t, a1. split; [done|]. split; [by left|done]. }
  assert (Hlost : ∀ t', at_count t <= at_count t' < 2 ^ 32 →
    (∀ i, (i < length names)%nat → at_cells t' !! i = at_cells t1 !! i) → ∀ i, (i < length names)%nat →
    beam_atom_lookup t' (atom_eterm (Z.of_nat i)) = None).
  { intros t' Hc' Hcl i Hi. apply lookup_unwritten; [lia|lia|]. intros c. rewrite Nat2Z.id, Hcl, Ecl by done.
    by intros [-> _]%lookup_replicate. }
  assert (Hfail : ∀ a2 : beam_allocator_i * H, ∃ r t' a', Some (0, t1, a2) = Some (r, t', a') ∧
    ((r = 0 ∧ t' = t) ∨ (∀ i, (i < length names)%nat →
        beam_atom_lookup t' (atom_eterm (Z.of_nat i)) = None)) ∧
    (r ≠ 0 → beam_atom_lookup t' r = Some (Some nm))).
  { intros a2. exists 0, t1, a2. split; [done|]. split; [|done]. right. apply Hlost; [lia|done]. }
  destruct (al_alloc a1 sizeof_beam_atom_entry) as [p a2].
  destruct (Z.eqb_spec p NULL) as [|Hp]; [apply Hfail|].
  destruct (al_alloc a2 _) as [np a3]. destruct (np =? NULL); [apply Hfail|].
  destruct (atoms_bucket _ _ _ nm Hr) as (i & l & Hi & Hl).
  destruct (chains_bucket _ _ _ _ _ (ar_chains _ _ _ Hr) Hl) as (hd & Hh & _).
  rewrite Eb, Eh, Hi, array_get_nat, Hh. cbn [mbind option_bind].
  rewrite (array_set_nat _ i p) by (by eapply lookup_lt_Some). cbn [mbind option_bind].
  rewrite Ec, Hcnt, Ecl, (array_set_nat _ (length names)) by (rewrite length_replicate; lia).
  cbn [mbind option_bind ae_index]. rewrite (u32_small (Z.of_nat (length names))) by (unfold is_u32; lia).
  eexists _, _, _. split; [done|]. split.
  - right. apply Hlost; cbn [at_count at_cells]; [rewrite u64_small by (unfold is_u64; lia); lia|].
    intros j Hj. rewrite list_lookup_insert_ne by lia. by rewrite Ecl.
  - intros _. unfold beam_atom_lookup. rewrite atom_eterm_tag. simpl.
    rewrite atom_index_eterm by lia. rewrite (u64_small (_ + 1)) by (unfold is_u64; lia).
    rewrite Z.geb_leb. destruct (Z.leb_spec (Z.of_nat (length names) + 1) (Z.of_nat (length names))); [lia|].
    rewrite array_get_nat, list_lookup_insert_eq by (rewrite length_replicate; lia).
    cbn [mbind option_bind]. apply Z.eqb_neq in Hp as ->. rewrite lookup_insert_eq.
    cbn [mbind option_bind nval ae_bytes]. unfold nm. by rewrite c_string_idemp.
Qed.
End AtomArena.

(** ** Examples *)

(** A table of capacity 4 over the deterministic C heap. *)
Lemma demo_atoms_ok :
  ∃ tp t a B, beam_atom_table_create (bump_init (2 ^ 20)) 4 = (Some (tp, t), a) ∧
    atoms_ok a B tp t [].
Proof.
  destruct (atom_create_ok (bump_init (2 ^ 20)) ∅ 4 (bump_init_rep (2 ^ 20) ltac:(done)) ltac:(lia))
    as (r & a & E & Hr).
  destruct r as [[tp t]|]; [|exfalso; vm_compute in E; discriminate E].
  destruct Hr as (B & _ & Hok). by exists tp, t, a, B.
Qed.

Lemma atom_intern_roundtrip_witness :
  ∃ tp t a r t' a', beam_atom_table_create (bump_init (2 ^ 20)) 4 = (Some (tp, t), a) ∧
    beam_atom_intern t a [111; 107] = Some (r, t', a') ∧
    beam_atom_lookup t' r = Some (Some [111; 107]).
Proof.
  destruct demo_atoms_ok as (tp & t & a & B & E & Hok). exists tp, t, a.
  destruct (atom_intern_roundtrip a B tp t [] [111; 107] Hok)
    as (r & t' & a' & B' & names' & Ei & _ & Hr); [reflexivity|done|done|].
  exists r, t', a'. split_and!; [done..|].
  destruct Hr as [[-> _]|[Hl _]]; [|exact Hl].
  exfalso. vm_compute in E. simplify_eq.
Defined.

(** A table of capacity 1 in an arena of 4096 bytes, holding one atom. *)
Definition demo_arena : beam_allocator_i * bump_heap :=
  (ArenaAllocator (Some (4096, {| buffer := 8192; capacity := 4096; offset := 0;
                                  alloc_count := 0 |})), bump_init (2 ^ 20)).

Lemma demo_arena_rep : al_rep demo_arena ∅.
Proof.
  split; [apply blocks_ok_empty|]. right. split; [|by intros q k Hq].
  split_and!; (done || by vm_compute).
Qed.

Lemma demo_arena_full :
  ∃ tp t a ctx h B, beam_atom_table_create demo_arena 1 = (Some (tp, t), a) ∧
    ∃ t1, beam_atom_intern t a [97] = Some (atom_eterm 0, t1, (ArenaAllocator ctx, h)) ∧
      atoms_ok (ArenaAllocator ctx, h) B tp t1 [[97]] ∧ at_count t1 = at_capacity t1 ∧
      (λ x, x.1.1) <$> beam_atom_intern t1 (ArenaAllocator ctx, h) [98] = Some (atom_eterm 1).
Proof.
  destruct (atom_create_ok demo_arena ∅ 1 demo_arena_rep ltac:(lia)) as (r & a & E & Hr).
  destruct r as [[tp t]|]; [|exfalso; vm_compute in E; discriminate E].
  destruct Hr as (B & _ & Hok). exists tp, t, a.
  assert (can_grow a t) as Hg by (right; vm_compute in E; simplify_eq; done).
  destruct (atom_phases_ok a B tp t [] [97] Hok Hg ltac:(done) ltac:(done))
    as (r & t1 & a1 & B1 & Ei & Hcase).
  assert (a1.1 = a1.1 ∧ r = atom_eterm 0 ∧ at_count t1 = at_capacity t1 ∧
    (λ x, x.1.1) <$> beam_atom_intern t1 a1 [98] = Some (atom_eterm 1) ∧
    ∃ ctx h, a1 = (ArenaAllocator ctx, h)) as (_ & -> & Hf & H98 & ctx & h & ->).
  { clear Hcase Hok. vm_compute in E. simplify_eq. vm_compute in Ei. simplify_eq.
    split_and!; [done|by vm_compute|done|by vm_compute|by eexists _, _]. }
  exists ctx, h, B1. split; [done|]. exists t1. split; [exact Ei|].
  destruct Hcase as [(Hz & _)|(i & names' & Hi & Hl & Hnames & Hok1)]; [by vm_compute in Hz|].
  destruct Hnames as [(-> & _)|[-> _]]; [done|]. by split_and!.
Qed.

Lemma atom_grow_arena_witness :
  ∃ t ctx h t' a', beam_atom_lookup t (atom_eterm 0) = Some (Some [97]) ∧
    beam_atom_intern t (ArenaAllocator ctx, h : bump_heap) [98] = Some (atom_eterm 1, t', a') ∧
    beam_atom_lookup t' (atom_eterm 1) = Some (Some [98]) ∧
    beam_atom_lookup t' (atom_eterm 0) = None.
Proof.
  destruct demo_arena_full as (tp & t0 & a0 & ctx & h & B & _ & t & _ & Hok & Hf & H98).
  destruct (atom_grow_arena ctx h B tp t [[97]] [98] Hok Hf ltac:(done))
    as (r & t' & a' & E & Hold & Hnew); [by vm_compute; intros [[=]|Hin%not_elem_of_nil]%elem_of_cons|].
  rewrite E in H98. injection H98 as ->. exists t, ctx, h, t', a'. split_and!; [|exact E|..].
  - destruct Hok as (L & HL & _). by rewrite (atom_lookup_spec t L [[97]]).
  - by apply Hnew; vm_compute.
  - destruct Hold as [[Hz _]|Hl]; [by vm_compute in Hz|]. apply (Hl 0%nat). simpl. lia.
Defined.
