(* ===== verification/AtomRace.v ===== *)
(** Concurrent interning: the two locked phases of [beam_atom_intern_length] and
    [beam_atom_intern] (src/global/atom_table.c) under any interleaving of
    threads.  A thread first looks the name up under the read lock; if it is
    missing, it takes the write lock, looks again and inserts.  Each phase is
    atomic, because it is a critical section of the table's lock. *)
From stdpp Require Import relations.
From S2P Require Import Prelude Memory Term Alloc LinkedList HashChain Blocks AtomTable.
From stdpp Require Import options.

(** ** Threads *)

Inductive intern_thread : Type :=
| Starting (name : list Z)             (* before the read-locked phase *)
| Missed (name : list Z)               (* between the two phases *)
| Interned (name : list Z) (term : Z). (* returned [term] *)

Definition thread_name (th : intern_thread) : list Z :=
  match th with Starting n | Missed n | Interned n _ => n end.

Definition thread_pending (th : intern_thread) : bool :=
  match th with Interned _ _ => false | _ => true end.

Section Race.
Context {A : Type} `{AllocOps A}.

Record race : Type := Race {
  rc_table : beam_atom_table;
  rc_alc : A;
  rc_threads : list intern_thread;
}.

(** One phase of one thread. *)
Inductive race_step : race → race → Prop :=
| step_found t a ths i name term :
    ths !! i = Some (Starting name) → intern_read t name = Some (Some term) →
    race_step (Race t a ths) (Race t a (<[i := Interned name term]> ths))
| step_missed t a ths i name :
    ths !! i = Some (Starting name) → intern_read t name = Some None →
    race_step (Race t a ths) (Race t a (<[i := Missed name]> ths))
| step_write t a ths i name term t' a' :
    ths !! i = Some (Missed name) → intern_write t a name = Some (term, t', a') →
    race_step (Race t a ths) (Race t' a' (<[i := Interned name term]> ths)).
End Race.
Arguments race : clear implicits.

(** Threads that have not returned. *)
Definition pending (ths : list intern_thread) : nat :=
  length (filter (λ th, thread_pending th = true) ths).

Lemma pending_insert ths i th th' :
  ths !! i = Some th →
  (pending (<[i := th']> ths) + (if thread_pending th then 1 else 0) =
   pending ths + (if thread_pending th' then 1 else 0))%nat.
Proof.
  intros Hi. unfold pending. rewrite <-(take_drop_middle ths i th Hi) at 2.
  rewrite insert_take_drop by (by eapply lookup_lt_Some).
  rewrite !filter_app, !filter_cons, !length_app.
  destruct (thread_pending th), (thread_pending th'); simpl; lia.
Qed.

Section RaceSpec.
Context {A : Type} `{AllocSpec A}.
Implicit Types (a : A) (t : beam_atom_table) (ths : list intern_thread).

(** A returned term is 0 (out of memory) or the atom of the thread's name. *)
Definition thread_ok (names : list (list Z)) (th : intern_thread) : Prop :=
  Z.of_nat (length (thread_name th)) < 2 ^ 61 ∧
  match th with
  | Interned name term =>
      term = 0 ∨ ∃ i, term = atom_eterm (Z.of_nat i) ∧ names !! i = Some name
  | _ => True
  end.

Definition race_inv (tp : Z) (r : race A) : Prop :=
  ∃ B names, atoms_ok (rc_alc r) B tp (rc_table r) names ∧ al_copies (rc_alc r) ∧
    Z.of_nat (length names + pending (rc_threads r)) < 2 ^ 32 ∧
    Forall (thread_ok names) (rc_threads r).

Lemma thread_ok_mono names names' th :
  names `prefix_of` names' → thread_ok names th → thread_ok names' th.
Proof.
  intros [k ->] [Hl Hth]. split; [done|]. destruct th as [| |name term]; [done..|].
  destruct Hth as [->|(i & -> & Hi)]; [by left|right]. exists i. split; [done|].
  by apply lookup_app_l_Some.
Qed.

Lemma forall_insert {X} (P : X → Prop) (l : list X) i x :
  Forall P l → P x → Forall P (<[i := x]> l).
Proof. intros. by apply Forall_insert. Qed.

(** Every phase keeps the table well formed and the answers correct. *)
Lemma race_step_inv tp r r' : race_inv tp r → race_step r r' → race_inv tp r'.
Proof.
  intros (B & names & Hok & Hc & Hn & Hth) Hs.
  destruct Hs as [t a ths i name term Hi E|t a ths i name Hi E|t a ths i name term t' a' Hi E];
    simpl in *; pose proof (Forall_lookup_1 _ _ _ _ Hth Hi) as [Hlen _]; simpl in Hlen.
  - exists B, names. split_and!; [done|done| |].
    + pose proof (pending_insert _ _ _ (Interned name term) Hi). simpl in *. lia.
    + apply forall_insert; [done|]. split; [done|]. right.
      destruct Hok as (L & HL & _). unfold intern_read in E.
      destruct (atom_find_spec _ _ _ name HL) as (e & Ef & He). rewrite Ef in E.
      destruct e as [[q e]|]; simplify_eq/=. destruct He as (_ & _ & j & -> & Hj). by exists j.
  - exists B, names. split_and!; [done|done| |].
    + pose proof (pending_insert _ _ _ (Missed name) Hi). simpl in *. lia.
    + by apply forall_insert.
  - destruct (atom_write_ok a B tp t names name Hok (or_introl Hc) ltac:(lia) Hlen)
      as (term' & t2 & a2 & B2 & E2 & Hr).
    rewrite E in E2. simplify_eq. pose proof (intern_write_copies _ _ _ _ _ _ E Hc) as Hc'.
    pose proof (pending_insert _ _ _ (Interned name term') Hi) as Hp. simpl in Hp.
    destruct Hr as [[-> Hok']|(j & names' & -> & Hj & Hnames & Hok')].
    + exists B2, names. split_and!; [done|done|simpl; lia|].
      apply forall_insert; [done|]. split; [done|by left].
    + exists B2, names'. assert (names `prefix_of` names') as Hpre.
      { destruct Hnames as [(-> & _)|[-> _]]; [done|by apply prefix_app_r]. }
      split_and!; [done|done| |].
      * simpl. destruct Hnames as [(-> & _)|[-> _]]; [lia|]. rewrite length_app. simpl. lia.
      * apply forall_insert.
        -- eapply Forall_impl; [exact Hth|]. intros th. by apply thread_ok_mono.
        -- split; [done|]. right. by exists j.
Qed.

Lemma race_inv_reach tp r r' : race_inv tp r → rtc race_step r r' → race_inv tp r'.
Proof. intros Hinv Hs. induction Hs; eauto using race_step_inv. Qed.
End RaceSpec.

(** ** Properties *)

Section RaceProps.
Context {A : Type} `{AllocSpec A}.

(** C15: Threads interning concurrently, under every interleaving of the two
    phases: threads that return agree (the same atom exactly for the same
    name), the returned atom looks up to the name, and no interleaving leads to
    undefined behaviour: a thread that has not returned can go on. *)
Theorem concurrent_intern (a : A) B tp t names ns r :
  atoms_ok a B tp t names → al_copies a →
  Z.of_nat (length names + length ns) < 2 ^ 32 →
  Forall (λ n : list Z, Z.of_nat (length n) < 2 ^ 61) ns →
  rtc race_step (Race t a (Starting <$> ns)) r →
  (∀ i j n1 n2 t1 t2,
     rc_threads r !! i = Some (Interned n1 t1) → rc_threads r !! j = Some (Interned n2 t2) →
     t1 ≠ 0 → t2 ≠ 0 → t1 = t2 ↔ n1 = n2) ∧
  (∀ i n1 t1, rc_threads r !! i = Some (Interned n1 t1) → t1 ≠ 0 →
     beam_atom_lookup (rc_table r) t1 = Some (Some (c_string n1))) ∧
  (∀ i th, rc_threads r !! i = Some th → thread_pending th = true → ∃ r', race_step r r').
Proof.
  intros Hok Hc Hn Hl Hs.
  assert (race_inv tp (Race t a (Starting <$> ns))) as Hinv.
  { exists B, names. split_and!; [done|done| |].
    - simpl. unfold pending. assert (length (filter (λ th, thread_pending th = true)
        (Starting <$> ns)) <= length ns)%nat; [|lia].
      rewrite <-(length_fmap Starting ns). apply length_filter.
    - apply Forall_fmap. eapply Forall_impl; [exact Hl|]. by intros n Hlen. }
  apply (race_inv_reach _ _ _ Hinv) in Hs as (B' & names' & (L & HL & Hx) & Hc' & Hn' & Hth).
  assert (Hidx : ∀ i n1 t1, rc_threads r !! i = Some (Interned n1 t1) → t1 ≠ 0 →
    ∃ j, t1 = atom_eterm (Z.of_nat j) ∧ names' !! j = Some n1).
  { intros i n1 t1 Hi Ht. destruct (Forall_lookup_1 _ _ _ _ Hth Hi) as [_ [?|?]]; done. }
  split_and!.
  - intros i j n1 n2 t1 t2 Hi Hj Ht1 Ht2. destruct (Hidx _ _ _ Hi Ht1) as (k1 & -> & H1).
    destruct (Hidx _ _ _ Hj Ht2) as (k2 & -> & H2). rewrite !atom_eterm_eq. split.
    + intros. assert (k1 = k2) as -> by lia. congruence.
    + intros <-. by rewrite (NoDup_lookup _ _ _ _ (ar_nodup _ _ _ HL) H1 H2).
  - intros i n1 t1 Hi Ht. destruct (Hidx _ _ _ Hi Ht) as (k & -> & Hk).
    pose proof (lookup_lt_Some _ _ _ Hk). rewrite (atom_lookup_spec _ L names') by (done || lia).
    by rewrite Nat2Z.id, Hk.
  - intros i th Hi Hp. pose proof (Forall_lookup_1 _ _ _ _ Hth Hi) as [Hlen _].
    destruct r as [t2 a2 ths]. simpl in *. destruct th as [name|name|]; [| |done].
    + unfold thread_name in Hlen. destruct (atom_find_spec _ _ _ name HL) as (e & E & _).
      destruct (intern_read t2 name) as [[term|]|] eqn:Er.
      * eexists. by eapply step_found.
      * eexists. by eapply step_missed.
      * unfold intern_read in Er. by rewrite E in Er.
    + destruct (atom_write_ok a2 B' tp t2 names' name) as (term & t' & a' & B2 & E & _);
        [by exists L|by left|lia|done|]. eexists. by eapply step_write.
Qed.
End RaceProps.

(** ** Examples *)

(** Two threads miss the same name; the second to take the write lock finds the
    atom of the first. *)
Lemma concurrent_intern_witness :
  ∃ (t : beam_atom_table) (a : bump_heap) r,
    rtc race_step (Race t a (Starting <$> [[111; 107]; [111; 107]])) r ∧
    ∃ t1 t2, rc_threads r = [Interned [111; 107] t1; Interned [111; 107] t2] ∧ t1 = t2.
Proof.
  destruct demo_atoms_ok as (tp & t & a & B & E & Hok).
  assert (∃ r t1 t2, rtc race_step (Race t a (Starting <$> [[111; 107]; [111; 107]])) r ∧
    rc_threads r = [Interned [111; 107] t1; Interned [111; 107] t2] ∧ t1 ≠ 0 ∧ t2 ≠ 0)
    as (r & t1 & t2 & Hs & Hth & H1 & H2).
  { clear Hok. vm_compute in E. simplify_eq. eexists _, _, _. split.
    - eapply rtc_l. { eapply (step_missed _ _ _ 0); [reflexivity|by vm_compute]. }
      eapply rtc_l. { eapply (step_missed _ _ _ 1); [reflexivity|by vm_compute]. }
      eapply rtc_l. { eapply (step_write _ _ _ 0); [reflexivity|by vm_compute]. }
      eapply rtc_l. { eapply (step_write _ _ _ 1); [reflexivity|by vm_compute]. }
      apply rtc_refl.
    - by split. }
  exists t, a, r. split; [done|]. exists t1, t2. split; [done|].
  refine (proj2 (proj1 (concurrent_intern a B tp t [] [[111; 107]; [111; 107]] r Hok _ _ _ Hs)
    0%nat 1%nat [111; 107] [111; 107] t1 t2 _ _ H1 H2) eq_refl); try (by rewrite Hth).
  - vm_compute in E. by simplify_eq.
  - done.
  - repeat constructor; by vm_compute.
Defined.
