(* ===== verification/Gc.v ===== *)
(** The copying collector: src/memory/beam_gc.c. *)
From S2P Require Import Prelude Memory Term Alloc LinkedList Mailbox Process ProcessInv.
From stdpp Require Import options.

(** ** The code *)

(** [gc_copy_term]: the copy of [term], the new [*to_top], and the memory.
    [to] is the address of the to-space, [cap] its capacity in words.  The
    recursion takes at least one word of the to-space at each level, which
    bounds the fuel it needs. *)
Fixpoint gc_copy_term (fuel : nat) (to cap term top : Z) (m : memory)
    : option (Z * Z * memory) :=
  if beam_is_small_int term || beam_is_atom term || beam_is_nil term then Some (term, top, m)
  else
    b ← beam_is_tuple m term;
    if (b : bool) then
      arity ← beam_tuple_arity m term;
      let words_needed := u64 (arity + 1) in
      if u64 (top + words_needed) >? cap then Some (term, top, m)
      else
        match fuel with
        | O => None
        | S fuel' =>
            m ← store m (word_at to top) (make_small_int (s64 arity));
            '(top', m) ←
              (fix elems (n : nat) (i top' : Z) (m : memory) : option (Z * memory) :=
                 match n with
                 | O => Some (top', m)
                 | S n' =>
                     e ← beam_tuple_element m term i;
                     '(c, top', m) ← gc_copy_term fuel' to cap e top' m;
                     m ← store m (word_at to (top + 1 + i)) c;
                     elems n' (i + 1) top' m
                 end) (Z.to_nat arity) 0 (u64 (top + words_needed)) m;
            Some (tag_ptr (word_at to top) TAG_PRIMARY_BOXED, top', m)
        end
    else if beam_is_list term then
      if u64 (top + 2) >? cap then Some (term, top, m)
      else
        match fuel with
        | O => None
        | S fuel' =>
            hd ← beam_list_head m term;
            tl ← beam_list_tail m term;
            '(c, top', m) ← gc_copy_term fuel' to cap hd (u64 (top + 2)) m;
            m ← store m (word_at to top) c;
            '(c, top', m) ← gc_copy_term fuel' to cap tl top' m;
            m ← store m (word_at to (top + 1)) c;
            Some (tag_ptr (word_at to top) TAG_PRIMARY_LIST, top', m)
        end
    else Some (term, top, m).

Definition gc_fuel (cap : Z) : nat := S (Z.to_nat cap).

(** Root copying: the X registers, then the stack slots. *)
Fixpoint gc_copy_regs (to cap : Z) (xs : list Z) (top : Z) (m : memory)
    : option (list Z * Z * memory) :=
  match xs with
  | [] => Some ([], top, m)
  | x :: xs' =>
      '(x, top, m) ← (if negb (x =? 0) then gc_copy_term (gc_fuel cap) to cap x top m
                      else Some (x, top, m));
      '(xs', top, m) ← gc_copy_regs to cap xs' top m;
      Some (x :: xs', top, m)
  end.

(** [for (s = stack_top; s < old_cap; s++)], [n] iterations left. *)
Fixpoint gc_copy_stack (n : nat) (heap old_cap to new_cap s top : Z) (m : memory)
    : option (Z * memory) :=
  match n with
  | O => Some (top, m)
  | S n' =>
      let to_stack_idx := u64 (new_cap - u64 (old_cap - s)) in
      w ← load m (word_at heap s);
      '(c, top, m) ← gc_copy_term (gc_fuel new_cap) to new_cap w top m;
      m ← store m (word_at to to_stack_idx) c;
      gc_copy_stack n' heap old_cap to new_cap (s + 1) top m
  end.

Section Gc.
Context {A : Type} `{AllocOps A}.
Implicit Types s : vm A.

Definition beam_gc_collect_process (p : Z) s : option (beam_result_t * vm A) :=
  if p =? NULL then Some (BEAM_ERR_INVALID_ARG, s)
  else
    pr ← procs s !! p;
    if heap pr =? NULL then Some (BEAM_ERR_INVALID_ARG, s)
    else
      let old_cap := heap_capacity pr in
      let new_cap := old_cap in
      let '(to, a) := al_alloc (alc s) (words_bytes new_cap) in
      if to =? NULL then Some (BEAM_ERR_NO_MEMORY, set_alc a s)
      else
        let m := map_words (mem s) to (Z.to_nat (words_bytes new_cap / WORD)) in
        '(xs, top, m) ← gc_copy_regs to new_cap (x_regs (frame pr)) 0 m;
        let new_stack_top := u64 (new_cap - u64 (old_cap - stack_top pr)) in
        '(top, m) ← gc_copy_stack (Z.to_nat (old_cap - stack_top pr)) (heap pr) old_cap
                      to new_cap (stack_top pr) top m;
        let m := unmap_words m (heap pr) (Z.to_nat old_cap) in
        let a := al_free a (heap pr) in
        let pr := set_p_stack_top new_stack_top
                    (set_p_heap to new_cap top
                      (set_p_frame (set_fr_x_regs xs (frame pr)) pr)) in
        Some (BEAM_OK, put_proc p pr (Vm a m (procs s) (mboxes s))).
End Gc.

(** ** One level of the recursion *)

(** The loop over the elements of a tuple, as a function of its own. *)
Fixpoint gc_copy_elems (fuel : nat) (to cap term top : Z) (n : nat) (i top' : Z) (m : memory)
    : option (Z * memory) :=
  match n with
  | O => Some (top', m)
  | S n' =>
      e ← beam_tuple_element m term i;
      '(c, top', m) ← gc_copy_term fuel to cap e top' m;
      m ← store m (word_at to (top + 1 + i)) c;
      gc_copy_elems fuel to cap term top n' (i + 1) top' m
  end.

(** Is the term copied without looking at the heap? *)
Definition gc_immediate (term : Z) : bool :=
  beam_is_small_int term || beam_is_atom term || beam_is_nil term.

Lemma gc_copy_term_eq fuel to cap term top m :
  gc_copy_term fuel to cap term top m =
    if gc_immediate term then Some (term, top, m)
    else
      b ← beam_is_tuple m term;
      if (b : bool) then
        arity ← beam_tuple_arity m term;
        if u64 (top + u64 (arity + 1)) >? cap then Some (term, top, m)
        else
          match fuel with
          | O => None
          | S fuel' =>
              m ← store m (word_at to top) (make_small_int (s64 arity));
              '(top', m) ← gc_copy_elems fuel' to cap term top (Z.to_nat arity) 0
                             (u64 (top + u64 (arity + 1))) m;
              Some (tag_ptr (word_at to top) TAG_PRIMARY_BOXED, top', m)
          end
      else if beam_is_list term then
        if u64 (top + 2) >? cap then Some (term, top, m)
        else
          match fuel with
          | O => None
          | S fuel' =>
              hd ← beam_list_head m term;
              tl ← beam_list_tail m term;
              '(c, top', m) ← gc_copy_term fuel' to cap hd (u64 (top + 2)) m;
              m ← store m (word_at to top) c;
              '(c, top', m) ← gc_copy_term fuel' to cap tl top' m;
              m ← store m (word_at to (top + 1)) c;
              Some (tag_ptr (word_at to top) TAG_PRIMARY_LIST, top', m)
          end
      else Some (term, top, m).
Proof.
  assert (Hel : ∀ fuel' t n i top' m',
    (fix elems (n : nat) (i top' : Z) (m : memory) : option (Z * memory) :=
       match n with
       | O => Some (top', m)
       | S n' =>
           e ← beam_tuple_element m term i;
           '(c, top', m) ← gc_copy_term fuel' to cap e top' m;
           m ← store m (word_at to (t + 1 + i)) c;
           elems n' (i + 1) top' m
       end) n i top' m' = gc_copy_elems fuel' to cap term t n i top' m').
  { intros fuel' t n. induction n as [|n IH]; intros i top' m'; [done|]. simpl.
    destruct (beam_tuple_element m' term i); [|done]. simpl.
    destruct (gc_copy_term _ _ _ _ _ _) as [[[c t'] m1]|]; [|done]. simpl.
    destruct (store m1 _ c); [|done]. simpl. apply IH. }
  destruct fuel as [|fuel]; [done|]. simpl. unfold gc_immediate.
  destruct (_ || beam_is_nil term); [done|].
  destruct (beam_is_tuple m term) as [[]|]; [|done..]. simpl.
  destruct (beam_tuple_arity m term) as [arity|]; [|done]. simpl.
  destruct (_ >? cap); [done|]. destruct (store m _ _) as [m1|]; [|done]. simpl.
  by rewrite Hel.
Qed.

(** ** Bounds, for any term

    The collector follows whatever it finds; as long as it does not read
    undefined memory, it writes only the words it takes from the to-space. *)

(** Every initialised word fits a machine word. *)
Definition words_u64 (m : memory) : Prop := ∀ a w, load m a = Some w → is_u64 w.

Lemma words_u64_store m a w m' :
  words_u64 m → is_u64 w → store m a w = Some m' → words_u64 m'.
Proof.
  intros Hm Hw Hs b v Hb. destruct (decide (a = b)) as [<-|Hne].
  - rewrite (load_store_eq _ _ _ _ Hs) in Hb. by simplify_eq.
  - rewrite (load_store_ne _ _ _ _ _ Hs Hne) in Hb. by eapply Hm.
Qed.

Lemma words_u64_map m p n : words_u64 m → words_u64 (map_words m p n).
Proof.
  intros Hm a w. rewrite load_Some, lookup_map_words. case_match; [done|].
  intros Hl. by apply (Hm a), load_Some.
Qed.

Lemma tuple_element_u64 m term i e :
  words_u64 m → beam_tuple_element m term i = Some e → is_u64 e.
Proof.
  intros Hm He. unfold beam_tuple_element in He. apply bind_Some in He as (b & _ & He).
  destruct b; simpl in He; [by eapply Hm|simplify_eq; unfold is_u64; lia].
Qed.

Lemma tuple_arity_range m term n :
  words_u64 m → beam_tuple_arity m term = Some n → 0 <= n < 2 ^ 58.
Proof.
  intros Hm Hn. unfold beam_tuple_arity in Hn. apply bind_Some in Hn as (b & _ & Hn).
  destruct b; simpl in Hn; [|simplify_eq; lia]. apply bind_Some in Hn as (w & Hw & Hn).
  simplify_eq. apply Hm in Hw. unfold is_u64 in Hw. rewrite Z.shiftr_div_pow2 by lia.
  Z.to_euclidean_division_equations; lia.
Qed.

Lemma list_head_u64 m term e : words_u64 m → beam_list_head m term = Some e → is_u64 e.
Proof.
  intros Hm. unfold beam_list_head. case_match; [intros; simplify_eq; unfold is_u64; lia|].
  apply Hm.
Qed.

Lemma list_tail_u64 m term e : words_u64 m → beam_list_tail m term = Some e → is_u64 e.
Proof.
  intros Hm. unfold beam_list_tail. case_match; [intros; simplify_eq; unfold is_u64; lia|].
  apply Hm.
Qed.

(** Memory is unchanged outside the words [lo, hi) of the to-space. *)
Definition same_outside (to lo hi : Z) (m m' : memory) : Prop :=
  ∀ a, (∀ i, lo <= i < hi → a ≠ word_at to i) → m' !! a = m !! a.

Lemma same_outside_refl to lo hi m : same_outside to lo hi m m.
Proof. by intros a _. Qed.

Lemma same_outside_trans to lo hi lo' hi' m1 m2 m3 :
  same_outside to lo hi m1 m2 → same_outside to lo' hi' m2 m3 →
  lo <= lo' → hi <= hi' → same_outside to lo hi' m1 m3.
Proof.
  intros H12 H23 ? ? a Ha. rewrite H23, H12; [done|..]; intros i Hi; apply Ha; lia.
Qed.

Lemma same_outside_widen to lo hi lo' hi' m1 m2 :
  same_outside to lo hi m1 m2 → lo' <= lo → hi <= hi' → same_outside to lo' hi' m1 m2.
Proof. intros Hs ? ? a Ha. apply Hs. intros i Hi. apply Ha. lia. Qed.

Lemma same_outside_store to lo hi i m w m' :
  store m (word_at to i) w = Some m' → lo <= i < hi → same_outside to lo hi m m'.
Proof.
  intros [_ ->]%store_Some Hi a Ha. rewrite lookup_insert_ne; [done|]. intros <-. by apply (Ha i).
Qed.

Section Bounds.
Context (to cap : Z).
Hypothesis Hto : 0 < to ∧ aligned to ∧ to + WORD * cap <= ADDR_LIMIT.
Hypothesis Hcap : 0 <= cap < 2 ^ 44.

(** What one copy guarantees. *)
Definition copy_bounds (f : Z → Z → memory → option (Z * Z * memory)) : Prop :=
  ∀ term top m c top' m',
    0 <= top <= cap → words_u64 m → is_u64 term → f term top m = Some (c, top', m') →
    top <= top' <= cap ∧ is_u64 c ∧ words_u64 m' ∧ same_outside to top top' m m'.

Lemma gc_copy_elems_bounds fuel term top n i top' m top2 m2 :
  copy_bounds (gc_copy_term fuel to cap) →
  0 <= top → 0 <= i → top + 1 + i + Z.of_nat n <= top' <= cap → words_u64 m →
  gc_copy_elems fuel to cap term top n i top' m = Some (top2, m2) →
  top' <= top2 <= cap ∧ words_u64 m2 ∧ same_outside to (top + 1) top2 m m2.
Proof.
  intros IHf Htop. revert i top' m. induction n as [|n IH]; intros i top' m Hi Ht Hm He;
    simpl in He.
  - simplify_eq. split_and!; [lia..|done|apply same_outside_refl].
  - apply bind_Some in He as (e & He1 & He). apply bind_Some in He as ([[c t1] m1] & Hc & He).
    apply bind_Some in He as (m1' & Hs & He).
    pose proof (tuple_element_u64 _ _ _ _ Hm He1) as Hu.
    assert (0 <= top' <= cap) as Ht0 by lia.
    destruct (IHf _ _ _ _ _ _ Ht0 Hm Hu Hc) as (Ht1 & Hcu & Hm1 & Hs1).
    destruct (IH (i + 1) t1 m1') as (Ht2 & Hm2 & Hs2); [lia|lia|by eapply words_u64_store|done|].
    split_and!; [lia..|done|].
    apply (same_outside_trans to (top + 1) t1 (top + 1) top2 m m1'); [|exact Hs2|lia|lia].
    apply (same_outside_trans to (top + 1) t1 (top + 1) t1 m m1); [| |lia|lia].
    + eapply same_outside_widen; [exact Hs1|lia|lia].
    + eapply same_outside_store; [done|lia].
Qed.

Lemma gc_copy_term_bounds fuel : copy_bounds (gc_copy_term fuel to cap).
Proof using Hto Hcap.
  induction fuel as [|fuel IH]; intros term top m c top' m' Htop Hm Hu Hc;
    rewrite gc_copy_term_eq in Hc.
  all: destruct (gc_immediate term);
    [simplify_eq; split_and!; [lia..|done|done|apply same_outside_refl]|].
  all: apply bind_Some in Hc as (b & _ & Hc); destruct b.
  - apply bind_Some in Hc as (n & _ & Hc). destruct (_ >? cap); [|done].
    simplify_eq; split_and!; [lia..|done|done|apply same_outside_refl].
  - destruct (beam_is_list term); [destruct (_ >? cap); [|done]|];
      simplify_eq; split_and!; (lia || done || apply same_outside_refl).
  - apply bind_Some in Hc as (n & Hn & Hc). pose proof (tuple_arity_range _ _ _ Hm Hn) as Hr.
    rewrite (u64_small (n + 1)) in Hc by (unfold is_u64; lia).
    rewrite (u64_small (top + (n + 1))) in Hc by (unfold is_u64; lia).
    rewrite Z.gtb_ltb in Hc. destruct (Z.ltb_spec cap (top + (n + 1))).
    { simplify_eq; split_and!; [lia..|done|done|apply same_outside_refl]. }
    apply bind_Some in Hc as (m1 & Hs & Hc). apply bind_Some in Hc as ([t2 m2] & He & Hc).
    simplify_eq.
    assert (words_u64 m1) as Hm1.
    { eapply words_u64_store; [done| |done]. apply make_small_int_is_u64. }
    destruct (gc_copy_elems_bounds fuel term top (Z.to_nat n) 0 (top + (n + 1)) m1 top' m')
      as (Ht & Hm2 & Hs2); [done|lia..|done|done|].
    split_and!; [lia..| |done|].
    + rewrite tag_ptr_eq by (done || apply word_at_aligned, Hto).
      unfold is_u64, word_at, WORD, ADDR_LIMIT, TAG_PRIMARY_BOXED in *. lia.
    + apply (same_outside_trans to top top' (top + 1) top' m m1); [|exact Hs2|lia|lia].
      eapply same_outside_store; [done|lia].
  - destruct (beam_is_list term).
    2:{ simplify_eq; split_and!; (lia || done || apply same_outside_refl). }
    rewrite (u64_small (top + 2)) in Hc by (unfold is_u64; lia).
    rewrite Z.gtb_ltb in Hc. destruct (Z.ltb_spec cap (top + 2)).
    { simplify_eq; split_and!; [lia..|done|done|apply same_outside_refl]. }
    apply bind_Some in Hc as (hd & Hhd & Hc). apply bind_Some in Hc as (tl & Htl & Hc).
    apply bind_Some in Hc as ([[c1 t1] m1] & H1 & Hc).
    apply bind_Some in Hc as (m1' & Hs1 & Hc).
    apply bind_Some in Hc as ([[c2 t2] m2] & H2 & Hc).
    apply bind_Some in Hc as (m2' & Hs2 & Hc). simplify_eq.
    assert (0 <= top + 2 <= cap) as Hb1 by lia.
    destruct (IH _ _ _ _ _ _ Hb1 Hm (list_head_u64 _ _ _ Hm Hhd) H1)
      as (Ht1 & Hu1 & Hm1 & Ho1).
    pose proof (words_u64_store _ _ _ _ Hm1 Hu1 Hs1) as Hm1'.
    assert (0 <= t1 <= cap) as Hb2 by lia.
    destruct (IH _ _ _ _ _ _ Hb2 Hm1' (list_tail_u64 _ _ _ Hm Htl) H2)
      as (Ht2 & Hu2 & Hm2 & Ho2).
    split_and!; [lia..| |by eapply words_u64_store|].
    + rewrite tag_ptr_eq by (done || apply word_at_aligned, Hto).
      unfold is_u64, word_at, WORD, ADDR_LIMIT, TAG_PRIMARY_LIST in *. lia.
    + apply (same_outside_trans _ _ t1 top _ _ m1');
        [eapply (same_outside_trans _ _ t1 top t1 _ m1)|
         eapply (same_outside_trans _ _ top' top top' _ m2)|lia|lia].
      * eapply same_outside_widen; [exact Ho1|lia|lia].
      * eapply same_outside_store; [done|lia].
      * lia.
      * lia.
      * eapply same_outside_widen; [exact Ho2|lia|lia].
      * eapply same_outside_store; [done|lia].
      * lia.
      * lia.
Qed.

(** Beyond the free words of the to-space, more fuel changes nothing: the
    recursion ends. *)
Lemma gc_copy_term_fuel f1 f2 term top m :
  0 <= top <= cap → words_u64 m → is_u64 term →
  (Z.to_nat (cap - top) < f1)%nat → (Z.to_nat (cap - top) < f2)%nat →
  gc_copy_term f1 to cap term top m = gc_copy_term f2 to cap term top m.
Proof using Hto Hcap.
  revert f2 term top m. induction f1 as [|f1 IH]; intros f2 term top m Htop Hm Hu Hf1 Hf2; [lia|].
  destruct f2 as [|f2]; [lia|]. rewrite !gc_copy_term_eq.
  destruct (gc_immediate term); [done|]. destruct (beam_is_tuple m term) as [[]|]; [|simpl|done].
  - simpl. destruct (beam_tuple_arity m term) as [n|] eqn:Hn; [|done]. simpl.
    pose proof (tuple_arity_range _ _ _ Hm Hn) as Hr.
    rewrite (u64_small (n + 1)) by (unfold is_u64; lia).
    rewrite (u64_small (top + (n + 1))) by (unfold is_u64; lia).
    rewrite Z.gtb_ltb. destruct (Z.ltb_spec cap (top + (n + 1))); [done|].
    destruct (store m _ _) as [m1|] eqn:Hs; [|done]. simpl.
    assert (words_u64 m1) as Hm1 by (eapply words_u64_store; [done| |done]; auto with beam).
    assert (∀ k i t' m', 0 <= i → top + 1 + i + Z.of_nat k <= t' <= cap → words_u64 m' →
      gc_copy_elems f1 to cap term top k i t' m' = gc_copy_elems f2 to cap term top k i t' m')
      as Hel; [|rewrite Hel; (done || lia)].
    induction k as [|k IHk]; intros i t' m' Hi Ht Hm'; [done|]. simpl.
    destruct (beam_tuple_element m' term i) as [e|] eqn:He; [|done]. simpl.
    pose proof (tuple_element_u64 _ _ _ _ Hm' He) as Heu.
    rewrite (IH f2) by (done || lia).
    destruct (gc_copy_term f2 to cap e t' m') as [[[c t1] m2]|] eqn:Hc; [|done]. simpl.
    assert (0 <= t' <= cap) as Ht0 by lia.
    destruct (gc_copy_term_bounds _ _ _ _ _ _ _ Ht0 Hm' Heu Hc) as (? & ? & ? & _).
    destruct (store m2 _ c) eqn:Hs2; [|done]. simpl.
    apply IHk; [lia|lia|by eapply words_u64_store].
  - destruct (beam_is_list term); [|done].
    rewrite (u64_small (top + 2)) by (unfold is_u64; lia).
    rewrite Z.gtb_ltb. destruct (Z.ltb_spec cap (top + 2)); [done|].
    destruct (beam_list_head m term) as [hd|] eqn:Hhd; [|done]. simpl.
    destruct (beam_list_tail m term) as [tl|] eqn:Htl; [|done]. simpl.
    pose proof (list_head_u64 _ _ _ Hm Hhd) as Hhu. pose proof (list_tail_u64 _ _ _ Hm Htl).
    rewrite (IH f2) by (done || lia).
    destruct (gc_copy_term f2 to cap hd (top + 2) m) as [[[c t1] m1]|] eqn:Hc; [|done]. simpl.
    assert (0 <= top + 2 <= cap) as Ht0 by lia.
    destruct (gc_copy_term_bounds _ _ _ _ _ _ _ Ht0 Hm Hhu Hc)
      as (? & ? & ? & _).
    destruct (store m1 _ c) as [m1'|] eqn:Hs1; [|done]. simpl.
    rewrite (IH f2); [done|lia|by eapply words_u64_store|done|lia|lia].
Qed.

End Bounds.

(** ** Lists survive a collection

    [mf]: the from-space, which the to-space does not overlap. *)

Section Denotes.
Context (to cap : Z) (mf : memory).
Hypothesis Hto : 0 < to ∧ aligned to ∧ to + WORD * cap <= ADDR_LIMIT.
Hypothesis Hcap : 0 <= cap < 2 ^ 44.
Hypothesis Hmf : ∀ i, 0 <= i < cap → mf !! word_at to i = None.

(** A state of the copy: the from-space is intact, the to-space exists. *)
Definition copying (m : memory) : Prop := mf ⊆ m ∧ mapped m to cap.

Lemma copying_store m i w m' :
  copying m → 0 <= i < cap → store m (word_at to i) w = Some m' → copying m'.
Proof using Hmf.
  intros [Hsub Hmap] Hi Hs. split; [|by eapply mapped_store].
  apply store_Some in Hs as [_ ->]. apply insert_subseteq_r; [|done]. by apply Hmf.
Qed.

Lemma copying_can_store m i w :
  copying m → 0 <= i < cap → ∃ m', store m (word_at to i) w = Some m'.
Proof. intros [_ Hmap] Hi. rewrite (store_mapped _ _ _ _ _ Hmap Hi). eauto. Qed.

Lemma copying_load m a w : copying m → load mf a = Some w → load m a = Some w.
Proof.
  intros [Hsub _] Hl%load_Some. apply load_Some. by eapply lookup_weaken.
Qed.

Lemma immediate_not_boxed m w : immediate w → beam_is_tuple m w = Some false.
Proof.
  intros [_ Hb]. unfold beam_is_tuple, boxed_header. by destruct (Z.eqb_spec (w .& 3) TAG_PRIMARY_BOXED).
Qed.

Lemma immediate_not_list w : immediate w → beam_is_list w = false.
Proof. intros [Hl _]. by apply Z.eqb_neq. Qed.

(** A tagged list pointer is not mistaken for an immediate or a tuple. *)
Lemma cons_not_immediate p : aligned p → gc_immediate (tag_ptr p TAG_PRIMARY_LIST) = false.
Proof.
  clear Hto Hcap Hmf. intros Hp. unfold gc_immediate, beam_is_small_int, beam_is_atom, beam_is_nil.
  rewrite tag_ptr_eq, land_15 by done.
  change TAG_IMMED1_SMALL_INT with 3. change TAG_IMMED1_ATOM with 11.
  change ETERM_NIL with 63. change TAG_PRIMARY_LIST with 1. unfold aligned in Hp.
  rewrite !orb_false_iff, !Z.eqb_neq. Z.to_euclidean_division_equations; lia.
Qed.

Lemma cons_not_tuple m p : aligned p → beam_is_tuple m (tag_ptr p TAG_PRIMARY_LIST) = Some false.
Proof. intros Hp. unfold beam_is_tuple, boxed_header. by rewrite tag_of_tag_ptr. Qed.

(** Memories that agree on the words [lo, hi) of the to-space. *)
Definition agree_on (lo hi : Z) (m m' : memory) : Prop :=
  ∀ i, lo <= i < hi → m' !! word_at to i = m !! word_at to i.

Lemma agree_on_outside lo hi lo' hi' m m' :
  same_outside to lo hi m m' → hi' <= lo ∨ hi <= lo' → agree_on lo' hi' m m'.
Proof.
  intros Hs Hd i Hi. apply Hs. intros j Hj E. apply word_at_inj in E. clear Hto Hcap Hmf. lia.
Qed.

Lemma agree_on_trans lo hi lo' hi' m1 m2 m3 :
  agree_on lo hi m1 m2 → agree_on lo' hi' m2 m3 → lo' <= lo → hi <= hi' →
  agree_on lo hi m1 m3.
Proof. clear Hto Hcap Hmf. intros H1 H2 ? ? i Hi. rewrite H2 by lia. by apply H1. Qed.

Abbreviation size_of t := (2 * Z.of_nat (cells t)).

Lemma gc_copy_term_denotes t fuel w top m :
  denotes mf w t → copying m → 0 <= top → top + size_of t <= cap → (cells t < fuel)%nat →
  ∃ c m', gc_copy_term fuel to cap w top m = Some (c, top + size_of t, m') ∧ copying m' ∧
    same_outside to top (top + size_of t) m m' ∧
    ∀ m2, agree_on top (top + size_of t) m' m2 → denotes m2 c t.
Proof using Hto Hcap Hmf.
  intros Hden. revert fuel top m.
  induction Hden as [w Hi|p x y hd tl Hp Hnn Hx Hy Hd1 IH1 Hd2 IH2];
    intros fuel top m Hm Htop Hroom Hf.
  - exists w, m. split; [|split_and!; [done|apply same_outside_refl|by constructor]].
    rewrite gc_copy_term_eq. simpl cells. replace (top + 2 * Z.of_nat 0) with top by lia.
    destruct (gc_immediate w); [done|]. rewrite (immediate_not_boxed _ _ Hi). simpl.
    by rewrite (immediate_not_list _ Hi).
  - simpl cells in *. rewrite gc_copy_term_eq, cons_not_immediate, cons_not_tuple by done.
    cbn [mbind option_bind]. rewrite (tag_ptr_is_list p) by done.
    rewrite (u64_small (top + 2)) by (unfold is_u64; lia).
    rewrite Z.gtb_ltb. destruct (Z.ltb_spec cap (top + 2)); [lia|].
    destruct fuel as [|fuel]; [lia|].
    unfold beam_list_head, beam_list_tail. rewrite (tag_ptr_is_list p) by done. cbn [negb].
    rewrite untag_tag_ptr by done.
    rewrite (copying_load _ _ _ Hm Hx), (copying_load _ _ _ Hm Hy). cbn [mbind option_bind].
    destruct (IH1 fuel (top + 2) m Hm) as (c1 & m1 & -> & Hm1 & Ho1 & Hc1); [lia..|].
    cbn [mbind option_bind].
    destruct (copying_can_store m1 top c1 Hm1) as [m1' Hs1]; [lia|]. rewrite Hs1.
    cbn [mbind option_bind].
    assert (Hm1' : copying m1') by (eapply copying_store; [done| |done]; lia).
    destruct (IH2 fuel (top + 2 + size_of hd) m1' Hm1') as (c2 & m2 & -> & Hm2 & Ho2 & Hc2);
      [lia..|]. cbn [mbind option_bind].
    destruct (copying_can_store m2 (top + 1) c2 Hm2) as [m2' Hs2]; [lia|]. rewrite Hs2.
    cbn [mbind option_bind].
    assert (Hm2' : copying m2') by (eapply copying_store; [done| |done]; lia).
    set (hi := top + 2 + size_of hd + size_of tl) in *.
    assert (top + 2 * Z.of_nat (S (cells hd + cells tl)) = hi) as -> by (unfold hi; lia).
    exists (tag_ptr (word_at to top) TAG_PRIMARY_LIST), m2'.
    assert (Hs1' := same_outside_store to top (top + 1) _ _ _ _ Hs1 ltac:(lia)).
    assert (Hs2' := same_outside_store to (top + 1) (top + 2) _ _ _ _ Hs2 ltac:(lia)).
    split; [done|]. split; [done|]. split.
    + apply (same_outside_trans to top hi top hi m m1');
        [apply (same_outside_trans to top hi top hi m m1)|
         apply (same_outside_trans to top hi top hi m1' m2)|lia|lia]; try lia;
        (eapply same_outside_widen; [done|unfold hi; lia..]).
    + intros m3 Hag. apply den_cons with c1 c2.
      * by apply word_at_aligned, Hto.
      * unfold word_at, WORD, NULL. lia.
      * replace (word_at (word_at to top) 0) with (word_at to top) by (unfold word_at; lia).
        apply load_Some. rewrite Hag by (unfold hi; lia).
        assert (agree_on top (top + 1) m1' m2') as Hk.
        { eapply (agree_on_trans _ _ top (top + 1)); [eapply agree_on_outside; [exact Ho2|]|
            eapply agree_on_outside; [exact Hs2'|]|lia|lia]; lia. }
        rewrite (Hk top) by lia. apply load_Some. by eapply load_store_eq.
      * replace (word_at (word_at to top) 1) with (word_at to (top + 1))
          by (unfold word_at, WORD; lia).
        apply load_Some. rewrite Hag by (unfold hi; lia). apply load_Some.
        by eapply load_store_eq.
      * apply Hc1. intros i Hi. rewrite Hag by (unfold hi; lia).
        assert (agree_on (top + 2) (top + 2 + size_of hd) m1 m2') as Hk.
        { eapply (agree_on_trans _ _ (top + 2) (top + 2 + size_of hd));
            [eapply (agree_on_trans _ _ (top + 2) (top + 2 + size_of hd));
              [eapply agree_on_outside; [exact Hs1'|]|eapply agree_on_outside; [exact Ho2|]|..]|
             eapply agree_on_outside; [exact Hs2'|]|..]; lia. }
        by apply Hk.
      * apply Hc2. intros i Hi. rewrite Hag by (unfold hi; lia).
        assert (agree_on (top + 2 + size_of hd) hi m2 m2') as Hk.
        { eapply agree_on_outside; [exact Hs2'|lia]. }
        apply Hk. unfold hi. lia.
Qed.

(** The words the copies of several terms take. *)
Definition sum_cells (ts : list tm) : nat := foldr (λ t n, cells t + n)%nat 0%nat ts.

Lemma immediate_0 : immediate 0.
Proof. split; done. Qed.

(** The register loop. *)
Lemma gc_copy_regs_denotes xs ts top m :
  Forall2 (denotes mf) xs ts → copying m → 0 <= top →
  top + 2 * Z.of_nat (sum_cells ts) <= cap →
  ∃ xs' m', gc_copy_regs to cap xs top m = Some (xs', top + 2 * Z.of_nat (sum_cells ts), m') ∧
    copying m' ∧ same_outside to top (top + 2 * Z.of_nat (sum_cells ts)) m m' ∧
    ∀ m2, agree_on top (top + 2 * Z.of_nat (sum_cells ts)) m' m2 →
      Forall2 (denotes m2) xs' ts.
Proof using Hto Hcap Hmf.
  intros Hxs. revert top m. induction Hxs as [|x t xs ts Hd _ IH]; intros top m Hm Htop Hroom;
    cbn [sum_cells foldr] in *.
  - exists [], m. simpl. rewrite Z.add_0_r. split_and!; [done|done|apply same_outside_refl|done].
  - fold (sum_cells ts) in *. cbn [gc_copy_regs].
    assert (∃ c m1, (if negb (x =? 0) then gc_copy_term (gc_fuel cap) to cap x top m
              else Some (x, top, m)) = Some (c, top + 2 * Z.of_nat (cells t), m1) ∧ copying m1 ∧
      same_outside to top (top + 2 * Z.of_nat (cells t)) m m1 ∧
      ∀ m2, agree_on top (top + 2 * Z.of_nat (cells t)) m1 m2 → denotes m2 c t)
      as (c & m1 & -> & Hm1 & Ho1 & Hc1).
    { destruct (Z.eqb_spec x 0) as [->|_]; cbn [negb].
      - assert (t = TImm 0) as ->.
        { eapply denotes_fun; [exact Hd|]. constructor. apply immediate_0. }
        exists 0, m. simpl. rewrite Z.add_0_r. split_and!; [done|done|apply same_outside_refl|].
        intros m2 _. constructor. apply immediate_0.
      - apply gc_copy_term_denotes; [done|done|lia|lia|unfold gc_fuel; lia]. }
    cbn [mbind option_bind].
    destruct (IH (top + 2 * Z.of_nat (cells t)) m1 Hm1) as (xs' & m2 & -> & Hm2 & Ho2 & Hc2);
      [lia|lia|]. cbn [mbind option_bind].
    assert (top + 2 * Z.of_nat (cells t) + 2 * Z.of_nat (sum_cells ts) =
            top + 2 * Z.of_nat (cells t + sum_cells ts)) as E by lia.
    rewrite E in *. exists (c :: xs'), m2. split; [done|]. split; [done|]. split.
    + eapply same_outside_trans; [exact Ho1|exact Ho2|lia|lia].
    + intros m3 Hag. constructor.
      * apply Hc1. intros i Hi. rewrite Hag by lia. apply Ho2.
        intros j Hj Ej. apply word_at_inj in Ej. lia.
      * apply Hc2. intros i Hi. apply Hag. lia.
Qed.

(** The stack loop: the slots go to the same indices of the to-space. *)
Lemma gc_copy_stack_denotes h ts s top m :
  (∀ i t, ts !! i = Some t →
     ∃ w, load mf (word_at h (s + Z.of_nat i)) = Some w ∧ denotes mf w t) →
  copying m → 0 <= top → top + 2 * Z.of_nat (sum_cells ts) <= s → s + Z.of_nat (length ts) = cap →
  ∃ m', gc_copy_stack (length ts) h cap to cap s top m =
          Some (top + 2 * Z.of_nat (sum_cells ts), m') ∧ copying m' ∧
    (∀ a, (∀ i, top <= i < top + 2 * Z.of_nat (sum_cells ts) ∨ s <= i < cap → a ≠ word_at to i) →
       m' !! a = m !! a) ∧
    ∀ m2, agree_on 0 cap m' m2 → ∀ i t, ts !! i = Some t →
      ∃ c, load m2 (word_at to (s + Z.of_nat i)) = Some c ∧ denotes m2 c t.
Proof using Hto Hcap Hmf.
  intros Hts. revert s top m Hts. induction ts as [|t ts IH]; intros s top m Hts Hm Htop Hroom Hs;
    cbn [sum_cells foldr length] in *.
  - exists m. simpl. rewrite Z.add_0_r. split_and!; [done|done|done|]. by intros m2 _ i t ?.
  - fold (sum_cells ts) in *. cbn [gc_copy_stack].
    destruct (Hts 0%nat t eq_refl) as (w & Hw & Hd).
    replace (s + Z.of_nat 0) with s in Hw by lia.
    rewrite (copying_load _ _ _ Hm Hw). cbn [mbind option_bind].
    destruct (gc_copy_term_denotes t (gc_fuel cap) w top m Hd Hm) as (c & m1 & -> & Hm1 & Ho1 & Hc1);
      [lia|lia|unfold gc_fuel; lia|]. cbn [mbind option_bind].
    rewrite (u64_small (cap - s)) by (unfold is_u64; lia).
    rewrite u64_small by (unfold is_u64; lia). replace (cap - (cap - s)) with s by lia.
    destruct (copying_can_store m1 s c Hm1) as [m1' Hs1]; [lia|]. rewrite Hs1.
    cbn [mbind option_bind].
    assert (Hm1' : copying m1') by (eapply copying_store; [done| |done]; lia).
    destruct (IH (s + 1) (top + 2 * Z.of_nat (cells t)) m1')
      as (m2 & Hm2 & Hcp & Ho2 & Hc2); try done; try lia.
    { intros i t' Hi. destruct (Hts (S i) t' Hi) as (w' & ? & ?). exists w'.
      by replace (s + 1 + Z.of_nat i) with (s + Z.of_nat (S i)) by lia. }
    rewrite Hm2.
    assert (top + 2 * Z.of_nat (cells t) + 2 * Z.of_nat (sum_cells ts) =
            top + 2 * Z.of_nat (cells t + sum_cells ts)) as E by lia.
    rewrite E in *. exists m2. split; [done|]. split; [done|]. split.
    + intros a Ha. rewrite Ho2; [|intros i Hi; apply Ha; lia].
      apply store_Some in Hs1 as [_ ->]. rewrite lookup_insert_ne; [|intros <-; apply (Ha s); lia].
      apply Ho1. intros i Hi. apply Ha. lia.
    + intros m3 Hag i t' Hi. destruct i as [|i]; simpl in Hi.
      * simplify_eq. exists c. replace (s + Z.of_nat 0) with s by lia.
        assert (Hk : ∀ j, top <= j < top + 2 * Z.of_nat (cells t') ∨ j = s →
                  m3 !! word_at to j = m1' !! word_at to j).
        { intros j Hj. rewrite Hag by lia. apply Ho2. intros k Hk Ek.
          apply word_at_inj in Ek. lia. }
        split.
        -- apply load_Some. rewrite Hk by lia. apply load_Some. by eapply load_store_eq.
        -- apply Hc1. intros j Hj. rewrite Hk by lia. apply store_Some in Hs1 as [_ ->].
           rewrite lookup_insert_ne; [done|]. intros Ej. apply word_at_inj in Ej. lia.
      * destruct (Hc2 m3 Hag i t' Hi) as (c' & ? & ?). exists c'.
        by replace (s + Z.of_nat (S i)) with (s + 1 + Z.of_nat i) by lia.
Qed.

End Denotes.

(** ** The whole collection *)

(** The words of the heap block [h] of [cap] words. *)
Definition block_mem (m : memory) (h cap : Z) : memory :=
  filter (λ x, in_block h cap x.1 = true) m.

Lemma lookup_block_mem m h cap a :
  block_mem m h cap !! a = if in_block h cap a then m !! a else None.
Proof.
  unfold block_mem. destruct (in_block h cap a) eqn:E.
  - destruct (m !! a) eqn:Ha.
    + by apply map_lookup_filter_Some.
    + apply map_lookup_filter_None. by left.
  - apply map_lookup_filter_None. right. intros x _. simpl. by rewrite E.
Qed.

Section Collect.
Context {A : Type} `{AllocSpec A}.
Implicit Types s : vm A.

(** The root terms of a process: its registers denote [regs], its stack slots
    [stack], all within its own heap block. *)
Definition roots (m : memory) (pr : beam_process) (regs stack : list tm) : Prop :=
  let hm := block_mem m (heap pr) (heap_capacity pr) in
  Forall2 (denotes hm) (x_regs (frame pr)) regs ∧
  stack_top pr + Z.of_nat (length stack) = heap_capacity pr ∧
  ∀ i t, stack !! i = Some t →
    ∃ w, load hm (word_at (heap pr) (stack_top pr + Z.of_nat i)) = Some w ∧ denotes hm w t.

(** A fresh to-space of as many words as the live block [h]: disjoint from it,
    absent from its words, and mapping it starts a collection. *)
Lemma to_space_disjoint B h to cap i j :
  fresh_block B to (WORD * cap) → B !! h = Some (WORD * cap) →
  0 <= i < cap → 0 <= j < cap → word_at to i ≠ word_at h j.
Proof.
  intros (_ & _ & _ & Hd) HB Hi Hj. destruct (Hd _ _ HB); unfold word_at, WORD in *; lia.
Qed.

Lemma to_space_ne B h to cap :
  0 < cap → fresh_block B to (WORD * cap) → B !! h = Some (WORD * cap) → h ≠ to.
Proof.
  intros Hc Hf HB ->. assert (0 <= 0 < cap) as Hz by lia.
  by destruct (to_space_disjoint _ _ _ _ _ _ Hf HB Hz Hz).
Qed.

Lemma to_space_absent m B h to cap i :
  fresh_block B to (WORD * cap) → B !! h = Some (WORD * cap) → 0 <= i < cap →
  block_mem m h cap !! word_at to i = None.
Proof.
  intros Hf HB Hi. rewrite lookup_block_mem. case_match eqn:E; [|done].
  apply in_block_spec in E as (j & Hj & E). by eapply to_space_disjoint in E.
Qed.

Lemma to_space_copying m B h to cap :
  0 <= cap → fresh_block B to (WORD * cap) → B !! h = Some (WORD * cap) →
  copying to cap (block_mem m h cap) (map_words m to (Z.to_nat cap)).
Proof.
  intros Hc Hf HB. split.
  - apply map_subseteq_spec. intros b c. rewrite lookup_block_mem, lookup_map_words.
    destruct (in_block h cap b) eqn:E; [|done]. intros Hb. rewrite Z2Nat.id by lia.
    case_match eqn:E2; [|done]. apply in_block_spec in E as (j & Hj & ->).
    apply in_block_spec in E2 as (i & Hi & E2).
    by destruct (to_space_disjoint _ _ _ _ _ _ Hf HB Hi Hj).
  - intros i Hi. apply mapped_map_words. lia.
Qed.

(** The from-space is released once the process holds the to-space: outside
    the two blocks nothing moved, so the machine stays well formed. *)
Lemma vm_ok_swap_space s B own p pr to top xs' a m2 :
  vm_ok s B own → procs s !! p = Some pr → length xs' = length (x_regs (frame pr)) →
  fresh_block B to (WORD * heap_capacity pr) →
  al_rep a (<[to := WORD * heap_capacity pr]> B) →
  0 <= top <= heap_capacity pr → mapped m2 to (heap_capacity pr) →
  (∀ b, is_Some (mem s !! b) → in_block to (heap_capacity pr) b = false → m2 !! b = mem s !! b) →
  vm_ok (put_proc p
           (set_p_heap to (heap_capacity pr) top (set_p_frame (set_fr_x_regs xs' (frame pr)) pr))
           (set_mem (unmap_words m2 (heap pr) (Z.to_nat (heap_capacity pr)))
              (set_alc (al_free a (heap pr)) s)))
    (<[to := WORD * heap_capacity pr]> (delete (heap pr) B))
    (<[to := OHeap p]> (delete (heap pr) own)).
Proof.
  intros Hok Hp Hlen Hf Ha Htop Hmap Hout. pose proof Hok as [Hrep Ho Hpr Hmb].
  destruct (Hpr _ _ Hp) as (Hnn & Hpo & (HB & Hown & _) & _).
  pose proof (vm_ok_heap_cap _ _ _ _ _ Hok Hp) as Hc.
  set (pr1 := set_p_frame (set_fr_x_regs xs' (frame pr)) pr).
  assert (Hok1 : vm_ok (put_proc p pr1 s) B own).
  { eapply vm_ok_put_proc; [done|exact Hp| |done..]. destruct Hpo. split; simpl; try done.
    by rewrite Hlen. }
  assert (Hne : heap pr ≠ to) by (eapply to_space_ne; [|done..]; lia).
  pose proof (vm_ok_move_heap (put_proc p pr1 s) B own p pr1 to (heap_capacity pr) top
                (unmap_words m2 (heap pr) (Z.to_nat (heap_capacity pr)))
                (al_free a (heap pr)) Hok1 (lookup_insert_eq _ _ _)) as Hmv.
  unfold put_proc, set_mem, set_alc in Hmv |- *. simpl in Hmv |- *.
  rewrite insert_insert_eq in Hmv. apply Hmv; clear Hmv; try done.
  - by apply fresh_block_delete.
  - rewrite <- delete_insert_ne by done. eapply al_free_spec; [done|].
    by rewrite lookup_insert_ne by done.
  - intros i Hi. rewrite lookup_unmap_words, Z2Nat.id by lia. case_match eqn:E; [|by apply Hmap].
    apply in_block_spec in E as (j & Hj & E). by eapply to_space_disjoint in E.
  - intros b Hb Hx. rewrite lookup_unmap_words, Z2Nat.id, Hb by lia.
    destruct (in_block to (heap_capacity pr) b) eqn:E; [|by rewrite Hout].
    apply in_block_spec in E as (i & Hi & ->). by apply Hmap.
Qed.

Lemma gc_collect_ok s B own p pr regs stack :
  vm_ok s B own → procs s !! p = Some pr → roots (mem s) pr regs stack →
  2 * Z.of_nat (sum_cells regs + sum_cells stack) <= stack_top pr →
  ∃ r s', beam_gc_collect_process p s = Some (r, s') ∧
    ((r = BEAM_ERR_NO_MEMORY ∧ procs s' = procs s ∧ mem s' = mem s ∧ vm_ok s' B own) ∨
     (r = BEAM_OK ∧ ∃ pr' B' own', procs s' = <[p := pr']> (procs s) ∧ vm_ok s' B' own' ∧
        roots (mem s') pr' regs stack ∧
        heap_top pr' = 2 * Z.of_nat (sum_cells regs + sum_cells stack) ∧
        stack_top pr' = stack_top pr ∧ heap_capacity pr' = heap_capacity pr)).
Proof.
  intros Hok Hp (Hregs & Hlen & Hstk) Hroom. pose proof Hok as [Hrep Ho Hpr Hmb].
  destruct (Hpr _ _ Hp) as (Hnn & Hpo & (HB & Hown & Hmap) & Hst & Hmbx).
  pose proof (vm_ok_heap_nonnull _ _ _ _ _ Hok Hp) as Hh.
  pose proof (vm_ok_heap_cap _ _ _ _ _ Hok Hp) as Hc.
  pose proof (po_stack _ Hpo) as Hps.
  unfold beam_gc_collect_process. destruct (Z.eqb_spec p NULL); [done|]. rewrite Hp.
  cbn [mbind option_bind]. destruct (Z.eqb_spec (heap pr) NULL); [done|].
  unfold words_bytes. rewrite (u64_small (WORD * _)) by (unfold is_u64, WORD; lia).
  replace (WORD * heap_capacity pr / WORD) with (heap_capacity pr)
    by (rewrite Z.mul_comm, Z.div_mul; done).
  destruct (al_alloc (alc s) (WORD * heap_capacity pr)) as [to a] eqn:Ea.
  assert (alloc_size (WORD * heap_capacity pr)) as Hsz by (unfold alloc_size, WORD; lia).
  destruct (al_alloc_spec _ _ _ _ _ Hrep Hsz Ea) as [[-> Ha]|[Hf Ha]].
  { eexists _, _. split; [done|]. left. split_and!; [done..|]. by split. }
  pose proof (fresh_block_nonnull _ _ _ Hf) as Hto. destruct (Z.eqb_spec to NULL); [done|].
  set (cap := heap_capacity pr) in *. set (h := heap pr) in *.
  set (mf := block_mem (mem s) h cap).
  assert (Hmf : ∀ i, 0 <= i < cap → mf !! word_at to i = None)
    by (intros i Hi; by eapply to_space_absent).
  assert (Htoblk : 0 < to ∧ aligned to ∧ to + WORD * cap <= ADDR_LIMIT)
    by (destruct Hf as (? & ? & ? & _); done).
  assert (Hcap : 0 <= cap < 2 ^ 44) by lia.
  assert (Hm0 : copying to cap mf (map_words (mem s) to (Z.to_nat cap)))
    by (eapply to_space_copying; [lia|done..]).
  rewrite Nat2Z.inj_add in Hroom.
  destruct (gc_copy_regs_denotes to cap mf Htoblk Hcap Hmf _ _ 0 _ Hregs Hm0)
    as (xs' & m1 & -> & Hm1 & Ho1 & Hc1); [lia|lia|]. cbn [mbind option_bind].
  rewrite Z.add_0_l in *.
  assert (Hst2 : Z.to_nat (cap - stack_top pr) = length stack) by lia. rewrite Hst2.
  destruct (gc_copy_stack_denotes to cap mf Htoblk Hcap Hmf h stack (stack_top pr)
              (2 * Z.of_nat (sum_cells regs)) m1 Hstk Hm1) as (m2 & -> & Hm2 & Ho2 & Hc2);
    [lia..|]. cbn [mbind option_bind].
  assert (Hst3 : u64 (cap - u64 (cap - stack_top pr)) = stack_top pr).
  { rewrite (u64_small (cap - stack_top pr)) by (unfold is_u64; lia).
    rewrite u64_small by (unfold is_u64; lia). lia. }
  rewrite Hst3. set (top := 2 * Z.of_nat (sum_cells regs) + 2 * Z.of_nat (sum_cells stack)) in *.
  set (m3 := unmap_words m2 h (Z.to_nat cap)).
  assert (Hto3 : ∀ i, 0 <= i < cap → block_mem m3 to cap !! word_at to i = m2 !! word_at to i).
  { intros i Hi. rewrite lookup_block_mem. rewrite (proj2 (in_block_spec to cap _)) by eauto.
    unfold m3. rewrite lookup_unmap_words, Z2Nat.id by lia. case_match eqn:E; [|done].
    apply in_block_spec in E as (j & Hj & E). by eapply to_space_disjoint in E. }
  assert (Hlen' : length xs' = length (x_regs (frame pr))).
  { rewrite (Forall2_length _ _ _ Hregs). eapply (Forall2_length (denotes m1)). apply Hc1.
    by intros i _. }
  eexists _, _. split; [done|]. right. split; [done|]. eexists _, _, _.
  split; [done|]. split; [|split_and!].
  - eapply (vm_ok_swap_space s B own p pr to top xs' a m2);
      [done..|unfold top; lia|apply Hm2|].
    intros b Hb E. rewrite in_block_false in E.
    rewrite Ho2 by (intros i [Hi|Hi]; apply E; lia).
    rewrite Ho1 by (intros i Hi; apply E; lia).
    rewrite lookup_map_words. case_match eqn:E2; [|done].
    apply in_block_spec in E2 as (i & Hi & ->). by destruct (E i); [lia|].
  - split_and!; [|done|].
    + simpl. eapply Hc1. intros i Hi. rewrite Hto3 by lia. apply Ho2.
      intros j Hj E. apply word_at_inj in E. lia.
    + cbn [heap heap_capacity set_p_heap set_p_stack_top mem]. apply Hc2.
      intros i Hi. by apply Hto3.
  - simpl. unfold top. lia.
  - done.
  - done.
Qed.
(** A collection that succeeds, taken apart. *)
Lemma gc_collect_inv s s' B own p pr :
  vm_ok s B own → procs s !! p = Some pr → beam_gc_collect_process p s = Some (BEAM_OK, s') →
  ∃ to xs t1 m1 t2 m2 a,
    fresh_block B to (WORD * heap_capacity pr) ∧
    gc_copy_regs to (heap_capacity pr) (x_regs (frame pr)) 0
      (map_words (mem s) to (Z.to_nat (heap_capacity pr))) = Some (xs, t1, m1) ∧
    gc_copy_stack (Z.to_nat (heap_capacity pr - stack_top pr)) (heap pr) (heap_capacity pr)
      to (heap_capacity pr) (stack_top pr) t1 m1 = Some (t2, m2) ∧
    s' = put_proc p (set_p_stack_top (stack_top pr) (set_p_heap to (heap_capacity pr) t2
                       (set_p_frame (set_fr_x_regs xs (frame pr)) pr)))
           (Vm a (unmap_words m2 (heap pr) (Z.to_nat (heap_capacity pr))) (procs s) (mboxes s)).
Proof.
  intros Hok Hp Hgc. pose proof Hok as [Hrep Ho Hpr Hmb].
  destruct (Hpr _ _ Hp) as (Hnn & Hpo & _).
  pose proof (vm_ok_heap_nonnull _ _ _ _ _ Hok Hp) as Hh.
  pose proof (vm_ok_heap_cap _ _ _ _ _ Hok Hp) as Hc. pose proof (po_stack _ Hpo) as Hps.
  unfold beam_gc_collect_process in Hgc. destruct (Z.eqb_spec p NULL); [done|]. rewrite Hp in Hgc.
  cbn [mbind option_bind] in Hgc. destruct (Z.eqb_spec (heap pr) NULL); [done|].
  unfold words_bytes in Hgc. rewrite (u64_small (WORD * _)) in Hgc by (unfold is_u64, WORD; lia).
  replace (WORD * heap_capacity pr / WORD) with (heap_capacity pr) in Hgc
    by (rewrite Z.mul_comm, Z.div_mul; done).
  destruct (al_alloc (alc s) (WORD * heap_capacity pr)) as [to a] eqn:Ea.
  destruct (Z.eqb_spec to NULL); [done|].
  assert (alloc_size (WORD * heap_capacity pr)) as Hsz by (unfold alloc_size, WORD; lia).
  destruct (al_alloc_spec _ _ _ _ _ Hrep Hsz Ea) as [[-> _]|[Hf _]]; [done|].
  apply bind_Some in Hgc as ([[xs t1] m1] & E1 & Hgc). apply bind_Some in Hgc as ([t2 m2] & E2 & Hgc).
  rewrite (u64_small (heap_capacity pr - stack_top pr)), u64_small in Hgc by (unfold is_u64; lia).
  replace (heap_capacity pr - (heap_capacity pr - stack_top pr)) with (stack_top pr) in Hgc by lia.
  simplify_eq. by exists to, xs, t1, m1, t2, m2, (al_free a (heap pr)).
Qed.
End Collect.
