(* ===== verification/GcProps.v ===== *)
(** What a collection keeps and what it loses (src/memory/beam_gc.c). *)
From S2P Require Import Prelude Memory Term Alloc LinkedList Mailbox Process ProcessInv Gc.
From S2P Require Import Demo.
From stdpp Require Import options.

(** C8: A collection keeps the terms of the process: when its registers and
    stack hold immediates and lists within its own heap and there is room to
    copy them without sharing, the collection either fails for lack of memory
    and changes nothing, or moves the terms to a heap block of the same size in
    which every register and every stack slot denotes the same term as before,
    with exactly the copied words in use, the stack as deep as it was, every
    other process untouched and the machine well formed. *)
Theorem gc_preserves_terms {A} `{AllocSpec A} (s : vm A) B own p pr regs stack :
  vm_ok s B own → procs s !! p = Some pr → roots (mem s) pr regs stack →
  2 * Z.of_nat (sum_cells regs + sum_cells stack) <= stack_top pr →
  ∃ r s', beam_gc_collect_process p s = Some (r, s') ∧
    ((r = BEAM_ERR_NO_MEMORY ∧ procs s' = procs s ∧ mem s' = mem s ∧ vm_ok s' B own) ∨
     (r = BEAM_OK ∧ ∃ pr' B' own', procs s' = <[p := pr']> (procs s) ∧ vm_ok s' B' own' ∧
        roots (mem s') pr' regs stack ∧
        heap_top pr' = 2 * Z.of_nat (sum_cells regs + sum_cells stack) ∧
        stack_top pr' = stack_top pr ∧ heap_capacity pr' = heap_capacity pr)).
Proof. apply gc_collect_ok. Qed.

(** ** Tuples *)

(** A small integer is never the header of a tuple. *)
Lemma small_int_not_tuple n : (make_small_int n .& 0x3F =? SUBTAG_TUPLE) = false.
Proof.
  rewrite make_small_int_eq, land_63. apply Z.eqb_neq. change SUBTAG_TUPLE with 0. unfold u64.
  Z.to_euclidean_division_equations; lia.
Qed.

Section Roots.
Context (to cap : Z).
Hypothesis Hto : 0 < to ∧ aligned to ∧ to + WORD * cap <= ADDR_LIMIT.
Hypothesis Hcap : 0 <= cap < 2 ^ 44.

(** What the root loops leave alone, whatever the roots are. *)
Lemma gc_copy_regs_bounds xs top m xs' top' m' :
  0 <= top <= cap → words_u64 m → Forall is_u64 xs →
  gc_copy_regs to cap xs top m = Some (xs', top', m') →
  top <= top' <= cap ∧ words_u64 m' ∧ same_outside to top top' m m'.
Proof using Hto Hcap.
  intros Ht Hm Hxs. revert top m xs' Ht Hm.
  induction Hxs as [|x xs Hx _ IH]; intros top m xs' Ht Hm Hc; cbn [gc_copy_regs] in Hc.
  - simplify_eq. split_and!; [lia..|done|apply same_outside_refl].
  - apply bind_Some in Hc as ([[c t1] m1] & H1 & Hc).
    apply bind_Some in Hc as ([[ys t2] m2] & H2 & Hc). simplify_eq.
    assert (top <= t1 <= cap ∧ words_u64 m1 ∧ same_outside to top t1 m m1) as (Ht1 & Hm1 & Ho1).
    { destruct (negb (x =? 0)).
      - by destruct (gc_copy_term_bounds to cap Hto Hcap _ _ _ _ _ _ _ Ht Hm Hx H1) as (? & _ & ?).
      - simplify_eq. split_and!; [lia..|done|apply same_outside_refl]. }
    destruct (IH t1 m1 ys) as (Ht2 & Hm2 & Ho2); [lia|done|done|].
    split_and!; [lia..|done|]. eapply same_outside_trans; [exact Ho1|exact Ho2|lia|lia].
Qed.

Lemma gc_copy_regs_split xs i w top m xs' top' m' :
  gc_copy_regs to cap xs top m = Some (xs', top', m') → xs !! i = Some w → w ≠ 0 →
  ∃ ys t1 m1 c t2 m2 zs,
    gc_copy_regs to cap (take i xs) top m = Some (ys, t1, m1) ∧
    gc_copy_term (gc_fuel cap) to cap w t1 m1 = Some (c, t2, m2) ∧
    gc_copy_regs to cap (drop (S i) xs) t2 m2 = Some (zs, top', m') ∧ xs' !! i = Some c.
Proof using.
  revert i top m xs'. induction xs as [|x xs IH]; intros i top m xs' Hc Hi Hw; [done|].
  cbn [gc_copy_regs] in Hc. apply bind_Some in Hc as ([[c t1] m1] & H1 & Hc).
  apply bind_Some in Hc as ([[ys t2] m2] & H2 & Hc). simplify_eq. destruct i as [|i]; simpl in Hi.
  - simplify_eq. destruct (Z.eqb_spec w 0) as [|_]; [done|]. by exists [], top, m, c, t1, m1, ys.
  - destruct (IH i t1 m1 ys H2 Hi Hw) as (ys' & t3 & m3 & c' & t4 & m4 & zs & E1 & E2 & E3 & E4).
    exists (c :: ys'), t3, m3, c', t4, m4, zs. split_and!; [|done..].
    cbn [take gc_copy_regs]. rewrite H1. cbn [mbind option_bind]. by rewrite E1.
Qed.

Lemma gc_copy_stack_bounds h n s top m top' m' :
  0 <= top <= cap → words_u64 m → 0 <= s → s + Z.of_nat n = cap →
  gc_copy_stack n h cap to cap s top m = Some (top', m') →
  top <= top' <= cap ∧ words_u64 m' ∧
  ∀ a, (∀ i, top <= i < top' ∨ s <= i < cap → a ≠ word_at to i) → m' !! a = m !! a.
Proof using Hto Hcap.
  revert s top m. induction n as [|n IH]; intros s top m Ht Hm Hs Hn Hc; cbn [gc_copy_stack] in Hc.
  - simplify_eq. split_and!; [lia..|done|done].
  - apply bind_Some in Hc as (w & Hw & Hc). apply bind_Some in Hc as ([[c t1] m1] & H1 & Hc).
    apply bind_Some in Hc as (m2 & H2 & Hc).
    rewrite (u64_small (cap - s)), u64_small in H2 by (unfold is_u64; lia).
    replace (cap - (cap - s)) with s in H2 by lia.
    destruct (gc_copy_term_bounds to cap Hto Hcap _ _ _ _ _ _ _ Ht Hm (Hm _ _ Hw) H1)
      as (Ht1 & Hcu & Hm1 & Ho1).
    destruct (IH (s + 1) t1 m2) as (Ht2 & Hm2 & Ho2);
      [lia|by eapply words_u64_store|lia|lia|done|].
    split_and!; [lia..|done|]. intros a Ha. rewrite Ho2 by (intros i Hi; apply Ha; lia).
    apply store_Some in H2 as [_ ->]. rewrite lookup_insert_ne by (intros <-; apply (Ha s); [lia|done]).
    apply Ho1. intros i Hi. apply Ha. lia.
Qed.

(** The header the collector writes for a tuple: the arity as a small integer,
    where [beam_is_tuple] expects it shifted over the sub-tag. *)
Lemma gc_copy_tuple_header fuel w top m c top' m' n :
  words_u64 m → 0 <= top <= cap → beam_is_tuple m w = Some true → gc_immediate w = false →
  beam_tuple_arity m w = Some n → gc_copy_term fuel to cap w top m = Some (c, top', m') →
  (c = w ∧ top' = top ∧ m' = m) ∨
  (c = tag_ptr (word_at to top) TAG_PRIMARY_BOXED ∧ top < top' ∧
   load m' (word_at to top) = Some (make_small_int n)).
Proof using Hto Hcap.
  intros Hm Htop Ht Hi Hn Hc. rewrite gc_copy_term_eq, Hi, Ht in Hc. cbn [mbind option_bind] in Hc.
  rewrite Hn in Hc. cbn [mbind option_bind] in Hc. pose proof (tuple_arity_range _ _ _ Hm Hn) as Hr.
  destruct (_ >? cap) eqn:Eroom; [left; by simplify_eq|right]. destruct fuel as [|fuel]; [done|].
  apply bind_Some in Hc as (m1 & Hs & Hc). apply bind_Some in Hc as ([t2 m2] & He & Hc).
  simplify_eq. rewrite Z.gtb_ltb, Z.ltb_ge in Eroom.
  rewrite (u64_small (n + 1)) in He, Eroom by (unfold is_u64; lia).
  rewrite (u64_small (top + (n + 1))) in He, Eroom by (unfold is_u64; lia).
  assert (words_u64 m1) as Hm1 by (eapply words_u64_store; [done| |done]; apply make_small_int_is_u64).
  destruct (gc_copy_elems_bounds to cap fuel w top (Z.to_nat n) 0 (top + (n + 1)) m1 top' m')
    as (Ht2 & _ & Ho); [by apply gc_copy_term_bounds|lia|lia|lia|done|done|].
  split_and!; [done|lia|]. apply load_store_eq in Hs.
  replace (s64 n) with n in Hs by (symmetry; apply s64_small; unfold is_s64; lia).
  rewrite <-Hs. unfold load. rewrite Ho; [done|]. intros i Hin E. apply word_at_inj in E. lia.
Qed.
End Roots.

(** Such a header makes the term boxed but no tuple. *)
Lemma small_int_header m w n :
  w .& 0x03 = TAG_PRIMARY_BOXED → untag w ≠ NULL → load m (untag w) = Some (make_small_int n) →
  beam_is_tuple m w = Some false ∧ beam_tuple_arity m w = Some 0.
Proof.
  intros Ht Hn Hl. assert (beam_is_tuple m w = Some false) as E.
  { unfold beam_is_tuple, boxed_header. rewrite Ht. change (negb (_ =? _)) with false. cbn iota.
    destruct (Z.eqb_spec (untag w) NULL); [done|]. rewrite Hl. cbn [mbind option_bind].
    by rewrite small_int_not_tuple. }
  split; [done|]. unfold beam_tuple_arity. by rewrite E.
Qed.

Lemma tuple_boxed m w :
  beam_is_tuple m w = Some true → w .& 0x03 = TAG_PRIMARY_BOXED ∧ untag w ≠ NULL ∧ w ≠ 0 ∧
  gc_immediate w = false.
Proof.
  unfold beam_is_tuple, boxed_header. destruct (Z.eqb_spec (w .& 0x03) TAG_PRIMARY_BOXED) as [E|];
    [|done]. cbn [negb]. destruct (Z.eqb_spec (untag w) NULL); [done|]. intros _.
  split_and!; [done|done|by intros ->|].
  unfold gc_immediate, beam_is_small_int, beam_is_atom, beam_is_nil.
  rewrite land_3 in E. rewrite !land_15.
  destruct (Z.eqb_spec (w mod 16) TAG_IMMED1_SMALL_INT) as [E1|_];
    [|destruct (Z.eqb_spec (w mod 16) TAG_IMMED1_ATOM) as [E2|_];
      [|destruct (Z.eqb_spec w ETERM_NIL) as [E3|_]; [|done]]]; exfalso;
    [change TAG_IMMED1_SMALL_INT with 3 in E1|change TAG_IMMED1_ATOM with 11 in E2|
     rewrite E3 in E; discriminate E];
    change TAG_PRIMARY_BOXED with 2 in E; Z.to_euclidean_division_equations; lia.
Qed.

(** A tuple predicate reads the header only. *)
Lemma tuple_same_header m m' w :
  m' !! untag w = m !! untag w → beam_is_tuple m' w = beam_is_tuple m w ∧
    beam_tuple_arity m' w = beam_tuple_arity m w.
Proof.
  intros E. assert (load m' (untag w) = load m (untag w)) as El by (unfold load; by rewrite E).
  assert (beam_is_tuple m' w = beam_is_tuple m w) as Et
    by (unfold beam_is_tuple, boxed_header; by rewrite El).
  split; [done|]. unfold beam_tuple_arity. by rewrite Et, El.
Qed.

(** C31: A collection loses every tuple that a register holds in the heap of the
    process.  Where there was no room to copy it, the register still points into
    the heap that has been freed, and to look at the term is undefined.  Where
    it was copied, the register holds a boxed pointer into the new heap, to a
    header that is the arity as a small integer, which is no tuple header:
    [beam_is_tuple] is false of the term and its arity reads as zero.  (The
    copied terms are assumed to stay below the stack.) *)
Theorem gc_loses_tuples {A} `{AllocSpec A} (s s' : vm A) B own p pr pr' i w j n :
  vm_ok s B own → procs s !! p = Some pr →
  words_u64 (mem s) → Forall is_u64 (x_regs (frame pr)) →
  x_regs (frame pr) !! i = Some w → untag w = word_at (heap pr) j → 0 <= j < heap_capacity pr →
  beam_is_tuple (mem s) w = Some true → beam_tuple_arity (mem s) w = Some n →
  beam_gc_collect_process p s = Some (BEAM_OK, s') →
  procs s' !! p = Some pr' → heap_top pr' <= stack_top pr' →
  ∃ w', x_regs (frame pr') !! i = Some w' ∧
    ((w' = w ∧ beam_is_tuple (mem s') w' = None) ∨
     (w' .& 0x03 = TAG_PRIMARY_BOXED ∧
      (∃ k, 0 <= k < heap_top pr' ∧ untag w' = word_at (heap pr') k) ∧
      load (mem s') (untag w') = Some (make_small_int n) ∧
      beam_is_tuple (mem s') w' = Some false ∧ beam_tuple_arity (mem s') w' = Some 0)).
Proof.
  intros Hok Hp Hmu Hxu Hi Hw Hj Ht Hn Hgc Hp' Hfit. pose proof Hok as [Hrep Ho Hpr Hmb].
  destruct (Hpr _ _ Hp) as (Hnn & Hpo & (HB & Hown & _) & _).
  pose proof (vm_ok_heap_cap _ _ _ _ _ Hok Hp) as Hc. pose proof (po_stack _ Hpo) as Hps.
  destruct (tuple_boxed _ _ Ht) as (Htag & Hun & Hw0 & Him).
  destruct (gc_collect_inv s s' B own p pr Hok Hp Hgc) as
    (to & xs' & t1 & m1 & t2 & m2 & a & Hf & Hregs & Hstk & ->).
  unfold put_proc in *. cbn [procs mem] in *.
  rewrite lookup_insert_eq in Hp'. simplify_eq.
  cbn [heap_top stack_top heap heap_capacity frame x_regs mem
       set_p_heap set_p_stack_top set_p_frame set_fr_x_regs] in *.
  set (cap := heap_capacity pr) in *. set (h := heap pr) in *.
  assert (Htoblk : 0 < to ∧ aligned to ∧ to + WORD * cap <= ADDR_LIMIT)
    by (destruct Hf as (? & ? & ? & _); done).
  assert (Hcap : 0 <= cap < 2 ^ 44) by lia.
  assert (Hold : ∀ k, 0 <= k < cap → untag w ≠ word_at to k).
  { intros k Hk E. rewrite Hw in E. by eapply (to_space_disjoint B h to cap k j). }
  destruct (gc_copy_regs_split to cap _ _ _ _ _ _ _ _ Hregs Hi Hw0)
    as (ys & u1 & n1 & c & u2 & n2 & zs & E1 & E2 & E3 & E4). exists c. split; [done|].
  destruct (gc_copy_regs_bounds to cap Htoblk Hcap (take i (x_regs (frame pr))) 0
    (map_words (mem s) to (Z.to_nat cap)) ys u1 n1) as (Hu1 & Hn1 & Ho1);
    [lia|by apply words_u64_map|by apply Forall_take|exact E1|].
  destruct (tuple_same_header (mem s) n1 w) as [Et En].
  { rewrite Ho1 by (intros k Hk; apply Hold; lia). rewrite lookup_map_words, Z2Nat.id by lia.
    case_match eqn:Eb; [|done]. apply in_block_spec in Eb as (k & Hk & Eb). by apply Hold in Eb. }
  assert (Hwu : is_u64 w) by (by eapply Forall_lookup_1 in Hxu).
  destruct (gc_copy_term_bounds to cap Htoblk Hcap (gc_fuel cap) w u1 n1 c u2 n2) as (Hu2 & _ & Hn2 & _);
    [lia|done|done|done|].
  destruct (gc_copy_regs_bounds to cap Htoblk Hcap (drop (S i) (x_regs (frame pr))) u2 n2 zs t1 m1) as (Ht1 & Hm1 & Ho3);
    [lia|done|by apply Forall_drop|exact E3|].
  destruct (gc_copy_stack_bounds to cap Htoblk Hcap h (Z.to_nat (cap - stack_top pr)) (stack_top pr) t1 m1 t2 m2)
    as (Ht2 & _ & Ho4); [lia|done|lia|lia|exact Hstk|].
  destruct (gc_copy_tuple_header to cap Htoblk Hcap (gc_fuel cap) w u1 n1 c u2 n2 n Hn1)
    as [(-> & _ & _)|(-> & Hlt & Hl)]; [lia|congruence|done|congruence|exact E2| |].
  - left. split; [done|]. unfold beam_is_tuple, boxed_header. rewrite Htag. cbn [negb].
    destruct (Z.eqb_spec (untag w) NULL); [done|]. unfold load.
    rewrite lookup_unmap_words, Z2Nat.id by lia. destruct (in_block _ _ _) eqn:Eb; [done|].
    rewrite in_block_false in Eb. by destruct (Eb j).
  - right. set (x := tag_ptr (word_at to u1) TAG_PRIMARY_BOXED).
    assert (Hxt : x .& 0x03 = TAG_PRIMARY_BOXED) by (apply tag_of_tag_ptr; [apply word_at_aligned, Htoblk|done]).
    assert (Hxp : untag x = word_at to u1) by (apply untag_tag_ptr; [apply word_at_aligned, Htoblk|done]).
    assert (Hload : load (unmap_words m2 h (Z.to_nat cap)) (untag x) = Some (make_small_int n)).
    { rewrite <-Hl, Hxp. unfold load. rewrite lookup_unmap_words, Z2Nat.id by lia.
      rewrite (proj2 (in_block_false h cap _)).
      - rewrite Ho4, Ho3; [done|intros k Hk E; apply word_at_inj in E; lia..].
      - intros k Hk. by apply (to_space_disjoint B h to cap u1 k); [..|lia|]. }
    split_and!; [done| |done|..].
    + exists u1. split; [lia|done].
    + eapply small_int_header; [done| |done]. rewrite Hxp. unfold NULL, word_at, WORD. lia.
    + eapply small_int_header; [done| |done]. rewrite Hxp. unfold NULL, word_at, WORD. lia.
Qed.

(** ** Examples *)

(** A process with the list of one small integer in its first register. *)
Definition demo_list : Z := tag_ptr demo_heap TAG_PRIMARY_LIST.
Definition demo_list_mem : memory :=
  <[demo_heap := Word 19]> (<[demo_heap + 8 := Word ETERM_NIL]> (mem demo_vm)).
Definition demo_list_pr : beam_process :=
  set_p_frame (set_fr_x_regs (<[0%nat := demo_list]> (x_regs (frame demo_pr))) (frame demo_pr))
    (set_p_heap demo_heap 16 2 demo_pr).
Definition demo_list_vm : vm bump_heap :=
  put_proc demo_p demo_list_pr (set_mem demo_list_mem demo_vm).
Definition demo_regs : list tm := TCons (TImm 19) (TImm ETERM_NIL) :: replicate 255 (TImm 0).

Lemma demo_list_ok : ∃ B own, vm_ok demo_list_vm B own.
Proof.
  destruct demo_vm_ok as (B & own & Hok). exists B, own.
  eapply (vm_ok_put_proc _ _ _ _ demo_pr); [|exact demo_vm_proc| |done..].
  - apply vm_ok_set_mem; [done|]. intros a Ha. unfold demo_list_mem.
    apply lookup_insert_is_Some'. right. by apply lookup_insert_is_Some'; right.
  - destruct (vo_proc _ _ _ Hok _ _ demo_vm_proc) as (_ & [] & _). split; done.
Qed.

Lemma demo_list_roots : roots (mem demo_list_vm) demo_list_pr demo_regs [].
Proof.
  split; [|split; [done|by intros i t Hi]].
  change (x_regs (frame demo_list_pr)) with (demo_list :: replicate 255 0).
  constructor; [|apply Forall2_replicate; constructor; by split].
  apply (den_cons _ demo_heap 19 ETERM_NIL); [done|done|by vm_compute|by vm_compute|..];
    constructor; by split.
Qed.

Lemma gc_preserves_terms_witness :
  ∃ s' pr', beam_gc_collect_process demo_p demo_list_vm = Some (BEAM_OK, s') ∧
    procs s' !! demo_p = Some pr' ∧ roots (mem s') pr' demo_regs [] ∧ heap_top pr' = 2.
Proof.
  destruct demo_list_ok as (B & own & Hok).
  destruct (gc_preserves_terms demo_list_vm B own demo_p demo_list_pr demo_regs [] Hok)
    as (r & s' & E & [(-> & _)|(-> & pr' & B' & own' & Ep & _ & Hr & Ht & _)]);
    [apply lookup_insert_eq|exact demo_list_roots|by vm_compute|by vm_compute in E|].
  exists s', pr'. split; [exact E|]. split; [rewrite Ep; apply lookup_insert_eq|].
  split; [exact Hr|]. rewrite Ht. by vm_compute.
Defined.

(** A process with a tuple of the integers 100 and 200 in its first register. *)
Definition demo_tuple : Z := tag_ptr demo_heap TAG_PRIMARY_BOXED.
Definition demo_tuple_mem : memory :=
  <[demo_heap := Word (tuple_header 2)]> (<[demo_heap + 8 := Word (make_small_int 100)]>
    (<[demo_heap + 16 := Word (make_small_int 200)]> (mem demo_vm))).
Definition demo_tuple_pr : beam_process :=
  set_p_frame (set_fr_x_regs (<[0%nat := demo_tuple]> (x_regs (frame demo_pr))) (frame demo_pr))
    (set_p_heap demo_heap 16 3 demo_pr).
Definition demo_tuple_vm : vm bump_heap :=
  put_proc demo_p demo_tuple_pr (set_mem demo_tuple_mem demo_vm).

Lemma demo_tuple_ok : ∃ B own, vm_ok demo_tuple_vm B own.
Proof.
  destruct demo_vm_ok as (B & own & Hok). exists B, own.
  eapply (vm_ok_put_proc _ _ _ _ demo_pr); [|exact demo_vm_proc| |done..].
  - apply vm_ok_set_mem; [done|]. intros a Ha. unfold demo_tuple_mem.
    by do 3 (apply lookup_insert_is_Some'; right).
  - destruct (vo_proc _ _ _ Hok _ _ demo_vm_proc) as (_ & [] & _). split; done.
Qed.

Lemma demo_tuple_words : words_u64 (mem demo_tuple_vm).
Proof.
  assert (map_Forall (λ _ c, ∀ w, c = Word w → is_u64 w) (mem demo_tuple_vm)) as Hall.
  { apply map_Forall_to_list. apply Forall_forall. intros x Hx.
    assert (forallb (λ x : Z * cell, match x.2 with Word w => (0 <=? w) && (w <? 2 ^ 64) | _ => true end)
      (map_to_list (mem demo_tuple_vm)) = true) as Hb by by vm_compute.
    rewrite forallb_forall in Hb. apply list_elem_of_In in Hx. specialize (Hb x Hx).
    destruct x as [a c]. intros w ->. cbn in Hb. unfold is_u64. lia. }
  intros a w Hw%load_Some. by apply (Hall a _ Hw).
Qed.

Lemma gc_loses_tuples_witness :
  ∃ s' pr' w', beam_gc_collect_process demo_p demo_tuple_vm = Some (BEAM_OK, s') ∧
    beam_is_tuple (mem demo_tuple_vm) demo_tuple = Some true ∧
    procs s' !! demo_p = Some pr' ∧ x_regs (frame pr') !! 0%nat = Some w' ∧
    beam_is_tuple (mem s') w' ≠ Some true.
Proof.
  destruct demo_tuple_ok as (B & own & Hok).
  assert ((λ x : beam_result_t * vm bump_heap, (x.1,
      (λ pr, heap_top pr <=? stack_top pr) <$> procs x.2 !! demo_p)) <$>
    beam_gc_collect_process demo_p demo_tuple_vm = Some (BEAM_OK, Some true)) as Hr by by vm_compute.
  destruct (beam_gc_collect_process demo_p demo_tuple_vm) as [[r s']|] eqn:E; [|discriminate Hr].
  cbn in Hr. injection Hr as -> Hr. destruct (procs s' !! demo_p) as [pr'|] eqn:Hp; [|discriminate Hr].
  cbn in Hr. injection Hr as Hr.
  destruct (gc_loses_tuples demo_tuple_vm s' B own demo_p demo_tuple_pr pr' 0 demo_tuple 0 2
    Hok (lookup_insert_eq _ _ _) demo_tuple_words) as (w' & Hw & Hcase);
    [by repeat constructor|done|by vm_compute|done|by vm_compute|by vm_compute|done|done|lia|].
  exists s', pr', w'. split_and!; [done|by vm_compute|done|done|].
  destruct Hcase as [(_ & ->)|(_ & _ & _ & -> & _)]; discriminate.
Defined.
