(* ===== verification/Decode.v ===== *)
(** The bytecode decoder: src/emulator/beam_decode.c and the arity table of
    src/emulator/beam_opcodes_arity.h.
    The decoder walks a byte array with a pointer [p] and a limit [end]; both
    are indices here, and a read outside the array is undefined behaviour.  For the
    round trip, [insn] is an assembly language with its own encoder and its own
    statement of what each instruction means. *)
From S2P Require Import Prelude Memory Term Alloc LinkedList Mailbox Process Bif Emu.
From stdpp Require Import options.

(** ** Bytes *)

(** [ptr[0..3]], most significant byte first. *)
Definition read_u32_be (buf : list Z) (p : Z) : option Z :=
  b0 ← array_get buf p;
  b1 ← array_get buf (p + 1);
  b2 ← array_get buf (p + 2);
  b3 ← array_get buf (p + 3);
  Some ((((b0 .<< 24) .| (b1 .<< 16)) .| (b2 .<< 8)) .| b3).

(** ** Operands *)

(** [for (i = 0; i < len; i++) { if (p >= end) break; val = (val << 8) | *p++; }] *)
Fixpoint read_val (len : nat) (buf : list Z) (lim p val : Z) : option (Z * Z) :=
  match len with
  | O => Some (val, p)
  | S len' =>
      if p >=? lim then Some (val, p)
      else c ← array_get buf p; read_val len' buf lim (p + 1) (u32 (val .<< 8) .| c)
  end.

(** The final [switch] on the tag. *)
Definition tag_arg (tag val : Z) : Z :=
  if (tag =? 0) || (tag =? 1) || (tag =? 6) then make_small_int val
  else if tag =? 2 then u32 (val .<< 4) .| TAG_IMMED1_ATOM
  else val.

(** The operand and the new [*ptr].  Every nesting level of a length consumes
    a byte, so [end - p] levels of fuel are enough. *)
Fixpoint decode_arg (fuel : nat) (buf : list Z) (lim p : Z) : option (Z * Z) :=
  if p >=? lim then Some (0, p)
  else
    match fuel with
    | O => None
    | S fuel' =>
        b ← array_get buf p;
        let tag := b .& 0x07 in
        if b .& 0x08 =? 0 then Some (tag_arg tag (b .>> 4), p + 1)
        else if b .& 0x10 =? 0 then
          if p + 1 >=? lim then Some (0, p)
          else
            c ← array_get buf (p + 1);
            Some (tag_arg tag (((b .>> 5) .<< 8) .| c), p + 2)
        else
          '(len, q) ← (if b .>> 5 <? 7 then Some ((b .>> 5) + 2, p + 1)
                       else
                         '(len_term, nested) ← decode_arg fuel' buf lim (p + 1);
                         Some (u32 (eterm_to_small_int len_term), nested));
          let len := if len >? 1024 then 1024 else len in
          '(val, q) ← read_val (Z.to_nat len) buf lim q 0;
          Some (tag_arg tag val, q)
    end.

Definition arg_fuel (lim p : Z) : nat := Z.to_nat (lim - p).

(** ** Instructions *)

Definition beam_opcode_arities : list nat :=
  [ 0; 1; 3; 0; 2; 3; 2; 2; 3; 2; 4; 5; 2; 3; 2; 3;
    2; 1; 1; 0; 0; 0; 0; 2; 1; 1; 2; 4; 4; 4; 4; 4;
    4; 4; 4; 4; 4; 4; 3; 3; 3; 3; 3; 3; 3; 2; 2; 2;
    2; 2; 2; 2; 2; 2; 2; 2; 2; 2; 3; 3; 3; 1; 2; 1;
    2; 3; 3; 3; 3; 3; 2; 1; 1; 0; 1; 1; 3; 2; 2; 2;
    5; 5; 5; 4; 2; 1; 1; 2; 2; 5; 5; 5; 2; 1; 0; 1;
    2; 2; 4; 4; 4; 4; 3; 1; 2; 1; 1; 1; 2; 6; 3; 5;
    1; 2; 2; 3; 5; 7; 7; 7; 5; 3; 2; 2; 5; 6; 2; 2;
    2; 2; 1; 3; 4; 0; 8; 6; 2; 6; 5; 4; 5; 4; 5; 4;
    3; 3; 3; 3; 3; 0; 1; 1; 7; 1; 5; 5; 2; 3; 3; 4;
    0; 0; 2; 2; 2; 3; 4; 3; 2; 2; 4; 3; 1; 2; 1; 1;
    1; 6; 3; 0; 1; 5; 3; 2; 4; 6; 2; 4; 3; 6; 3; 5 ]%nat
  ++ replicate 64 0%nat.

(** The cases of the [switch]: the value stored in [opcode], and how many of
    [arg1], [arg2], [arg3] are decoded, in that order. *)
Definition decode_case (opcode : Z) : option (Z * nat) :=
  match opcode with
  | 1 => Some (opcode_value BEAM_OP_LABEL, 1%nat)
  | 64 => Some (opcode_value BEAM_OP_MOVE, 2%nat)
  | 4 => Some (opcode_value BEAM_OP_CALL, 2%nat)
  | 19 => Some (opcode_value BEAM_OP_RETURN, 0%nat)
  | 153 => Some (153, 1%nat)
  | 2 => Some (2, 3%nat)
  | 3 => Some (3, 0%nat)
  | 16 => Some (16, 2%nat)
  | 69 => Some (opcode_value BEAM_OP_GET_LIST, 3%nat)
  | 78 => Some (opcode_value BEAM_OP_SELECT_VAL, 3%nat)
  | 62 => Some (opcode_value BEAM_OP_CATCH, 2%nat)
  | 63 => Some (opcode_value BEAM_OP_TRY_END, 1%nat)
  | 104 => Some (opcode_value BEAM_OP_TRY, 2%nat)
  | 105 => Some (opcode_value BEAM_OP_TRY_END, 1%nat)
  | 106 => Some (opcode_value BEAM_OP_TRY_CASE, 1%nat)
  | 107 => Some (opcode_value BEAM_OP_TRY_CASE_END, 1%nat)
  | 108 => Some (opcode_value BEAM_OP_RAISE, 2%nat)
  | 161 => Some (opcode_value BEAM_OP_RAISE, 0%nat)
  | _ => None
  end.

(** [n] calls of [decode_arg], and the values they return. *)
Fixpoint decode_args (n : nat) (buf : list Z) (lim p : Z) : option (list Z * Z) :=
  match n with
  | O => Some ([], p)
  | S n' =>
      '(x, p) ← decode_arg (arg_fuel lim p) buf lim p;
      '(xs, p) ← decode_args n' buf lim p;
      Some (x :: xs, p)
  end.

(** The instruction after [memset] and the assignments; the fields are
    [uint32_t]. *)
Definition decoded (op : Z) (args : list Z) : beam_instruction :=
  {| opcode := op; arg1 := u32 (nth 0 args 0); arg2 := u32 (nth 1 args 0);
     arg3 := u32 (nth 2 args 0); literal := 0; target_proc := NULL;
     extra_args := None; extra_count := 0 |}.

(** The body of the loop after [opcode = *p++]. *)
Definition decode_instr (buf : list Z) (lim opcode p : Z) : option (beam_instruction * Z) :=
  match decode_case opcode with
  | Some (op, n) => '(args, p) ← decode_args n buf lim p; Some (decoded op args, p)
  | None =>
      arity ← array_get beam_opcode_arities opcode;
      '(_, p) ← decode_args arity buf lim p;
      Some (decoded 0 [], p)
  end.

(** [while (p < end)]; [instrs] are the [i] instructions written so far into an
    array with room for [cap]. *)
Fixpoint decode_loop (fuel : nat) (buf : list Z) (lim cap p safety_counter : Z)
    (instrs : list beam_instruction) : option (list beam_instruction) :=
  if p <? lim then
    if safety_counter >? 100000 then Some instrs
    else
      match fuel with
      | O => None
      | S fuel' =>
          opcode ← array_get buf p;
          if Z.of_nat (length instrs) >=? cap then None
          else
            '(i, p) ← decode_instr buf lim opcode (p + 1);
            decode_loop fuel' buf lim cap p (safety_counter + 1) (instrs ++ [i])
      end
  else Some instrs.

Definition sizeof_beam_instruction : Z := 48.

(** The instruction array with its address, [None] for NULL; [*out_count] is
    its length.  [code_chunk] is [None] for NULL; the first pass, which reads
    the chunk without using it, is left out. *)
Definition beam_decode_code_chunk {A} `{AllocOps A} (code_chunk : option (list Z))
    (chunk_len : Z) (a : A) : option (option (Z * list beam_instruction) * A) :=
  match code_chunk with
  | None => Some (None, a)
  | Some buf =>
      if chunk_len <? 20 then Some (None, a)
      else
        sub_size ← read_u32_be buf 0;
        let p := u32 (4 + sub_size) in
        let bytes := u64 (sizeof_beam_instruction * chunk_len) in
        let '(instrs, a) := al_alloc a bytes in
        if instrs =? NULL then Some (None, a)
        else
          l ← decode_loop (arg_fuel chunk_len p) buf chunk_len
                (bytes / sizeof_beam_instruction) p 0 [];
          Some (Some (instrs, l), a)
  end.

(** ** The decoder stays inside the chunk *)

Definition bytes_ok (buf : list Z) : Prop := Forall (λ b, 0 <= b < 256) buf.

Lemma bytes_get buf p :
  bytes_ok buf → 0 <= p < Z.of_nat (length buf) → ∃ b, array_get buf p = Some b ∧ 0 <= b < 256.
Proof.
  intros Hb Hp. destruct (array_get_Some buf p Hp) as [b E]. exists b. split; [done|].
  unfold array_get in E. case_match; [done|]. by eapply (Forall_lookup_1 _ _ _ _ Hb).
Qed.

Section Bounds.
Context (buf : list Z) (lim : Z).
Hypothesis Hbytes : bytes_ok buf.
Hypothesis Hlim : lim <= Z.of_nat (length buf).

Lemma read_val_total len p val :
  0 <= p → ∃ v q, read_val len buf lim p val = Some (v, q) ∧ p <= q <= Z.max p lim.
Proof using Hbytes Hlim.
  revert p val. induction len as [|len IH]; intros p val Hp; csimpl.
  { exists val, p. split; [done|lia]. }
  rewrite Z.geb_leb. destruct (Z.leb_spec lim p). { exists val, p. split; [done|lia]. }
  destruct (bytes_get buf p Hbytes ltac:(lia)) as (c & -> & _). csimpl.
  destruct (IH (p + 1) (u32 (val .<< 8) .| c) ltac:(lia)) as (v & q & -> & ?).
  exists v, q. split; [done|lia].
Qed.

Lemma decode_arg_total fuel p :
  0 <= p → (Z.to_nat (lim - p) <= fuel)%nat →
  ∃ v q, decode_arg fuel buf lim p = Some (v, q) ∧ p <= q <= Z.max p lim.
Proof using Hbytes Hlim.
  revert p. induction fuel as [|fuel IH]; intros p Hp Hf; csimpl;
    rewrite Z.geb_leb; destruct (Z.leb_spec lim p); try (by exists 0, p; split; [done|lia]).
  { lia. }
  destruct (bytes_get buf p Hbytes ltac:(lia)) as (b & -> & Hb). csimpl.
  destruct (b .& 8 =? 0). { eexists _, _. split; [done|lia]. }
  destruct (b .& 16 =? 0).
  - rewrite Z.geb_leb. destruct (Z.leb_spec lim (p + 1)). { eexists _, _. split; [done|lia]. }
    destruct (bytes_get buf (p + 1) Hbytes ltac:(lia)) as (c & -> & _). csimpl.
    eexists _, _. split; [done|lia].
  - set (M := if b .>> 5 <? 7 then _ else _).
    assert (∃ len q, M = Some (len, q) ∧ p + 1 <= q <= Z.max (p + 1) lim) as (len & q & -> & Hq).
    { subst M. destruct (b .>> 5 <? 7). { eexists _, _. split; [done|lia]. }
      destruct (IH (p + 1) ltac:(lia) ltac:(lia)) as (v & q & -> & ?).
      eexists _, _. split; [done|lia]. }
    csimpl.
    destruct (read_val_total (Z.to_nat (if len >? 1024 then 1024 else len)) q 0 ltac:(lia))
      as (v & r & -> & ?).
    eexists _, _. split; [done|lia].
Qed.

Lemma decode_args_total n p :
  0 <= p → ∃ xs q, decode_args n buf lim p = Some (xs, q) ∧ length xs = n ∧
    p <= q <= Z.max p lim.
Proof using Hbytes Hlim.
  revert p. induction n as [|n IH]; intros p Hp; csimpl. { exists [], p. split_and!; done || lia. }
  destruct (decode_arg_total (arg_fuel lim p) p Hp ltac:(unfold arg_fuel; lia)) as (v & q & -> & ?).
  csimpl. destruct (IH q ltac:(lia)) as (xs & r & -> & ? & ?).
  exists (v :: xs), r. split_and!; simpl; done || lia.
Qed.

Lemma arities_get opcode :
  0 <= opcode < 256 → is_Some (array_get beam_opcode_arities opcode).
Proof. intros. by apply array_get_Some. Qed.

Lemma decode_instr_total opcode p :
  0 <= p → 0 <= opcode < 256 →
  ∃ i q, decode_instr buf lim opcode p = Some (i, q) ∧ p <= q <= Z.max p lim.
Proof using Hbytes Hlim.
  intros Hp Ho. unfold decode_instr. destruct (decode_case opcode) as [[op n]|].
  - destruct (decode_args_total n p Hp) as (xs & q & -> & _ & ?). eexists _, _. by split.
  - destruct (arities_get opcode Ho) as [ar ->]. csimpl.
    destruct (decode_args_total ar p Hp) as (xs & q & -> & _ & ?). eexists _, _. by split.
Qed.

(** Every instruction takes a byte, so an array with one slot per byte left is
    never overrun. *)
Lemma decode_loop_total fuel cap p n instrs :
  0 <= p → (Z.to_nat (lim - p) <= fuel)%nat → 0 <= n →
  Z.of_nat (length instrs) + Z.max 0 (lim - p) <= cap →
  ∃ l, decode_loop fuel buf lim cap p n instrs = Some (instrs ++ l) ∧
    Z.of_nat (length l) <= Z.max 0 (lim - p) ∧ Z.of_nat (length l) <= Z.max 0 (100001 - n).
Proof using Hbytes Hlim.
  revert p n instrs. induction fuel as [|fuel IH]; intros p n instrs Hp Hf Hn Hc; csimpl;
    (destruct (Z.ltb_spec p lim); [|exists []; rewrite app_nil_r; split_and!; simpl; done || lia]);
    rewrite Z.gtb_ltb; (destruct (Z.ltb_spec 100000 n);
      [exists []; rewrite app_nil_r; split_and!; simpl; done || lia|]).
  { lia. }
  destruct (bytes_get buf p Hbytes ltac:(lia)) as (b & -> & Hb). csimpl.
  rewrite Z.geb_leb. destruct (Z.leb_spec cap (Z.of_nat (length instrs))); [lia|].
  destruct (decode_instr_total b (p + 1) ltac:(lia) Hb) as (i & q & -> & Hq). csimpl.
  destruct (IH q (n + 1) (instrs ++ [i])) as (l & -> & ? & ?);
    [lia|lia|lia|rewrite length_app; simpl; lia|].
  exists (i :: l). rewrite <-app_assoc. split_and!; [done|simpl; lia|simpl; lia].
Qed.
End Bounds.

(** ** Round trip with the compact term encoding *)

(** The BEAM file format's encodings of a value of at most 32 bits: 4 bits in
    the tag byte, 11 bits in two bytes, four bytes after the tag byte. *)
Definition u32_bytes (v : Z) : list Z :=
  [v / 2 ^ 24 mod 256; v / 2 ^ 16 mod 256; v / 2 ^ 8 mod 256; v mod 256].

Definition encode_arg (tag v : Z) : list Z :=
  if v <? 16 then [v * 16 + tag]
  else if v <? 2048 then [v / 256 * 32 + 8 + tag; v mod 256]
  else (2 * 32 + 0x18 + tag) :: u32_bytes v.

Lemma encode_arg_pos tag v : (0 < length (encode_arg tag v))%nat.
Proof. unfold encode_arg. repeat case_match; simpl; lia. Qed.

Definition bytes_at (buf : list Z) (p : Z) (bs : list Z) : Prop :=
  ∀ i b, bs !! i = Some b → array_get buf (p + Z.of_nat i) = Some b.

Lemma bytes_at_cons buf p b bs :
  bytes_at buf p (b :: bs) ↔ array_get buf p = Some b ∧ bytes_at buf (p + 1) bs.
Proof.
  unfold bytes_at. split.
  - intros Hat. split; [by rewrite <-(Hat 0%nat b eq_refl), Z.add_0_r|].
    intros i c E. rewrite <-(Hat (S i) c E). f_equal; lia.
  - intros [H1 H2] [|i] c E; simpl in *.
    + simplify_eq. by rewrite Z.add_0_r.
    + rewrite <-(H2 i c E). f_equal; lia.
Qed.

Lemma bytes_at_app buf p bs cs :
  bytes_at buf p (bs ++ cs) ↔
  bytes_at buf p bs ∧ bytes_at buf (p + Z.of_nat (length bs)) cs.
Proof.
  revert p. induction bs as [|b bs IH]; intros p; simpl.
  - rewrite Z.add_0_r. split; [|tauto]. intros. split; [|done]. intros i ? E. by destruct i.
  - rewrite !bytes_at_cons, IH.
    replace (p + Z.of_nat (S (length bs))) with (p + 1 + Z.of_nat (length bs)) by lia. tauto.
Qed.

Lemma bytes_at_here buf (pre bs post : list Z) :
  buf = pre ++ bs ++ post → bytes_at buf (Z.of_nat (length pre)) bs.
Proof.
  intros -> i b E. unfold array_get. destruct (Z.ltb_spec (Z.of_nat (length pre) + Z.of_nat i) 0); [lia|].
  rewrite lookup_app_r; [|lia]. rewrite lookup_app_l.
  - by replace (Z.to_nat _ - length pre)%nat with i by lia.
  - apply lookup_lt_Some in E. lia.
Qed.

Lemma shl8_or v c : 0 <= v < 2 ^ 24 → 0 <= c < 256 → u32 (v .<< 8) .| c = v * 256 + c.
Proof.
  intros Hv Hc. assert (u32 (v .<< 8) = v .<< 8) as ->.
  { apply u32_small. rewrite Z.shiftl_mul_pow2; [|lia]. unfold is_u32. lia. }
  rewrite lor_low; lia.
Qed.

Lemma read_u32_bytes buf lim p v :
  0 <= v < 2 ^ 32 → bytes_at buf p (u32_bytes v) → p + 4 <= lim →
  read_val 4 buf lim p 0 = Some (v, p + 4).
Proof.
  intros Hv Hat Hl. unfold u32_bytes in Hat.
  rewrite !bytes_at_cons in Hat. destruct Hat as (H1 & H2 & H3 & H4 & _).
  cbn [read_val]. rewrite !Z.geb_leb.
  destruct (Z.leb_spec lim p); [lia|]. rewrite H1. cbn [mbind option_bind].
  destruct (Z.leb_spec lim (p + 1)); [lia|]. rewrite H2. cbn [mbind option_bind].
  destruct (Z.leb_spec lim (p + 1 + 1)); [lia|]. rewrite H3. cbn [mbind option_bind].
  destruct (Z.leb_spec lim (p + 1 + 1 + 1)); [lia|]. rewrite H4. cbn [mbind option_bind].
  set (b1 := v / 2 ^ 24 mod 256). set (b2 := v / 2 ^ 16 mod 256).
  set (b3 := v / 2 ^ 8 mod 256). set (b4 := v mod 256).
  assert (v = ((b1 * 256 + b2) * 256 + b3) * 256 + b4 ∧ 0 <= b1 < 256 ∧ 0 <= b2 < 256 ∧
    0 <= b3 < 256 ∧ 0 <= b4 < 256) as (Ev & ? & ? & ? & ?).
  { unfold b1, b2, b3, b4. Z.to_euclidean_division_equations; lia. }
  clearbody b1 b2 b3 b4.
  rewrite (shl8_or 0 b1), (shl8_or (0 * 256 + b1) b2), (shl8_or ((0 * 256 + b1) * 256 + b2) b3),
    (shl8_or (((0 * 256 + b1) * 256 + b2) * 256 + b3) b4) by lia.
  do 2 f_equal; lia.
Qed.

(** The tag byte of each encoding, checked over all its values. *)
Lemma tag_byte_fields :
  (∀ tag v, 0 <= tag < 8 → 0 <= v < 16 → let b := v * 16 + tag in
     b .& 7 = tag ∧ b .& 8 = 0 ∧ b .>> 4 = v) ∧
  (∀ tag h, 0 <= tag < 8 → 0 <= h < 8 → let b := h * 32 + 8 + tag in
     b .& 7 = tag ∧ b .& 8 = 8 ∧ b .& 16 = 0 ∧ b .>> 5 = h) ∧
  (∀ tag, 0 <= tag < 8 → let b := 2 * 32 + 0x18 + tag in
     b .& 7 = tag ∧ b .& 8 = 8 ∧ b .& 16 = 16 ∧ b .>> 5 = 2).
Proof.
  assert (Forall (λ tag,
      Forall (λ v, (v * 16 + tag) .& 7 = tag ∧ (v * 16 + tag) .& 8 = 0 ∧
                   (v * 16 + tag) .>> 4 = v) (seqZ 0 16) ∧
      Forall (λ h, (h * 32 + 8 + tag) .& 7 = tag ∧ (h * 32 + 8 + tag) .& 8 = 8 ∧
                   (h * 32 + 8 + tag) .& 16 = 0 ∧ (h * 32 + 8 + tag) .>> 5 = h) (seqZ 0 8) ∧
      (2 * 32 + 0x18 + tag) .& 7 = tag ∧ (2 * 32 + 0x18 + tag) .& 8 = 8 ∧
      (2 * 32 + 0x18 + tag) .& 16 = 16 ∧ (2 * 32 + 0x18 + tag) .>> 5 = 2) (seqZ 0 8)) as Hall.
  { refine (bool_decide_unpack _ _). by vm_compute. }
  rewrite Forall_forall in Hall. setoid_rewrite elem_of_seqZ in Hall.
  split_and!; intros tag ? **; destruct (Hall tag ltac:(lia)) as (H1 & H2 & H3);
    rewrite Forall_forall in H1, H2; setoid_rewrite elem_of_seqZ in H1;
    setoid_rewrite elem_of_seqZ in H2; [apply H1; lia|apply H2; lia|exact H3].
Qed.

Lemma decode_arg_encode fuel buf lim p tag v :
  0 <= tag < 8 → 0 <= v < 2 ^ 32 → bytes_at buf p (encode_arg tag v) →
  p + Z.of_nat (length (encode_arg tag v)) <= lim → (0 < fuel)%nat →
  decode_arg fuel buf lim p = Some (tag_arg tag v, p + Z.of_nat (length (encode_arg tag v))).
Proof.
  intros Ht Hv Hat Hl Hf. destruct fuel as [|fuel]; [lia|].
  destruct tag_byte_fields as (H1 & H2 & H3). revert Hat Hl. unfold encode_arg.
  destruct (Z.ltb_spec v 16); [|destruct (Z.ltb_spec v 2048)]; cbn [decode_arg length];
    rewrite !bytes_at_cons, Z.geb_leb; intros [E Hat] Hl;
    (destruct (Z.leb_spec lim p); [lia|]); rewrite E; cbn [mbind option_bind].
  - destruct (H1 tag v Ht ltac:(lia)) as (-> & -> & ->). done.
  - destruct (H2 tag (v / 256) Ht ltac:(Z.to_euclidean_division_equations; lia))
      as (-> & -> & -> & ->). rewrite Z.geb_leb.
    destruct (Z.leb_spec lim (p + 1)); [lia|]. destruct Hat as [-> _]. cbn [mbind option_bind].
    rewrite lor_low; [|lia|Z.to_euclidean_division_equations; lia].
    change (8 =? 0) with false. change (0 =? 0) with true. cbn iota.
    do 3 f_equal; Z.to_euclidean_division_equations; lia.
  - destruct (H3 tag Ht) as (-> & -> & -> & ->). cbn -[read_val tag_arg u32_bytes Z.pow Z.of_nat].
    change (Z.to_nat (if 2 + 2 >? 1024 then 1024 else 2 + 2)) with 4%nat.
    simpl in Hl. rewrite (read_u32_bytes buf lim (p + 1) v); [|done|done|lia].
    cbn [mbind option_bind]. do 2 f_equal. simpl. lia.
Qed.

(** ** The instructions of the file format

    What a compiler puts in the chunk, apart from the decoder: an operand with
    its kind, and an instruction with its BEAM opcode and its operands.  The
    instruction the interpreter is to see is written out for each of them. *)
Inductive operand : Type :=
| OLiteral (v : Z)
| OInteger (v : Z)
| OAtom (v : Z)
| OX (v : Z)
| OY (v : Z)
| OLabel (v : Z)
| OChar (v : Z)
| OExtended (v : Z).

Definition operand_tag (o : operand) : Z :=
  match o with
  | OLiteral _ => 0 | OInteger _ => 1 | OAtom _ => 2 | OX _ => 3
  | OY _ => 4 | OLabel _ => 5 | OChar _ => 6 | OExtended _ => 7
  end.

Definition operand_value (o : operand) : Z :=
  match o with
  | OLiteral v | OInteger v | OAtom v | OX v | OY v | OLabel v | OChar v | OExtended v => v
  end.

(** The 32-bit field: a tagged small integer (tag 3), a tagged atom (tag 11) or
    the number itself. *)
Definition operand_field (o : operand) : Z :=
  match o with
  | OLiteral v | OInteger v | OChar v => (16 * v + 3) mod 2 ^ 32
  | OAtom v => (16 * v + 11) mod 2 ^ 32
  | OX v | OY v | OLabel v | OExtended v => v
  end.

Definition operand_ok (o : operand) : Prop := 0 <= operand_value o < 2 ^ 32.

(** The instructions with a case in the decoder, apart from [select_val], and
    any other opcode. *)
Inductive insn : Type :=
| ILabel (l : operand)
| IFuncInfo (m f a : operand)
| IIntCodeEnd
| ICall (arity lbl : operand)
| ITestHeap (need live : operand)
| IReturn
| ICatch (lbl words : operand)
| ICatchEnd (words : operand)
| IMove (src dst : operand)
| IGetList (src hd tl : operand)
| ITry (lbl reg : operand)
| ITryEnd (words : operand)
| ITryCase (reg : operand)
| ITryCaseEnd (reg : operand)
| IRaise (trace reg : operand)
| ILine (l : operand)
| IRawRaise
| IOther (op : Z) (args : list operand).

(** The opcode byte of the BEAM instruction set. *)
Definition insn_byte (i : insn) : Z :=
  match i with
  | ILabel _ => 1 | IFuncInfo _ _ _ => 2 | IIntCodeEnd => 3 | ICall _ _ => 4
  | ITestHeap _ _ => 16 | IReturn => 19 | ICatch _ _ => 62 | ICatchEnd _ => 63
  | IMove _ _ => 64 | IGetList _ _ _ => 69 | ITry _ _ => 104 | ITryEnd _ => 105
  | ITryCase _ => 106 | ITryCaseEnd _ => 107 | IRaise _ _ => 108 | ILine _ => 153
  | IRawRaise => 161 | IOther op _ => op
  end.

Definition insn_operands (i : insn) : list operand :=
  match i with
  | IIntCodeEnd | IReturn | IRawRaise => []
  | ILabel x | ICatchEnd x | ITryEnd x | ITryCase x | ITryCaseEnd x | ILine x => [x]
  | ICall x y | ITestHeap x y | ICatch x y | IMove x y | ITry x y | IRaise x y => [x; y]
  | IFuncInfo x y z | IGetList x y z => [x; y; z]
  | IOther _ xs => xs
  end.

(** The bytes with a case of their own. *)
Definition cased : list Z :=
  [1; 2; 3; 4; 16; 19; 62; 63; 64; 69; 78; 104; 105; 106; 107; 108; 153; 161].

(** Operands of 32 bits; another opcode is not one of [cased] and has the
    operands the arity table says. *)
Definition insn_ok (i : insn) : Prop :=
  Forall operand_ok (insn_operands i) ∧
  match i with
  | IOther op args =>
      0 <= op < 256 ∧ (op ∉ cased) ∧ beam_opcode_arities !! Z.to_nat op = Some (length args)
  | _ => True
  end.

(** A cleared instruction with the opcode and the first three fields. *)
Definition plain (op a b c : Z) : beam_instruction :=
  {| opcode := op; arg1 := a; arg2 := b; arg3 := c; literal := 0; target_proc := NULL;
     extra_args := None; extra_count := 0 |}.

(** What the interpreter gets.  Four instructions keep their BEAM opcode, and
    an opcode without a case becomes an instruction of zeros. *)
Definition insn_meaning (i : insn) : beam_instruction :=
  let f := operand_field in
  match i with
  | ILabel l => plain (opcode_value BEAM_OP_LABEL) (f l) 0 0
  | IFuncInfo m g a => plain 2 (f m) (f g) (f a)
  | IIntCodeEnd => plain 3 0 0 0
  | ICall n l => plain (opcode_value BEAM_OP_CALL) (f n) (f l) 0
  | ITestHeap n l => plain 16 (f n) (f l) 0
  | IReturn => plain (opcode_value BEAM_OP_RETURN) 0 0 0
  | ICatch l w => plain (opcode_value BEAM_OP_CATCH) (f l) (f w) 0
  | ICatchEnd w => plain (opcode_value BEAM_OP_TRY_END) (f w) 0 0
  | IMove x d => plain (opcode_value BEAM_OP_MOVE) (f x) (f d) 0
  | IGetList x h t => plain (opcode_value BEAM_OP_GET_LIST) (f x) (f h) (f t)
  | ITry l r => plain (opcode_value BEAM_OP_TRY) (f l) (f r) 0
  | ITryEnd w => plain (opcode_value BEAM_OP_TRY_END) (f w) 0 0
  | ITryCase r => plain (opcode_value BEAM_OP_TRY_CASE) (f r) 0 0
  | ITryCaseEnd r => plain (opcode_value BEAM_OP_TRY_CASE_END) (f r) 0 0
  | IRaise t r => plain (opcode_value BEAM_OP_RAISE) (f t) (f r) 0
  | ILine l => plain 153 (f l) 0 0
  | IRawRaise => plain (opcode_value BEAM_OP_RAISE) 0 0 0
  | IOther _ _ => plain 0 0 0 0
  end.

Definition encode_operand (o : operand) : list Z := encode_arg (operand_tag o) (operand_value o).

Definition encode_args (args : list operand) : list Z := concat (encode_operand <$> args).

Definition encode_insn (i : insn) : list Z := insn_byte i :: encode_args (insn_operands i).

Definition encode_code (prog : list insn) : list Z := concat (encode_insn <$> prog).

(** The value [decode_arg] returns, which is cut to the field. *)
Definition operand_term (o : operand) : Z := tag_arg (operand_tag o) (operand_value o).

Lemma operand_term_field o : operand_ok o → u32 (operand_term o) = operand_field o.
Proof.
  unfold operand_ok, operand_term.
  destruct o as [v|v|v|v|v|v|v|v]; cbn [operand_tag operand_value operand_field]; intros Hv;
    unfold tag_arg; cbn [Z.eqb Pos.eqb orb];
    first [by apply u32_small
          |rewrite make_small_int_eq; unfold u32, u64; Z.to_euclidean_division_equations; lia
          |idtac].
  change TAG_IMMED1_ATOM with 11.
  assert (u32 (v .<< 4) = (v mod 2 ^ 28) .<< 4) as ->.
  { unfold u32. rewrite !Z.shiftl_mul_pow2 by lia. Z.to_euclidean_division_equations; lia. }
  rewrite lor_low by lia. unfold u32. Z.to_euclidean_division_equations; lia.
Qed.

(** The operand counts of the instructions are those of the arity table. *)
Lemma insn_arity i :
  insn_ok i → array_get beam_opcode_arities (insn_byte i) = Some (length (insn_operands i)).
Proof.
  intros [_ Hi]. destruct i; try reflexivity. destruct Hi as (Ho & _ & E). simpl.
  unfold array_get. destruct (Z.ltb_spec op 0); [lia|exact E].
Qed.

Lemma decode_case_other op : 0 <= op < 256 → op ∉ cased → decode_case op = None.
Proof.
  intros Ho. assert (Forall (λ o, o ∉ cased → decode_case o = None) (seqZ 0 256)) as Hall.
  { refine (bool_decide_unpack _ _). by vm_compute. }
  rewrite Forall_forall in Hall. apply Hall, elem_of_seqZ. lia.
Qed.

Lemma decode_args_encode buf lim p args :
  Forall operand_ok args → bytes_at buf p (encode_args args) →
  p + Z.of_nat (length (encode_args args)) <= lim →
  decode_args (length args) buf lim p =
    Some (operand_term <$> args, p + Z.of_nat (length (encode_args args))).
Proof.
  intros Hok. revert p. induction Hok as [|o args Hv _ IH]; intros p Hat Hl.
  { simpl. by rewrite Z.add_0_r. }
  unfold encode_args in Hat, Hl. cbn [fmap list_fmap concat] in Hat, Hl.
  apply bytes_at_app in Hat as [H1 H2]. rewrite length_app in Hl.
  assert (p + Z.of_nat (length (encode_operand o)) <= lim) as Ho by lia.
  cbn [length decode_args]. pose proof (encode_arg_pos (operand_tag o) (operand_value o)).
  assert (0 <= operand_tag o < 8) by (destruct o; simpl; lia).
  rewrite (decode_arg_encode _ buf lim p (operand_tag o) (operand_value o));
    [|done|done|done|exact Ho|unfold arg_fuel, encode_operand in *; lia].
  fold (encode_operand o) (operand_term o).
  cbn [mbind option_bind]. rewrite (IH _ H2); [|unfold encode_args; lia].
  cbn [mbind option_bind]. unfold encode_args. cbn [fmap list_fmap concat]. simpl.
  rewrite length_app. do 2 f_equal. lia.
Qed.

Lemma decode_instr_encode buf lim p i :
  insn_ok i → bytes_at buf p (encode_args (insn_operands i)) →
  p + Z.of_nat (length (encode_args (insn_operands i))) <= lim →
  decode_instr buf lim (insn_byte i) p =
    Some (insn_meaning i, p + Z.of_nat (length (encode_args (insn_operands i)))).
Proof.
  intros Hi Hat Hl. pose proof (insn_arity i Hi) as Har. destruct Hi as [Hargs Hi].
  pose proof (decode_args_encode _ _ _ _ Hargs Hat Hl) as E. unfold decode_instr.
  destruct i; cbn [insn_byte insn_operands] in *; cbn [decode_case];
    try (cbn [length] in E; rewrite E; cbn [mbind option_bind]; unfold decoded; simpl;
      repeat (apply Forall_cons in Hargs as [?%operand_term_field Hargs]);
      by repeat match goal with HH : u32 _ = _ |- _ => rewrite HH; clear HH end).
  destruct Hi as (Ho & Hc & _). rewrite (decode_case_other op Ho Hc), Har.
  cbn [mbind option_bind]. by rewrite E.
Qed.

Lemma decode_loop_encode fuel buf lim cap p n instrs prog :
  Forall insn_ok prog → bytes_at buf p (encode_code prog) → 0 <= p →
  lim = p + Z.of_nat (length (encode_code prog)) → (Z.to_nat (lim - p) <= fuel)%nat →
  n + Z.of_nat (length prog) <= 100001 → Z.of_nat (length instrs + length prog) <= cap →
  decode_loop fuel buf lim cap p n instrs = Some (instrs ++ (insn_meaning <$> prog)).
Proof.
  intros Hok. revert fuel p n instrs. induction Hok as [|i prog Hi _ IH];
    intros fuel p n instrs Hat Hp Hl Hf Hn Hc.
  { simpl in Hl. destruct fuel; simpl; (destruct (Z.ltb_spec p lim); [lia|]);
      by rewrite app_nil_r. }
  unfold encode_code in *. cbn [fmap list_fmap concat] in *. unfold encode_insn in Hat at 1.
  simpl in Hat, Hn, Hc. rewrite bytes_at_cons, bytes_at_app in Hat. destruct Hat as (H1 & H2 & H3).
  rewrite length_app in Hl. simpl in Hl.
  destruct fuel as [|fuel]; [lia|]. cbn [decode_loop].
  destruct (Z.ltb_spec p lim); [|lia]. rewrite Z.gtb_ltb.
  destruct (Z.ltb_spec 100000 n); [lia|]. rewrite H1. cbn [mbind option_bind].
  rewrite Z.geb_leb. destruct (Z.leb_spec cap (Z.of_nat (length instrs))); [lia|].
  rewrite (decode_instr_encode buf lim (p + 1) i Hi H2); [|lia]. cbn [mbind option_bind].
  rewrite IH; [by rewrite <-app_assoc|done|lia|lia|lia|lia|rewrite length_app; simpl; lia].
Qed.

(** ** Chunks *)

Lemma read_u32_be_bytes buf p v :
  0 <= v < 2 ^ 32 → bytes_at buf p (u32_bytes v) → read_u32_be buf p = Some v.
Proof.
  intros Hv Hat. unfold u32_bytes in Hat. rewrite !bytes_at_cons in Hat.
  destruct Hat as (H1 & H2 & H3 & H4 & _). unfold read_u32_be.
  replace (p + 2) with (p + 1 + 1) by lia. replace (p + 3) with (p + 1 + 1 + 1) by lia.
  rewrite H1, H2, H3, H4. cbn [mbind option_bind]. f_equal.
  set (b1 := v / 2 ^ 24 mod 256). set (b2 := v / 2 ^ 16 mod 256).
  set (b3 := v / 2 ^ 8 mod 256). set (b4 := v mod 256).
  assert (v = ((b1 * 256 + b2) * 256 + b3) * 256 + b4 ∧ 0 <= b1 < 256 ∧ 0 <= b2 < 256 ∧
    0 <= b3 < 256 ∧ 0 <= b4 < 256) as (Ev & ? & ? & ? & ?).
  { unfold b1, b2, b3, b4. Z.to_euclidean_division_equations; lia. }
  clearbody b1 b2 b3 b4. rewrite Ev, !Z.shiftl_mul_pow2 by lia. clear Ev.
  assert (∀ x y n, 0 <= n → 0 <= y < 2 ^ n → (x * 2 ^ n) .| y = x * 2 ^ n + y) as Hor.
  { intros x y n ? ?. pose proof (lor_low x y n) as E. by rewrite Z.shiftl_mul_pow2 in E; auto. }
  rewrite (Hor b1 (b2 * 2 ^ 16) 24) by lia.
  replace (b1 * 2 ^ 24 + b2 * 2 ^ 16) with ((b1 * 2 ^ 8 + b2) * 2 ^ 16) by lia.
  rewrite (Hor _ (b3 * 2 ^ 8) 16) by lia.
  replace ((b1 * 2 ^ 8 + b2) * 2 ^ 16 + b3 * 2 ^ 8)
    with (((b1 * 2 ^ 8 + b2) * 2 ^ 8 + b3) * 2 ^ 8) by lia.
  rewrite (Hor _ b4 8) by lia. lia.
Qed.

Lemma read_u32_be_total buf p :
  bytes_ok buf → 0 <= p → p + 4 <= Z.of_nat (length buf) → ∃ v, read_u32_be buf p = Some v.
Proof.
  intros Hb Hp Hl. unfold read_u32_be.
  destruct (bytes_get buf p Hb ltac:(lia)) as (? & -> & _).
  destruct (bytes_get buf (p + 1) Hb ltac:(lia)) as (? & -> & _).
  destruct (bytes_get buf (p + 2) Hb ltac:(lia)) as (? & -> & _).
  destruct (bytes_get buf (p + 3) Hb ltac:(lia)) as (? & -> & _).
  by eexists.
Qed.

Lemma encode_code_length prog : (length prog <= length (encode_code prog))%nat.
Proof.
  unfold encode_code. induction prog as [|i prog IH]; cbn [fmap list_fmap concat length]; [lia|].
  rewrite length_app. unfold encode_insn at 1. cbn [length]. lia.
Qed.

(** The room of the instruction array: one slot per byte of the chunk. *)
Lemma chunk_cap n :
  0 <= n < 2 ^ 58 → u64 (sizeof_beam_instruction * n) / sizeof_beam_instruction = n.
Proof.
  intros. rewrite u64_small; [|unfold is_u64, sizeof_beam_instruction; lia].
  unfold sizeof_beam_instruction. Z.to_euclidean_division_equations; lia.
Qed.

Section DecodeChunk.
Context {A : Type} `{AllocSpec A}.

(** C16: Decoding any chunk of at least 20 bytes returns: no read outside the
    chunk, no write outside the instruction array, whatever the bytes are; the
    number of instructions is at most the number of bytes and the safety
    bound. *)
Theorem decode_chunk_safe (a : A) (buf : list Z) chunk_len :
  bytes_ok buf → 20 <= chunk_len <= Z.of_nat (length buf) → chunk_len < 2 ^ 58 →
  ∃ r a', beam_decode_code_chunk (Some buf) chunk_len a = Some (r, a') ∧
    match r with
    | None => True
    | Some (_, instrs) =>
        Z.of_nat (length instrs) <= chunk_len ∧ Z.of_nat (length instrs) <= 100001
    end.
Proof.
  intros Hb Hn Hsz. unfold beam_decode_code_chunk. destruct (Z.ltb_spec chunk_len 20); [lia|].
  destruct (read_u32_be_total buf 0 Hb ltac:(lia) ltac:(lia)) as [v ->].
  cbn [mbind option_bind]. rewrite chunk_cap by lia.
  destruct (al_alloc a _) as [p a']. destruct (p =? NULL). { by eexists _, _. }
  pose proof (u32_range (4 + v)) as Hr.
  unfold is_u32 in Hr.
  destruct (decode_loop_total buf chunk_len Hb ltac:(lia) (arg_fuel chunk_len (u32 (4 + v)))
    chunk_len (u32 (4 + v)) 0 []) as (l & -> & ? & ?); [lia|unfold arg_fuel; lia|lia|simpl; lia|].
  eexists _, _. split; [done|]. simpl. lia.
Qed.

(** C17: Round trip: a chunk made of the header and the encoding of any list of
    instructions decodes to what those instructions mean, in order, each with
    the opcode and the operand fields written out for it ([insn_meaning], which
    does not use the decoder).  An opcode that has no case is skipped with as
    many operands as the arity table says and becomes an instruction of zeros;
    opcode 78, whose case reads three operands where the table says two, is
    left out.  The operands are below [2 ^ 32], in the encodings of one, two
    and five bytes; a tagged value keeps its low 32 bits. *)
Theorem decode_chunk_roundtrip (a : A) (info : list Z) (prog : list insn) :
  length info = 16%nat → Forall insn_ok prog →
  Z.of_nat (length prog) <= 100001 → Z.of_nat (length (encode_code prog)) < 2 ^ 57 →
  let chunk := u32_bytes 16 ++ info ++ encode_code prog in
  ∃ p a', al_alloc a (sizeof_beam_instruction * Z.of_nat (length chunk)) = (p, a') ∧
    beam_decode_code_chunk (Some chunk) (Z.of_nat (length chunk)) a =
      Some (if p =? NULL then None else Some (p, insn_meaning <$> prog), a').
Proof.
  intros Hi Hok Hn Hsz chunk. unfold beam_decode_code_chunk.
  assert (length chunk = 20 + length (encode_code prog))%nat as Hl.
  { unfold chunk. rewrite !length_app, Hi. done. }
  destruct (al_alloc a (sizeof_beam_instruction * _)) as [p a'] eqn:E. exists p, a'. split; [done|].
  destruct (Z.ltb_spec (Z.of_nat (length chunk)) 20); [lia|].
  rewrite (read_u32_be_bytes chunk 0 16); 
    [|done|by apply (bytes_at_here _ [] _ (info ++ encode_code prog))].
  cbn [mbind option_bind]. rewrite chunk_cap by lia.
  rewrite u64_small; [|unfold is_u64, sizeof_beam_instruction; lia]. rewrite E.
  destruct (p =? NULL); [done|]. change (u32 (4 + 16)) with 20.
  rewrite (decode_loop_encode _ _ _ _ _ _ [] prog); [done|done| |lia|lia|unfold arg_fuel; lia|
    lia|].
  - pose proof (bytes_at_here chunk (u32_bytes 16 ++ info) (encode_code prog) []) as Hat.
    rewrite length_app, Hi in Hat. apply Hat. unfold chunk. by rewrite app_nil_r, app_assoc.
  - pose proof (encode_code_length prog). rewrite Hl. cbn [length Nat.add]. lia.
Qed.
End DecodeChunk.

(** Among the opcodes the decoder knows, 78 is the only one whose number
    of decoded operands differs from the arity table: decoding it goes out of
    step with the byte stream. *)
Theorem decode_arities_agree opcode op n :
  0 <= opcode < 256 → decode_case opcode = Some (op, n) →
  array_get beam_opcode_arities opcode = Some n ↔ opcode ≠ 78.
Proof.
  intros Ho. revert op n.
  assert (Forall (λ o, match decode_case o with
    | Some (_, n) => array_get beam_opcode_arities o = Some n ↔ o ≠ 78
    | None => True end) (seqZ 0 256)) as Hall.
  { repeat first [apply Forall_nil_2|apply Forall_cons_2; [vm_compute; (done || naive_solver)|]]. }
  intros op n E. apply (Forall_forall _ _) with (x := opcode) in Hall.
  - by rewrite E in Hall.
  - apply elem_of_seqZ. lia.
Qed.

(** ** Examples *)

(** label 1; move {integer, 7} {x, 0}; move {atom, 300} {x, 1}; an opcode
    without a case (65, three operands); return *)
Definition demo_prog : list insn :=
  [ILabel (OLiteral 1); IMove (OInteger 7) (OX 0); IMove (OAtom 300) (OX 1);
   IOther 65 [OX 0; OX 1; OX 70000]; IReturn].

Lemma demo_prog_ok : Forall insn_ok demo_prog.
Proof.
  unfold demo_prog.
  repeat (apply Forall_cons_2; [split;
    [repeat (apply Forall_cons_2; [by split|]); apply Forall_nil_2|]|]); try done.
  split; [done|split; [|done]]. refine (bool_decide_unpack _ _). by vm_compute.
Qed.

Definition demo_chunk : list Z := u32_bytes 16 ++ replicate 16 0 ++ encode_code demo_prog.

Lemma decode_chunk_safe_witness :
  bytes_ok demo_chunk ∧
  ∃ r a', beam_decode_code_chunk (Some demo_chunk) 30 (bump_init (2 ^ 20)) = Some (r, a') ∧
    match r with
    | None => True
    | Some (_, instrs) => Z.of_nat (length instrs) <= 30 ∧ Z.of_nat (length instrs) <= 100001
    end.
Proof.
  assert (bytes_ok demo_chunk) as Hb by (unfold bytes_ok; repeat (constructor; [vm_compute; by split|]); constructor).
  split; [done|]. apply (decode_chunk_safe (bump_init (2 ^ 20)) demo_chunk 30 Hb); by vm_compute.
Defined.

Lemma decode_chunk_roundtrip_witness :
  ∃ p a', beam_decode_code_chunk (Some demo_chunk) (Z.of_nat (length demo_chunk)) (bump_init (2 ^ 20))
    = Some (Some (p, insn_meaning <$> demo_prog), a').
Proof.
  destruct (decode_chunk_roundtrip (bump_init (2 ^ 20)) (replicate 16 0) demo_prog)
    as (p & a' & Hal & E); [done|apply demo_prog_ok|by vm_compute|by vm_compute|].
  exists p, a'. etrans; [exact E|]. vm_compute in Hal. by simplify_eq.
Defined.

Lemma decode_arities_agree_witness :
  (array_get beam_opcode_arities 64 = Some 2%nat ↔ 64 ≠ 78) ∧
  (array_get beam_opcode_arities 78 = Some 3%nat ↔ 78 ≠ 78).
Proof.
  split.
  - by apply (decode_arities_agree 64 (opcode_value BEAM_OP_MOVE)).
  - by apply (decode_arities_agree 78 (opcode_value BEAM_OP_SELECT_VAL)).
Defined.
