(* ===== verification/Load.v ===== *)
(** The module loader: src/emulator/beam_load.c.
    A BEAM file is an IFF container; the loader copies the atom names and
    remembers where the other chunks are.  Pointers into the file are offsets;
    a read outside the file is undefined behaviour. *)
From S2P Require Import Prelude Memory Term Alloc LinkedList HashChain Mailbox Process.
From S2P Require Import Bif Emu Blocks AtomTable Decode.
From Stdlib Require Import Ascii.
From stdpp Require Import options.

(** ** Data (src/emulator/beam_load_internal.h) *)

(** [struct beam_file]; [bf_atoms] are the contents of the array at
    [bf_atom_table]: NULL, or a name with its address.  A chunk is given by its
    offset and length, [None] for a NULL pointer. *)
Record beam_file : Type := {
  bf_module_name : list Z;
  bf_atom_table : Z;
  bf_atoms : list (option (Z * list Z));
  bf_atom_count : Z;
  bf_code_chunk : option (Z * Z);
  bf_lit_chunk : option (Z * Z);
  bf_exp_chunk : option (Z * Z);
  bf_imp_chunk : option (Z * Z);
  bf_str_chunk : option (Z * Z);
}.

(** [struct beam_module]: the file it owns. *)
Record beam_module : Type := { mod_file : Z * beam_file }.

Definition sizeof_beam_file : Z := 192.
Definition sizeof_beam_module : Z := 40.

Definition empty_file : beam_file :=
  {| bf_module_name := []; bf_atom_table := NULL; bf_atoms := []; bf_atom_count := 0;
     bf_code_chunk := None; bf_lit_chunk := None; bf_exp_chunk := None;
     bf_imp_chunk := None; bf_str_chunk := None |}.

Definition set_atoms (name : list Z) (table : Z) (atoms : list (option (Z * list Z)))
    (count : Z) (f : beam_file) : beam_file :=
  {| bf_module_name := name; bf_atom_table := table; bf_atoms := atoms;
     bf_atom_count := count; bf_code_chunk := bf_code_chunk f;
     bf_lit_chunk := bf_lit_chunk f; bf_exp_chunk := bf_exp_chunk f;
     bf_imp_chunk := bf_imp_chunk f; bf_str_chunk := bf_str_chunk f |}.

Definition set_chunks (code lit exp imp str : option (Z * Z)) (f : beam_file) : beam_file :=
  {| bf_module_name := bf_module_name f; bf_atom_table := bf_atom_table f;
     bf_atoms := bf_atoms f; bf_atom_count := bf_atom_count f; bf_code_chunk := code;
     bf_lit_chunk := lit; bf_exp_chunk := exp; bf_imp_chunk := imp; bf_str_chunk := str |}.

(** ** Bytes *)

Fixpoint bytes_of (s : string) : list Z :=
  match s with
  | EmptyString => []
  | String c s' => Z.of_nat (nat_of_ascii c) :: bytes_of s'
  end.

(** The [n] bytes a [memcpy] or [memcmp] reads at [p]. *)
Definition slice (buf : list Z) (p n : Z) : option (list Z) :=
  if (0 <=? p) && (0 <=? n) && (p + n <=? Z.of_nat (length buf))
  then Some (take (Z.to_nat n) (drop (Z.to_nat p) buf)) else None.

Section Load.
Context {A : Type} `{AllocOps A}.
Implicit Types (a : A) (f : beam_file).

(** The loop over the atom names: [n] iterations left, [i] done.  A name whose
    allocation fails stays NULL. *)
Fixpoint parse_atoms (n i : nat) (is_atu8 : bool) (buf : list Z) (atom_pos : Z)
    (module_name : list Z) (atoms : list (option (Z * list Z))) a
    : option (list Z * list (option (Z * list Z)) * A) :=
  match n with
  | O => Some (module_name, atoms, a)
  | S n' =>
      '(len, atom_pos) ←
        (if is_atu8 then
           b0 ← array_get buf atom_pos;
           b1 ← array_get buf (atom_pos + 1);
           Some ((b0 .<< 8) .| b1, atom_pos + 2)
         else b ← array_get buf atom_pos; Some (b, atom_pos + 1));
      let '(name, a) := al_alloc a (len + 1) in
      if name =? NULL then
        parse_atoms n' (S i) is_atu8 buf (atom_pos + len) module_name atoms a
      else
        bytes ← slice buf atom_pos len;
        let module_name := if (i =? 0)%nat then take 63 (c_string bytes) else module_name in
        parse_atoms n' (S i) is_atu8 buf (atom_pos + len) module_name
          (<[i := Some (name, bytes)]> atoms) a
  end.

(** An atom chunk; [None] in the result is the early [return NULL]. *)
Definition parse_atom_chunk (is_atu8 : bool) (buf : list Z) (pos : Z) f a
    : option (option beam_file * A) :=
  raw ← read_u32_be buf pos;
  let raw_num_atoms := s32 raw in
  num_atoms ← (if raw_num_atoms <? 0 then s32_checked (- raw_num_atoms)
               else Some raw_num_atoms);
  if num_atoms >? 100000 then Some (None, a)
  else
    let '(table, a) := al_alloc a (8 * num_atoms) in
    if table =? NULL then Some (Some (set_atoms (bf_module_name f) NULL [] num_atoms f), a)
    else
      '(name, atoms, a) ← parse_atoms (Z.to_nat num_atoms) 0 is_atu8 buf (pos + 4)
                            (bf_module_name f) (replicate (Z.to_nat num_atoms) None) a;
      Some (Some (set_atoms name table atoms num_atoms f), a).

(** The chain of [strcmp]s on the chunk identifier. *)
Definition parse_chunk (chunk_id : list Z) (buf : list Z) (pos chunk_len : Z) f a
    : option (option beam_file * A) :=
  let c := Some (pos, chunk_len) in
  let '(code, lit, exp, imp, str) :=
    (bf_code_chunk f, bf_lit_chunk f, bf_exp_chunk f, bf_imp_chunk f, bf_str_chunk f) in
  if bool_decide (chunk_id = bytes_of "Atom") then parse_atom_chunk false buf pos f a
  else if bool_decide (chunk_id = bytes_of "AtU8") then parse_atom_chunk true buf pos f a
  else if bool_decide (chunk_id = bytes_of "Code") then
    Some (Some (set_chunks c lit exp imp str f), a)
  else if bool_decide (chunk_id = bytes_of "LitT") then
    Some (Some (set_chunks code c exp imp str f), a)
  else if bool_decide (chunk_id = bytes_of "ExpT") then
    Some (Some (set_chunks code lit c imp str f), a)
  else if bool_decide (chunk_id = bytes_of "ImpT") then
    Some (Some (set_chunks code lit exp c str f), a)
  else if bool_decide (chunk_id = bytes_of "StrT") then
    Some (Some (set_chunks code lit exp imp c f), a)
  else Some (Some f, a).

(** [while (pos + 8 <= size)]; [pos] grows by at least 8 each time. *)
Fixpoint parse_chunks (fuel : nat) (buf : list Z) (size pos : Z) f a
    : option (option beam_file * A) :=
  if u64 (pos + 8) <=? size then
    match fuel with
    | O => None
    | S fuel' =>
        chunk_id ← slice buf pos 4;
        chunk_len ← read_u32_be buf (pos + 4);
        let pos := pos + 8 in
        if u64 (pos + chunk_len) >? size then Some (Some f, a)
        else
          '(r, a) ← parse_chunk chunk_id buf pos chunk_len f a;
          match r with
          | None => Some (None, a)
          | Some f =>
              let pad := (4 - chunk_len mod 4) mod 4 in
              parse_chunks fuel' buf size (u64 (pos + chunk_len + pad)) f a
          end
    end
  else Some (Some f, a).

(** The file with its address, [None] for NULL.  [buffer] is [None] for NULL. *)
Definition beam_file_parse (buffer : option (list Z)) (size : Z) a
    : option (option (Z * beam_file) * A) :=
  match buffer with
  | None => Some (None, a)
  | Some buf =>
      if size <? 12 then Some (None, a)
      else
        magic ← slice buf 0 4;
        form ← slice buf 8 4;
        if negb (bool_decide (magic = bytes_of "FOR1")) ||
           negb (bool_decide (form = bytes_of "BEAM")) then Some (None, a)
        else
          let '(beam, a) := al_alloc a sizeof_beam_file in
          if beam =? NULL then Some (None, a)
          else
            '(r, a) ← parse_chunks (S (Z.to_nat size)) buf size 12 empty_file a;
            Some (f ← r; Some (beam, f), a)
  end.

Definition beam_file_get_module_name (f : option beam_file) : option (list Z) :=
  bf_module_name <$> f.

Definition beam_file_get_atom_count (f : option beam_file) : Z :=
  match f with Some f => bf_atom_count f | None => 0 end.

(** The string at [atom_table[index]]; [Some None] is a NULL pointer. *)
Definition beam_file_get_atom (f : option beam_file) (index : Z) : option (option (list Z)) :=
  match f with
  | None => Some None
  | Some f =>
      if (index >=? bf_atom_count f) || (bf_atom_table f =? NULL) then Some None
      else
        x ← array_get (bf_atoms f) index;
        Some (match x with Some (_, name) => Some (c_string name) | None => None end)
  end.

Definition free_atoms (atoms : list (option (Z * list Z))) a : A :=
  foldl (λ a x, match x with Some (p, _) => al_free a p | None => a end) a atoms.

Definition beam_file_destroy (file : option (Z * beam_file)) a : A :=
  match file with
  | None => a
  | Some (p, f) =>
      let a := if bf_atom_table f =? NULL then a
               else al_free (free_atoms (bf_atoms f) a) (bf_atom_table f) in
      al_free a p
  end.

Definition beam_module_load_from_memory (buffer : option (list Z)) (size : Z) a
    : option (option (Z * beam_module) * A) :=
  match buffer with
  | None => Some (None, a)
  | Some _ =>
      if size =? 0 then Some (None, a)
      else
        let '(p, a) := al_alloc a sizeof_beam_module in
        if p =? NULL then Some (None, a)
        else
          '(r, a) ← beam_file_parse buffer size a;
          match r with
          | None => Some (None, al_free a p)
          | Some f => Some (Some (p, {| mod_file := f |}), a)
          end
  end.

Definition beam_module_destroy (m : option (Z * beam_module)) a : A :=
  match m with
  | None => a
  | Some (p, m) => al_free (beam_file_destroy (Some (mod_file m)) a) p
  end.
End Load.

(** ** Well-formed files *)

(** The length prefix of a name: two bytes in an AtU8 chunk, one in an Atom
    chunk. *)
Definition encode_name (is_atu8 : bool) (name : list Z) : list Z :=
  let n := Z.of_nat (length name) in
  (if is_atu8 then [n / 256; n mod 256] else [n]) ++ name.

Definition name_fits (is_atu8 : bool) (name : list Z) : Prop :=
  Z.of_nat (length name) < if is_atu8 then 65536 else 256.

Definition encode_names (is_atu8 : bool) (names : list (list Z)) : list Z :=
  concat (encode_name is_atu8 <$> names).

Definition atom_payload (is_atu8 : bool) (names : list (list Z)) : list Z :=
  u32_bytes (Z.of_nat (length names)) ++ encode_names is_atu8 names.

Lemma bytes_at_slice buf p bs :
  0 <= p → bytes_at buf p bs → p + Z.of_nat (length bs) <= Z.of_nat (length buf) →
  slice buf p (Z.of_nat (length bs)) = Some bs.
Proof.
  intros Hp Hat Hl. unfold slice.
  destruct (Z.leb_spec 0 p), (Z.leb_spec 0 (Z.of_nat (length bs))),
    (Z.leb_spec (p + Z.of_nat (length bs)) (Z.of_nat (length buf))); try lia.
  simpl. f_equal. apply list_eq_same_length with (length bs); [|rewrite length_take, length_drop; lia|].
  { done. }
  intros i x y Hi Hx Hy. rewrite lookup_take_lt, lookup_drop in Hx; [|lia].
  apply Hat in Hy. unfold array_get in Hy.
  destruct (Z.ltb_spec (p + Z.of_nat i) 0); [lia|].
  replace (Z.to_nat (p + Z.of_nat i)) with (Z.to_nat p + i)%nat in Hy by lia. congruence.
Qed.

(** The name pointers of an atom array. *)
Definition name_ptrs (atoms : list (option (Z * list Z))) : list Z :=
  omap (fmap fst) atoms.

(** An array cell for the name: a copy of it, or NULL when its allocation
    failed. *)
Definition cell_for (x : option (Z * list Z)) (name : list Z) : Prop :=
  match x with Some (_, bytes) => bytes = name | None => True end.

Section LoadSpec.
Context {A : Type} `{AllocSpec A}.
Implicit Types (a : A) (f : beam_file) (B : blocks).

Lemma parse_length is8 buf p name :
  name_fits is8 name → bytes_at buf p (encode_name is8 name) →
  (if is8 then
     b0 ← array_get buf p; b1 ← array_get buf (p + 1);
     Some ((b0 .<< 8) .| b1, p + 2)
   else b ← array_get buf p; Some (b, p + 1)) =
  Some (Z.of_nat (length name), p + Z.of_nat (length (encode_name is8 name) - length name)) ∧
  bytes_at buf (p + Z.of_nat (length (encode_name is8 name) - length name)) name.
Proof.
  unfold name_fits, encode_name. intros Hn Hat. destruct is8; rewrite length_app; simpl in *;
    rewrite !bytes_at_cons in Hat.
  - destruct Hat as (-> & -> & Hat). cbn [mbind option_bind].
    rewrite lor_low; [|lia|Z.to_euclidean_division_equations; lia].
    replace (p + Z.of_nat _) with (p + 1 + 1) by lia. split; [|done].
    do 2 f_equal; [|lia]. Z.to_euclidean_division_equations; lia.
  - destruct Hat as [-> Hat]. cbn [mbind option_bind].
    replace (p + Z.of_nat _) with (p + 1) by lia. by split.
Qed.

Lemma parse_atoms_ok is8 buf names done mname a B ps pos :
  Forall (name_fits is8) names → bytes_at buf pos (encode_names is8 names) → 0 <= pos →
  pos + Z.of_nat (length (encode_names is8 names)) <= Z.of_nat (length buf) →
  extends a B ps →
  ∃ mname' cells a',
    parse_atoms (length names) (length done) is8 buf pos mname
      (done ++ replicate (length names) None) a = Some (mname', done ++ cells, a') ∧
    Forall2 cell_for cells names ∧ extends a' B (name_ptrs cells ++ ps) ∧
    mname' = match done, cells with [], Some (_, nm) :: _ => take 63 (c_string nm)
             | _, _ => mname end.
Proof.
  intros Hfit. revert done mname a ps pos.
  induction Hfit as [|nm names Hnm Hfit IH]; intros done mname a ps pos Hat Hp Hl Hx.
  { exists mname, [], a. split_and!; [done|constructor|done|by destruct done]. }
  unfold encode_names in *. cbn [fmap list_fmap concat] in Hat, Hl.
  apply bytes_at_app in Hat as [Hat1 Hat2]. rewrite length_app in Hl.
  destruct (parse_length is8 buf pos nm Hnm Hat1) as [E Hat3].
  assert (length nm <= length (encode_name is8 nm))%nat
    by (unfold encode_name; rewrite length_app; lia).
  set (k := (length (encode_name is8 nm) - length nm)%nat) in *.
  cbn [length parse_atoms]. rewrite E. cbn [mbind option_bind].
  replace (pos + Z.of_nat k + Z.of_nat (length nm))
    with (pos + Z.of_nat (length (encode_name is8 nm))) by lia.
  assert (Hnext : ∀ x mname' a' ps', extends a' B ps' → cell_for x nm →
    ∃ mname2 cells a2,
      parse_atoms (length names) (S (length done)) is8 buf
        (pos + Z.of_nat (length (encode_name is8 nm))) mname'
        (done ++ x :: replicate (length names) None) a' = Some (mname2, done ++ x :: cells, a2) ∧
      Forall2 cell_for (x :: cells) (nm :: names) ∧ extends a2 B (name_ptrs cells ++ ps') ∧
      mname2 = mname').
  { intros x mname' a' ps' Hx' Hc.
    destruct (IH (done ++ [x]) mname' a' ps' _ Hat2 ltac:(lia) ltac:(lia) Hx')
      as (m2 & cells & a2 & E2 & HF & Hx2 & ->). exists mname', cells, a2.
    rewrite <-!app_assoc, length_app, Nat.add_comm in E2. simpl in E2. split_and!; try done.
    - destruct done; done.
    - by constructor. }
  destruct (al_alloc a (Z.of_nat (length nm) + 1)) as [q a'] eqn:Eal.
  assert (alloc_size (Z.of_nat (length nm) + 1)).
  { unfold alloc_size, name_fits in *. destruct is8; lia. }
  destruct (extends_alloc _ _ _ _ _ _ Hx ltac:(done) Eal) as [[-> Hx']|[Hq Hx']].
  - destruct (Hnext None mname a' ps Hx' I) as (m2 & cells & a2 & E2 & HF & Hx2 & ->).
    exists mname, (None :: cells), a2. split_and!; try done. by destruct done.
  - destruct (Z.eqb_spec q NULL); [done|].
    rewrite bytes_at_slice; [|lia|done|lia]. cbn [mbind option_bind].
    rewrite <-(Nat.add_0_r (length done)), insert_app_r, Nat.add_0_r. cbn [replicate].
    set (m' := if (length done =? 0)%nat then _ else _).
    destruct (Hnext (Some (q, nm)) m' a' (q :: ps) Hx' eq_refl)
      as (m2 & cells & a2 & E2 & HF & Hx2 & ->).
    exists m', (Some (q, nm) :: cells), a2. split_and!; [done|done| |by destruct done].
    eapply extends_perm; [|exact Hx2]. simpl. by rewrite Permutation_middle.
Qed.

(** ** Destruction *)

(** The atom array and the names of a file. *)
Definition atom_blocks f : list Z :=
  if bf_atom_table f =? NULL then [] else bf_atom_table f :: name_ptrs (bf_atoms f).

Lemma free_atoms_ok cells a B ps :
  extends a B (name_ptrs cells ++ ps) → extends (free_atoms cells a) B ps.
Proof.
  revert a. induction cells as [|[[q nm]|] cells IH]; intros a Hx; [done| |by apply IH].
  apply IH. by apply extends_free in Hx.
Qed.

Lemma file_destroy_ok a B ps p f :
  extends a B (p :: atom_blocks f ++ ps) → extends (beam_file_destroy (Some (p, f)) a) B ps.
Proof.
  intros Hx. unfold beam_file_destroy, atom_blocks in *.
  destruct (bf_atom_table f =? NULL); [by apply extends_free in Hx|].
  eapply extends_free_in; [|reflexivity].
  eapply extends_free_in; [apply (free_atoms_ok (bf_atoms f) _ _ (bf_atom_table f :: p :: ps))|
    reflexivity].
  eapply extends_perm; [|exact Hx]. simpl. rewrite <-!Permutation_middle. apply perm_swap.
Qed.

(** ** The atom chunk *)

Definition chunks_of f := (bf_code_chunk f, bf_lit_chunk f, bf_exp_chunk f, bf_imp_chunk f,
  bf_str_chunk f).

(** The atoms of the file are [names], up to failed allocations. *)
Definition file_atoms f (names : list (list Z)) : Prop :=
  bf_atom_count f = Z.of_nat (length names) ∧
  (bf_atom_table f = NULL ∨
   Forall2 cell_for (bf_atoms f) names ∧
   match bf_atoms f with
   | Some (_, nm) :: _ => bf_module_name f = take 63 (c_string nm)
   | _ => True
   end).

Lemma s32_small n : 0 <= n < 2 ^ 31 → s32 n = n.
Proof. intros. unfold s32, u32. rewrite Z.mod_small by lia. case_bool; lia. Qed.

Lemma parse_atom_chunk_ok is8 buf names f a B ps pos :
  Forall (name_fits is8) names → (0 < length names)%nat → Z.of_nat (length names) <= 100000 →
  bytes_at buf pos (atom_payload is8 names) → 0 <= pos →
  pos + Z.of_nat (length (atom_payload is8 names)) <= Z.of_nat (length buf) →
  extends a B ps →
  ∃ f' a', parse_atom_chunk is8 buf pos f a = Some (Some f', a') ∧
    file_atoms f' names ∧ chunks_of f' = chunks_of f ∧ extends a' B (atom_blocks f' ++ ps).
Proof.
  intros Hfit Hpos Hmax Hat Hp Hl Hx. unfold atom_payload in *.
  apply bytes_at_app in Hat as [Hat1 Hat2]. rewrite length_app in Hl. cbn [length u32_bytes] in Hl.
  unfold parse_atom_chunk. rewrite (read_u32_be_bytes _ _ (Z.of_nat (length names))); [|lia|done].
  cbn [mbind option_bind]. rewrite s32_small by lia.
  destruct (Z.ltb_spec (Z.of_nat (length names)) 0); [lia|]. cbn [mbind option_bind].
  rewrite Z.gtb_ltb. destruct (Z.ltb_spec 100000 (Z.of_nat (length names))); [lia|].
  destruct (al_alloc a _) as [t a'] eqn:Eal. rewrite Nat2Z.id.
  assert (alloc_size (8 * Z.of_nat (length names))) as Hsz by (unfold alloc_size; lia).
  destruct (extends_alloc _ _ _ _ _ _ Hx Hsz Eal)
    as [[-> Hx']|[Ht Hx']].
  { eexists _, _. split_and!; [done|split; [done|by left]|done|done]. }
  destruct (Z.eqb_spec t NULL); [done|].
  destruct (parse_atoms_ok is8 buf names [] (bf_module_name f) a' B (t :: ps) (pos + 4)
    Hfit Hat2 ltac:(lia) ltac:(lia) Hx') as (m & cells & a2 & E & HF & Hx2 & Hm).
  simpl in E, Hm. rewrite E. cbn [mbind option_bind]. eexists _, _. split_and!; [done| |done|].
  - split; [done|]. right. split; [done|]. subst m. simpl. by destruct cells as [|[[??]|]].
  - unfold atom_blocks. simpl. destruct (Z.eqb_spec t NULL); [done|].
    eapply extends_perm; [|exact Hx2]. simpl. by rewrite Permutation_middle.
Qed.

(** ** Whole files *)

(** A chunk: identifier and payload, padded to a multiple of four bytes. *)
Definition chunk_bytes (c : list Z * list Z) : list Z :=
  c.1 ++ u32_bytes (Z.of_nat (length c.2)) ++ c.2 ++
  replicate (Z.to_nat ((4 - Z.of_nat (length c.2) mod 4) mod 4)) 0.

Definition chunks_bytes (cs : list (list Z * list Z)) : list Z := concat (chunk_bytes <$> cs).

Definition chunk_ok (c : list Z * list Z) : Prop :=
  length c.1 = 4%nat ∧ Z.of_nat (length c.2) < 2 ^ 32.

Lemma chunk_bytes_length c :
  chunk_ok c → Z.of_nat (length (chunk_bytes c)) =
    8 + Z.of_nat (length c.2) + (4 - Z.of_nat (length c.2) mod 4) mod 4.
Proof.
  intros [Hid _]. unfold chunk_bytes. rewrite !length_app, length_replicate, Hid.
  cbn [length u32_bytes]. Z.to_euclidean_division_equations; lia.
Qed.

Lemma parse_chunks_step fuel buf size pos c f a :
  chunk_ok c → bytes_at buf pos (chunk_bytes c) → 0 <= pos →
  pos + Z.of_nat (length (chunk_bytes c)) <= size → size <= Z.of_nat (length buf) →
  size < 2 ^ 62 →
  parse_chunks (S fuel) buf size pos f a =
    '(r, a) ← parse_chunk c.1 buf (pos + 8) (Z.of_nat (length c.2)) f a;
    match r with
    | None => Some (None, a)
    | Some f => parse_chunks fuel buf size (pos + Z.of_nat (length (chunk_bytes c))) f a
    end.
Proof.
  intros Hc Hat Hp Hl Hs Hs2. pose proof (chunk_bytes_length c Hc) as Hlen.
  assert (0 <= (4 - Z.of_nat (length c.2) mod 4) mod 4 < 4) by (apply Z.mod_pos_bound; lia).
  destruct Hc as [Hid Hsz]. unfold chunk_bytes in Hat.
  apply bytes_at_app in Hat as [Hat1 Hat]. apply bytes_at_app in Hat as [Hat2 _].
  rewrite Hid in Hat2. cbn [parse_chunks].
  rewrite u64_small by (unfold is_u64; lia).
  destruct (Z.leb_spec (pos + 8) size); [|lia].
  replace 4 with (Z.of_nat (length c.1)) at 1 by (rewrite Hid; done).
  rewrite bytes_at_slice; [|done|done|lia]. cbn [mbind option_bind].
  rewrite (read_u32_be_bytes _ (pos + 4) (Z.of_nat (length c.2))); [|lia|exact Hat2].
  cbn [mbind option_bind]. rewrite u64_small by (unfold is_u64; lia). rewrite Z.gtb_ltb.
  destruct (Z.ltb_spec size (pos + 8 + Z.of_nat (length c.2))); [lia|].
  destruct (parse_chunk _ _ _ _ _ _) as [[[f'|] a']|]; try done. cbn [mbind option_bind].
  rewrite u64_small by (unfold is_u64; lia). f_equal. lia.
Qed.

(** A chunk that is neither an atom table nor code. *)
Definition other_chunk (c : list Z * list Z) : Prop :=
  chunk_ok c ∧ c.1 ≠ bytes_of "Atom" ∧ c.1 ≠ bytes_of "AtU8" ∧ c.1 ≠ bytes_of "Code".

(** The atoms and the code chunk are the same. *)
Definition same_atoms_code f f' : Prop :=
  bf_module_name f' = bf_module_name f ∧ bf_atom_table f' = bf_atom_table f ∧
  bf_atoms f' = bf_atoms f ∧ bf_atom_count f' = bf_atom_count f ∧
  bf_code_chunk f' = bf_code_chunk f.

#[export] Instance same_atoms_code_preorder : PreOrder same_atoms_code.
Proof.
  split; unfold same_atoms_code.
  - by intros f.
  - intros f g h (? & ? & ? & ? & ?) (? & ? & ? & ? & ?). split_and!; congruence.
Qed.

Lemma parse_other_chunk c buf pos len f a :
  other_chunk c →
  ∃ f', parse_chunk c.1 buf pos len f a = Some (Some f', a) ∧ same_atoms_code f f'.
Proof.
  intros (_ & H1 & H2 & H3). unfold parse_chunk.
  rewrite !(bool_decide_eq_false_2 (_ = _)) by done.
  repeat case_bool_decide; eexists; (split; [done|split_and!; done]).
Qed.

Lemma parse_rest fuel buf size pos cs f a :
  Forall other_chunk cs → bytes_at buf pos (chunks_bytes cs) → 0 <= pos →
  pos + Z.of_nat (length (chunks_bytes cs)) = size → size <= Z.of_nat (length buf) →
  size < 2 ^ 62 → (length cs <= fuel)%nat →
  ∃ f', parse_chunks fuel buf size pos f a = Some (Some f', a) ∧ same_atoms_code f f'.
Proof.
  intros Hcs. revert fuel pos f. induction Hcs as [|c cs Hc _ IH];
    intros fuel pos f Hat Hp Hl Hs Hs2 Hf.
  { simpl in Hl. exists f. split; [|done]. destruct fuel; simpl;
      (rewrite u64_small by (unfold is_u64; lia)); (destruct (Z.leb_spec (pos + 8) size); [lia|done]). }
  unfold chunks_bytes in *. cbn [fmap list_fmap concat] in *.
  apply bytes_at_app in Hat as [Hat1 Hat2]. rewrite length_app in Hl.
  destruct fuel as [|fuel]; simpl in Hf; [lia|].
  rewrite (parse_chunks_step _ _ _ _ c); [|apply Hc|done|done|lia|lia|lia].
  destruct (parse_other_chunk c buf (pos + 8) (Z.of_nat (length c.2)) f a Hc) as (f1 & -> & E1).
  cbn [mbind option_bind].
  destruct (IH fuel _ f1 Hat2 ltac:(lia) ltac:(lia) Hs Hs2 ltac:(lia)) as (f2 & -> & E2).
  exists f2. split; [done|]. by etrans.
Qed.

Lemma sizeof_beam_file_ok : alloc_size sizeof_beam_file.
Proof. done. Qed.

(** A BEAM file: the container header, the atoms, the code and other chunks. *)
Definition atom_id (is_atu8 : bool) : list Z := bytes_of (if is_atu8 then "AtU8" else "Atom").

Definition file_chunks (is_atu8 : bool) (names : list (list Z)) (code : list Z)
    (rest : list (list Z * list Z)) : list (list Z * list Z) :=
  (atom_id is_atu8, atom_payload is_atu8 names) :: (bytes_of "Code", code) :: rest.

Definition file_image (sz : list Z) (is_atu8 : bool) (names : list (list Z)) (code : list Z)
    (rest : list (list Z * list Z)) : list Z :=
  (bytes_of "FOR1" ++ sz ++ bytes_of "BEAM") ++
  chunks_bytes (file_chunks is_atu8 names code rest).

Record image_ok (sz : list Z) (is_atu8 : bool) (names : list (list Z)) (code : list Z)
    (rest : list (list Z * list Z)) : Prop := {
  im_size : length sz = 4%nat;
  im_names : Forall (name_fits is_atu8) names;
  im_count : (0 < length names)%nat ∧ Z.of_nat (length names) <= 100000;
  im_atoms : chunk_ok (atom_id is_atu8, atom_payload is_atu8 names);
  im_code : Z.of_nat (length code) < 2 ^ 32;
  im_rest : Forall other_chunk rest;
  im_len : Z.of_nat (length (file_image sz is_atu8 names code rest)) < 2 ^ 62;
}.

(** What the loader keeps of a file. *)
Definition file_loaded (buf : list Z) f (names : list (list Z)) (code : list Z) : Prop :=
  file_atoms f names ∧
  ∃ pos, bf_code_chunk f = Some (pos, Z.of_nat (length code)) ∧
    slice buf pos (Z.of_nat (length code)) = Some code.

Lemma chunks_bytes_length cs :
  Forall chunk_ok cs → (8 * length cs <= length (chunks_bytes cs))%nat.
Proof.
  induction 1 as [|c cs Hc _ IH]; [done|]. unfold chunks_bytes in *.
  cbn [fmap list_fmap concat length]. rewrite length_app.
  pose proof (chunk_bytes_length c Hc). pose proof (Z.mod_pos_bound (4 - Z.of_nat (length c.2) mod 4) 4).
  lia.
Qed.

(** The parts of an image. *)
Lemma image_parts sz is8 names code rest :
  length sz = 4%nat →
  let buf := file_image sz is8 names code rest in
  let cs := file_chunks is8 names code rest in
  slice buf 0 4 = Some (bytes_of "FOR1") ∧ slice buf 8 4 = Some (bytes_of "BEAM") ∧
  bytes_at buf 12 (chunks_bytes cs) ∧ length buf = (12 + length (chunks_bytes cs))%nat.
Proof.
  intros Hsz buf cs.
  assert (length buf = 12 + length (chunks_bytes cs))%nat as Hl.
  { unfold buf, file_image. by rewrite length_app, !length_app, Hsz. }
  assert (length (bytes_of "FOR1") = 4%nat ∧ length (bytes_of "BEAM") = 4%nat) as [F1 F2] by done.
  split_and!; [| | |done].
  - apply (bytes_at_slice buf 0 (bytes_of "FOR1")); [done| |lia].
    apply (bytes_at_here buf [] _ (sz ++ bytes_of "BEAM" ++ chunks_bytes cs)).
    unfold buf, file_image. by rewrite <-!app_assoc.
  - apply (bytes_at_slice buf 8 (bytes_of "BEAM")); [done| |lia].
    pose proof (bytes_at_here buf (bytes_of "FOR1" ++ sz) (bytes_of "BEAM") (chunks_bytes cs)) as E.
    rewrite length_app, Hsz in E. apply E. unfold buf, file_image. by rewrite <-!app_assoc.
  - pose proof (bytes_at_here buf (bytes_of "FOR1" ++ sz ++ bytes_of "BEAM") (chunks_bytes cs) []) as E.
    rewrite !length_app, Hsz in E. apply E. unfold buf, file_image. by rewrite app_nil_r.
Qed.

Lemma parse_atom_id is8 buf pos len f a :
  parse_chunk (atom_id is8) buf pos len f a = parse_atom_chunk is8 buf pos f a.
Proof. by destruct is8. Qed.

(** Parsing the chunks of an image. *)
Lemma parse_image_ok fuel buf sz is8 names code rest a B ps :
  image_ok sz is8 names code rest → buf = file_image sz is8 names code rest →
  extends a B ps → (2 + length rest <= fuel)%nat →
  ∃ f a', parse_chunks fuel buf (Z.of_nat (length buf)) 12 empty_file a = Some (Some f, a') ∧
    extends a' B (atom_blocks f ++ ps) ∧ file_loaded buf f names code.
Proof.
  intros [Hsz Hnames [Hcnt1 Hcnt2] Hatoms Hcode Hrest Hlen] Ebuf Hx Hf.
  destruct (image_parts sz is8 names code rest Hsz) as (_ & _ & Hat & Hl).
  rewrite <-Ebuf in *. unfold file_chunks, chunks_bytes in Hat, Hl.
  cbn [fmap list_fmap concat] in Hat, Hl.
  apply bytes_at_app in Hat as [Hat1 Hat]. apply bytes_at_app in Hat as [Hat2 Hat3].
  rewrite !length_app in Hl. change (concat (chunk_bytes <$> rest)) with (chunks_bytes rest) in *.
  destruct fuel as [|[|fuel]]; [lia..|].
  pose proof (chunk_bytes_length _ Hatoms) as Hl1.
  pose proof (chunk_bytes_length (bytes_of "Code", code) (conj eq_refl Hcode)) as Hl2.
  cbn [fst snd] in Hl1, Hl2.
  pose proof (Z.mod_pos_bound (4 - Z.of_nat (length (atom_payload is8 names)) mod 4) 4 eq_refl).
  pose proof (Z.mod_pos_bound (4 - Z.of_nat (length code) mod 4) 4 eq_refl).
  rewrite (parse_chunks_step _ _ _ _ (atom_id is8, atom_payload is8 names));
    [|done|exact Hat1|done|lia|lia|lia].
  cbn [fst snd]. rewrite parse_atom_id.
  unfold chunk_bytes in Hat1. cbn [fst snd] in Hat1.
  apply bytes_at_app in Hat1 as [_ Hat1]. apply bytes_at_app in Hat1 as [_ Hat1].
  apply bytes_at_app in Hat1 as [Hat1 _].
  assert (length (atom_id is8) = 4%nat) as Hid by (by destruct is8). rewrite Hid in Hat1.
  destruct (parse_atom_chunk_ok is8 buf names empty_file a B ps (12 + 8) Hnames Hcnt1 Hcnt2 Hat1
    ltac:(lia) ltac:(lia) Hx) as (f1 & a1 & -> & Hfa & Hch & Hx1).
  cbn [mbind option_bind].
  rewrite (parse_chunks_step _ _ _ _ (bytes_of "Code", code));
    [|by split|exact Hat2|lia|lia|lia|lia].
  cbn [fst snd]. set (pos := 12 + _ + 8).
  change (parse_chunk (bytes_of "Code") buf pos (Z.of_nat (length code)) f1 a1)
    with (Some (Some (set_chunks (Some (pos, Z.of_nat (length code))) (bf_lit_chunk f1)
       (bf_exp_chunk f1) (bf_imp_chunk f1) (bf_str_chunk f1) f1), a1)).
  cbn [mbind option_bind]. set (f2 := set_chunks _ _ _ _ _ f1).
  destruct (parse_rest fuel buf (Z.of_nat (length buf)) _ rest f2 a1 Hrest Hat3 ltac:(lia)
    ltac:(lia) ltac:(lia) ltac:(lia) ltac:(lia)) as (f3 & -> & (E1 & E2 & E3 & E4 & E5)).
  exists f3, a1. split; [done|]. split; [|split].
  - unfold atom_blocks in *. by rewrite E2, E3.
  - unfold file_atoms in *. by rewrite E1, E2, E3, E4.
  - exists pos. rewrite E5. split; [done|]. apply bytes_at_slice; [lia| |lia].
    unfold chunk_bytes at 2 in Hat2. cbn [fst snd] in Hat2.
    apply bytes_at_app in Hat2 as [_ Hat2]. apply bytes_at_app in Hat2 as [_ Hat2].
    apply bytes_at_app in Hat2 as [Hat2 _].
    match type of Hat2 with bytes_at _ ?q _ => replace pos with q; [done|] end.
    unfold pos. cbn [length u32_bytes bytes_of]. lia.
Qed.

Lemma file_parse_ok sz is8 names code rest a B ps :
  image_ok sz is8 names code rest → extends a B ps →
  let buf := file_image sz is8 names code rest in
  ∃ r a', beam_file_parse (Some buf) (Z.of_nat (length buf)) a = Some (r, a') ∧
    match r with
    | None => extends a' B ps
    | Some (p, f) => extends a' B (p :: atom_blocks f ++ ps) ∧ file_loaded buf f names code
    end.
Proof.
  intros Him Hx buf. destruct (image_parts sz is8 names code rest (im_size _ _ _ _ _ Him))
    as (E1 & E2 & _ & Hl). fold buf in E1, E2, Hl.
  unfold beam_file_parse. destruct (Z.ltb_spec (Z.of_nat (length buf)) 12); [lia|].
  rewrite E1, E2. cbn [mbind option_bind].
  rewrite !bool_decide_eq_true_2 by done. cbn [negb orb].
  destruct (al_alloc a sizeof_beam_file) as [p a1] eqn:Eal.
  destruct (extends_alloc _ _ _ _ _ _ Hx sizeof_beam_file_ok Eal) as [[-> Hx1]|[Hp Hx1]].
  { by eexists _, _. }
  destruct (Z.eqb_spec p NULL); [done|].
  assert (2 + length rest <= S (Z.to_nat (Z.of_nat (length buf))))%nat.
  { assert (Forall chunk_ok (file_chunks is8 names code rest)) as Hcs.
    { destruct Him as [_ _ _ ? ? Hr _]. constructor; [done|]. constructor; [by split|].
      eapply Forall_impl; [exact Hr|]. by intros c []. }
    apply chunks_bytes_length in Hcs. cbn [length file_chunks] in Hcs. lia. }
  destruct (parse_image_ok _ buf _ _ _ _ _ a1 B (p :: ps) Him eq_refl Hx1 ltac:(done))
    as (f & a' & -> & Hx2 & Hf).
  cbn [mbind option_bind]. eexists _, _. split; [done|]. split; [|done].
  eapply extends_perm; [|exact Hx2]. by rewrite Permutation_middle.
Qed.
(** ** Properties of the loader *)

Lemma sizeof_beam_module_ok : alloc_size sizeof_beam_module.
Proof. done. Qed.

Lemma file_atoms_get f names i nm :
  file_atoms f names → names !! i = Some nm →
  beam_file_get_atom (Some f) (Z.of_nat i) = Some None ∨
  beam_file_get_atom (Some f) (Z.of_nat i) = Some (Some (c_string nm)).
Proof.
  intros [Hc Ht] Hi. pose proof (lookup_lt_Some _ _ _ Hi). unfold beam_file_get_atom.
  rewrite Hc, Z.geb_leb. destruct (Z.leb_spec (Z.of_nat (length names)) (Z.of_nat i)); [lia|].
  destruct (Z.eqb_spec (bf_atom_table f) NULL); [by left|]. destruct Ht as [?|[HF _]]; [done|].
  cbn [orb]. destruct (Forall2_lookup_r _ _ _ _ _ HF Hi) as (x & Hx & Hcell).
  unfold array_get. destruct (Z.ltb_spec (Z.of_nat i) 0); [lia|]. rewrite Nat2Z.id, Hx.
  cbn [mbind option_bind]. destruct x as [[q b]|]; [right; simpl in Hcell; by subst|by left].
Qed.

(** C18: Loading a well-formed module image either fails without leaking a
    block, or yields a module whose atoms are the names of the image (or NULL,
    where an allocation failed) and whose code chunk is the image's; destroying
    it gives back every block. *)
Theorem module_load_destroy sz is8 names code rest a B :
  image_ok sz is8 names code rest → al_rep a B →
  let buf := file_image sz is8 names code rest in
  ∃ r a', beam_module_load_from_memory (Some buf) (Z.of_nat (length buf)) a = Some (r, a') ∧
    match r with
    | None => al_rep a' B
    | Some (p, m) =>
        let f := (mod_file m).2 in
        beam_file_get_atom_count (Some f) = Z.of_nat (length names) ∧
        (∀ i nm, names !! i = Some nm →
           beam_file_get_atom (Some f) (Z.of_nat i) = Some None ∨
           beam_file_get_atom (Some f) (Z.of_nat i) = Some (Some (c_string nm))) ∧
        (∃ pos, bf_code_chunk f = Some (pos, Z.of_nat (length code)) ∧
           slice buf pos (Z.of_nat (length code)) = Some code) ∧
        al_rep (beam_module_destroy (Some (p, m)) a') B
    end.
Proof.
  intros Him Hrep buf. unfold beam_module_load_from_memory.
  assert (12 <= Z.of_nat (length buf)) as Hl.
  { destruct (image_parts sz is8 names code rest (im_size _ _ _ _ _ Him)) as (_ & _ & _ & E).
    fold buf in E. lia. }
  destruct (Z.eqb_spec (Z.of_nat (length buf)) 0); [lia|].
  destruct (al_alloc a sizeof_beam_module) as [p a1] eqn:Eal.
  destruct (extends_alloc _ _ _ _ _ _ (proj1 (extends_nil a B) Hrep) sizeof_beam_module_ok Eal)
    as [[-> Hx]|[Hp Hx]].
  { eexists _, _. split; [done|]. by apply extends_nil. }
  destruct (Z.eqb_spec p NULL); [done|].
  destruct (file_parse_ok _ _ _ _ _ a1 B [p] Him Hx) as (r & a2 & E & Hr). fold buf in E, Hr.
  rewrite E. cbn [mbind option_bind]. destruct r as [[q f]|]; eexists _, _; (split; [done|]).
  - destruct Hr as [Hx2 [Hat Hcode]]. split_and!; [apply Hat| |exact Hcode|].
    + intros i nm. by apply file_atoms_get.
    + apply extends_nil. apply extends_free. by apply file_destroy_ok.
  - apply extends_nil. by apply extends_free.
Qed.

(** The atom count is over the limit. *)
Definition many_atoms_file : list Z :=
  bytes_of "FOR1" ++ [0; 0; 0; 16] ++ bytes_of "BEAM" ++ bytes_of "AtU8" ++ [0; 0; 0; 4] ++
  u32_bytes 100001.

(** A file refused because of its atom count leaks the file structure: the
    result is NULL and the block is still live. *)
Theorem load_limit_leaks a B p a1 :
  al_rep a B → al_alloc a sizeof_beam_file = (p, a1) → p ≠ NULL →
  beam_file_parse (Some many_atoms_file) (Z.of_nat (length many_atoms_file)) a
    = Some (None, a1) ∧
  al_rep a1 (<[p := sizeof_beam_file]> B).
Proof.
  intros Hrep Hal Hp. split.
  - change (Z.of_nat (length many_atoms_file)) with 24. unfold beam_file_parse.
    change (slice many_atoms_file 0 4) with (Some (bytes_of "FOR1")).
    change (slice many_atoms_file 8 4) with (Some (bytes_of "BEAM")).
    cbn [mbind option_bind]. rewrite !bool_decide_eq_true_2 by done. cbn [negb orb].
    rewrite Hal. destruct (Z.eqb_spec p NULL); [done|].
    change (24 <? 12) with false. cbn iota.
    change (S (Z.to_nat 24)) with 25%nat. cbn [parse_chunks].
    change (u64 (12 + 8) <=? 24) with true. cbn iota.
    change (slice many_atoms_file 12 4) with (Some (bytes_of "AtU8")).
    change (read_u32_be many_atoms_file (12 + 4)) with (Some 4). cbn [mbind option_bind].
    change (u64 (12 + 8 + 4) >? 24) with false. cbn iota.
    change (parse_chunk (bytes_of "AtU8") many_atoms_file (12 + 8) 4 empty_file a1)
      with (parse_atom_chunk true many_atoms_file 20 empty_file a1).
    unfold parse_atom_chunk.
    change (read_u32_be many_atoms_file 20) with (Some 100001). done.
  - destruct (al_alloc_spec _ _ _ _ _ Hrep sizeof_beam_file_ok Hal) as [[-> _]|[_ ?]]; done.
Qed.
End LoadSpec.

(** ** Examples *)

(** A module [m] with a function name and three bytes of code. *)
Definition demo_names : list (list Z) := [bytes_of "m"; bytes_of "start"].

Lemma demo_image_ok : image_ok [0; 0; 0; 60] true demo_names [1; 2; 3] [(bytes_of "ImpT", [9])].
Proof.
  split; try done.
  - repeat (constructor; [by vm_compute|]). constructor.
  - split; simpl; lia.
  - constructor; [|constructor]. by split.
Qed.

Lemma module_load_destroy_witness :
  let buf := file_image [0; 0; 0; 60] true demo_names [1; 2; 3] [(bytes_of "ImpT", [9])] in
  ∃ p m a', beam_module_load_from_memory (Some buf) (Z.of_nat (length buf)) (bump_init (2 ^ 20))
      = Some (Some (p, m), a') ∧
    al_rep (beam_module_destroy (Some (p, m)) a') ∅.
Proof.
  intros buf.
  destruct (module_load_destroy [0; 0; 0; 60] true demo_names [1; 2; 3] [(bytes_of "ImpT", [9])]
    (bump_init (2 ^ 20)) ∅ demo_image_ok (bump_init_rep (2 ^ 20) ltac:(done)))
    as (r & a' & E & Hr).
  fold buf in E. destruct r as [[p m]|].
  - exists p, m, a'. split; [exact E|apply Hr].
  - exfalso. vm_compute in E. done.
Defined.

Lemma load_limit_leaks_witness :
  ∃ a1, beam_file_parse (Some many_atoms_file) (Z.of_nat (length many_atoms_file))
      (bump_init (2 ^ 20)) = Some (None, a1) ∧
    al_rep a1 (<[4096 := sizeof_beam_file]> ∅).
Proof.
  eexists. apply (load_limit_leaks (bump_init (2 ^ 20)) ∅ 4096); [|reflexivity|done].
  by apply bump_init_rep.
Defined.
