(* ===== verification/LoadCut.v ===== *)
(** Files cut short: what src/emulator/beam_load.c does with an atom chunk whose
    length is less than its names need.  The loop over the names is bounded by
    the atom count only, neither by the length of the chunk nor by the end of the
    buffer. *)
From S2P Require Import Prelude Memory Term Alloc LinkedList HashChain Mailbox Process.
From S2P Require Import Bif Emu Blocks AtomTable Decode Load.
From stdpp Require Import options.

(** The bytes before a name: its length. *)
Definition name_prefix (is_atu8 : bool) (name : list Z) : list Z :=
  let n := Z.of_nat (length name) in if is_atu8 then [n / 256; n mod 256] else [n].

Lemma encode_name_split is8 name : encode_name is8 name = name_prefix is8 name ++ name.
Proof. done. Qed.

(** The read of the length prefix. *)
Definition read_length (is_atu8 : bool) (buf : list Z) (pos : Z) : option (Z * Z) :=
  if is_atu8 then
    b0 ← array_get buf pos;
    b1 ← array_get buf (pos + 1);
    Some ((b0 .<< 8) .| b1, pos + 2)
  else b ← array_get buf pos; Some (b, pos + 1).

Lemma array_get_past {X} (l : list X) i : Z.of_nat (length l) <= i → array_get l i = None.
Proof.
  intros Hi. unfold array_get. destruct (Z.ltb_spec i 0); [done|]. apply lookup_ge_None. lia.
Qed.

Lemma read_length_prefix is8 buf p name :
  name_fits is8 name → bytes_at buf p (name_prefix is8 name) →
  read_length is8 buf p =
    Some (Z.of_nat (length name), p + Z.of_nat (length (name_prefix is8 name))).
Proof.
  unfold name_fits, name_prefix, read_length. intros Hn Hat. destruct is8; simpl in *;
    rewrite !bytes_at_cons in Hat.
  - destruct Hat as (-> & -> & _). cbn [mbind option_bind].
    rewrite lor_low; [|lia|Z.to_euclidean_division_equations; lia].
    do 2 f_equal. Z.to_euclidean_division_equations; lia.
  - destruct Hat as [-> _]. done.
Qed.

Lemma read_length_past is8 buf p k name :
  p + Z.of_nat k = Z.of_nat (length buf) → (k < length (name_prefix is8 name))%nat →
  read_length is8 buf p = None.
Proof.
  unfold name_prefix, read_length. intros Hp Hk. destruct is8; simpl in Hk.
  - destruct k as [|[|k]]; [|rewrite (array_get_past buf (p + 1)) by lia|lia].
    + rewrite (array_get_past buf p) by lia. done.
    + by destruct (array_get buf p).
  - rewrite (array_get_past buf p) by lia. done.
Qed.

Lemma read_u32_be_past buf p : Z.of_nat (length buf) < p + 4 → read_u32_be buf p = None.
Proof.
  intros Hp. unfold read_u32_be. rewrite (array_get_past buf (p + 3)) by lia.
  by destruct (array_get buf p), (array_get buf (p + 1)), (array_get buf (p + 2)).
Qed.

Lemma slice_past buf p n : Z.of_nat (length buf) < p + n → slice buf p n = None.
Proof.
  intros Hp. unfold slice. destruct (Z.leb_spec (p + n) (Z.of_nat (length buf))); [lia|].
  by rewrite andb_false_r.
Qed.

Section LoadCut.
Context {A : Type} `{AllocOps A}.
Implicit Types (a : A) (f : beam_file).

(** One iteration of the loop over the names. *)
Lemma parse_atoms_S n i is8 buf pos m atoms a :
  parse_atoms (S n) i is8 buf pos m atoms a =
    '(len, pos) ← read_length is8 buf pos;
    let '(name, a) := al_alloc a (len + 1) in
    if name =? NULL then parse_atoms n (S i) is8 buf (pos + len) m atoms a
    else
      bytes ← slice buf pos len;
      parse_atoms n (S i) is8 buf (pos + len)
        (if (i =? 0)%nat then take 63 (c_string bytes) else m)
        (<[i := Some (name, bytes)]> atoms) a.
Proof. done. Qed.

(** The loop does not touch the cells it has passed. *)
Lemma parse_atoms_keep n : ∀ i is8 buf pos m atoms a m' atoms' a' j,
  parse_atoms n i is8 buf pos m atoms a = Some (m', atoms', a') → (j < i)%nat →
  atoms' !! j = atoms !! j.
Proof.
  induction n as [|n IH]; intros i is8 buf pos m atoms a m' atoms' a' j E Hj; [by simplify_eq/=|].
  rewrite parse_atoms_S in E. apply bind_Some in E as ([len p] & _ & E).
  destruct (al_alloc a (len + 1)) as [q a1]. destruct (q =? NULL).
  - eapply IH; [exact E|lia].
  - apply bind_Some in E as (bytes & _ & E). rewrite (IH _ _ _ _ _ _ _ _ _ _ j E) by lia.
    by rewrite list_lookup_insert_ne by lia.
Qed.

(** The names end before the buffer does, unless an allocation failed. *)
Lemma parse_atoms_cut is8 buf names : Forall (name_fits is8) names → ∀ i k pos m atoms a,
  (k < length (encode_names is8 names))%nat → 0 <= pos →
  bytes_at buf pos (take k (encode_names is8 names)) → pos + Z.of_nat k = Z.of_nat (length buf) →
  (∀ j, (i <= j < i + length names)%nat → atoms !! j = Some None) →
  parse_atoms (length names) i is8 buf pos m atoms a = None ∨
  ∃ m' atoms' a', parse_atoms (length names) i is8 buf pos m atoms a = Some (m', atoms', a') ∧
    None ∈ atoms'.
Proof.
  induction 1 as [|nm names Hnm _ IH]; intros i k pos m atoms a Hk Hpos Hat Hl Hcells; [simpl in Hk; lia|].
  unfold encode_names in *. cbn [fmap list_fmap concat length] in *.
  rewrite encode_name_split, <-app_assoc in Hk, Hat. rewrite parse_atoms_S.
  set (pre := name_prefix is8 nm) in *.
  destruct (decide (k < length pre)%nat) as [Hlt|Hge].
  { left. by rewrite (read_length_past _ _ _ _ nm Hl Hlt). }
  rewrite take_app_ge in Hat by lia. apply bytes_at_app in Hat as [Hat1 Hat2].
  rewrite (read_length_prefix _ _ _ _ Hnm Hat1). cbn [mbind option_bind]. fold pre.
  destruct (al_alloc a _) as [q a1]. destruct (q =? NULL).
  - destruct (parse_atoms (length names) (S i) _ _ _ _ _ _) as [[[m' atoms'] a']|] eqn:E; [right|by left].
    exists m', atoms', a'. split; [done|]. apply (list_elem_of_lookup_2 _ i).
    rewrite (parse_atoms_keep _ _ _ _ _ _ _ _ _ _ _ i E) by lia. apply Hcells. lia.
  - destruct (decide (k - length pre < length nm)%nat) as [Hlt|Hge'].
    { left. rewrite slice_past by lia. done. }
    rewrite take_app_ge in Hat2 by lia. apply bytes_at_app in Hat2 as [Hat2 Hat3].
    rewrite bytes_at_slice; [|lia|done|lia]. cbn [mbind option_bind].
    rewrite !length_app in Hk.
    apply (IH (S i) (k - length pre - length nm)%nat); [lia|lia|exact Hat3|lia|].
    intros j Hj. rewrite list_lookup_insert_ne by lia. apply Hcells. lia.
Qed.

(** An allocation of the parse failed: that of the file, of the array of names,
    or of a name. *)
Definition parse_starved a (r : option (Z * beam_file)) : Prop :=
  match r with
  | None => (al_alloc a sizeof_beam_file).1 = NULL
  | Some (_, f) => bf_atom_table f = NULL ∨ None ∈ bf_atoms f
  end.

Lemma parse_atom_chunk_cut is8 buf names k pos f a :
  Forall (name_fits is8) names → Z.of_nat (length names) <= 100000 →
  (k < length (atom_payload is8 names))%nat → 0 <= pos →
  bytes_at buf pos (take k (atom_payload is8 names)) → pos + Z.of_nat k = Z.of_nat (length buf) →
  parse_atom_chunk is8 buf pos f a = None ∨
  ∃ f' a', parse_atom_chunk is8 buf pos f a = Some (Some f', a') ∧
    (bf_atom_table f' = NULL ∨ None ∈ bf_atoms f').
Proof.
  intros Hfit Hmax Hk Hpos Hat Hl. unfold atom_payload in *. unfold parse_atom_chunk.
  destruct (decide (k < 4)%nat) as [Hlt|Hge]; [left; by rewrite read_u32_be_past by lia|].
  rewrite take_app_ge in Hat by (cbn [length u32_bytes]; lia). apply bytes_at_app in Hat as [Hat1 Hat2].
  rewrite (read_u32_be_bytes _ _ (Z.of_nat (length names))); [|lia|done]. cbn [mbind option_bind].
  rewrite s32_small by lia. destruct (Z.ltb_spec (Z.of_nat (length names)) 0); [lia|].
  cbn [mbind option_bind]. rewrite Z.gtb_ltb.
  destruct (Z.ltb_spec 100000 (Z.of_nat (length names))); [lia|].
  destruct (al_alloc a _) as [t a1]. destruct (Z.eqb_spec t NULL).
  { right. eexists _, _. split; [done|by left]. }
  rewrite length_app in Hk. cbn [length u32_bytes] in Hk, Hat2. rewrite Nat2Z.id.
  destruct (parse_atoms_cut is8 buf names Hfit 0 (k - 4)%nat (pos + 4) (bf_module_name f)
    (replicate (length names) None) a1) as [->|(m' & atoms' & a' & -> & Hin)]; [lia|lia|exact Hat2|lia| |by left|].
  - intros j Hj. apply lookup_replicate_2. lia.
  - right. eexists _, _. split; [done|by right].
Qed.

(** A file that ends in an atom chunk of which only the first [k] bytes are
    there; the chunk says so. *)
Definition cut_file (sz : list Z) (is_atu8 : bool) (names : list (list Z)) (k : nat) : list Z :=
  bytes_of "FOR1" ++ sz ++ bytes_of "BEAM" ++ atom_id is_atu8 ++ u32_bytes (Z.of_nat k) ++
  take k (atom_payload is_atu8 names).

Lemma cut_file_parts sz is8 names k :
  length sz = 4%nat → (k < length (atom_payload is8 names))%nat → Z.of_nat k < 2 ^ 32 →
  let buf := cut_file sz is8 names k in
  length buf = (20 + k)%nat ∧ slice buf 0 4 = Some (bytes_of "FOR1") ∧
  slice buf 8 4 = Some (bytes_of "BEAM") ∧ slice buf 12 4 = Some (atom_id is8) ∧
  read_u32_be buf 16 = Some (Z.of_nat k) ∧ bytes_at buf 20 (take k (atom_payload is8 names)).
Proof.
  intros Hsz Hk Hk2 buf. assert (length (atom_id is8) = 4%nat) as Hid by by destruct is8.
  assert (length (bytes_of "FOR1") = 4%nat ∧ length (bytes_of "BEAM") = 4%nat) as [F1 F2] by done.
  assert (length buf = 20 + k)%nat as Hl.
  { unfold buf, cut_file. rewrite !length_app, Hsz, Hid, length_take, F1, F2. cbn [length u32_bytes]. lia. }
  assert (bytes_at buf 0 buf) as Hat by (apply (bytes_at_here buf [] buf []); by rewrite app_nil_r).
  unfold buf at 2 in Hat. unfold cut_file in Hat.
  apply bytes_at_app in Hat as [H1 Hat]. apply bytes_at_app in Hat as [_ Hat].
  apply bytes_at_app in Hat as [H3 Hat]. apply bytes_at_app in Hat as [H4 Hat].
  apply bytes_at_app in Hat as [H5 H6]. rewrite Hsz in *. rewrite Hid in *.
  split_and!; [done| | | | |exact H6].
  - apply (bytes_at_slice buf 0 (bytes_of "FOR1")); [done|exact H1|lia].
  - apply (bytes_at_slice buf 8 (bytes_of "BEAM")); [done|exact H3|lia].
  - replace 4 with (Z.of_nat (length (atom_id is8))) by (by rewrite Hid).
    apply bytes_at_slice; [done|exact H4|rewrite Hid; lia].
  - apply read_u32_be_bytes; [lia|exact H5].
Qed.

(** C40: The loader reads past the end of its buffer: whatever the atom names,
    and wherever their chunk, the last of the file, is cut (in the atom count, a
    length or a name), parsing the file is undefined, unless an allocation failed
    on the way (that of the file, of the array of names, or of a name whose
    characters are then not copied). *)
Theorem load_reads_past_end sz is8 names k a :
  length sz = 4%nat → Forall (name_fits is8) names → Z.of_nat (length names) <= 100000 →
  (k < length (atom_payload is8 names))%nat → Z.of_nat k < 2 ^ 32 →
  let buf := cut_file sz is8 names k in
  beam_file_parse (Some buf) (Z.of_nat (length buf)) a = None ∨
  ∃ r a', beam_file_parse (Some buf) (Z.of_nat (length buf)) a = Some (r, a') ∧ parse_starved a r.
Proof.
  intros Hsz Hfit Hmax Hk Hk2 buf.
  destruct (cut_file_parts sz is8 names k Hsz Hk Hk2) as (Hl & E1 & E2 & E3 & E4 & Hat).
  fold buf in Hl, E1, E2, E3, E4, Hat. unfold beam_file_parse, parse_starved. rewrite Hl.
  destruct (Z.ltb_spec (Z.of_nat (20 + k)) 12); [lia|]. rewrite E1, E2. cbn [mbind option_bind].
  rewrite !bool_decide_eq_true_2 by done. cbn [negb orb].
  destruct (al_alloc a sizeof_beam_file) as [p a1] eqn:Ea.
  destruct (Z.eqb_spec p NULL) as [->|Hp]; [right; by eexists _, _|].
  cbn [parse_chunks]. rewrite u64_small by (unfold is_u64; lia).
  destruct (Z.leb_spec (12 + 8) (Z.of_nat (20 + k))); [|lia]. rewrite E3. cbn [mbind option_bind].
  change (12 + 4) with 16. rewrite E4. cbn [mbind option_bind].
  rewrite (u64_small (12 + 8 + _)) by (unfold is_u64; lia). rewrite Z.gtb_ltb.
  destruct (Z.ltb_spec (Z.of_nat (20 + k)) (12 + 8 + Z.of_nat k)); [lia|]. rewrite parse_atom_id.
  destruct (parse_atom_chunk_cut is8 buf names k (12 + 8) empty_file a1 Hfit Hmax Hk ltac:(done) Hat)
    as [->|(f & a' & -> & Hf)]; [lia|by left|right]. cbn [mbind option_bind].
  pose proof (Z.mod_pos_bound (4 - Z.of_nat k mod 4) 4 eq_refl).
  set (pos := u64 _). assert (pos = 20 + Z.of_nat k + (4 - Z.of_nat k mod 4) mod 4) as Hpos
    by (unfold pos; rewrite u64_small by (unfold is_u64; lia); lia).
  assert (∀ n, parse_chunks n buf (Z.of_nat (20 + k)) pos f a' = Some (Some f, a')) as ->.
  { intros n. destruct n; cbn [parse_chunks]; rewrite u64_small by (unfold is_u64; lia);
      by destruct (Z.leb_spec (pos + 8) (Z.of_nat (20 + k))); [lia|]. }
  cbn [mbind option_bind]. by eexists _, _.
Qed.
End LoadCut.

(** A file whose only name is one byte short. *)
Lemma load_reads_past_end_witness :
  beam_file_parse (Some (cut_file [0; 0; 0; 19] true [bytes_of "ab"] 7))
    (Z.of_nat (length (cut_file [0; 0; 0; 19] true [bytes_of "ab"] 7))) (bump_init (2 ^ 20)) = None.
Proof.
  destruct (load_reads_past_end [0; 0; 0; 19] true [bytes_of "ab"] 7 (bump_init (2 ^ 20)))
    as [E|(r & a' & E & _)]; [done| |done|by vm_compute; lia|done|exact E|].
  - constructor; [|constructor]. by vm_compute.
  - vm_compute in E. discriminate E.
Defined.
