(* ===== verification/CodeServer.v ===== *)
(** The code server: src/emulator/beam_code_server.c.
    A bounded table of loaded files by module name.  Names are C strings (lists
    of non-zero characters); they are stored cut to 63 characters and compared
    in full. *)
From S2P Require Import Prelude Memory Term Alloc LinkedList HashChain Blocks Mailbox.
From S2P Require Import Process Bif Emu AtomTable Decode Load.
From stdpp Require Import options.

(** ** Data (src/emulator/beam_code_server_internal.h) *)

Definition MAX_LOADED_MODULES : Z := 128.

Record module_entry : Type := { me_name : list Z; me_file : Z * beam_file }.

(** [struct beam_code_server]; the entries below [count]. *)
Record beam_code_server : Type := { cs_modules : list module_entry }.

Definition sizeof_beam_code_server : Z := 9256.

(** [strncpy(dst, src, 63)] into a zeroed 64-byte array. *)
Definition name64 (name : list Z) : list Z := take 63 name.

Section CodeServer.
Context {A : Type} `{AllocOps A}.
Implicit Types (a : A) (cs : beam_code_server).

Definition beam_code_server_create a : option (Z * beam_code_server) * A :=
  let '(p, a) := al_alloc a sizeof_beam_code_server in
  if p =? NULL then (None, a) else (Some (p, {| cs_modules := [] |}), a).

Definition beam_code_server_destroy (server : option (Z * beam_code_server)) a : A :=
  match server with
  | None => a
  | Some (p, cs) =>
      al_free (foldl (λ a e, beam_file_destroy (Some (me_file e)) a) a (cs_modules cs)) p
  end.

Definition beam_code_server_module_count (cs : option beam_code_server) : Z :=
  match cs with Some cs => Z.of_nat (length (cs_modules cs)) | None => 0 end.

(** The first entry of that name. *)
Fixpoint find_module (ms : list module_entry) (name : list Z) : option (Z * beam_file) :=
  match ms with
  | [] => None
  | e :: ms' => if bool_decide (me_name e = name) then Some (me_file e) else find_module ms' name
  end.

(** [None] for a NULL argument. *)
Definition beam_code_server_register_module (cs : option beam_code_server)
    (mod_name : option (list Z)) (file : option (Z * beam_file))
    : beam_result_t * option beam_code_server :=
  match cs, mod_name, file with
  | Some cs, Some name, Some file =>
      if Z.of_nat (length (cs_modules cs)) >=? MAX_LOADED_MODULES then
        (BEAM_ERR_NO_MEMORY, Some cs)
      else if bool_decide (is_Some (find_module (cs_modules cs) name)) then (BEAM_OK, Some cs)
      else
        (BEAM_OK,
         Some {| cs_modules := cs_modules cs ++ [{| me_name := name64 name; me_file := file |}] |})
  | _, _, _ => (BEAM_ERR_INVALID_ARG, cs)
  end.

Definition beam_code_server_lookup_module (cs : option beam_code_server)
    (mod_name : option (list Z)) : option (Z * beam_file) :=
  match cs, mod_name with
  | Some cs, Some name => find_module (cs_modules cs) name
  | _, _ => None
  end.
End CodeServer.

(** ** Specification *)

Lemma find_module_app ms ms' name :
  find_module (ms ++ ms') name =
    match find_module ms name with Some f => Some f | None => find_module ms' name end.
Proof. induction ms as [|e ms IH]; simpl; [done|]. by case_bool_decide. Qed.

(** Stored names have at most 63 characters. *)
Definition names_short (cs : beam_code_server) : Prop :=
  Forall (λ e, (length (me_name e) <= 63)%nat) (cs_modules cs).

Lemma find_module_long cs name :
  names_short cs → (63 < length name)%nat → find_module (cs_modules cs) name = None.
Proof.
  intros Hs Hl. induction Hs as [|e ms He _ IH]; simpl; [done|].
  rewrite bool_decide_eq_false_2; [done|]. intros <-. lia.
Qed.

Lemma register_names_short cs name file r cs' :
  names_short cs →
  beam_code_server_register_module (Some cs) name file = (r, Some cs') → names_short cs'.
Proof.
  intros Hs E. unfold beam_code_server_register_module in E. repeat case_match; simplify_eq; try done.
  apply Forall_app. split; [done|]. constructor; [|constructor]. simpl. unfold name64.
  rewrite length_take. lia.
Qed.

(** C26: Registration: refused when the table is full, idempotent on a name that
    is already there, and otherwise it adds the file under the first 63
    characters of the name and changes no other lookup. *)
Theorem code_server_register cs name file r cs' :
  beam_code_server_register_module (Some cs) (Some name) (Some file) = (r, Some cs') →
  if Z.of_nat (length (cs_modules cs)) >=? MAX_LOADED_MODULES then
    r = BEAM_ERR_NO_MEMORY ∧ cs' = cs
  else r = BEAM_OK ∧ ∀ other,
    beam_code_server_lookup_module (Some cs') (Some other) =
      match beam_code_server_lookup_module (Some cs) (Some other) with
      | Some f => Some f
      | None =>
          if bool_decide (beam_code_server_lookup_module (Some cs) (Some name) = None ∧
                          other = take 63 name)
          then Some file else None
      end.
Proof.
  unfold beam_code_server_register_module, beam_code_server_lookup_module.
  case_match; intros E; [by simplify_eq|].
  case_bool_decide as Hin; simplify_eq; (split; [done|]); intros other.
  - rewrite (bool_decide_eq_false_2 (_ ∧ _)); [by case_match|]. intros [E _].
    destruct Hin. congruence.
  - simpl. rewrite find_module_app. destruct (find_module (cs_modules cs) other); [done|].
    simpl. unfold name64. apply eq_None_not_Some in Hin.
    repeat case_bool_decide; naive_solver.
Qed.

(** A module whose name is longer than 63 characters is registered with
    success and never found: every registration adds another entry, and the
    lookup returns NULL. *)
Theorem code_server_long_name cs name file r cs' :
  names_short cs → (63 < length name)%nat →
  beam_code_server_module_count (Some cs) < MAX_LOADED_MODULES →
  beam_code_server_register_module (Some cs) (Some name) (Some file) = (r, Some cs') →
  r = BEAM_OK ∧
  beam_code_server_module_count (Some cs') = beam_code_server_module_count (Some cs) + 1 ∧
  beam_code_server_lookup_module (Some cs') (Some name) = None.
Proof.
  intros Hs Hl Hc E. pose proof (register_names_short _ _ _ _ _ Hs E) as Hs'.
  simpl in *. unfold beam_code_server_register_module in E.
  rewrite Z.geb_leb in E. destruct (Z.leb_spec MAX_LOADED_MODULES (Z.of_nat (length (cs_modules cs)))); [lia|].
  rewrite find_module_long in E by done. simpl in E. simplify_eq. simpl. rewrite length_app.
  split_and!; [done|simpl; lia|]. by apply (find_module_long _ _ Hs').
Qed.

(** ** Memory *)

Section CodeServerSpec.
Context {A : Type} `{AllocSpec A}.
Implicit Types (a : A) (cs : beam_code_server) (B : blocks).

(** The blocks of the registered files. *)
Definition module_blocks cs : list Z :=
  concat ((λ e, (me_file e).1 :: atom_blocks (me_file e).2) <$> cs_modules cs).

Lemma sizeof_beam_code_server_ok : alloc_size sizeof_beam_code_server.
Proof. done. Qed.

Lemma code_server_create_ok a B ps :
  extends a B ps →
  ∃ r a', beam_code_server_create a = (r, a') ∧
    match r with
    | None => extends a' B ps
    | Some (p, cs) => extends a' B (p :: module_blocks cs ++ ps)
    end.
Proof.
  intros Hx. unfold beam_code_server_create.
  destruct (al_alloc a sizeof_beam_code_server) as [p a'] eqn:E.
  destruct (extends_alloc _ _ _ _ _ _ Hx sizeof_beam_code_server_ok E) as [[-> ?]|[Hp ?]].
  - by eexists _, _.
  - destruct (Z.eqb_spec p NULL); [done|]. by eexists _, _.
Qed.

Lemma free_modules_ok ms a B ps :
  extends a B (concat ((λ e, (me_file e).1 :: atom_blocks (me_file e).2) <$> ms) ++ ps) →
  extends (foldl (λ a e, beam_file_destroy (Some (me_file e)) a) a ms) B ps.
Proof.
  revert a. induction ms as [|[nm [p f]] ms IH]; intros a Hx; [done|].
  apply IH. cbn [fmap list_fmap concat me_file fst snd] in Hx. rewrite <-app_assoc in Hx.
  by apply file_destroy_ok in Hx.
Qed.

Lemma code_server_destroy_ok a B ps p cs :
  extends a B (p :: module_blocks cs ++ ps) →
  extends (beam_code_server_destroy (Some (p, cs)) a) B ps.
Proof.
  intros Hx. simpl. apply extends_free, free_modules_ok. eapply extends_perm; [|exact Hx].
  unfold module_blocks. by rewrite Permutation_middle.
Qed.

(** C29: A successful registration of a new name hands the file to the server:
    the blocks of the file, loaded before, are those the destruction of the
    server frees, together with the blocks it already had. *)
Theorem code_server_owns a B p cs name q f r cs' :
  extends a B (q :: atom_blocks f ++ p :: module_blocks cs) →
  beam_code_server_lookup_module (Some cs) (Some name) = None →
  beam_code_server_register_module (Some cs) (Some name) (Some (q, f)) = (r, Some cs') →
  r = BEAM_OK → al_rep (beam_code_server_destroy (Some (p, cs')) a) B.
Proof.
  intros Hx Hl E ->. unfold beam_code_server_register_module in E.
  case_match; [done|]. simpl in Hl. rewrite Hl in E. simpl in E. simplify_eq.
  apply extends_nil, code_server_destroy_ok. eapply extends_perm; [|exact Hx].
  unfold module_blocks. cbn [cs_modules]. rewrite fmap_app, concat_app.
  cbn [fmap list_fmap concat me_file fst snd]. rewrite !app_nil_r.
  set (L := concat _). rewrite app_comm_cons, Permutation_app_comm. by rewrite app_comm_cons.
Qed.
End CodeServerSpec.

(** ** Examples *)

Definition demo_server : beam_code_server :=
  {| cs_modules := [{| me_name := bytes_of "a"; me_file := (64, empty_file) |}] |}.

Lemma code_server_register_witness :
  ∃ cs', beam_code_server_register_module (Some demo_server) (Some (bytes_of "b"))
      (Some (128, empty_file)) = (BEAM_OK, Some cs') ∧
    beam_code_server_lookup_module (Some cs') (Some (bytes_of "b")) = Some (128, empty_file).
Proof.
  eexists. split; [reflexivity|].
  destruct (code_server_register demo_server (bytes_of "b") (128, empty_file) _ _ eq_refl)
    as [_ Hl]. rewrite (Hl (bytes_of "b")). reflexivity.
Defined.

Lemma code_server_long_name_witness :
  ∃ cs', beam_code_server_register_module (Some demo_server) (Some (replicate 64 97))
      (Some (128, empty_file)) = (BEAM_OK, Some cs') ∧
    beam_code_server_lookup_module (Some cs') (Some (replicate 64 97)) = None.
Proof.
  eexists. split; [reflexivity|].
  refine (proj2 (proj2 (code_server_long_name demo_server (replicate 64 97) (128, empty_file)
    BEAM_OK _ _ _ _ eq_refl))); [|simpl; lia|by vm_compute].
  constructor; [simpl; lia|constructor].
Defined.

(** The heap after the allocation of a server (at 4096) and a file structure
    (at 13360). *)
Definition demo_server_heap : bump_heap :=
  (al_alloc (al_alloc (bump_init (2 ^ 20)) sizeof_beam_code_server).2 sizeof_beam_file).2.

Lemma code_server_owns_witness :
  ∃ cs', beam_code_server_register_module (Some {| cs_modules := [] |}) (Some (bytes_of "b"))
      (Some (13360, empty_file)) = (BEAM_OK, Some cs') ∧
    al_rep (beam_code_server_destroy (Some (4096, cs')) demo_server_heap) ∅.
Proof.
  eexists. split; [reflexivity|].
  refine (code_server_owns demo_server_heap ∅ 4096 {| cs_modules := [] |} (bytes_of "b") 13360
    empty_file BEAM_OK _ _ eq_refl eq_refl eq_refl).
  pose proof (proj1 (extends_nil _ _) (bump_init_rep (2 ^ 20) ltac:(done))) as Hx.
  destruct (extends_alloc _ _ _ sizeof_beam_code_server 4096
    (al_alloc (bump_init (2 ^ 20)) sizeof_beam_code_server).2 Hx ltac:(done) eq_refl)
    as [[? _]|[_ Hx1]]; [done|].
  destruct (extends_alloc _ _ _ sizeof_beam_file 13360 demo_server_heap Hx1 ltac:(done)
    eq_refl) as [[? _]|[_ Hx2]]; [done|]. exact Hx2.
Defined.
