(* ===== verification/DistNode.v ===== *)
(** The table of distribution nodes: src/global/dist_node.c.
    The read-write lock is modelled by the atomicity of the operations.  Names
    are C strings, stored cut to 63 characters and compared in full. *)
From S2P Require Import Prelude Alloc LinkedList HashChain Blocks.
From stdpp Require Import options.

(** ** Data (src/global/dist_node_internal.h) *)

Definition MAX_DIST_NODES : Z := 64.

Record dist_node_entry : Type := { nd_name : list Z; nd_port : Z; nd_connected : bool }.

(** [struct beam_node_table]; the entries below [count]. *)
Record beam_node_table : Type := { nt_nodes : list dist_node_entry }.

Definition sizeof_beam_node_table : Z := 4448.

Section DistNode.
Context {A : Type} `{AllocOps A}.
Implicit Types (a : A) (nt : beam_node_table).

Definition beam_node_table_create a : option (Z * beam_node_table) * A :=
  let '(p, a) := al_alloc a sizeof_beam_node_table in
  if p =? NULL then (None, a) else (Some (p, {| nt_nodes := [] |}), a).

Definition beam_node_table_destroy (nt : option (Z * beam_node_table)) a : A :=
  match nt with None => a | Some (p, _) => al_free a p end.

(** The search loop: the first entry of that name is updated. *)
Fixpoint reconnect (ns : list dist_node_entry) (name : list Z) (port : Z)
    : option (list dist_node_entry) :=
  match ns with
  | [] => None
  | e :: ns' =>
      if bool_decide (nd_name e = name)
      then Some ({| nd_name := nd_name e; nd_port := port; nd_connected := true |} :: ns')
      else ns' ← reconnect ns' name port; Some (e :: ns')
  end.

(** [None] for a NULL argument. *)
Definition beam_node_table_connect_port (nt : option beam_node_table)
    (node_name : option (list Z)) (port : Z) : beam_result_t * option beam_node_table :=
  match nt, node_name with
  | Some nt, Some name =>
      match reconnect (nt_nodes nt) name port with
      | Some ns => (BEAM_OK, Some {| nt_nodes := ns |})
      | None =>
          if Z.of_nat (length (nt_nodes nt)) >=? MAX_DIST_NODES then
            (BEAM_ERR_NO_MEMORY, Some nt)
          else
            (BEAM_OK,
             Some {| nt_nodes := nt_nodes nt ++
                      [{| nd_name := take 63 name; nd_port := port; nd_connected := true |}] |})
      end
  | _, _ => (BEAM_ERR_INVALID_ARG, nt)
  end.

Definition beam_node_table_connect (nt : option beam_node_table) (node_name : option (list Z))
    : beam_result_t * option beam_node_table :=
  beam_node_table_connect_port nt node_name 4369.

Definition beam_node_epmd_register (node_name : option (list Z)) (port : Z) : beam_result_t :=
  match node_name with
  | None => BEAM_ERR_INVALID_ARG
  | Some _ => if port =? 0 then BEAM_ERR_INVALID_ARG else BEAM_OK
  end.

Fixpoint find_node_entry (ns : list dist_node_entry) (name : list Z) : option dist_node_entry :=
  match ns with
  | [] => None
  | e :: ns' => if bool_decide (nd_name e = name) then Some e else find_node_entry ns' name
  end.

Definition beam_node_table_is_connected (nt : option beam_node_table)
    (node_name : option (list Z)) : bool :=
  match nt, node_name with
  | Some nt, Some name =>
      match find_node_entry (nt_nodes nt) name with
      | Some e => nd_connected e
      | None => false
      end
  | _, _ => false
  end.

Definition beam_node_table_count (nt : option beam_node_table) : Z :=
  match nt with Some nt => Z.of_nat (length (nt_nodes nt)) | None => 0 end.
End DistNode.

(** ** Specification *)

Lemma reconnect_None ns name port :
  reconnect ns name port = None ↔ find_node_entry ns name = None.
Proof.
  induction ns as [|e ns IH]; simpl; [done|]. case_bool_decide; [done|].
  rewrite <-IH. by destruct (reconnect ns name port).
Qed.

Lemma reconnect_Some ns name port ns' :
  reconnect ns name port = Some ns' →
  length ns' = length ns ∧ nd_name <$> ns' = nd_name <$> ns ∧
  ∀ other, find_node_entry ns' other =
    if bool_decide (other = name)
    then Some {| nd_name := name; nd_port := port; nd_connected := true |}
    else find_node_entry ns other.
Proof.
  revert ns'. induction ns as [|e ns IH]; intros ns' E; [done|]. simpl in E.
  case_bool_decide as Hn.
  - simplify_eq. split_and!; [done..|]. intros other. simpl.
    repeat case_bool_decide; congruence.
  - inv_bind. simplify_eq. destruct (IH _ ltac:(done)) as (Hl & Hm & Hf).
    split_and!; [simpl; by rewrite Hl|by rewrite !fmap_cons, Hm|]. intros other. simpl. rewrite Hf.
    repeat case_bool_decide; congruence.
Qed.

Lemma find_node_entry_app ns ns' name :
  find_node_entry (ns ++ ns') name =
    match find_node_entry ns name with Some e => Some e | None => find_node_entry ns' name end.
Proof. induction ns as [|e ns IH]; simpl; [done|]. by case_bool_decide. Qed.

(** The invariant of a table: at most 64 distinct names of at most 63
    characters. *)
Record nodes_ok (nt : beam_node_table) : Prop := {
  no_count : Z.of_nat (length (nt_nodes nt)) <= MAX_DIST_NODES;
  no_short : Forall (λ e, (length (nd_name e) <= 63)%nat) (nt_nodes nt);
}.

Lemma nodes_ok_empty : nodes_ok {| nt_nodes := [] |}.
Proof. by split; [|constructor]. Qed.

Lemma connect_ok nt name port r nt' :
  nodes_ok nt → beam_node_table_connect_port (Some nt) name port = (r, Some nt') → nodes_ok nt'.
Proof.
  intros [Hc Hs] E. unfold beam_node_table_connect_port in E.
  destruct name as [name|]; [|by simplify_eq]. destruct (reconnect _ _ _) as [ns|] eqn:Er.
  - simplify_eq. destruct (reconnect_Some _ _ _ _ Er) as (Hl & Hm & _). split; simpl; [lia|].
    apply (Forall_fmap nd_name (λ n, (length n <= 63)%nat)). rewrite Hm.
    by apply (Forall_fmap nd_name (λ n, (length n <= 63)%nat)).
  - rewrite Z.geb_leb in E. case_bool; simplify_eq; [by split|]. split; simpl.
    + rewrite length_app. simpl. lia.
    + apply Forall_app. split; [done|]. constructor; [simpl; rewrite length_take; lia|constructor].
Qed.

(** C27: Connecting a node whose name fits: it is connected afterwards, at the
    given port, the other nodes are as before, and a node that was known keeps
    its entry; only a full table refuses a new node. *)
Theorem node_connect nt name port :
  (length name <= 63)%nat →
  ∃ r nt', beam_node_table_connect_port (Some nt) (Some name) port = (r, Some nt') ∧
    ((r = BEAM_ERR_NO_MEMORY ∧ nt' = nt ∧ find_node_entry (nt_nodes nt) name = None ∧
      MAX_DIST_NODES <= beam_node_table_count (Some nt)) ∨
     (r = BEAM_OK ∧ beam_node_table_is_connected (Some nt') (Some name) = true ∧
      (∃ e, find_node_entry (nt_nodes nt') name = Some e ∧ nd_port e = port) ∧
      beam_node_table_count (Some nt') =
        beam_node_table_count (Some nt) +
          (match find_node_entry (nt_nodes nt) name with Some _ => 0 | None => 1 end) ∧
      ∀ other, other ≠ name →
        find_node_entry (nt_nodes nt') other = find_node_entry (nt_nodes nt) other)).
Proof.
  intros Hl. unfold beam_node_table_connect_port.
  destruct (reconnect (nt_nodes nt) name port) as [ns|] eqn:Er.
  - eexists _, _. split; [done|]. right. destruct (reconnect_Some _ _ _ _ Er) as (Hn & _ & Hf).
    split_and!; [done| | |simpl|].
    + simpl. by rewrite Hf, bool_decide_eq_true_2.
    + simpl. rewrite Hf, bool_decide_eq_true_2 by done. by eexists.
    + destruct (find_node_entry (nt_nodes nt) name) eqn:E; [lia|].
      apply (reconnect_None _ _ port) in E. congruence.
    + intros other Ho. simpl. by rewrite Hf, bool_decide_eq_false_2.
  - pose proof (proj1 (reconnect_None _ _ _) Er) as Hnone. rewrite Z.geb_leb.
    case_bool; eexists _, _; (split; [done|]); [by left|right].
    assert (Hfind : ∀ other, find_node_entry (nt_nodes nt ++
        [{| nd_name := take 63 name; nd_port := port; nd_connected := true |}]) other =
      match find_node_entry (nt_nodes nt) other with
      | Some e => Some e
      | None => if bool_decide (name = other)
                then Some {| nd_name := name; nd_port := port; nd_connected := true |} else None
      end).
    { intros other. rewrite find_node_entry_app, take_ge by lia. done. }
    split_and!; [done| | |simpl|].
    + simpl. rewrite Hfind, Hnone, bool_decide_eq_true_2; done.
    + simpl. rewrite Hfind, Hnone, bool_decide_eq_true_2; [by eexists|done].
    + rewrite Hnone, length_app. simpl. lia.
    + intros other Ho. simpl. rewrite Hfind. destruct (find_node_entry _ other); [done|].
      by rewrite bool_decide_eq_false_2.
Qed.

(** A node whose name is longer than 63 characters is never connected, as
    far as the table says, and every attempt takes another slot. *)
Theorem node_long_name nt name port r nt' :
  nodes_ok nt → (63 < length name)%nat → beam_node_table_count (Some nt) < MAX_DIST_NODES →
  beam_node_table_connect_port (Some nt) (Some name) port = (r, Some nt') →
  r = BEAM_OK ∧ beam_node_table_is_connected (Some nt') (Some name) = false ∧
  beam_node_table_count (Some nt') = beam_node_table_count (Some nt) + 1.
Proof.
  intros Hok Hl Hc E. pose proof (connect_ok _ _ _ _ _ Hok E) as Hok'.
  assert (Hlong : ∀ t, nodes_ok t → find_node_entry (nt_nodes t) name = None).
  { intros t [_ Hs]. induction Hs as [|e ns He _ IH]; simpl; [done|].
    rewrite bool_decide_eq_false_2; [done|]. intros <-. lia. }
  unfold beam_node_table_connect_port in E.
  rewrite (proj2 (reconnect_None _ _ _) (Hlong nt Hok)) in E. simpl in Hc. rewrite Z.geb_leb in E.
  destruct (Z.leb_spec MAX_DIST_NODES (Z.of_nat (length (nt_nodes nt)))); [lia|].
  simplify_eq. split_and!; [done| |].
  - unfold beam_node_table_is_connected. by rewrite (Hlong _ Hok').
  - simpl. rewrite length_app. simpl. lia.
Qed.

(** ** Examples *)

Definition demo_nodes : beam_node_table :=
  {| nt_nodes := [{| nd_name := [97]; nd_port := 4369; nd_connected := true |}] |}.

Lemma node_connect_witness :
  ∃ nt', beam_node_table_connect_port (Some demo_nodes) (Some [98]) 5000 = (BEAM_OK, Some nt') ∧
    beam_node_table_is_connected (Some nt') (Some [98]) = true.
Proof.
  destruct (node_connect demo_nodes [98] 5000) as (r & nt' & E & [(-> & _)|(-> & Hc & _)]).
  - simpl. lia.
  - vm_compute in E. done.
  - by exists nt'.
Defined.

Lemma node_long_name_witness :
  ∃ nt', beam_node_table_connect_port (Some demo_nodes) (Some (replicate 64 97)) 5000
      = (BEAM_OK, Some nt') ∧
    beam_node_table_is_connected (Some nt') (Some (replicate 64 97)) = false.
Proof.
  eexists. split; [reflexivity|].
  refine (proj1 (proj2 (node_long_name demo_nodes (replicate 64 97) 5000 BEAM_OK _ _ _ _ eq_refl)));
    [|simpl; lia|by vm_compute].
  split; [by vm_compute|]. constructor; [simpl; lia|constructor].
Defined.
