(* ===== verification/Poll.v ===== *)
(** The I\/O poller and the socket bridge: src/io/sys_poll.c.
    The kernel is a parameter: the system calls the poller makes, as functions
    of the kernel's state. *)
From S2P Require Import Prelude Memory Term Alloc LinkedList HashChain Blocks Mailbox.
From S2P Require Import Process.
From stdpp Require Import options.

(** ** Data (src/io/sys_poll_internal.h, include/beam_io.h) *)

Definition MAX_POLL_ENTRIES : Z := 64.
Definition BEAM_IO_READABLE : Z := 0x01.
Definition BEAM_IO_WRITABLE : Z := 0x02.
Definition BEAM_IO_ERROR : Z := 0x04.

(** The Linux values of the epoll flags. *)
Definition EPOLLIN : Z := 0x001.
Definition EPOLLOUT : Z := 0x004.
Definition EPOLLERR : Z := 0x008.

Record poll_entry : Type := { pe_fd : Z; pe_events : Z }.

(** [struct beam_io_poller]; the entries below [count]. *)
Record beam_io_poller : Type := { po_epoll_fd : Z; po_entries : list poll_entry }.

Definition sizeof_beam_io_poller : Z := 600.

(** The system calls: the new state of the kernel and the return value. *)
Class KernelOps (K : Type) : Type := {
  epoll_create1 : K → Z * K;
  epoll_ctl_add : K → Z → Z → Z → Z * K;     (* epoll fd, fd, event mask *)
  epoll_wait : K → Z → Z → Z → Z * K;        (* epoll fd, maxevents, timeout *)
  sys_close : K → Z → K;
  sys_read : K → Z → Z → Z * K;              (* fd, count: bytes read *)
}.

Section Poll.
Context {A : Type} `{AllocOps A} {K : Type} `{KernelOps K}.
Implicit Types (a : A) (k : K).

Definition beam_io_poller_create a k : option (Z * beam_io_poller) * A * K :=
  let '(p, a) := al_alloc a sizeof_beam_io_poller in
  if p =? NULL then (None, a, k)
  else
    let '(fd, k) := epoll_create1 k in
    if fd <? 0 then (None, al_free a p, k)
    else (Some (p, {| po_epoll_fd := fd; po_entries := [] |}), a, k).

Definition beam_io_poller_destroy (poller : option (Z * beam_io_poller)) a k : A * K :=
  match poller with
  | None => (a, k)
  | Some (p, po) =>
      let k := if po_epoll_fd po >=? 0 then sys_close k (po_epoll_fd po) else k in
      (al_free a p, k)
  end.

(** The translation of the event mask. *)
Definition epoll_events (events : Z) : Z :=
  ((if negb (events .& BEAM_IO_READABLE =? 0) then EPOLLIN else 0) .|
   (if negb (events .& BEAM_IO_WRITABLE =? 0) then EPOLLOUT else 0)) .|
  (if negb (events .& BEAM_IO_ERROR =? 0) then EPOLLERR else 0).

Definition beam_io_poller_register (poller : option beam_io_poller) (fd events : Z) k
    : beam_result_t * option beam_io_poller * K :=
  match poller with
  | None => (BEAM_ERR_INVALID_ARG, None, k)
  | Some po =>
      if fd <? 0 then (BEAM_ERR_INVALID_ARG, Some po, k)
      else if Z.of_nat (length (po_entries po)) >=? MAX_POLL_ENTRIES then
        (BEAM_ERR_NO_MEMORY, Some po, k)
      else
        let '(r, k) := epoll_ctl_add k (po_epoll_fd po) fd (epoll_events events) in
        if r <? 0 then (BEAM_ERR_INVALID_ARG, Some po, k)
        else
          (BEAM_OK,
           Some {| po_epoll_fd := po_epoll_fd po;
                   po_entries := po_entries po ++ [{| pe_fd := fd; pe_events := events |}] |}, k)
  end.

(** [*out_events_ready] is the third component, [None] when it is not written. *)
Definition beam_io_poller_poll (poller : option beam_io_poller) (timeout_ms : Z) k
    : beam_result_t * option Z * K :=
  match poller with
  | None => (BEAM_ERR_INVALID_ARG, None, k)
  | Some po =>
      let '(n, k) := epoll_wait k (po_epoll_fd po) MAX_POLL_ENTRIES timeout_ms in
      if n <? 0 then (BEAM_ERR_INVALID_ARG, Some 0, k) else (BEAM_OK, Some n, k)
  end.

(** The bytes read are dropped: only their number is sent. *)
Definition beam_socket_dispatch_mailbox (p client_fd : Z) (s : vm A) k
    : option (beam_result_t * vm A * K) :=
  if (p =? NULL) || (client_fd <? 0) then Some (BEAM_ERR_INVALID_ARG, s, k)
  else
    let '(n, k) := sys_read k client_fd 255 in
    if n <=? 0 then Some (BEAM_ERR_NOT_FOUND, s, k)
    else
      '(r, s) ← beam_message_send_to_process p (make_small_int n) s;
      Some (r, s, k).
End Poll.

(** ** Specification *)

(** The poller never holds more entries than its array. *)
Definition poller_ok (po : beam_io_poller) : Prop :=
  0 <= po_epoll_fd po ∧ Z.of_nat (length (po_entries po)) <= MAX_POLL_ENTRIES.

Section PollSpec.
Context {A : Type} `{AllocSpec A} {K : Type} `{KernelOps K}.
Implicit Types (a : A) (k : K) (B : blocks).

(** Registration stays within the entry array, records the descriptor
    exactly when the kernel accepted it, and reports every refusal without
    changing the poller. *)
Theorem poller_register po fd events k :
  poller_ok po →
  ∃ r po' k', beam_io_poller_register (Some po) fd events k = (r, Some po', k') ∧
    poller_ok po' ∧
    (r = BEAM_OK →
       po_entries po' = po_entries po ++ [{| pe_fd := fd; pe_events := events |}] ∧
       0 <= fd ∧ 0 <= (epoll_ctl_add k (po_epoll_fd po) fd (epoll_events events)).1) ∧
    (r ≠ BEAM_OK → po' = po) ∧
    (r = BEAM_ERR_NO_MEMORY → Z.of_nat (length (po_entries po)) = MAX_POLL_ENTRIES ∧ k' = k).
Proof.
  intros [Hfd Hn]. unfold beam_io_poller_register.
  destruct (Z.ltb_spec fd 0). { eexists _, _, _. split; [done|]. split_and!; done. }
  rewrite Z.geb_leb. destruct (Z.leb_spec MAX_POLL_ENTRIES (Z.of_nat (length (po_entries po)))).
  { eexists _, _, _. split; [done|]. split_and!; try done. intros _. split; [lia|done]. }
  destruct (epoll_ctl_add _ _ _ _) as [r k']. destruct (Z.ltb_spec r 0).
  - eexists _, _, _. split; [done|]. split_and!; done.
  - eexists _, _, _. split; [done|]. split_and!; try done.
    split; [done|]. simpl. rewrite length_app. simpl. lia.
Qed.

Lemma sizeof_beam_io_poller_ok : alloc_size sizeof_beam_io_poller.
Proof. done. Qed.

Lemma poller_create_ok a k B ps :
  extends a B ps →
  ∃ r a' k', beam_io_poller_create a k = (r, a', k') ∧
    match r with
    | None => extends a' B ps
    | Some (p, po) => extends a' B (p :: ps) ∧ poller_ok po
    end.
Proof.
  intros Hx. unfold beam_io_poller_create.
  destruct (al_alloc a sizeof_beam_io_poller) as [p a'] eqn:E.
  destruct (extends_alloc _ _ _ _ _ _ Hx sizeof_beam_io_poller_ok E) as [[-> ?]|[Hp Hx']].
  { by eexists _, _, _. }
  destruct (Z.eqb_spec p NULL); [done|]. destruct (epoll_create1 k) as [fd k'].
  destruct (Z.ltb_spec fd 0); eexists _, _, _; (split; [done|]).
  - by apply extends_free in Hx'.
  - split; [done|]. by split.
Qed.

Lemma poller_destroy_ok a k B ps p po :
  extends a B (p :: ps) →
  extends (beam_io_poller_destroy (Some (p, po)) a k).1 B ps.
Proof. intros Hx. by apply extends_free in Hx. Qed.
End PollSpec.

(** ** Examples *)

(** A kernel that accepts every descriptor and has nothing to report. *)
Definition demo_kernel : KernelOps unit := {|
  epoll_create1 k := (3, k);
  epoll_ctl_add k _ _ _ := (0, k);
  epoll_wait k _ _ _ := (0, k);
  sys_close k _ := k;
  sys_read k _ _ := (0, k);
|}.

Lemma poller_register_witness :
  let po := {| po_epoll_fd := 3; po_entries := [] |} in
  poller_ok po ∧
  ∃ po' k', @beam_io_poller_register unit demo_kernel (Some po) 5 BEAM_IO_READABLE tt
      = (BEAM_OK, Some po', k') ∧
    po_entries po' = [{| pe_fd := 5; pe_events := BEAM_IO_READABLE |}].
Proof.
  intros po. assert (poller_ok po) as Hpo by (by split). split; [done|].
  destruct (@poller_register unit demo_kernel po 5 BEAM_IO_READABLE tt Hpo)
    as (r & po' & k' & E & _ & Hr & _).
  assert (r = BEAM_OK) as -> by (vm_compute in E; by simplify_eq).
  exists po', k'. split; [done|]. by apply Hr.
Defined.
