(* ===== verification/Socket.v ===== *)
(** Listening and accepting: the socket functions of src/io/sys_poll.c.
    The socket calls of the kernel are a parameter, like those of the poller. *)
From S2P Require Import Prelude Memory Term Alloc LinkedList HashChain Blocks Mailbox.
From S2P Require Import Process Poll.
From stdpp Require Import options.

(** ** The system calls *)

(** Each returns its C result and the new state of the kernel. *)
Class SocketOps (K : Type) `{KernelOps K} : Type := {
  sys_socket : K → Z * K;                  (* AF_INET, SOCK_STREAM, 0 *)
  sys_reuse_addr : K → Z → Z * K;          (* setsockopt SO_REUSEADDR on fd *)
  sys_bind : K → Z → Z → Z * K;            (* fd, port in network order, INADDR_ANY *)
  sys_listen : K → Z → Z → Z * K;          (* fd, backlog *)
  sys_accept : K → Z → Z * K;
  fcntl_getfl : K → Z → Z * K;
  fcntl_setfl : K → Z → Z → Z * K;
}.

(** [O_NONBLOCK] on Linux. *)
Definition O_NONBLOCK : Z := 0x800.
Definition BACKLOG : Z := 128.

(** [htons] on a little-endian machine. *)
Definition htons (port : Z) : Z := ((port .& 0xFF) .<< 8) .| (port .>> 8).

Section Socket.
Context {K : Type} `{SocketOps K}.
Implicit Types (k : K).

(** The results of [setsockopt] and of both [fcntl] calls are not looked at. *)
Definition set_nonblock (fd : Z) k : K :=
  let '(flags, k) := fcntl_getfl k fd in (fcntl_setfl k fd (flags .| O_NONBLOCK)).2.

Definition beam_socket_listen (port : Z) k : Z * K :=
  let '(fd, k) := sys_socket k in
  if fd <? 0 then (-1, k)
  else
    let '(_, k) := sys_reuse_addr k fd in
    let '(r, k) := sys_bind k fd (htons port) in
    if r <? 0 then (-1, sys_close k fd)
    else
      let '(r, k) := sys_listen k fd BACKLOG in
      if r <? 0 then (-1, sys_close k fd) else (fd, set_nonblock fd k).

Definition beam_socket_accept (server_fd : Z) k : Z * K :=
  if server_fd <? 0 then (-1, k)
  else
    let '(client_fd, k) := sys_accept k server_fd in
    if client_fd >=? 0 then (client_fd, set_nonblock client_fd k) else (client_fd, k).
End Socket.

(** ** What the kernel promises *)

(** The open descriptors, their status flags, and the port a socket is bound to
    and listens on (in network order).  Binding to port 0 picks a free port.  Bit
    11 of the flags is [O_NONBLOCK], which an F_SETFL that succeeds sets as
    asked; nothing is known of one that fails. *)
Class SocketSpec (K : Type) `{SocketOps K} : Type := {
  open_fds : K → gset Z;
  flags : K → Z → Z;
  listens : K → Z → option Z;
  bound : K → Z → option Z;
  sys_socket_spec k fd k' :
    sys_socket k = (fd, k') →
    (fd < 0 ∧ open_fds k' = open_fds k) ∨
    (0 <= fd ∧ (fd ∉ open_fds k) ∧ open_fds k' = {[fd]} ∪ open_fds k);
  sys_reuse_addr_spec k fd : open_fds (sys_reuse_addr k fd).2 = open_fds k;
  sys_bind_spec k fd port r k' :
    sys_bind k fd port = (r, k') →
    open_fds k' = open_fds k ∧
    (0 <= r → ∃ q, bound k' fd = Some q ∧ q ≠ 0 ∧ (port ≠ 0 → q = port));
  sys_listen_spec k fd backlog r k' :
    sys_listen k fd backlog = (r, k') →
    open_fds k' = open_fds k ∧ (0 <= r → listens k' fd = bound k fd);
  sys_accept_spec k sfd fd k' :
    sys_accept k sfd = (fd, k') →
    (fd < 0 ∧ open_fds k' = open_fds k) ∨
    (0 <= fd ∧ (fd ∉ open_fds k) ∧ open_fds k' = {[fd]} ∪ open_fds k);
  fcntl_getfl_spec k fd fl k' :
    fcntl_getfl k fd = (fl, k') →
    open_fds k' = open_fds k ∧ (∀ x, listens k' x = listens k x) ∧ (fd ∈ open_fds k → fl = flags k fd);
  fcntl_setfl_spec k fd fl r k' :
    fcntl_setfl k fd fl = (r, k') →
    open_fds k' = open_fds k ∧ (∀ x, listens k' x = listens k x) ∧
    (fd ∈ open_fds k → 0 <= r → Z.testbit (flags k' fd) 11 = Z.testbit fl 11);
  sys_close_spec k fd : open_fds (sys_close k fd) = open_fds k ∖ {[fd]};
}.

Section SocketProps.
Context {K : Type} `{SocketSpec K}.
Implicit Types (k : K).

(** The result of the F_SETFL call, which the code does not look at. *)
Definition setfl_result (fd : Z) k : Z :=
  let '(flags, k) := fcntl_getfl k fd in (fcntl_setfl k fd (flags .| O_NONBLOCK)).1.

(** [k'] is the kernel after the F_SETFL of the code, which makes [fd]
    non-blocking if it succeeds. *)
Definition nonblock_tried (fd : Z) k' : Prop :=
  ∃ k, k' = set_nonblock fd k ∧
    (0 <= setfl_result fd k → Z.testbit (flags k' fd) 11 = true).

Lemma set_nonblock_ok fd k :
  fd ∈ open_fds k →
  open_fds (set_nonblock fd k) = open_fds k ∧ (∀ x, listens (set_nonblock fd k) x = listens k x) ∧
  nonblock_tried fd (set_nonblock fd k).
Proof.
  intros Hfd. unfold nonblock_tried, set_nonblock, setfl_result.
  destruct (fcntl_getfl k fd) as [fl k1] eqn:E1.
  destruct (fcntl_getfl_spec _ _ _ _ E1) as (Ho1 & Hl1 & _).
  destruct (fcntl_setfl k1 fd (fl .| O_NONBLOCK)) as [r k2] eqn:E2.
  destruct (fcntl_setfl_spec _ _ _ _ _ E2) as (Ho2 & Hl2 & Hf). cbn [snd].
  split; [congruence|]. split; [congruence|]. exists k. rewrite E1, E2. split; [done|].
  intros Hr. rewrite Hf by (by rewrite ?Ho1). by rewrite Z.lor_spec, orb_true_r.
Qed.

Lemma htons_zero port : 0 <= port < 2 ^ 16 → htons port = 0 → port = 0.
Proof.
  unfold htons. intros Hp [Hl Hh]%Z.lor_eq_0_iff.
  apply Z.shiftl_eq_0_iff in Hl; [|lia]. change 0xFF with (Z.ones 8) in Hl.
  rewrite Z.land_ones in Hl by lia. rewrite Z.shiftr_div_pow2 in Hh by lia.
  pose proof (Z.div_mod port (2 ^ 8)). lia.
Qed.

(** C30: The socket functions leak no descriptor.  Opening a listening socket
    gives either -1, with the descriptors open as before whichever call failed,
    or a new descriptor that listens on the port asked for, in network order (on
    some port if that is 0).  Accepting gives a negative number, with the
    descriptors as before, or a new descriptor.  A new descriptor has been through
    the F_SETFL call, and is non-blocking if that call succeeded: its result is
    not looked at, so the descriptor is returned either way. *)
Theorem socket_descriptors port sfd k :
  0 <= port < 2 ^ 16 →
  (let '(fd, k') := beam_socket_listen port k in
   (fd = -1 ∧ open_fds k' = open_fds k) ∨
   (0 <= fd ∧ (fd ∉ open_fds k) ∧ open_fds k' = {[fd]} ∪ open_fds k ∧
    (∃ q, listens k' fd = Some q ∧ q ≠ 0 ∧ (port ≠ 0 → q = htons port)) ∧
    nonblock_tried fd k')) ∧
  (let '(fd, k') := beam_socket_accept sfd k in
   (fd < 0 ∧ open_fds k' = open_fds k) ∨
   (0 <= fd ∧ (fd ∉ open_fds k) ∧ open_fds k' = {[fd]} ∪ open_fds k ∧ nonblock_tried fd k')).
Proof.
  intros Hport. split.
  - unfold beam_socket_listen. destruct (sys_socket k) as [fd k1] eqn:E1.
    destruct (sys_socket_spec _ _ _ E1) as [(Hn & Ho)|(Hn & Hf & Ho)];
      destruct (Z.ltb_spec fd 0); try lia; [by left|].
    pose proof (sys_reuse_addr_spec k1 fd) as Ho2. destruct (sys_reuse_addr k1 fd) as [r2 k2].
    simpl in Ho2. destruct (sys_bind k2 fd (htons port)) as [r3 k3] eqn:E3.
    destruct (sys_bind_spec _ _ _ _ _ E3) as [Ho3 Hb].
    assert (Hclose : ∀ k', open_fds k' = open_fds k1 → open_fds (sys_close k' fd) = open_fds k).
    { intros k' E. rewrite sys_close_spec, E, Ho. set_solver. }
    destruct (Z.ltb_spec r3 0); [left; split; [done|apply Hclose; congruence]|].
    destruct (sys_listen k3 fd BACKLOG) as [r4 k4] eqn:E4.
    destruct (sys_listen_spec _ _ _ _ _ E4) as [Ho4 Hl].
    destruct (Z.ltb_spec r4 0); [left; split; [done|apply Hclose; congruence]|].
    destruct (set_nonblock_ok fd k4) as (Ho5 & Hl5 & Hnb).
    { rewrite Ho4, Ho3, Ho2, Ho. set_solver. }
    right. split_and!; [done|done|congruence| |done].
    destruct Hb as (q & Hq & Hq0 & Hp); [done|]. exists q.
    rewrite Hl5, Hl by done. split_and!; [done|done|].
    intros Hp0. apply Hp. intros Hz. by apply Hp0, htons_zero.
  - unfold beam_socket_accept. destruct (Z.ltb_spec sfd 0); [by left|].
    destruct (sys_accept k sfd) as [fd k1] eqn:E1. rewrite Z.geb_leb.
    destruct (sys_accept_spec _ _ _ _ E1) as [(Hn & Ho)|(Hn & Hf & Ho)];
      destruct (Z.leb_spec 0 fd); try lia; [by left|right].
    destruct (set_nonblock_ok fd k1) as (Ho5 & _ & Hnb); [rewrite Ho; set_solver|].
    split_and!; [done|done|congruence|done].
Qed.
End SocketProps.

(** ** Examples *)

(** A kernel that knows its descriptors and their status flags and ports; it has
    room for [fd_limit] of them. *)
Record fd_table : Type := { fd_limit : Z; fds : gmap Z (Z * option Z) }.

Definition next_fd (t : fd_table) : Z := foldr Z.max (-1) (elements (dom (fds t))) + 1.
Definition put_fd (fd : Z) (x : Z * option Z) (t : fd_table) : fd_table :=
  {| fd_limit := fd_limit t; fds := <[fd := x]> (fds t) |}.
Definition open_fd (t : fd_table) : Z * fd_table :=
  if Z.of_nat (size (fds t)) >=? fd_limit t then (-1, t)
  else (next_fd t, put_fd (next_fd t) (0, None) t).
Definition fd_flags (t : fd_table) (fd : Z) : Z := from_option fst 0 (fds t !! fd).
Definition fd_port (t : fd_table) (fd : Z) : option Z := fds t !! fd ≫= snd.
Definition on_fd (fd : Z) (f : Z * option Z → Z * option Z) (t : fd_table) : fd_table :=
  {| fd_limit := fd_limit t; fds := alter f fd (fds t) |}.

#[export] Instance fd_kernel : KernelOps fd_table := {|
  epoll_create1 := open_fd;
  epoll_ctl_add t _ _ _ := (0, t);
  epoll_wait t _ _ _ := (0, t);
  sys_close t fd := {| fd_limit := fd_limit t; fds := delete fd (fds t) |};
  sys_read t _ _ := (0, t);
|}.

(** The port chosen for port 0. *)
Definition EPHEMERAL : Z := htons 32768.

#[export] Instance fd_sockets : SocketOps fd_table := {|
  sys_socket := open_fd;
  sys_reuse_addr t _ := (0, t);
  sys_bind t fd port :=
    (if decide (fd ∈ dom (fds t)) then 0 else -1,
     on_fd fd (λ x, (x.1, Some (if port =? 0 then EPHEMERAL else port))) t);
  sys_listen t _ _ := (0, t);
  sys_accept t _ := open_fd t;
  fcntl_getfl t fd := (fd_flags t fd, t);
  fcntl_setfl t fd fl := (0, on_fd fd (λ x, (fl, x.2)) t);
|}.

Lemma next_fd_fresh t : 0 <= next_fd t ∧ next_fd t ∉ dom (fds t).
Proof.
  assert (Hmax : ∀ l, -1 <= foldr Z.max (-1) l ∧ ∀ x, x ∈ l → x <= foldr Z.max (-1) l).
  { induction l as [|y l [IH1 IH2]]; (split; [simpl; lia|]); intros x;
      [by intros ?%not_elem_of_nil|]. intros [->|Hx]%elem_of_cons; simpl; [lia|].
    specialize (IH2 x Hx). lia. }
  destruct (Hmax (elements (dom (fds t)))) as [H1 H2]. unfold next_fd. split; [lia|].
  intros Hin%elem_of_elements%H2. lia.
Qed.

Lemma open_fd_spec t fd t' :
  open_fd t = (fd, t') →
  (fd < 0 ∧ dom (fds t') = dom (fds t)) ∨
  (0 <= fd ∧ (fd ∉ dom (fds t)) ∧ dom (fds t') = {[fd]} ∪ dom (fds t)).
Proof.
  unfold open_fd. destruct (_ >=? _); intros; simplify_eq; [by left|right].
  destruct (next_fd_fresh t). split_and!; [done|done|]. simpl. by rewrite dom_insert_L.
Qed.

Lemma on_fd_dom fd f t : dom (fds (on_fd fd f t)) = dom (fds t).
Proof. simpl. apply dom_alter_L. Qed.

#[export] Program Instance fd_socket_spec : SocketSpec fd_table := {|
  open_fds t := dom (fds t);
  flags := fd_flags;
  listens := fd_port;
  bound := fd_port;
|}.
Next Obligation. intros t fd t'. apply open_fd_spec. Qed.
Next Obligation. done. Qed.
Next Obligation.
  intros t fd port r t' E. cbn in E. case_decide as Hd; simplify_eq; (split; [apply on_fd_dom|]).
  - intros _. apply elem_of_dom in Hd as [x Hx]. unfold fd_port. cbn.
    rewrite lookup_alter_eq, Hx. eexists. split; [reflexivity|]. cbn.
    by destruct (Z.eqb_spec port 0).
  - done.
Qed.
Next Obligation. intros t fd backlog r t' E. cbn in E. by simplify_eq. Qed.
Next Obligation. intros t sfd fd t'. apply open_fd_spec. Qed.
Next Obligation. intros t fd fl t' E. cbn in E. by simplify_eq. Qed.
Next Obligation.
  intros t fd fl r t' E. cbn in E. simplify_eq. split; [apply on_fd_dom|]. split.
  - intros x. unfold fd_port. cbn. destruct (decide (x = fd)) as [->|].
    + rewrite lookup_alter_eq. by destruct (fds t !! fd).
    + by rewrite lookup_alter_ne.
  - intros Hd _. apply elem_of_dom in Hd as [y Hy]. unfold fd_flags. cbn.
    by rewrite lookup_alter_eq, Hy.
Qed.
Next Obligation. intros t fd. cbn. apply dom_delete_L. Qed.

Lemma socket_descriptors_witness :
  let k : fd_table := {| fd_limit := 4; fds := ∅ |} in
  ∃ fd k', beam_socket_listen 8080 k = (fd, k') ∧ 0 <= fd ∧ listens k' fd = Some (htons 8080) ∧
    nonblock_tried fd k'.
Proof.
  intros k. pose proof (proj1 (socket_descriptors 8080 0 k ltac:(lia))) as Hl.
  destruct (beam_socket_listen 8080 k) as [fd k'] eqn:E. exists fd, k'.
  destruct Hl as [(Hfd & _)|(Hfd & _ & _ & (q & Hq & _ & Hp) & Hnb)].
  - exfalso. vm_compute in E. injection E as E1 E2. rewrite Hfd in E1. discriminate E1.
  - rewrite (Hp ltac:(lia)) in Hq. exact (conj eq_refl (conj Hfd (conj Hq Hnb))).
Defined.
