(* ===== verification/Nif.v ===== *)
(** Native function environments: src/io/erl_nif.c.
    The dynamic loader is a parameter. *)
From S2P Require Import Prelude Memory Term Alloc LinkedList Mailbox Process.
From stdpp Require Import options.

(** [struct ErlNifEnv]. *)
Record ErlNifEnv : Type := { env_proc : Z }.

Definition sizeof_ErlNifEnv : Z := 40.

Section Nif.
Context {A : Type} `{AllocOps A}.
Implicit Types (s : vm A).

Definition enif_alloc_env (proc : Z) s : option (Z * ErlNifEnv) * vm A :=
  let '(p, a) := al_alloc (alc s) sizeof_ErlNifEnv in
  if p =? NULL then (None, set_alc a s) else (Some (p, {| env_proc := proc |}), set_alc a s).

Definition enif_free_env (env : option (Z * ErlNifEnv)) s : vm A :=
  match env with None => s | Some (p, _) => set_alc (al_free (alc s) p) s end.

Definition enif_make_int (val : Z) : Z := make_small_int val.

(** [*out_val] when the result is true; [want] says whether [out_val] is not
    NULL.  The cast keeps the low 32 bits. *)
Definition enif_get_int (term : Z) (want : bool) : option Z :=
  if negb (beam_is_small_int term) || negb want then None
  else Some (s32 (eterm_to_small_int term)).

Definition enif_make_tuple_from_array (env : option ErlNifEnv) (elements : option (list Z))
    (cnt : Z) s : option (Z * vm A) :=
  match env with
  | None => Some (0, s)
  | Some env =>
      if env_proc env =? NULL then Some (0, s)
      else beam_make_tuple (env_proc env) cnt elements s
  end.
End Nif.

(** The dynamic loader: handles and symbols are addresses, paths and names are
    C strings. *)
Class DlOps (L : Type) : Type := {
  dlopen : L → list Z → Z * L;     (* RTLD_NOW | RTLD_LOCAL *)
  dlsym : L → Z → list Z → Z;
  dlclose : L → Z → L;
}.

Section Loader.
Context {L : Type} `{DlOps L}.
Implicit Types (l : L).

Definition enif_dlopen (lib_path : option (list Z)) l : Z * L :=
  match lib_path with None => (NULL, l) | Some path => dlopen l path end.

Definition enif_dlsym (handle : Z) (symbol_name : option (list Z)) l : Z :=
  match symbol_name with
  | Some name => if handle =? NULL then NULL else dlsym l handle name
  | None => NULL
  end.

Definition enif_dlclose (handle : Z) l : L := if handle =? NULL then l else dlclose l handle.
End Loader.

(** Integers cross the native interface unchanged, for every C [int]; and
    an integer term that does not fit is cut to its low 32 bits without an
    error. *)
Theorem nif_int_roundtrip v :
  small_int_range v →
  enif_get_int (enif_make_int v) true = Some (s32 v) ∧ (- 2 ^ 31 <= v < 2 ^ 31 → s32 v = v).
Proof.
  intros Hv. unfold enif_get_int, enif_make_int. rewrite make_small_int_tag.
  rewrite small_int_cancel by done. split; [done|]. intros. unfold s32, u32.
  case_bool; Z.to_euclidean_division_equations; lia.
Qed.

Lemma nif_int_roundtrip_witness :
  enif_get_int (enif_make_int (-5)) true = Some (s32 (-5)) ∧ (- 2 ^ 31 <= -5 < 2 ^ 31 → s32 (-5) = -5).
Proof. apply (nif_int_roundtrip (-5)). unfold small_int_range. lia. Defined.
