(* ===== verification/Jit.v ===== *)
(** The JIT engine: src/jit/beam_jit.c.
    The program maps an executable page and writes the same three bytes into
    it, whatever the instructions are.  [mmap], [munmap] and [sysconf] are
    parameters. *)
From S2P Require Import Prelude Alloc LinkedList HashChain Blocks.
From stdpp Require Import options.

(** [struct beam_jit_engine] (src/jit/beam_jit_internal.h). *)
Record beam_jit_engine : Type := { total_compiled_bytes : Z }.

Definition sizeof_beam_jit_engine : Z := 40.

(** The page mapping calls; [page_size] is [sysconf(_SC_PAGESIZE)]. *)
Class PageOps (K : Type) : Type := {
  page_size : Z;
  sys_mmap : K → Z → option Z * K;     (* [None] is MAP_FAILED *)
  sys_munmap : K → Z → Z → K;
}.

(** [(n + page_size - 1) & ~(page_size - 1)] on [size_t]. *)
Definition page_align (page n : Z) : Z := Z.ldiff (u64 (n + page - 1)) (page - 1).

(** xor eax, eax; ret *)
Definition jit_code : list Z := [0x31; 0xc0; 0xc3].

Section Jit.
Context {A : Type} `{AllocOps A} {K : Type} `{PageOps K}.
Implicit Types (a : A) (k : K).

Definition beam_jit_engine_create a : option (Z * beam_jit_engine) * A :=
  let '(p, a) := al_alloc a sizeof_beam_jit_engine in
  if p =? NULL then (None, a) else (Some (p, {| total_compiled_bytes := 0 |}), a).

Definition beam_jit_engine_destroy (jit : option (Z * beam_jit_engine)) a : A :=
  match jit with None => a | Some (p, _) => al_free a p end.

(** The address of the code and its first bytes; [has_code] says whether the
    instruction pointer is not NULL.  The instructions are not read. *)
Definition beam_jit_compile_instructions (jit : option beam_jit_engine) (has_code : bool)
    (code_len : Z) k : option (Z * list Z) * option beam_jit_engine * K :=
  match jit with
  | None => (None, None, k)
  | Some j =>
      if negb has_code || (code_len =? 0) then (None, Some j, k)
      else
        let alloc_size := page_align page_size (u64 (code_len * 64)) in
        let '(mem, k) := sys_mmap k alloc_size in
        match mem with
        | None => (None, Some j, k)
        | Some p =>
            (Some (p, jit_code),
             Some {| total_compiled_bytes := u64 (total_compiled_bytes j + alloc_size) |}, k)
        end
  end.

Definition beam_jit_free_fn (jit : option beam_jit_engine) (fn code_bytes : Z) k
    : option beam_jit_engine * K :=
  if fn =? NULL then (jit, k)
  else
    let alloc_size := page_align page_size code_bytes in
    let k := sys_munmap k fn alloc_size in
    (match jit with
     | Some j =>
         if total_compiled_bytes j >=? alloc_size
         then Some {| total_compiled_bytes := total_compiled_bytes j - alloc_size |} else Some j
     | None => None
     end, k).
End Jit.

(** A page size is a power of two. *)
Lemma page_align_spec e n :
  0 <= e < 32 → 0 <= n < 2 ^ 62 →
  let a := page_align (2 ^ e) n in a mod 2 ^ e = 0 ∧ n <= a < n + 2 ^ e.
Proof.
  intros He Hn. unfold page_align.
  assert (0 < 2 ^ e <= 2 ^ 32) as He2 by (split; [lia|apply Z.pow_le_mono_r; lia]).
  rewrite u64_small by (unfold is_u64; lia).
  replace (2 ^ e - 1) with (Z.ones e) by (rewrite Z.ones_equiv; lia).
  rewrite ldiff_ones by lia. set (m := n + 2 ^ e - 1).
  pose proof (Z.div_mod m (2 ^ e) ltac:(lia)). pose proof (Z.mod_pos_bound m (2 ^ e) ltac:(lia)).
  split.
  - replace (m - m mod 2 ^ e) with (m / 2 ^ e * 2 ^ e) by lia. by apply Z_mod_mult.
  - lia.
Qed.

Section JitSpec.
Context {K : Type} `{PageOps K}.
Implicit Types (k : K).

(** C28: The engine's byte count: compiling adds whole pages, at least 64 bytes
    for every instruction, and freeing the function with that size takes
    exactly these pages off again. *)
Theorem jit_accounting e j code_len p code j' k k' :
  page_size = 2 ^ e → 0 <= e < 32 → 0 < code_len < 2 ^ 56 → p ≠ NULL →
  0 <= total_compiled_bytes j < 2 ^ 63 →
  beam_jit_compile_instructions (Some j) true code_len k = (Some (p, code), Some j', k') →
  (∃ pages, total_compiled_bytes j' = total_compiled_bytes j + pages * page_size ∧
     code_len * 64 <= pages * page_size) ∧
  (beam_jit_free_fn (Some j') p (code_len * 64) k').1 = Some j.
Proof.
  intros Hpage He Hlen Hp Hj E. unfold beam_jit_compile_instructions in E.
  destruct (Z.eqb_spec code_len 0); [lia|]. cbn [negb orb] in E.
  rewrite Hpage, (u64_small (code_len * 64)) in E by (unfold is_u64; lia).
  destruct (page_align_spec e (code_len * 64) He ltac:(lia)) as [Hmod Hb].
  assert (0 < 2 ^ e <= 2 ^ 32) as He2 by (split; [lia|apply Z.pow_le_mono_r; lia]).
  destruct (sys_mmap k _) as [[q|] k1]; [|done]. simplify_eq. simpl.
  rewrite u64_small by (unfold is_u64; lia). split.
  - exists (page_align (2 ^ e) (code_len * 64) / 2 ^ e). rewrite Hpage.
    pose proof (Z.div_mod (page_align (2 ^ e) (code_len * 64)) (2 ^ e) ltac:(lia)). lia.
  - unfold beam_jit_free_fn. destruct (Z.eqb_spec p NULL); [done|]. rewrite Hpage. simpl.
    rewrite Z.geb_leb. case_bool; [|lia]. destruct j as [t]. do 2 f_equal. simpl. lia.
Qed.
End JitSpec.

(** ** Examples *)

(** Pages of 4096 bytes, all mapped at the same address. *)
Definition demo_pages : PageOps unit := {|
  page_size := 2 ^ 12;
  sys_mmap k _ := (Some 65536, k);
  sys_munmap k _ _ := k;
|}.

Lemma jit_accounting_witness :
  let '(fn, j', k') := @beam_jit_compile_instructions unit demo_pages
    (Some {| total_compiled_bytes := 0 |}) true 100 tt in
  fn = Some (65536, jit_code) ∧
  (@beam_jit_free_fn unit demo_pages j' 65536 (100 * 64) k').1
    = Some {| total_compiled_bytes := 0 |}.
Proof.
  split; [reflexivity|].
  refine (proj2 (@jit_accounting unit demo_pages 12 {| total_compiled_bytes := 0 |} 100 65536 jit_code
    _ tt _ eq_refl _ _ _ _ eq_refl)); [lia|lia|done|by split].
Defined.
