(* ===== verification/Vm.v ===== *)
(** The virtual machine as a whole: src/core/beam_vm.c and src/core/beam_main.c.
    The constructor builds the six subsystems over one allocator; the
    destructor takes them down in the opposite order. *)
From S2P Require Import Prelude Memory Term Alloc LinkedList HashChain Blocks Mailbox.
From S2P Require Import Process ProcessInv ProcessLife Bif Emu EmuFrame EmuInv EmuExec.
From S2P Require Import RunQueue Scheduler Ets AtomTable Decode Load CodeServer Poll.
From stdpp Require Import options.

(** ** Data (src/core/beam_main_internal.h) *)

(** [struct beam_context]; a structure is given with its address, a NULL
    pointer is [None].  The run queue is in the machine, under its address. *)
Record beam_context : Type := {
  ctx_code_server : option (Z * beam_code_server);
  ctx_atom_table : option (Z * beam_atom_table);
  ctx_ets_table : option (Z * beam_ets_table);
  ctx_poller : option (Z * beam_io_poller);
  ctx_run_queue : Z;
  ctx_scheduler : Z;
}.

Definition sizeof_beam_context : Z := 80.

Section VmCreate.
Context {A : Type} `{AllocOps A} {K : Type} `{KernelOps K}.
Implicit Types (σ : sys A) (a : A) (k : K).

(** Access to the allocator of the machine. *)
Definition sys_alc σ : A := alc (vmach σ).
Definition set_sys_alc a σ : sys A := set_vm (set_alc a (vmach σ)) σ.

Definition beam_vm_destroy (context : option (Z * beam_context)) σ k : option (sys A * K) :=
  match context with
  | None => Some (σ, k)
  | Some (p, ctx) =>
      let σ := set_vm (beam_scheduler_destroy (ctx_scheduler ctx) (vmach σ)) σ in
      σ ← beam_run_queue_destroy (ctx_run_queue ctx) σ;
      let '(a, k) := beam_io_poller_destroy (ctx_poller ctx) (sys_alc σ) k in
      a ← beam_ets_table_destroy (ctx_ets_table ctx) a;
      a ← beam_atom_table_destroy (ctx_atom_table ctx) a;
      let a := beam_code_server_destroy (ctx_code_server ctx) a in
      Some (set_sys_alc (al_free a p) σ, k)
  end.

(** Is every subsystem there? *)
Definition ctx_complete (ctx : beam_context) : bool :=
  bool_decide (is_Some (ctx_code_server ctx)) && bool_decide (is_Some (ctx_atom_table ctx)) &&
  bool_decide (is_Some (ctx_ets_table ctx)) && bool_decide (is_Some (ctx_poller ctx)) &&
  negb (ctx_run_queue ctx =? NULL) && negb (ctx_scheduler ctx =? NULL).

Definition beam_vm_create σ k : option (option (Z * beam_context) * sys A * K) :=
  let '(p, a) := al_alloc (sys_alc σ) sizeof_beam_context in
  if p =? NULL then Some (None, set_sys_alc a σ, k)
  else
    let '(cs, a) := beam_code_server_create a in
    let '(atoms, a) := beam_atom_table_create a 1024 in
    let '(ets, a) := beam_ets_table_create (Some (bytes_of "system_ets")) a in
    let '(poller, a, k) := beam_io_poller_create a k in
    let '(rq, σ) := beam_run_queue_create (set_sys_alc a σ) in
    let '(sched, _, s) := beam_scheduler_create 1 rq (vmach σ) in
    let σ := set_vm s σ in
    let ctx := {| ctx_code_server := cs; ctx_atom_table := atoms; ctx_ets_table := ets;
                  ctx_poller := poller; ctx_run_queue := rq; ctx_scheduler := sched |} in
    if ctx_complete ctx then Some (Some (p, ctx), σ, k)
    else
      '(σ, k) ← beam_vm_destroy (Some (p, ctx)) σ k;
      Some (None, σ, k).

Definition beam_vm_get_code_server (ctx : option beam_context) : option (Z * beam_code_server) :=
  ctx ← ctx; ctx_code_server ctx.
End VmCreate.

(** [main] without its messages: the C heap, and the kernel, when the program
    ends.  [None] is undefined behaviour. *)
Definition beam_main {H} `{AllocOps H} {K} `{KernelOps K} (libc : H) (k : K)
    : option (sys (beam_allocator_i * H) * K) :=
  let '(sys_alloc, libc) := beam_allocator_create_system libc in
  '(vm, σ, k) ← beam_vm_create (Sys (Vm (sys_alloc, libc) ∅ ∅ ∅) ∅) k;
  match vm with
  | Some _ => beam_vm_destroy vm σ k
  | None => Some (σ, k)
  end.

(** ** What a context holds
    One list of blocks per subsystem. *)

Definition cs_part (cs : option (Z * beam_code_server)) (bs : list Z) : Prop :=
  match cs with None => bs = [] | Some (p, cs) => bs = p :: module_blocks cs end.

Definition atom_part (tab : option (Z * beam_atom_table)) (bs : list Z) : Prop :=
  match tab with
  | None => bs = []
  | Some (p, t) => ∃ L names, atoms_rep t L names ∧ bs = table_blocks p t L
  end.

Definition ets_part (tab : option (Z * beam_ets_table)) (bs : list Z) : Prop :=
  match tab with
  | None => bs = []
  | Some (p, t) => ∃ L f, ets_rep t L f ∧ bs = ets_blocks p t L
  end.

Definition poller_part (po : option (Z * beam_io_poller)) (bs : list Z) : Prop :=
  match po with None => bs = [] | Some (p, _) => bs = [p] end.

Definition rq_part (qs : gmap Z beam_run_queue) (rq : Z) (bs : list Z) : Prop :=
  if rq =? NULL then bs = []
  else ∃ q L, qs !! rq = Some q ∧ rq_rep q L ∧ bs = rq :: (concat L).*1.

Definition sched_part (sched : Z) (bs : list Z) : Prop :=
  if sched =? NULL then bs = [] else bs = [sched].

Section VmSpec.
Context {A : Type} `{AllocSpec A} {K : Type} `{KernelOps K}.
Implicit Types (σ : sys A) (a : A) (k : K) (B : blocks).

(** The context [ctx] at [p]: the live blocks are [B] and those of the context
    and its subsystems, in whatever state their use has left them. *)
Definition ctx_ok σ B (p : Z) (ctx : beam_context) : Prop :=
  ∃ b1 b2 b3 b4 b5 b6,
    cs_part (ctx_code_server ctx) b1 ∧ atom_part (ctx_atom_table ctx) b2 ∧
    ets_part (ctx_ets_table ctx) b3 ∧ poller_part (ctx_poller ctx) b4 ∧
    rq_part (rqs σ) (ctx_run_queue ctx) b5 ∧ sched_part (ctx_scheduler ctx) b6 ∧
    extends (sys_alc σ) B (b6 ++ b5 ++ b4 ++ b3 ++ b2 ++ b1 ++ [p]).

(** ** Destruction, subsystem by subsystem *)

Lemma cs_part_destroy cs bs a B ps :
  cs_part cs bs → extends a B (bs ++ ps) → extends (beam_code_server_destroy cs a) B ps.
Proof. destruct cs as [[p cs]|]; intros -> Hx; [by apply code_server_destroy_ok|done]. Qed.

Lemma atom_part_destroy tab bs a B ps :
  atom_part tab bs → extends a B (bs ++ ps) →
  ∃ a', beam_atom_table_destroy tab a = Some a' ∧ extends a' B ps.
Proof.
  destruct tab as [[p t]|]; [intros (L & names & Hr & ->)|intros ->]; intros Hx.
  - eapply extends_run; [|exact Hx]. intros B' Ha Hn HB. by apply (atom_destroy_ok _ _ _ _ names).
  - by exists a.
Qed.

Lemma ets_part_destroy tab bs a B ps :
  ets_part tab bs → extends a B (bs ++ ps) →
  ∃ a', beam_ets_table_destroy tab a = Some a' ∧ extends a' B ps.
Proof.
  destruct tab as [[p t]|]; [intros (L & f & Hr & ->)|intros ->]; intros Hx.
  - eapply extends_run; [|exact Hx]. intros B' Ha Hn HB. by apply (ets_destroy_ok _ _ _ _ _ f).
  - by exists a.
Qed.

Lemma poller_part_destroy po bs a k B ps :
  poller_part po bs → extends a B (bs ++ ps) →
  extends (beam_io_poller_destroy po a k).1 B ps.
Proof. destruct po as [[p po]|]; intros -> Hx; [by apply poller_destroy_ok|done]. Qed.

Lemma free_levels_ext qs (L : list msgs) a B ps :
  Forall2 level_rep qs L → extends a B ((concat L).*1 ++ ps) →
  ∃ a', free_levels qs a = Some a' ∧ extends a' B ps.
Proof.
  intros HL. revert a. induction HL as [|q l qs L [Hll Hc] HL IH]; intros a Hx; [by exists a|].
  csimpl in *. rewrite fmap_app, <-app_assoc in Hx.
  destruct (free_chain_ext _ _ _ _ _ _ _ Hll Hx) as (m' & a1 & -> & Hx1). by apply IH.
Qed.

Lemma rq_part_destroy σ rq bs B ps :
  rq_part (rqs σ) rq bs → extends (sys_alc σ) B (bs ++ ps) →
  ∃ σ', beam_run_queue_destroy rq σ = Some σ' ∧ extends (sys_alc σ') B ps.
Proof.
  unfold rq_part, beam_run_queue_destroy. destruct (rq =? NULL); [intros -> Hx; by exists σ|].
  intros (q & L & Hq & Hr & ->) Hx. rewrite Hq. cbn [mbind option_bind].
  destruct (free_levels_ext (queues q) L (alc (vmach σ)) B (rq :: ps)) as (a' & -> & Hx').
  - apply Hr.
  - eapply extends_perm; [|exact Hx]. simpl. by rewrite Permutation_middle.
  - eexists. split; [done|]. by apply extends_free in Hx'.
Qed.

(** The whole context, whatever its subsystems contain by then. *)
Lemma vm_destroy_ok σ B p ctx k :
  ctx_ok σ B p ctx →
  ∃ σ' k', beam_vm_destroy (Some (p, ctx)) σ k = Some (σ', k') ∧ al_rep (sys_alc σ') B.
Proof.
  intros (b1 & b2 & b3 & b4 & b5 & b6 & Hc1 & Hc2 & Hc3 & Hc4 & Hc5 & Hc6 & Hx).
  unfold beam_vm_destroy.
  set (σ1 := set_vm (beam_scheduler_destroy (ctx_scheduler ctx) (vmach σ)) σ).
  assert (extends (sys_alc σ1) B (b5 ++ b4 ++ b3 ++ b2 ++ b1 ++ [p])) as Hx1.
  { subst σ1. unfold sched_part, beam_scheduler_destroy in *.
    destruct (ctx_scheduler ctx =? NULL); subst b6; [done|by apply extends_free in Hx]. }
  destruct (rq_part_destroy σ1 _ _ _ _ Hc5 Hx1) as (σ2 & -> & Hx2). cbn [mbind option_bind].
  apply (poller_part_destroy _ _ _ k _ _ Hc4) in Hx2.
  destruct (beam_io_poller_destroy _ _ k) as [a3 k']. simpl in Hx2.
  destruct (ets_part_destroy _ _ _ _ _ Hc3 Hx2) as (a4 & -> & Hx4). cbn [mbind option_bind].
  destruct (atom_part_destroy _ _ _ _ _ Hc2 Hx4) as (a5 & -> & Hx5). cbn [mbind option_bind].
  apply (cs_part_destroy _ _ _ _ _ Hc1) in Hx5. eexists _, _. split; [done|].
  apply extends_nil. by apply extends_free in Hx5.
Qed.
(** ** Creation, subsystem by subsystem *)

Lemma atoms_rep_nil t L : atoms_rep t L [] → concat L = [].
Proof.
  intros Hr. destruct (concat L) as [|[q e] l] eqn:E; [done|].
  destruct (atoms_entry _ _ _ q e Hr) as (j & _ & Hj); [rewrite E; by left|].
  by rewrite lookup_nil in Hj.
Qed.

Lemma atom_create_part a B ps n :
  extends a B ps → 0 <= n < 2 ^ 56 →
  ∃ r a' bs, beam_atom_table_create a n = (r, a') ∧ atom_part r bs ∧ extends a' B (bs ++ ps).
Proof.
  intros Hx Hn.
  assert (∃ r a', beam_atom_table_create a n = (r, a') ∧
    match r with
    | None => extends a' B ps
    | Some (p, t) => extends a' B (p :: at_buckets t :: at_index_map t :: ps)
    end) as (r & a' & E & Hr).
  { unfold beam_atom_table_create. set (cap := if n >? 0 then n else _).
    assert (0 < cap < 2 ^ 56) as Hcap
      by (unfold cap, BEAM_ATOM_DEFAULT_CAPACITY; case_bool; lia).
    assert (alloc_size sizeof_beam_atom_table ∧ alloc_size (u64 (8 * cap))) as [S1 S2].
    { split; [done|]. rewrite u64_small; unfold is_u64, alloc_size; lia. }
    destruct (al_alloc a _) as [p a1] eqn:E1.
    destruct (extends_alloc _ _ _ _ _ _ Hx S1 E1) as [[-> Hx1]|[? Hx1]]; [by eexists _, _|].
    destruct (Z.eqb_spec p NULL); [done|]. destruct (al_alloc a1 _) as [q a2] eqn:E2.
    destruct (extends_alloc _ _ _ _ _ _ Hx1 S2 E2) as [[-> Hx2]|[? Hx2]].
    { eexists None, _. split; [done|]. by apply extends_free in Hx2. }
    destruct (Z.eqb_spec q NULL); [done|]. destruct (al_alloc a2 _) as [w a3] eqn:E3.
    destruct (extends_alloc _ _ _ _ _ _ Hx2 S2 E3) as [[-> Hx3]|[? Hx3]].
    { eexists None, _. split; [done|]. by do 2 apply extends_free in Hx3. }
    destruct (Z.eqb_spec w NULL); [done|]. eexists _, _. split; [done|]. simpl.
    eapply extends_perm; [|exact Hx3].
    rewrite (perm_swap w q), (perm_swap w p). by rewrite (perm_swap q p). }
  destruct r as [[p t]|]; [|by exists None, a', []].
  destruct Hx as (B' & Hrep & _).
  destruct (atom_create_ok a B' n Hrep ltac:(lia)) as (r & a2 & E2 & H2).
  rewrite E in E2. simplify_eq. destruct H2 as (B2 & _ & L & HL & _).
  exists (Some (p, t)), a2, (table_blocks p t L). split; [done|]. split; [by exists L, []|].
  unfold table_blocks. by rewrite (atoms_rep_nil _ _ HL).
Qed.

Lemma ets_rep_nil t L : ets_rep t L (λ _, []) → concat L = [].
Proof.
  intros Hr. destruct (concat L) as [|x l] eqn:E; [done|].
  assert (x ∈ concat L) as Hx by (rewrite E; by left).
  apply elem_of_concat in Hx as (k & Hxk & Hk). apply list_elem_of_lookup in Hk as [i Hi].
  pose proof (er_home _ _ _ Hr _ _ _ Hi Hxk) as Hh. pose proof (er_vals _ _ _ Hr x.2.1) as Hv.
  rewrite Hh, (list_lookup_total_correct _ _ _ Hi) in Hv. unfold bucket_vals in Hv.
  assert (x ∈ filter (λ y : Z * (Z * Z), y.2.1 = x.2.1) k) as Hf by (by apply list_elem_of_filter).
  symmetry in Hv. apply fmap_nil_inv in Hv. rewrite Hv in Hf. by apply not_elem_of_nil in Hf.
Qed.

Lemma ets_create_part a B ps name :
  extends a B ps →
  ∃ r a' bs, beam_ets_table_create name a = (r, a') ∧ ets_part r bs ∧ extends a' B (bs ++ ps).
Proof.
  intros Hx.
  assert (∃ r a', beam_ets_table_create name a = (r, a') ∧
    match r with
    | None => extends a' B ps
    | Some (p, t) => extends a' B (p :: t_buckets t :: ps)
    end) as (r & a' & E & Hr).
  { unfold beam_ets_table_create, beam_ets_table_create_typed.
    assert (alloc_size sizeof_beam_ets_table ∧ alloc_size (sizeof_pointer * ETS_DEFAULT_BUCKETS))
      as [S1 S2] by done.
    destruct (al_alloc a _) as [p a1] eqn:E1.
    destruct (extends_alloc _ _ _ _ _ _ Hx S1 E1) as [[-> Hx1]|[? Hx1]]; [by eexists _, _|].
    destruct (Z.eqb_spec p NULL); [done|]. destruct (al_alloc a1 _) as [q a2] eqn:E2.
    destruct (extends_alloc _ _ _ _ _ _ Hx1 S2 E2) as [[-> Hx2]|[? Hx2]].
    { eexists None, _. split; [done|]. by apply extends_free in Hx2. }
    destruct (Z.eqb_spec q NULL); [done|]. eexists _, _. split; [done|]. simpl.
    eapply extends_perm; [|exact Hx2]. apply perm_swap. }
  destruct r as [[p t]|]; [|by exists None, a', []].
  destruct Hx as (B' & Hrep & _).
  destruct (ets_create_ok a B' name BEAM_ETS_SET BEAM_ETS_PUBLIC Hrep) as (r & a2 & E2 & H2).
  unfold beam_ets_table_create in *. rewrite E in E2. simplify_eq.
  destruct H2 as (B2 & _ & (L & HL & _) & Hcnt & _).
  exists (Some (p, t)), a2, (ets_blocks p t L). split; [done|]. split; [by eexists L, _|].
  unfold ets_blocks. rewrite (ets_rep_nil _ _ HL). done.
Qed.
Lemma cs_create_part a B ps :
  extends a B ps →
  ∃ r a' bs, beam_code_server_create a = (r, a') ∧ cs_part r bs ∧ extends a' B (bs ++ ps).
Proof.
  intros Hx. destruct (code_server_create_ok a B ps Hx) as ([[p cs]|] & a' & E & Hr).
  - by eexists _, _, (p :: module_blocks cs).
  - by exists None, a', [].
Qed.

Lemma poller_create_part a k B ps :
  extends a B ps →
  ∃ r a' k' bs, beam_io_poller_create a k = (r, a', k') ∧ poller_part r bs ∧
    extends a' B (bs ++ ps).
Proof.
  intros Hx. destruct (poller_create_ok a k B ps Hx) as ([[p po]|] & a' & k' & E & Hr).
  - destruct Hr as [Hr _]. by eexists _, _, _, [p].
  - by exists None, a', k', [].
Qed.

Lemma rq_create_part σ B ps :
  extends (sys_alc σ) B ps →
  ∃ rq σ' bs, beam_run_queue_create σ = (rq, σ') ∧ rq_part (rqs σ') rq bs ∧
    extends (sys_alc σ') B (bs ++ ps).
Proof.
  intros Hx. unfold beam_run_queue_create.
  destruct (al_alloc (alc (vmach σ)) sizeof_beam_run_queue) as [p a'] eqn:E.
  assert (alloc_size sizeof_beam_run_queue) as Hs by done.
  destruct (extends_alloc _ _ _ _ _ _ Hx Hs E) as [[-> Hx1]|[Hp Hx1]].
  - by eexists NULL, _, [].
  - destruct (Z.eqb_spec p NULL) as [|Hn]; [done|]. eexists _, _, [p]. split; [done|].
    split; [|done]. unfold rq_part. destruct (Z.eqb_spec p NULL); [done|].
    exists empty_run_queue, (replicate 4 []). split_and!; [apply lookup_insert_eq| |done].
    apply empty_rq_rep.
Qed.

Lemma sched_create_part n rq (s : vm A) B ps :
  extends (alc s) B ps →
  ∃ p sc s' bs, beam_scheduler_create n rq s = (p, sc, s') ∧ sched_part p bs ∧
    extends (alc s') B (bs ++ ps).
Proof.
  intros Hx. unfold beam_scheduler_create. destruct (rq =? NULL); [by eexists NULL, _, _, []|].
  destruct (al_alloc (alc s) sizeof_beam_scheduler) as [p a'] eqn:E.
  assert (alloc_size sizeof_beam_scheduler) as Hs by done.
  destruct (extends_alloc _ _ _ _ _ _ Hx Hs E) as [[-> Hx1]|[Hp Hx1]].
  - by eexists NULL, _, _, [].
  - destruct (Z.eqb_spec p NULL) as [|Hn]; [done|]. eexists _, _, _, [p]. split; [done|].
    split; [|done]. unfold sched_part. by destruct (Z.eqb_spec p NULL).
Qed.

Lemma vm_create_ok σ k B :
  al_rep (sys_alc σ) B →
  ∃ r σ' k', beam_vm_create σ k = Some (r, σ', k') ∧
    match r with
    | None => al_rep (sys_alc σ') B
    | Some (p, ctx) => ctx_ok σ' B p ctx ∧ ctx_complete ctx = true
    end.
Proof.
  intros Hrep. unfold beam_vm_create.
  destruct (al_alloc (sys_alc σ) sizeof_beam_context) as [p a0] eqn:E.
  assert (alloc_size sizeof_beam_context) as Hs by done.
  destruct (extends_alloc _ _ _ _ _ _ (proj1 (extends_nil _ _) Hrep) Hs E) as [[-> Hx]|[Hp Hx]].
  { eexists None, _, _. split; [done|]. by apply extends_nil. }
  destruct (Z.eqb_spec p NULL); [done|].
  destruct (cs_create_part a0 B [p] Hx) as (cs & a1 & b1 & -> & Hc1 & Hx1).
  destruct (atom_create_part a1 B (b1 ++ [p]) 1024 Hx1 ltac:(done))
    as (atoms & a2 & b2 & -> & Hc2 & Hx2).
  destruct (ets_create_part a2 B (b2 ++ b1 ++ [p]) (Some (bytes_of "system_ets")) Hx2)
    as (ets & a3 & b3 & -> & Hc3 & Hx3).
  destruct (poller_create_part a3 k B (b3 ++ b2 ++ b1 ++ [p]) Hx3)
    as (po & a4 & k' & b4 & -> & Hc4 & Hx4).
  destruct (rq_create_part (set_sys_alc a4 σ) B (b4 ++ b3 ++ b2 ++ b1 ++ [p]) Hx4)
    as (rq & σ5 & b5 & -> & Hc5 & Hx5).
  destruct (sched_create_part 1 rq (vmach σ5) B (b5 ++ b4 ++ b3 ++ b2 ++ b1 ++ [p]) Hx5)
    as (sched & sc & s6 & b6 & -> & Hc6 & Hx6).
  set (ctx := Build_beam_context _ _ _ _ _ _).
  assert (ctx_ok (set_vm s6 σ5) B p ctx) as Hok by (by exists b1, b2, b3, b4, b5, b6).
  destruct (ctx_complete ctx) eqn:Hcc.
  - by eexists (Some _), _, _.
  - destruct (vm_destroy_ok _ _ _ _ k' Hok) as (σ7 & k7 & -> & Hd). by eexists None, _, _.
Qed.

(** C19: The life of a virtual machine: creation either fails and gives back
    every block it had taken, whichever subsystem failed, or yields a machine
    with all six subsystems; and destroying that machine later, whatever its
    subsystems contain by then, frees exactly what they hold. *)
Theorem vm_create_destroy σ k B :
  al_rep (sys_alc σ) B →
  ∃ r σ' k', beam_vm_create σ k = Some (r, σ', k') ∧
    match r with
    | None => al_rep (sys_alc σ') B
    | Some (p, ctx) =>
        ctx_complete ctx = true ∧ ctx_ok σ' B p ctx ∧
        ∀ σ2 ctx2 k2, ctx_ok σ2 B p ctx2 →
          ∃ σ3 k3, beam_vm_destroy (Some (p, ctx2)) σ2 k2 = Some (σ3, k3) ∧
            al_rep (sys_alc σ3) B
    end.
Proof.
  intros Hrep. destruct (vm_create_ok σ k B Hrep) as (r & σ' & k' & -> & Hr).
  eexists _, _, _. split; [done|]. destruct r as [[p ctx]|]; [|done]. destruct Hr as [Hok Hcc].
  split_and!; [done|done|]. intros. by apply vm_destroy_ok.
Qed.
End VmSpec.

(** The program does not end with all its memory freed: after [main], the
    state of the system allocator is still allocated (whenever its allocation
    succeeded), and it is the only block the program leaves. *)
Theorem main_leaks_allocator {H} `{AllocSpec H} {K} `{KernelOps K} (libc libc1 : H) (k : K) st :
  al_rep libc ∅ → al_alloc libc sizeof_system_alloc_state_t = (st, libc1) → st ≠ NULL →
  ∃ σ k', beam_main libc k = Some (σ, k') ∧
    al_rep (sys_alc σ) {[ st := sizeof_system_alloc_state_t ]}.
Proof.
  intros Hrep E Hst. unfold beam_main, beam_allocator_create_system. rewrite E.
  destruct (Z.eqb_spec st NULL); [done|].
  assert (alloc_size sizeof_system_alloc_state_t) as Hs by done.
  destruct (al_alloc_spec _ _ _ _ _ Hrep Hs E) as [[-> _]|[_ Hrep1]]; [done|].
  set (σ0 := Sys _ _).
  assert (al_rep (sys_alc σ0) {[st := sizeof_system_alloc_state_t]}) as Hrep0.
  { exists {[st := sizeof_system_alloc_state_t]}. split; [done|]. intros q.
    destruct (decide (q = st)) as [->|]; [by rewrite lookup_singleton_eq|].
    by rewrite lookup_singleton_ne. }
  destruct (vm_create_ok σ0 k _ Hrep0) as (r & σ' & k' & -> & Hr). cbn [mbind option_bind].
  destruct r as [[p ctx]|].
  - destruct Hr as [Hok _]. destruct (vm_destroy_ok _ _ _ _ k' Hok) as (σ2 & k2 & -> & Hd).
    by eexists _, _.
  - by eexists _, _.
Qed.

(** ** Examples *)

Lemma vm_create_destroy_witness :
  let σ := Sys (Vm (bump_init (2 ^ 20)) ∅ ∅ ∅) ∅ in
  al_rep (sys_alc σ) ∅ ∧
  ∃ r σ' k', @beam_vm_create bump_heap _ unit demo_kernel σ tt = Some (r, σ', k') ∧
    match r with
    | None => al_rep (sys_alc σ') ∅
    | Some (p, ctx) =>
        ctx_complete ctx = true ∧
        ∃ σ3 k3, @beam_vm_destroy bump_heap _ unit demo_kernel (Some (p, ctx)) σ' k'
            = Some (σ3, k3) ∧ al_rep (sys_alc σ3) ∅
    end.
Proof.
  intros σ. assert (al_rep (sys_alc σ) ∅) as Hrep by (by apply bump_init_rep). split; [done|].
  destruct (@vm_create_destroy bump_heap _ _ unit demo_kernel σ tt ∅ Hrep)
    as (r & σ' & k' & E & Hr).
  exists r, σ', k'. split; [exact E|]. destruct r as [[p ctx]|]; [|done].
  destruct Hr as (Hc & Hok & Hd). split; [done|]. by apply Hd.
Defined.

Lemma main_leaks_allocator_witness :
  ∃ σ k', @beam_main bump_heap _ unit demo_kernel (bump_init (2 ^ 20)) tt = Some (σ, k') ∧
    al_rep (sys_alc σ) {[ 4096 := sizeof_system_alloc_state_t ]}.
Proof.
  refine (@main_leaks_allocator bump_heap _ _ unit demo_kernel (bump_init (2 ^ 20)) _ tt 4096
    _ eq_refl _); [by apply bump_init_rep|done].
Defined.
